(* ===== verification/_CoqProject ===== *)
-Q . S2P
Prelude.v
Message.v
PriceLadder.v
OrderBook.v
Projection.v
Activity.v
Text.v
Json.v
JsonText.v
Wire.v
Channel.v
StreamManager.v
Sequencing.v
SSEStreamManager.v
Interleaving.v
Connection.v
