(* ===== verification/Prelude.v ===== *)
(** * Market-depth server: a verification development

    This library models, in Gallina, the core of the market-depth server
    of the repository: the Rust crates [src/backend] (WebSocket front
    end) and [src/backend-sse] (Server-Sent-Events front end).  It
    proves the properties that make the core correct, and states as
    theorems the places where the code departs from what it means to do.

    ** The program

    - [src/backend-sse/src/order_book.rs] is the order-book engine; the
      WebSocket crate uses the same engine (its [order_book.rs] is not in
      the repository).  An [OrderBook] keeps an index [orders], two price
      ladders [bids_by_price] and [asks_by_price]
      ([BTreeMap<OrderedFloat, Vec<String>>]) and a [u64] [sequence].
      [add_order], [remove_order] and [update_order] mutate it.
      [get_mbo_data], [get_mbp_data], [get_best_bid_ask] and
      [get_spread_info] read it.  [simulate_activity] applies a random
      batch of 1..8 activities, and [initialize_with_sample_data] seeds
      30 bids and 30 asks.
    - [src/*/src/message.rs] declares the data exchanged.  The SSE crate
      adds the query of [/stream] and its parser
      [StreamQuery::parse_streams].
    - [src/*/src/stream_manager.rs] is the registry.  It maps symbols to
      books and to subscription lists, and client ids to their outbound
      channels; the SSE variant also tracks each client's streams.  Two
      background tasks run: the simulation tick, every 300 ms, mutates
      every book and sends each subscription its view; the heartbeat,
      every 30 s, pings every client.  [subscribe] seeds an unknown symbol
      and sends an initial snapshot.
    - [websocket_handler.rs] and [sse_handler.rs] are the front ends.  They
      register a client, forward its requests, and unregister it when the
      connection ends.  The WebSocket front end reads JSON text frames and
      writes every message of the client's channel as JSON; the SSE front
      end renders each message as an [Event] of axum.  [main.rs] wires
      them; the SSE [main] routes [/stream], [/health], [/symbols], [/api]
      and [/].

    ** The files

    - [Prelude] (this file): [u64]/[u32] wrap-around ([wrap64], [add64],
      [wrap32], [sum64]), the [result] type, shared lemmas on lists and
      sorting, the [md] and [md_rw] hint databases and the tactics.
    - [Message]: the types of [message.rs] with the source's constructors;
      structs are Records in a Module named after them ([Order.price o]).
    - [PriceLadder] (Module [Ladder]): a ladder is a list of
      (price, ids) sorted by strictly increasing price.  Its operations are
      [push] ([entry().or_insert_with().push()]), [retain_remove]
      ([get_mut] + [retain] + [remove] on emptiness) and the first and
      last keys.  It refines the finite map [Ladder.to_map] (C17).
    - [OrderBook]: the struct, its mutators, and the invariant [book_wf]
      (the index and the ladders hold the same orders, each id in one
      slot, no empty slot, sorted ladders).  The claims are C1-C7.
    - [Projection]: the MBO and MBP views, best bid/ask and spread
      (C8, C9, C11, C12, C14).
    - [Activity]: the generator, with [rand::thread_rng] as the
      [RandomSource] class, the executor, the batch loop and the seeded
      book (C10, C18-C21).  The [outcome] type separates a result from a panic
      (an out-of-range index) and from running out of fuel.
    - [Text]: the [str] functions the SSE parser calls ([split], [trim],
      [to_uppercase], [parse::<u32>], [u32::to_string]) on ASCII strings.
    - [Json]: the JSON values serde_json builds and its compact printer
      [emit] ([serde_json::to_string]), with its string escapes; printed
      JSON holds no control byte.
    - [JsonText]: the reader of [serde_json::from_str]: whitespace,
      numbers ([u64], [i64], else [f64]), strings with escapes and UTF-8,
      the recursion limit of 128, trailing text.  It reads back every
      printed value without floats ([from_str_to_string]), and its fuel
      never cuts a read short ([from_str_total]).
    - [Wire]: the derived [Serialize] impls of every message type and the
      derived [Deserialize] of [ClientMessage], from the [#[serde]]
      attributes; chrono's RFC 3339 timestamps and the [Uuid] text; the
      SSE helpers [to_sse_data] and [to_sse_event]; axum's [Event] builder
      with its assertions and the event [SSEStream::poll_next] builds.
      The claims are C36, C38 and C39.
    - [Channel]: an [mpsc::unbounded_channel] as its liveness and the log
      of the messages it accepted; [send_to] and [broadcast].
    - [StreamManager] (Module [WS]): the WebSocket registry as a record of
      its four maps.  Each method is a function; each background loop is
      one iteration ([market_tick], [heartbeat_tick]); [handle_message] is
      the handler's dispatch.  [ws_reachable] is the server's life as
      [main] runs it: [new], [start] once, then [ws_step]s (connect,
      disconnect, a message, a tick, a heartbeat).  The claims are C15,
      C22-C25, C27, C29, C30 and C34.
    - [Sequencing]: how far each mutation advances a book's counter, and
      the invariant that the sequence numbers a WebSocket client receives
      per symbol never decrease and stay below the book's (C28).
    - [SSEStreamManager] (Module [SSE]): the SSE registry, the query
      parser, the derived stream ids and [sse_handler].  [sse_step] adds
      the client going away (its receiver is dropped) and
      [SSEStream::poll_next] reaching [Ready(None)], which only happens
      once the client's sender is gone.  The claims are C13, C16, C26,
      C31-C33 and C40.
    - [Interleaving]: [StreamManager::subscribe] cut at its awaits and
      lock acquisitions into atomic sections ([sub_section]) and run
      against whole simulation ticks ([sys_step]).  The claim is C35;
      [sub_run_subscribe] shows the sections run back to back are
      [WS.subscribe].
    - [Connection]: [handle_connection] of the WebSocket front end
      (Module [WSConn]: welcome, incoming frames, outgoing frames,
      unregister) and the SSE routes and handlers [health_check],
      [symbols_handler] and [api_info] (Module [SSEConn]).  The claim is
      C37; [api_info_consistent] shows that [api_info] documents the
      routes, events, data types and symbols the server has.

    ** What the theorems show

    - Invariants by induction on the steps: every reachable book is well
      formed (C1), and so is every reachable registry (C22, C33).  Along
      a run, a client's sequence numbers per symbol are ordered (C28).
    - Functional specifications of every mutator and view on every branch,
      errors included: C2-C9, C11-C14, C16, C23-C27, C29, C30; what a
      connection on [/stream] gets (C13); the SSE [unregister_client]
      removes everything a client holds (C16); the stream id format is
      injective (C40).  A tick completes without redrawing when every
      book holds eight orders (C15), and the generator returns at its
      first draw on a book that holds an order (C10).
    - Refinement of the ladder to a finite map (C17), and of a WebSocket
      session of JSON text frames to [handle_message] on the messages
      (C37).  Agreement of the event names of the serde tag,
      [to_sse_event] and [poll_next] (C38).  Round trips: the stream definitions through
      [parse_streams] (C32), a client message through the JSON printer,
      reader and derived decoder (C36).
    - Safety across steps: a tick after [unregister_client] computes
      nothing for the client (C34).
    - Safety of the generator: no panic (C19), every activity applicable
      (C20); the seeded book (C21).
    - The code's defects, stated as theorems: the [u32] product
      [max_levels * 3] wraps (C9, with its witness); an upsert counts two mutations (C6);
      subscribing an unknown client succeeds (C24); [unsubscribe] leaves
      empty lists (C27); a trailing comma in [streams] seeds a book for
      the symbol [""] (C26); an SSE client that goes away is never
      unregistered and keeps its subscriptions (C31);
      the snapshot of [subscribe] can pair stale levels with a newer
      sequence (C35); a stream id holding a line feed makes [poll_next]
      panic (C39, reachable from a query: [sse_newline_stream_panics]).

    ** Bounds and fuel

    - [generate_random_activity] redraws on an empty book and has fuel:
      [OutOfFuel] is a value of [outcome].  One unit of fuel suffices on a
      book that holds an order (C10), and C15 shows that one unit
      suffices for a whole tick when every book holds eight orders.
      [sub_run] runs at most [n] sections; six take a call from its start
      to its result ([sub_run_subscribe]).
    - The JSON reader has fuel; [from_str] gives it twice the length of
      the text plus two.  Each step of a successful read leaves a strictly
      shorter rest, so no read of any text needs more
      ([from_str_total], [ClientMessage_from_str_total]); a printed
      value needs at most its length ([need_le_length]).  Its depth
      is serde_json's recursion limit, 128.
    - [u64] counters and sums wrap modulo [2^64] and [u32] products modulo
      [2^32], as in the release profile, where overflow checks are off.
      C28 assumes that no counter comes within 16 of [2^64] (a tick adds
      at most 16); reaching it takes [2^64] mutations.

    ** Modelling choices

    - Prices are [f64] in the source, and every price it creates is
      rounded to two decimals ([(price * 100.0).round() / 100.0]).  The
      model keeps a price as an integer number of hundredths, on which
      [OrderedFloat]'s order is that of [Z].  NaN is not represented.
      The spread arithmetic is done on exact rationals ([Q]); on the wire
      a price is the decimal ryu prints for it.
    - Timestamps are milliseconds; the clock is an explicit argument
      [now] wherever the source calls [Utc::now()].  chrono prints them in
      RFC 3339; reading one keeps milliseconds.
    - [HashMap] and [DashMap] are stdpp [gmap]s; their iteration order
      is [map_to_list]'s.  Every DashMap operation is atomic, which is
      what DashMap's per-shard locks give.  The books' [RwLock]s make a
      whole tick's mutation of a book atomic.
    - A [Uuid] is an [N]; [Uuid::new_v4] is a fresh id (a premise of the
      connect steps).
    - serde_json decodes a [ClientMessage] while it reads the text; the
      model reads the whole value, then decodes it.  Both accept the same
      texts, which is all the handler observes.

    ** Not modelled

    - TCP, the websocket handshake and [WebSocketHandler::start]'s accept
      loop, axum's keep-alive comments, and the text of serde's error in
      the [400] answer.  The rounding and range of [f64] numbers that a
      client sends are not represented: no field a client sends is a
      float.
    - Of [main.rs], the order of calls ([new], [start] once, serve) and
      the SSE routes are modelled; argument parsing, logging, CORS and
      [lib.rs]'s re-exports are not.  The [broadcast] channel of
      activities is kept as the log [activity_broadcast]; nothing
      subscribes to it.
    - The [Deserialize] derives of the server's messages: the code never
      decodes them.
    - In [Interleaving], a DashMap read guard held across an await blocks
      writers of its shard.  The model does not represent this blocking.
      It matters only for traces with two subscribing threads, and the
      theorems use one.
*)

From Stdlib Require Export ZArith Lia.
From stdpp Require Export base list gmap strings sorting.

Declare Scope md_scope.
Delimit Scope md_scope with md.
Open Scope Z_scope.

(** ** Machine integers *)

(** Rust's [u64] and [u32] arithmetic in a release build: the result is
    the mathematical result reduced modulo the width. *)
(** [Result<A, E>]. *)
Inductive result (A E : Type) := Ok (a : A) | Err (e : E).
Arguments Ok {A E} a.
Arguments Err {A E} e.

Definition wrap64 (z : Z) : Z := z mod 2 ^ 64.
Definition wrap32 (z : Z) : Z := z mod 2 ^ 32.

(** [a + b] on [u64]. *)
Definition add64 (a b : Z) : Z := wrap64 (a + b).

(** [a * b] on [u32]. *)
Definition mul32 (a b : Z) : Z := wrap32 (a * b).

Definition is_u64 (z : Z) : Prop := 0 <= z < 2 ^ 64.
Definition is_u32 (z : Z) : Prop := 0 <= z < 2 ^ 32.

Infix "+u64" := add64 (at level 50, left associativity) : md_scope.
Infix "*u32" := mul32 (at level 40, left associativity) : md_scope.

(** [iter().map(f).sum::<u64>()]: a left fold of [add64]. *)
Definition sum64 {A} (f : A -> Z) (l : list A) : Z :=
  fold_left (fun acc x => add64 acc (f x)) l 0.

(** The same sum over the integers, without wrap-around. *)
Definition sumZ {A} (f : A -> Z) (l : list A) : Z :=
  foldr (fun x acc => f x + acc) 0 l.

Create HintDb md discriminated.

(** ** Lemmas on machine integers *)

Lemma wrap64_small z : 0 <= z < 2 ^ 64 -> wrap64 z = z.
Proof. intros. unfold wrap64. apply Z.mod_small. lia. Qed.

Lemma wrap64_range z : is_u64 (wrap64 z).
Proof. unfold is_u64, wrap64. apply Z.mod_pos_bound. lia. Qed.

Lemma wrap32_range z : is_u32 (wrap32 z).
Proof. unfold is_u32, wrap32. apply Z.mod_pos_bound. lia. Qed.

Lemma wrap32_small z : 0 <= z < 2 ^ 32 -> wrap32 z = z.
Proof. intros. unfold wrap32. apply Z.mod_small. lia. Qed.

Lemma wrap32_le z : 0 <= z -> wrap32 z <= z.
Proof. intros. unfold wrap32. apply Z.mod_le; lia. Qed.

Lemma add64_small a b : 0 <= a -> 0 <= b -> a + b < 2 ^ 64 -> add64 a b = a + b.
Proof. intros. unfold add64. apply wrap64_small. lia. Qed.

Lemma add64_wrap a b : add64 (wrap64 a) b = add64 a b.
Proof.
  unfold add64, wrap64. rewrite Zplus_mod_idemp_l. reflexivity.
Qed.

Lemma add64_add64 a b c : add64 (add64 a b) c = wrap64 (a + b + c).
Proof. unfold add64, wrap64. by rewrite Zplus_mod_idemp_l. Qed.

Lemma sum64_acc {A} (f : A -> Z) l acc :
  is_u64 acc ->
  fold_left (fun acc x => add64 acc (f x)) l acc = wrap64 (acc + sumZ f l).
Proof.
  revert acc. induction l as [|x l IH]; intros acc Hacc; simpl.
  - rewrite Z.add_0_r, wrap64_small by (unfold is_u64 in Hacc; lia). reflexivity.
  - rewrite IH by apply wrap64_range. unfold add64, wrap64.
    rewrite Zplus_mod_idemp_l. f_equal. lia.
Qed.

(** The [u64] sum is the integer sum reduced modulo [2^64]. *)
Lemma sum64_spec {A} (f : A -> Z) l : sum64 f l = wrap64 (sumZ f l).
Proof.
  unfold sum64. rewrite sum64_acc by (unfold is_u64; lia). reflexivity.
Qed.

Lemma sum64_range {A} (f : A -> Z) l : is_u64 (sum64 f l).
Proof. rewrite sum64_spec. apply wrap64_range. Qed.

Lemma add64_range a b : is_u64 (add64 a b).
Proof. apply wrap64_range. Qed.

(** [a / d] of a [u64] by a positive count is a [u64]. *)
Lemma div_u64 a d : is_u64 a -> 0 < d -> is_u64 (a / d).
Proof.
  unfold is_u64; intros Ha Hd; split; [apply Z.div_pos; lia|].
  apply Z.le_lt_trans with a; [apply Z.div_le_upper_bound; nia|lia].
Qed.

Lemma sumZ_app {A} (f : A -> Z) l1 l2 : sumZ f (l1 ++ l2) = sumZ f l1 + sumZ f l2.
Proof. induction l1; simpl; lia. Qed.

Lemma sumZ_id_fmap {A} (f : A -> Z) l : sumZ id (f <$> l) = sumZ f l.
Proof. induction l as [|x l IH]; [done|]. rewrite fmap_cons. simpl. by rewrite IH. Qed.

Lemma sumZ_nonneg {A} (f : A -> Z) l :
  Forall (fun x => 0 <= f x) l -> 0 <= sumZ f l.
Proof. induction 1; simpl; lia. Qed.

(** ** Lemmas on lists *)

Lemma filter_nil_Forall {A} (P : A -> Prop) `{!forall x, Decision (P x)} (l : list A) :
  Forall (fun x => ~ P x) l -> filter P l = [].
Proof.
  induction 1 as [|x l Hx _ IH]; [done|]. by rewrite filter_cons_False.
Qed.

(** A filter that keeps the length keeps the list. *)
Lemma filter_length_eq {A} (P : A -> Prop) `{!forall x, Decision (P x)} (l : list A) :
  length (filter P l) = length l -> filter P l = l.
Proof.
  induction l as [|x l IH]; [done|]; rewrite filter_cons; case_decide; simpl.
  - intros [= ?]; by rewrite IH.
  - pose proof (length_filter P l); lia.
Qed.

Lemma filter_Forall_id {A} (P : A -> Prop) `{!forall x, Decision (P x)} (l : list A) :
  Forall P l -> filter P l = l.
Proof.
  induction 1 as [|x l Hx _ IH]; [done|]; rewrite filter_cons; case_decide; [|done].
  by rewrite IH.
Qed.

Lemma head_rev {A} (l : list A) : head (rev l) = last l.
Proof. induction l as [|x l _] using rev_ind; [done|]. by rewrite rev_unit, last_snoc. Qed.

Lemma last_app_nonempty {A} (l1 l2 : list A) : l2 <> [] -> last (l1 ++ l2) = last l2.
Proof.
  intros Hne; destruct l2 as [|x l2] using rev_ind; [done|].
  by rewrite app_assoc, !last_snoc.
Qed.

Lemma omap_cons {A B} (f : A -> option B) (x : A) (l : list A) :
  omap f (x :: l) = match f x with Some y => y :: omap f l | None => omap f l end.
Proof. reflexivity. Qed.

Lemma mjoin_cons {A} (x : list A) (l : list (list A)) : mjoin (x :: l) = x ++ mjoin l.
Proof. reflexivity. Qed.

Lemma StronglySorted_app_iff {A} (R : A -> A -> Prop) (l1 l2 : list A) :
  StronglySorted R (l1 ++ l2) <->
  StronglySorted R l1 /\ StronglySorted R l2 /\ (forall x y, x ∈ l1 -> y ∈ l2 -> R x y).
Proof.
  induction l1 as [|a l1 IH]; simpl.
  - split; [|naive_solver]. intros H. split_and!; [constructor|done|set_solver].
  - rewrite !StronglySorted_cons, IH, !Forall_forall. setoid_rewrite elem_of_app.
    setoid_rewrite elem_of_cons. naive_solver.
Qed.

Lemma StronglySorted_sublist {A} (R : A -> A -> Prop) (l1 l2 : list A) :
  l1 `sublist_of` l2 -> StronglySorted R l2 -> StronglySorted R l1.
Proof.
  induction 1 as [|x l1 l2 Hsub IH|x l1 l2 Hsub IH]; intros Hs; [done| |].
  - apply StronglySorted_cons in Hs as [Hx Hs]. apply StronglySorted_cons.
    split; [|by apply IH]. rewrite Forall_forall in Hx |- *. intros y Hy.
    apply Hx. by eapply elem_of_sublist.
  - apply IH. by apply StronglySorted_cons in Hs as [_ Hs].
Qed.

Lemma StronglySorted_rev {A} (R : A -> A -> Prop) (l : list A) :
  StronglySorted R l -> StronglySorted (flip R) (rev l).
Proof.
  induction l as [|a l IH]; simpl; [constructor|].
  rewrite StronglySorted_cons, Forall_forall. intros [Ha Hl].
  apply StronglySorted_app_iff. split_and!; [by apply IH|repeat constructor|].
  intros x y Hx ->%list_elem_of_singleton. apply Ha.
  by apply list_elem_of_In, in_rev, list_elem_of_In.
Qed.

Lemma StronglySorted_NoDup {A} (R : A -> A -> Prop) (l : list A) :
  (forall x, ~ R x x) -> StronglySorted R l -> NoDup l.
Proof.
  intros Hirr. induction 1 as [|a l _ IH Ha]; constructor; [|done].
  rewrite Forall_forall in Ha. intros Hin. by apply (Hirr a), Ha.
Qed.

(** [running_sum acc [x1; x2; ...]] is [[acc + x1; acc + x1 + x2; ...]]. *)
Fixpoint running_sum (acc : Z) (l : list Z) : list Z :=
  match l with
  | [] => []
  | x :: l' => (acc + x) :: running_sum (acc + x) l'
  end.

Lemma running_sum_wrap a l : wrap64 <$> running_sum (wrap64 a) l = wrap64 <$> running_sum a l.
Proof.
  revert a. induction l as [|x l IH]; intros a; [done|]. cbn [running_sum].
  rewrite !fmap_cons.
  assert (Hx : wrap64 (wrap64 a + x) = wrap64 (a + x))
    by (unfold wrap64; by rewrite Zplus_mod_idemp_l).
  rewrite Hx. f_equal. rewrite <- (IH (wrap64 a + x)), <- (IH (a + x)). by rewrite Hx.
Qed.

Lemma running_sum_small a l :
  0 <= a -> Forall (fun x => 0 <= x) l -> a + sumZ id l < 2 ^ 64 ->
  wrap64 <$> running_sum a l = running_sum a l.
Proof.
  revert a. induction l as [|x l IH]; intros a Ha Hl Hsum; [done|].
  apply Forall_cons in Hl as [Hx Hl]. simpl in Hsum.
  pose proof (sumZ_nonneg id l Hl).
  cbn [running_sum]. rewrite fmap_cons, wrap64_small by lia.
  f_equal. apply IH; [lia|done|lia].
Qed.

Lemma running_sum_sorted a l :
  Forall (fun x => 0 <= x) l -> Sorted Z.le (running_sum a l).
Proof.
  revert a. induction l as [|x l IH]; intros a Hl; simpl; [constructor|].
  apply Forall_cons in Hl as [Hx Hl]. constructor; [by apply IH|].
  destruct l as [|y l]; simpl; constructor. apply Forall_cons in Hl as [Hy _]. lia.
Qed.

#[export] Hint Resolve wrap64_range wrap32_range sumZ_nonneg : md.
Create Rewrite HintDb md_rw.
#[export] Hint Rewrite @sumZ_app @sum64_spec : md_rw.

(** ** Tactics *)

Ltac invc H := inversion H; subst; clear H.

(** Prove a decidable proposition on closed data by evaluation. *)
Ltac by_decide :=
  match goal with |- ?P => apply (bool_decide_unpack P); vm_compute; exact I end.

(** Split the conjunctions and existentials of the hypotheses. *)
Ltac destruct_hyps :=
  repeat match goal with
         | H : _ /\ _ |- _ => destruct H
         | H : ex _ |- _ => destruct H
         end.
