(* ===== verification/Message.v ===== *)
(** * Message: the data types of [message.rs]

    One Gallina type per Rust type of [src/backend/src/message.rs] and
    [src/backend-sse/src/message.rs].  Each struct is a [Record t] in a
    Module of its name, so that its fields keep the source's names
    ([MBPLevel.quantity l]).  Prices are hundredths ([Z]), timestamps are
    milliseconds ([Z]), [u64]/[u32] fields are [Z] in their range and
    client ids ([Uuid]) are [N]. *)

From S2P Require Import Prelude.

(** [enum Side { Bid, Ask }] *)
Inductive Side := Bid | Ask.

(** [enum DataType { MBO, MBP }] *)
Inductive DataType := MBO | MBP.

(** [enum ActivityType { Add, Update, Cancel }] *)
Inductive ActivityType := Add | Update | Cancel.

#[export] Instance Side_eq_dec : EqDecision Side.
Proof. solve_decision. Defined.
#[export] Instance DataType_eq_dec : EqDecision DataType.
Proof. solve_decision. Defined.
#[export] Instance ActivityType_eq_dec : EqDecision ActivityType.
Proof. solve_decision. Defined.

(** [uuid::Uuid], the client identity assigned at connection time. *)
Abbreviation Uuid := N (only parsing).

(** [struct MBOLevel]: one resting order of the market-by-order view. *)
Module MBOLevel.
Record t := mk {
  order_id : string;
  price : Z;
  quantity : Z;
  side : Side;
  timestamp : Z;
  age_ms : Z
}.
End MBOLevel.

(** [struct MBPLevel]: one price level of the market-by-price view. *)
Module MBPLevel.
Record t := mk {
  price : Z;
  quantity : Z;
  order_count : Z;
  side : Side;
  total_quantity : Z;
  avg_age_ms : Z
}.
End MBPLevel.

(** [struct OrderActivity]: one event of the activity generator. *)
Module OrderActivity.
Record t := mk {
  activity_type : ActivityType;
  order_id : string;
  symbol : string;
  price : option Z;
  quantity : option Z;
  side : option Side;
  timestamp : Z
}.
End OrderActivity.

(** [enum MarketDataUpdate] (the WebSocket crate's; the SSE crate has the
    first two variants only). *)
Inductive MarketDataUpdate :=
  | UpdMBO (bids asks : list MBOLevel.t)
  | UpdMBP (bids asks : list MBPLevel.t)
  | UpdOrderActivity (activity : OrderActivity.t).

(** [enum ServerMessage] of the WebSocket front end. *)
Inductive ServerMessage :=
  | Subscribed (stream_id symbol : string) (data_type : DataType)
  | Unsubscribed (stream_id : string)
  | MarketData (stream_id symbol : string) (data : MarketDataUpdate)
      (sequence : Z) (timestamp : Z)
  | HeartBeat (timestamp : Z)
  | Error (code : Z) (message : string) (stream_id : option string).

(** [enum SSEMessage] of the SSE front end.  [ConnectionInfo] carries the
    client id (its string form in the source). *)
Inductive SSEMessage :=
  | SSEMarketData (stream_id symbol : string) (data : MarketDataUpdate)
      (sequence : Z) (timestamp : Z)
  | SSEHeartBeat (timestamp : Z)
  | SSEConnectionInfo (client_id : Uuid) (server_time : Z)
      (supported_symbols : list string)
  | SSEError (code : Z) (message : string) (stream_id : option string).

(** [enum ClientMessage] of the WebSocket front end. *)
Inductive ClientMessage :=
  | CSubscribe (stream_id symbol : string) (data_type : DataType)
      (max_levels : option Z)
  | CUnsubscribe (stream_id : string)
  | CPing (timestamp : Z).

(** [struct Subscription] (and the identical [SSESubscription]). *)
Module Subscription.
Record t := mk {
  stream_id : string;
  symbol : string;
  data_type : DataType;
  max_levels : Z;
  client_id : Uuid
}.

(** [Subscription::new]: the depth defaults to 20. *)
Definition new (stream_id symbol : string) (data_type : DataType)
    (max_levels : option Z) (client_id : Uuid) : t :=
  mk stream_id symbol data_type (default 20 max_levels) client_id.
End Subscription.
