(* ===== verification/PriceLadder.v ===== *)
(** * PriceLadder: one side of the book, [BTreeMap<OrderedFloat, Vec<String>>]

    [order_book.rs] keeps, per side, an ordered map from price to the FIFO
    queue of order ids resting at that price.  A [BTreeMap] is an ordered
    map, and its model here is an association list whose keys strictly
    increase ([Ladder.wf]).  Each operation the book uses is one
    definition:
    - [entry(k).or_insert_with(Vec::new).push(id)] is [Ladder.push];
    - [get_mut(k)] then [retain(|x| x != id)] then [remove(k)] when the
      queue is empty is [Ladder.retain_remove];
    - [get] is [Ladder.get], [keys().next()] / [keys().next_back()] are
      [Ladder.first_key] / [Ladder.last_key], [iter()] is the list itself
      and [iter().rev()] its reverse.

    The abstract specification is the finite map [Ladder.to_map] into
    [gmap Z (list string)].  The refinement lemmas say what each operation
    does to it.  [Ladder.entries] flattens the ladder into its
    (price, id) pairs, in iteration order; the book invariant is stated
    on it. *)

From S2P Require Import Prelude.

Module Ladder.

Definition t := list (Z * list string).

(** ** Operations *)

(** [BTreeMap::get]: the search stops at the first key above [k]. *)
Fixpoint get (k : Z) (l : t) : option (list string) :=
  match l with
  | [] => None
  | (k', v) :: l' =>
      if decide (k < k') then None
      else if decide (k = k') then Some v
      else get k l'
  end.

(** [entry(k).or_insert_with(Vec::new).push(id)]: append [id] to the
    queue at [k], creating the queue where the key is absent. *)
Fixpoint push (k : Z) (id : string) (l : t) : t :=
  match l with
  | [] => [(k, [id])]
  | (k', v) :: l' =>
      if decide (k < k') then (k, [id]) :: l
      else if decide (k = k') then (k', v ++ [id]) :: l'
      else (k', v) :: push k id l'
  end.

(** [if let Some(q) = get_mut(&k) { q.retain(|x| x != id);
    if q.is_empty() { remove(&k) } }]. *)
Fixpoint retain_remove (k : Z) (id : string) (l : t) : t :=
  match l with
  | [] => []
  | (k', v) :: l' =>
      if decide (k < k') then l
      else if decide (k = k') then
        let v' := filter (fun x => x <> id) v in
        if decide (v' = []) then l' else (k', v') :: l'
      else (k', v) :: retain_remove k id l'
  end.

(** [keys().next()] and [keys().next_back()]. *)
Definition first_key (l : t) : option Z := fst <$> head l.
Definition last_key (l : t) : option Z := fst <$> last l.

Definition keys (l : t) : list Z := l.*1.

(** The (price, id) pairs in iteration order. *)
Definition entries (l : t) : list (Z * string) :=
  l ≫= (fun '(k, v) => pair k <$> v).

(** ** Invariant and abstract map *)

(** Keys strictly increase and no queue is empty (an emptied queue is
    removed at once). *)
Definition wf (l : t) : Prop :=
  StronglySorted Z.lt (keys l) /\ Forall (fun e => e.2 <> []) l.

#[export] Instance wf_dec l : Decision (wf l) := _.

Definition to_map (l : t) : gmap Z (list string) := list_to_map l.

(** ** Lemmas *)

Lemma wf_cons k v l :
  wf ((k, v) :: l) <-> v <> [] /\ Forall (Z.lt k) (keys l) /\ wf l.
Proof.
  unfold wf, keys. simpl. rewrite StronglySorted_cons, Forall_cons.
  naive_solver.
Qed.

Lemma wf_nil : wf [].
Proof. split; constructor. Qed.

Lemma keys_push k id l x :
  x ∈ keys (push k id l) <-> x = k \/ x ∈ keys l.
Proof.
  unfold keys. induction l as [|[k' v] l IH]; simpl;
    [set_solver|].
  repeat case_decide; subst; simpl; rewrite ?elem_of_cons, ?IH; naive_solver.
Qed.

Lemma keys_retain_remove k id l x :
  x ∈ keys (retain_remove k id l) -> x ∈ keys l.
Proof.
  unfold keys. induction l as [|[k' v] l IH]; simpl; [done|].
  repeat case_decide; simpl; rewrite ?elem_of_cons; naive_solver.
Qed.

Lemma Forall_keys_push (P : Z -> Prop) k id l :
  P k -> Forall P (keys l) -> Forall P (keys (push k id l)).
Proof.
  rewrite !Forall_forall. intros Hk Hl x. rewrite keys_push. naive_solver.
Qed.

Lemma Forall_keys_retain_remove (P : Z -> Prop) k id l :
  Forall P (keys l) -> Forall P (keys (retain_remove k id l)).
Proof.
  rewrite !Forall_forall. intros Hl x Hx. apply Hl. by eapply keys_retain_remove.
Qed.

Lemma push_wf k id l : wf l -> wf (push k id l).
Proof.
  induction l as [|[k' v] l IH]; simpl; intros Hwf.
  - apply wf_cons. split; [done|]. split; [constructor|apply wf_nil].
  - apply wf_cons in Hwf as (Hv & Hlt & Hl).
    repeat case_decide; subst; apply wf_cons.
    + split; [done|]. split; [|by apply wf_cons].
      unfold keys; simpl. constructor; [lia|].
      eapply Forall_impl; [exact Hlt|]. simpl; lia.
    + split; [by destruct v|]. by split.
    + split; [done|]. split; [|by apply IH].
      apply Forall_keys_push; [lia|done].
Qed.

Lemma retain_remove_wf k id l : wf l -> wf (retain_remove k id l).
Proof.
  induction l as [|[k' v] l IH]; simpl; intros Hwf; [done|].
  pose proof Hwf as (Hv & Hlt & Hl)%wf_cons.
  repeat case_decide; subst; try done.
  - by apply wf_cons.
  - apply wf_cons. split; [done|]. split; [|by apply IH].
    by apply Forall_keys_retain_remove.
Qed.

Lemma to_map_cons k v l : to_map ((k, v) :: l) = <[k := v]> (to_map l).
Proof. reflexivity. Qed.

Lemma to_map_lookup_None k l :
  Forall (Z.lt k) (keys l) -> to_map l !! k = None.
Proof.
  intros H. apply not_elem_of_list_to_map_1. intros Hin.
  rewrite Forall_forall in H. apply H in Hin. lia.
Qed.

Lemma Forall_lt_trans k k' l :
  k < k' -> Forall (Z.lt k') (keys l) -> Forall (Z.lt k) (keys l).
Proof. intros ? H. eapply Forall_impl; [exact H|]. simpl; lia. Qed.

#[local] Hint Resolve Forall_lt_trans to_map_lookup_None : core.

(** [get] reads the abstract map. *)
Lemma get_to_map k l : wf l -> get k l = to_map l !! k.
Proof.
  induction l as [|[k' v] l IH]; cbn [get push retain_remove];
    intros Hwf; [done|].
  apply wf_cons in Hwf as (_ & Hlt & Hl).
  rewrite to_map_cons.
  repeat case_decide; subst.
  - rewrite lookup_insert_ne by lia. symmetry. eauto.
  - by rewrite lookup_insert_eq.
  - rewrite lookup_insert_ne by done. auto.
Qed.

(** [push] appends [id] to the queue at [k] of the abstract map. *)
Lemma to_map_push k id l :
  wf l ->
  to_map (push k id l) = <[k := default [] (to_map l !! k) ++ [id]]> (to_map l).
Proof.
  induction l as [|[k' v] l IH]; cbn [get push retain_remove];
    intros Hwf; [done|].
  apply wf_cons in Hwf as (_ & Hlt & Hl).
  rewrite !to_map_cons.
  repeat case_decide; subst.
  - rewrite lookup_insert_ne, to_map_lookup_None by eauto with lia. simpl.
    reflexivity.
  - by rewrite lookup_insert_eq, insert_insert_eq.
  - rewrite lookup_insert_ne by done. rewrite to_map_cons, IH by done.
    apply insert_insert_ne. done.
Qed.

(** [retain_remove] filters the queue at [k] and deletes the key when
    the queue becomes empty; an absent key is left alone. *)
Lemma to_map_retain_remove k id l :
  wf l ->
  to_map (retain_remove k id l) =
    match to_map l !! k with
    | Some v =>
        let v' := filter (fun x => x <> id) v in
        if decide (v' = []) then delete k (to_map l) else <[k := v']> (to_map l)
    | None => to_map l
    end.
Proof.
  induction l as [|[k' v] l IH]; cbn [get push retain_remove];
    intros Hwf; [done|].
  apply wf_cons in Hwf as (_ & Hlt & Hl).
  rewrite !to_map_cons.
  repeat case_decide; subst.
  - rewrite lookup_insert_ne, to_map_lookup_None by eauto with lia. done.
  - rewrite lookup_insert_eq. simpl. rewrite decide_True by done.
    by rewrite delete_insert_id by eauto.
  - rewrite lookup_insert_eq. simpl. rewrite decide_False by done.
    by rewrite insert_insert_eq.
  - rewrite lookup_insert_ne by done. rewrite to_map_cons, IH by done.
    destruct (to_map l !! k); [|done].
    cbv zeta. case_decide.
    + rewrite delete_insert_ne by congruence. done.
    + by apply insert_insert_ne.
Qed.

(** ** The (price, id) entries *)

Lemma entries_cons k v l : entries ((k, v) :: l) = (pair k <$> v) ++ entries l.
Proof. reflexivity. Qed.

Lemma elem_of_entries p i l :
  (p, i) ∈ entries l <-> exists v, (p, v) ∈ l /\ i ∈ v.
Proof.
  unfold entries. rewrite list_elem_of_bind. split.
  - intros ([k v] & Hin & Hkv). apply list_elem_of_fmap in Hin as (x & [=] & Hx).
    subst. eauto.
  - intros (v & Hpv & Hi). exists (p, v). split; [|done].
    apply list_elem_of_fmap. eauto.
Qed.

Lemma entries_keys p i l : (p, i) ∈ entries l -> p ∈ keys l.
Proof.
  rewrite elem_of_entries. intros (v & Hpv & _). unfold keys.
  apply list_elem_of_fmap. exists (p, v). done.
Qed.

(** [push] adds exactly the entry [(k, id)]. *)
Lemma entries_push k id l : entries (push k id l) ≡ₚ (k, id) :: entries l.
Proof.
  induction l as [|[k' v] l IH]; cbn [push]; [done|].
  repeat case_decide; subst; rewrite ?entries_cons; simpl.
  - done.
  - rewrite fmap_app, <- app_assoc. simpl. by rewrite Permutation_middle.
  - rewrite IH. by rewrite Permutation_middle.
Qed.

Lemma filter_pair_ne (k k' : Z) id (v : list string) :
  k <> k' -> filter (fun e => e <> (k, id)) (pair k' <$> v) = pair k' <$> v.
Proof.
  intros Hne. induction v as [|x v IH]; [done|].
  rewrite fmap_cons, filter_cons_True by congruence. by rewrite IH.
Qed.

Lemma filter_pair_eq (k : Z) id (v : list string) :
  filter (fun e => e <> (k, id)) (pair k <$> v) = pair k <$> filter (fun x => x <> id) v.
Proof.
  induction v as [|x v IH]; [done|].
  rewrite fmap_cons, !filter_cons.
  repeat case_decide; simplify_eq; rewrite ?fmap_cons, IH; done.
Qed.

Lemma filter_entries_above k id l :
  Forall (Z.lt k) (keys l) ->
  filter (fun e => e <> (k, id)) (entries l) = entries l.
Proof.
  unfold keys. induction l as [|[k' v] l IH]; intros Hlt; [done|].
  simpl in Hlt. apply Forall_cons in Hlt as [Hk Hlt].
  rewrite entries_cons, filter_app, filter_pair_ne by lia. by rewrite IH.
Qed.

(** [retain_remove] removes exactly the entry [(k, id)], keeping the
    order of the others. *)
Lemma entries_retain_remove k id l :
  wf l ->
  entries (retain_remove k id l) = filter (fun e => e <> (k, id)) (entries l).
Proof.
  induction l as [|[k' v] l IH]; cbn [retain_remove]; intros Hwf; [done|].
  apply wf_cons in Hwf as (_ & Hlt & Hl).
  case_decide as Hkk; [|case_decide as Heq; [subst k'; cbv zeta; case_decide as Hnil|]];
    rewrite ?entries_cons, filter_app.
  - rewrite filter_pair_ne by lia. rewrite filter_entries_above; eauto.
  - by rewrite filter_pair_eq, filter_entries_above, Hnil.
  - by rewrite filter_pair_eq, filter_entries_above.
  - by rewrite filter_pair_ne, IH.
Qed.

Lemma elem_of_entries_retain_remove k id l e :
  wf l -> e ∈ entries (retain_remove k id l) <-> e ∈ entries l /\ e <> (k, id).
Proof.
  intros Hwf. rewrite entries_retain_remove, list_elem_of_filter by done. tauto.
Qed.

Lemma entries_retain_remove_sublist k id l :
  wf l -> entries (retain_remove k id l) `sublist_of` entries l.
Proof.
  intros Hwf. rewrite entries_retain_remove by done. apply sublist_filter.
Qed.

(** ** Reading a level *)

(** What is left of a queue once [id] is retained out of it, with the
    level gone when nothing is left. *)
Definition drop_id (id : string) (q : option (list string)) : option (list string) :=
  match q with
  | Some v => match filter (fun x => x <> id) v with [] => None | v' => Some v' end
  | None => None
  end.

Lemma drop_id_not_elem id q : id ∉ default [] (drop_id id q).
Proof.
  destruct q as [v|]; simpl; [|set_solver].
  destruct (filter _ v) as [|x v'] eqn:E; simpl; [set_solver|].
  rewrite <-E, list_elem_of_filter. naive_solver.
Qed.

Lemma get_Some_entries k l v x :
  wf l -> get k l = Some v -> x ∈ v -> (k, x) ∈ entries l.
Proof.
  intros Hwf Hget Hx. rewrite get_to_map in Hget by done.
  apply elem_of_entries. exists v. split; [|done].
  apply elem_of_list_to_map_2 in Hget. done.
Qed.

Lemma get_Some_nonempty k l v : wf l -> get k l = Some v -> v <> [].
Proof.
  intros [_ Hne] Hget. induction l as [|[k' v'] l IH]; simpl in *; [done|].
  apply Forall_cons in Hne as [Hv Hne].
  repeat case_decide; simplify_eq; auto.
Qed.

Lemma filter_neq_notin (v : list string) id : id ∉ v -> filter (fun x => x <> id) v = v.
Proof.
  induction v as [|x v IH]; intros Hid; [done|].
  apply not_elem_of_cons in Hid as [Hx Hid].
  rewrite filter_cons_True by congruence. by rewrite IH.
Qed.

(** A level that does not hold [id] is left as it is. *)
Lemma drop_id_notin k l id :
  wf l -> (k, id) ∉ entries l -> drop_id id (get k l) = get k l.
Proof.
  intros Hwf Hnot. destruct (get k l) as [v|] eqn:Hget; [|done]. simpl.
  rewrite filter_neq_notin.
  - destruct v; [by apply get_Some_nonempty in Hget|done].
  - intros Hin. apply Hnot. by eapply get_Some_entries.
Qed.

(** [get] after [retain_remove]. *)
Lemma get_retain_remove k k' id l :
  wf l ->
  get k' (retain_remove k id l) =
    if decide (k' = k) then drop_id id (get k l) else get k' l.
Proof.
  intros Hwf. rewrite !get_to_map by auto using retain_remove_wf.
  rewrite to_map_retain_remove by done.
  case_decide as Hk; [subst k'|].
  - destruct (to_map l !! k) as [v|] eqn:Hv; simpl; [|by rewrite Hv].
    case_decide as Hnil.
    + by rewrite Hnil, lookup_delete_eq.
    + rewrite lookup_insert_eq. by destruct (filter _ v).
  - destruct (to_map l !! k) as [v|]; simpl; [|done].
    case_decide.
    + by rewrite lookup_delete_ne.
    + by rewrite lookup_insert_ne.
Qed.

(** [get] after [push]. *)
Lemma get_push k k' id l :
  wf l ->
  get k' (push k id l) =
    if decide (k' = k) then Some (default [] (get k l) ++ [id]) else get k' l.
Proof.
  intros Hwf. rewrite !get_to_map by auto using push_wf.
  rewrite to_map_push by done.
  case_decide as Hk; [subst k'|].
  - by rewrite lookup_insert_eq.
  - by rewrite lookup_insert_ne.
Qed.

(** ** First and last keys *)

Lemma first_key_spec l k :
  wf l -> first_key l = Some k <-> k ∈ keys l /\ forall k', k' ∈ keys l -> k <= k'.
Proof.
  intros [Hs _]. unfold first_key, keys in *. destruct l as [|[k0 v] l].
  - split; [done|]. intros [Hk _]. by apply not_elem_of_nil in Hk.
  - rewrite fmap_cons in Hs |- *. simpl fst.
    apply StronglySorted_cons in Hs as [Hlt _]. rewrite Forall_forall in Hlt.
    split.
    + intros [= <-]. split; [apply list_elem_of_here|].
      intros k' [->|Hk']%elem_of_cons; [lia|]. apply Hlt in Hk'. simpl in Hk'. lia.
    + intros [[->|Hk]%elem_of_cons Hmin]; [done|].
      specialize (Hmin k0 (list_elem_of_here _ _)). apply Hlt in Hk. simpl in Hk. lia.
Qed.

Lemma last_key_spec l k :
  wf l -> last_key l = Some k <-> k ∈ keys l /\ forall k', k' ∈ keys l -> k' <= k.
Proof.
  intros [Hs _]. unfold last_key, keys in *.
  destruct (last l) as [[k0 v]|] eqn:Hl; simpl.
  - apply last_Some in Hl as [l' ->]. rewrite fmap_app in Hs |- *. simpl in *.
    apply StronglySorted_app_iff in Hs as (_ & _ & Hlt).
    assert (Hmax : forall k', k' ∈ l'.*1 ++ [k0] -> k' <= k0).
    { intros k' [Hk' | ->%list_elem_of_singleton]%elem_of_app; [|lia].
      apply Z.lt_le_incl, Hlt; [done|apply list_elem_of_here]. }
    split.
    + intros [= <-]. split; [apply elem_of_app; right; apply list_elem_of_here|done].
    + intros [Hk Hk0]. f_equal. apply Z.le_antisymm; [|by apply Hmax].
      apply Hk0, elem_of_app. right. apply list_elem_of_here.
  - apply last_None in Hl as ->. split; [done|]. intros [Hk _].
    by apply not_elem_of_nil in Hk.
Qed.

Lemma first_key_None l : first_key l = None <-> l = [].
Proof. destruct l; simpl; done. Qed.

Lemma last_key_None l : last_key l = None <-> l = [].
Proof.
  unfold last_key. destruct (last l) eqn:Hl; simpl.
  - split; [done|]. intros ->. done.
  - by apply last_None in Hl.
Qed.

End Ladder.

(** ** Properties *)

(** C17: refinement.  The sorted association list implements the ordered
    map of queues that the [BTreeMap] calls of [order_book.rs] describe:
    from a well-formed ladder, [get] reads the abstract map; [push] keeps
    the ladder well formed and appends the id to the key's queue of the
    abstract map; [retain_remove] keeps it well formed and filters the
    key's queue, deleting the key when the queue becomes empty. *)
Theorem ladder_refines_map (l : Ladder.t) :
  Ladder.wf l ->
  (forall k, Ladder.get k l = Ladder.to_map l !! k) /\
  (forall k id,
     Ladder.wf (Ladder.push k id l) /\
     Ladder.to_map (Ladder.push k id l) =
       <[k := default [] (Ladder.to_map l !! k) ++ [id]]> (Ladder.to_map l)) /\
  (forall k id,
     Ladder.wf (Ladder.retain_remove k id l) /\
     Ladder.to_map (Ladder.retain_remove k id l) =
       match Ladder.to_map l !! k with
       | Some v =>
           let v' := filter (fun x => x <> id) v in
           if decide (v' = []) then delete k (Ladder.to_map l)
           else <[k := v']> (Ladder.to_map l)
       | None => Ladder.to_map l
       end).
Proof.
  intros Hwf. split_and!.
  - intros k. by apply Ladder.get_to_map.
  - intros k id. split; [by apply Ladder.push_wf|by apply Ladder.to_map_push].
  - intros k id. split; [by apply Ladder.retain_remove_wf|by apply Ladder.to_map_retain_remove].
Qed.

(** The bid ladder [99.98: [v; w]], [99.99: [x]]. *)
Definition ladder_example : Ladder.t := [(9998, ["v"; "w"]); (9999, ["x"])].

Lemma ladder_refines_map_witness :
  Ladder.wf ladder_example /\
  Ladder.to_map (Ladder.retain_remove 9999 "x" ladder_example) =
    delete 9999 (Ladder.to_map ladder_example).
Proof.
  assert (Hwf : Ladder.wf ladder_example) by by_decide.
  split; [exact Hwf|].
  destruct (ladder_refines_map ladder_example Hwf) as (_ & _ & Hrr).
  rewrite (proj2 (Hrr 9999 "x")). reflexivity.
Defined.
