(* ===== verification/OrderBook.v ===== *)
(** * OrderBook: [struct OrderBook] and its mutators ([order_book.rs])

    The book is a record with the fields of the struct: [orders] is the
    [HashMap<String, Order>] index as a [gmap]; [bids_by_price] and
    [asks_by_price] are ladders ([PriceLadder]); [sequence] is the [u64]
    counter.  [add_order], [remove_order] and [update_order] return the
    source's [bool] result with the new book.

    The invariant [book_wf] says that the index and the two ladders
    describe the same set of resting orders: an id rests in the ladder of
    side [s] at price [p] exactly when the index holds an order with that
    side and price.  It also says that every id rests in one slot only.
    Each mutator preserves it.  The functional lemmas say what each
    mutator does to the index, the ladders and the counter. *)

From S2P Require Import Prelude Message PriceLadder.

(** [struct Order] with [Order::new], [update_quantity] and [age_ms]. *)
Module Order.
Record t := mk {
  id : string;
  price : Z;
  quantity : Z;
  side : Side;
  timestamp : Z;
  original_quantity : Z
}.

(** [Order::new]: stamped with the clock, original quantity recorded. *)
Definition new (id : string) (price quantity : Z) (side : Side) (now : Z) : t :=
  mk id price quantity side now quantity.

(** [update_quantity]: new quantity, and the timestamp is reset. *)
Definition update_quantity (new_quantity now : Z) (o : t) : t :=
  mk (id o) (price o) new_quantity (side o) now (original_quantity o).

(** [age_ms]: [(now - timestamp).num_milliseconds().max(0)]. *)
Definition age_ms (now : Z) (o : t) : Z := Z.max 0 (now - timestamp o).
End Order.

Record OrderBook := mkOrderBook {
  symbol : string;
  orders : gmap string Order.t;
  bids_by_price : Ladder.t;
  asks_by_price : Ladder.t;
  sequence : Z
}.

(** [OrderBook::new]. *)
Definition new (symbol : string) : OrderBook :=
  mkOrderBook symbol ∅ [] [] 0.

(** The ladder of a side: [match side { Bid => &self.bids_by_price,
    Ask => &self.asks_by_price }]. *)
Definition ladder (s : Side) (b : OrderBook) : Ladder.t :=
  match s with Bid => bids_by_price b | Ask => asks_by_price b end.

(** Mutate the ladder of a side. *)
Definition map_ladder (s : Side) (f : Ladder.t -> Ladder.t) (b : OrderBook) : OrderBook :=
  match s with
  | Bid => mkOrderBook (symbol b) (orders b) (f (bids_by_price b)) (asks_by_price b) (sequence b)
  | Ask => mkOrderBook (symbol b) (orders b) (bids_by_price b) (f (asks_by_price b)) (sequence b)
  end.

Definition set_orders (m : gmap string Order.t) (b : OrderBook) : OrderBook :=
  mkOrderBook (symbol b) m (bids_by_price b) (asks_by_price b) (sequence b).

(** [self.sequence += 1] on a [u64]. *)
Definition incr_sequence (b : OrderBook) : OrderBook :=
  mkOrderBook (symbol b) (orders b) (bids_by_price b) (asks_by_price b)
    (add64 (sequence b) 1).

(** [remove_order]: take the order out of the index, retain the other ids
    of its price slot, drop the slot when it becomes empty, count. *)
Definition remove_order (order_id : string) (b : OrderBook) : bool * OrderBook :=
  match orders b !! order_id with
  | Some order =>
      let b := set_orders (delete order_id (orders b)) b in
      let b := map_ladder (Order.side order)
                 (Ladder.retain_remove (Order.price order) order_id) b in
      (true, incr_sequence b)
  | None => (false, b)
  end.

(** [add_order]: an existing order with the same id is removed first
    (upsert); the order is indexed and appended to its price slot. *)
Definition add_order (order : Order.t) (b : OrderBook) : bool * OrderBook :=
  let b := match orders b !! Order.id order with
           | Some _ => (remove_order (Order.id order) b).2
           | None => b
           end in
  let b := set_orders (<[Order.id order := order]> (orders b)) b in
  let b := map_ladder (Order.side order)
             (Ladder.push (Order.price order) (Order.id order)) b in
  (true, incr_sequence b).

(** [update_order]: a zero quantity is a removal; otherwise the order's
    quantity is replaced and its timestamp reset. *)
Definition update_order (order_id : string) (new_quantity now : Z) (b : OrderBook)
    : bool * OrderBook :=
  if decide (new_quantity = 0) then remove_order order_id b
  else match orders b !! order_id with
       | Some order =>
           let b := set_orders
                      (<[order_id := Order.update_quantity new_quantity now order]> (orders b)) b in
           (true, incr_sequence b)
       | None => (false, b)
       end.

(** [get_sequence]. *)
Definition get_sequence (b : OrderBook) : Z := sequence b.

(** ** The book invariant *)

(** The resting entries (side, price, id) of one side, in iteration order. *)
Definition side_entries (s : Side) (b : OrderBook) : list (Side * Z * string) :=
  (fun e => (s, e.1, e.2)) <$> Ladder.entries (ladder s b).

Definition book_entries (b : OrderBook) : list (Side * Z * string) :=
  side_entries Bid b ++ side_entries Ask b.

Record book_wf (b : OrderBook) : Prop := {
  wf_bids : Ladder.wf (bids_by_price b);
  wf_asks : Ladder.wf (asks_by_price b);
  (** every id rests in one slot only *)
  wf_nodup : NoDup (book_entries b).*2;
  (** the ladders rest exactly the indexed orders, at their side and price *)
  wf_index : forall s p i,
    (s, p, i) ∈ book_entries b <->
    exists o, orders b !! i = Some o /\ Order.side o = s /\ Order.price o = p;
  (** the index is keyed by the order's id *)
  wf_keys : forall i o, orders b !! i = Some o -> Order.id o = i
}.

(** ** Lemmas on the record plumbing *)

Lemma ladder_map_ladder_eq s f b : ladder s (map_ladder s f b) = f (ladder s b).
Proof. by destruct s. Qed.

Lemma ladder_map_ladder_ne s s' f b : s <> s' -> ladder s' (map_ladder s f b) = ladder s' b.
Proof. destruct s, s'; naive_solver. Qed.

Lemma orders_map_ladder s f b : orders (map_ladder s f b) = orders b.
Proof. by destruct s. Qed.

Lemma sequence_map_ladder s f b : sequence (map_ladder s f b) = sequence b.
Proof. by destruct s. Qed.

Lemma symbol_map_ladder s f b : symbol (map_ladder s f b) = symbol b.
Proof. by destruct s. Qed.

Lemma ladder_set_orders s m b : ladder s (set_orders m b) = ladder s b.
Proof. by destruct s. Qed.

Lemma ladder_wf_of s b : book_wf b -> Ladder.wf (ladder s b).
Proof. destruct s; apply wf_bids || apply wf_asks. Qed.

Lemma map_ladder_wf s f b :
  (forall l, Ladder.wf l -> Ladder.wf (f l)) ->
  Ladder.wf (bids_by_price b) -> Ladder.wf (asks_by_price b) ->
  Ladder.wf (bids_by_price (map_ladder s f b)) /\ Ladder.wf (asks_by_price (map_ladder s f b)).
Proof. destruct s; simpl; auto. Qed.

#[export] Hint Rewrite ladder_map_ladder_eq orders_map_ladder sequence_map_ladder : md_rw.

(** ** Lemmas on the resting entries *)

Lemma elem_of_book_entries s p i b :
  (s, p, i) ∈ book_entries b <-> (p, i) ∈ Ladder.entries (ladder s b).
Proof.
  unfold book_entries, side_entries. rewrite elem_of_app, !list_elem_of_fmap.
  destruct s; split.
  - intros [([p' i'] & Heq & H) | ([p' i'] & Heq & H)]; simplify_eq/=; done.
  - intros H. left. exists (p, i). done.
  - intros [([p' i'] & Heq & H) | ([p' i'] & Heq & H)]; simplify_eq/=; done.
  - intros H. right. exists (p, i). done.
Qed.

(** Pushing an id on a side adds exactly its entry. *)
Lemma book_entries_push s p i b :
  book_entries (map_ladder s (Ladder.push p i) b) ≡ₚ (s, p, i) :: book_entries b.
Proof.
  unfold book_entries, side_entries.
  destruct s; simpl; rewrite Ladder.entries_push; simpl; [done|].
  by rewrite <- Permutation_middle.
Qed.

(** Retaining an id out of a slot removes exactly its entry. *)
Lemma elem_of_book_entries_retain s p i b e :
  Ladder.wf (ladder s b) ->
  e ∈ book_entries (map_ladder s (Ladder.retain_remove p i) b) <->
  e ∈ book_entries b /\ e <> (s, p, i).
Proof.
  intros Hwf. destruct e as [[s' p'] i']. rewrite !elem_of_book_entries.
  destruct (decide (s = s')) as [<-|Hne].
  - rewrite ladder_map_ladder_eq, Ladder.elem_of_entries_retain_remove by done.
    naive_solver.
  - rewrite ladder_map_ladder_ne by done. naive_solver.
Qed.

Lemma book_entries_retain_sublist s p i b :
  Ladder.wf (ladder s b) ->
  book_entries (map_ladder s (Ladder.retain_remove p i) b) `sublist_of` book_entries b.
Proof.
  intros Hwf. unfold book_entries, side_entries.
  destruct s; simpl in *; apply sublist_app; try done;
    by apply fmap_sublist, Ladder.entries_retain_remove_sublist.
Qed.

Lemma book_entries_set_orders m b : book_entries (set_orders m b) = book_entries b.
Proof. reflexivity. Qed.

Lemma book_entries_incr_sequence b : book_entries (incr_sequence b) = book_entries b.
Proof. reflexivity. Qed.

#[export] Hint Rewrite book_entries_set_orders book_entries_incr_sequence : md_rw.

(** An id that the index does not hold rests nowhere. *)
Lemma not_indexed_not_resting b i :
  book_wf b -> orders b !! i = None -> i ∉ (book_entries b).*2.
Proof.
  intros Hb Hi Hin. apply list_elem_of_fmap in Hin as ([[s p] i'] & -> & Hin).
  apply (wf_index _ Hb) in Hin as (o & Ho & _). simpl in *. congruence.
Qed.

(** ** Functional behaviour of the mutators *)

Lemma remove_order_orders i b : orders (remove_order i b).2 = delete i (orders b).
Proof.
  unfold remove_order. destruct (orders b !! i) eqn:Hi; simpl.
  - by rewrite orders_map_ladder.
  - by rewrite delete_id.
Qed.

Lemma remove_order_result i b : (remove_order i b).1 = bool_decide (is_Some (orders b !! i)).
Proof. unfold remove_order. by destruct (orders b !! i). Qed.

Lemma remove_order_absent i b : orders b !! i = None -> remove_order i b = (false, b).
Proof. unfold remove_order. by intros ->. Qed.

(** What [remove_order] does to the resting entries: exactly the removed
    order's entry goes. *)
Lemma remove_order_entries i o b e :
  book_wf b -> orders b !! i = Some o ->
  e ∈ book_entries (remove_order i b).2 <->
  e ∈ book_entries b /\ e <> (Order.side o, Order.price o, i).
Proof.
  intros Hb Hi. unfold remove_order. rewrite Hi. simpl.
  rewrite book_entries_incr_sequence, elem_of_book_entries_retain; [done|].
  rewrite ladder_set_orders. apply ladder_wf_of, Hb.
Qed.

Lemma remove_order_wf i b : book_wf b -> book_wf (remove_order i b).2.
Proof.
  intros Hb. destruct (orders b !! i) as [o|] eqn:Hi;
    [|by rewrite remove_order_absent].
  pose proof (ladder_wf_of (Order.side o) b Hb) as Hl.
  assert (Hlw := map_ladder_wf (Order.side o)
    (Ladder.retain_remove (Order.price o) i) (set_orders (delete i (orders b)) b)
    (Ladder.retain_remove_wf _ _) (wf_bids _ Hb) (wf_asks _ Hb)).
  constructor; try (unfold remove_order; rewrite Hi; apply Hlw).
  - eapply sublist_NoDup; [apply (wf_nodup _ Hb)|].
    pose proof (book_entries_retain_sublist (Order.side o) (Order.price o) i
                  (set_orders (delete i (orders b)) b)) as Hs.
    rewrite book_entries_set_orders, ladder_set_orders in Hs.
    unfold remove_order; rewrite Hi; simpl. by apply fmap_sublist, Hs.
  - intros s p j. rewrite remove_order_entries, remove_order_orders by done.
    rewrite (wf_index _ Hb). setoid_rewrite lookup_delete_Some. naive_solver.
  - intros j o'. rewrite remove_order_orders, lookup_delete_Some.
    intros [_ Hj]. by apply (wf_keys _ Hb).
Qed.

(** Indexing and pushing an order whose id the book does not hold. *)
Definition insert_order (order : Order.t) (b : OrderBook) : OrderBook :=
  map_ladder (Order.side order) (Ladder.push (Order.price order) (Order.id order))
    (set_orders (<[Order.id order := order]> (orders b)) b).

(** The book [add_order] inserts into: the id removed when present. *)
Definition add_order_pre (order : Order.t) (b : OrderBook) : OrderBook :=
  match orders b !! Order.id order with
  | Some _ => (remove_order (Order.id order) b).2
  | None => b
  end.

Lemma add_order_unfold order b :
  add_order order b = (true, incr_sequence (insert_order order (add_order_pre order b))).
Proof. reflexivity. Qed.

Lemma insert_order_entries order b e :
  e ∈ book_entries (insert_order order b) <->
  e = (Order.side order, Order.price order, Order.id order) \/ e ∈ book_entries b.
Proof.
  unfold insert_order. rewrite book_entries_push, book_entries_set_orders.
  by rewrite elem_of_cons.
Qed.

Lemma insert_order_wf order b :
  book_wf b -> orders b !! Order.id order = None -> book_wf (insert_order order b).
Proof.
  intros Hb Hfresh.
  assert (Hlw := map_ladder_wf (Order.side order)
    (Ladder.push (Order.price order) (Order.id order))
    (set_orders (<[Order.id order := order]> (orders b)) b)
    (Ladder.push_wf _ _) (wf_bids _ Hb) (wf_asks _ Hb)).
  constructor; try apply Hlw.
  - unfold insert_order. rewrite book_entries_push, book_entries_set_orders. simpl.
    constructor; [by apply not_indexed_not_resting|apply Hb].
  - intros s p j. rewrite insert_order_entries, (wf_index _ Hb).
    unfold insert_order. rewrite orders_map_ladder. simpl.
    setoid_rewrite lookup_insert_Some. naive_solver.
  - intros j o. unfold insert_order. rewrite orders_map_ladder. simpl.
    rewrite lookup_insert_Some. intros [[<- <-]|[_ Hj]]; [done|].
    by apply (wf_keys _ Hb).
Qed.



Lemma add_order_pre_orders order b :
  orders (add_order_pre order b) = delete (Order.id order) (orders b).
Proof.
  unfold add_order_pre. destruct (orders b !! Order.id order) eqn:Hi.
  - apply remove_order_orders.
  - by rewrite delete_id.
Qed.

Lemma add_order_pre_wf order b : book_wf b -> book_wf (add_order_pre order b).
Proof.
  unfold add_order_pre. destruct (orders b !! Order.id order); [apply remove_order_wf|done].
Qed.

Lemma incr_sequence_wf b : book_wf b -> book_wf (incr_sequence b).
Proof. intros []. by constructor. Qed.

Lemma add_order_wf order b : book_wf b -> book_wf (add_order order b).2.
Proof.
  intros Hb. rewrite add_order_unfold. simpl.
  apply incr_sequence_wf, insert_order_wf.
  - apply add_order_pre_wf, Hb.
  - rewrite add_order_pre_orders. apply lookup_delete_eq.
Qed.

Lemma update_order_wf i q now b : book_wf b -> book_wf (update_order i q now b).2.
Proof.
  intros Hb. unfold update_order. case_decide; [by apply remove_order_wf|].
  destruct (orders b !! i) as [o|] eqn:Hi; [|done]. simpl.
  apply incr_sequence_wf. constructor; try apply Hb.
  - intros s p j. rewrite book_entries_set_orders, (wf_index _ Hb). simpl.
    destruct (decide (i = j)) as [<-|Hne].
    + rewrite lookup_insert_eq, Hi.
      split; intros (o' & [= <-] & Hs & Hp); eauto.
    + by rewrite lookup_insert_ne.
  - intros j o'. simpl. rewrite lookup_insert_Some.
    intros [[<- <-]|[_ Hj]]; simpl; by apply (wf_keys _ Hb).
Qed.

(** ** A decision procedure for the invariant *)

(** The resting entry [e] is indexed, at its side and price. *)
Definition entry_indexed (b : OrderBook) (e : Side * Z * string) : Prop :=
  match orders b !! e.2 with
  | Some o => Order.side o = e.1.1 /\ Order.price o = e.1.2
  | None => False
  end.

#[export] Instance entry_indexed_dec b e : Decision (entry_indexed b e).
Proof. unfold entry_indexed. destruct (orders b !! e.2); apply _. Defined.

(** A finite restatement of [book_wf]: both quantifications range over
    the entries and the index. *)
Definition book_wf_check (b : OrderBook) : Prop :=
  Ladder.wf (bids_by_price b) /\ Ladder.wf (asks_by_price b) /\
  NoDup (book_entries b).*2 /\
  Forall (entry_indexed b) (book_entries b) /\
  Forall (fun '(i, o) => (Order.side o, Order.price o, i) ∈ book_entries b /\ Order.id o = i)
    (map_to_list (orders b)).

Lemma book_wf_check_spec b : book_wf_check b <-> book_wf b.
Proof.
  unfold book_wf_check, entry_indexed. rewrite Forall_forall, Forall_forall.
  split.
  - intros (Hb & Ha & Hn & Hix & Hmap). constructor; try done.
    + intros s p i. split.
      * intros Hin. apply Hix in Hin. simpl in Hin.
        destruct (orders b !! i) eqn:?; naive_solver.
      * intros (o & Ho & <- & <-). apply elem_of_map_to_list in Ho.
        apply Hmap in Ho. naive_solver.
    + intros i o Ho. apply elem_of_map_to_list in Ho. apply Hmap in Ho. naive_solver.
  - intros Hwf. split_and!; try apply Hwf.
    + intros [[s p] i] Hin. simpl. apply (wf_index _ Hwf) in Hin as (o & -> & <- & <-). done.
    + intros [i o] Ho. apply elem_of_map_to_list in Ho. split.
      * apply (wf_index _ Hwf). eauto.
      * by apply (wf_keys _ Hwf).
Qed.

#[export] Instance book_wf_dec b : Decision (book_wf b).
Proof.
  destruct (decide (book_wf_check b)) as [H|H]; [left|right];
    rewrite <- book_wf_check_spec; done.
Defined.

Lemma new_wf sym : book_wf (new sym).
Proof. apply (bool_decide_unpack (book_wf (new sym))). vm_compute. exact I. Qed.

(** ** Entries and levels after each mutator *)

Lemma ladder_incr_sequence s b : ladder s (incr_sequence b) = ladder s b.
Proof. by destruct s. Qed.

(** A resting entry is an indexed order's. *)
Lemma resting_indexed b s p i :
  book_wf b -> (p, i) ∈ Ladder.entries (ladder s b) ->
  exists o, orders b !! i = Some o /\ Order.side o = s /\ Order.price o = p.
Proof. intros Hb Hin. apply (wf_index _ Hb), elem_of_book_entries, Hin. Qed.

Lemma entry_not_indexed b i e :
  book_wf b -> orders b !! i = None -> e ∈ book_entries b -> e.2 <> i.
Proof.
  intros Hb Hi Hin Heq. destruct e as [[s p] j]. simpl in Heq. subst j.
  apply (wf_index _ Hb) in Hin as (o & Ho & _). congruence.
Qed.

Lemma entry_of_id b i o e :
  book_wf b -> orders b !! i = Some o -> e ∈ book_entries b -> e.2 = i ->
  e = (Order.side o, Order.price o, i).
Proof.
  intros Hb Hi Hin Heq. destruct e as [[s p] j]. simpl in Heq. subst j.
  apply (wf_index _ Hb) in Hin as (o' & Ho & <- & <-). congruence.
Qed.

Lemma remove_order_entries_id i b e :
  book_wf b ->
  e ∈ book_entries (remove_order i b).2 <-> e ∈ book_entries b /\ e.2 <> i.
Proof.
  intros Hb. destruct (orders b !! i) as [o|] eqn:Hi.
  - rewrite remove_order_entries by done. split.
    + intros [Hin Hne]. split; [done|]. intros Heq. by eapply Hne, entry_of_id.
    + intros [Hin Hne]. split; [done|]. intros ->. by apply Hne.
  - rewrite remove_order_absent by done. split; [|tauto].
    intros Hin. split; [done|]. by eapply entry_not_indexed.
Qed.

Lemma add_order_orders order b :
  orders (add_order order b).2 = <[Order.id order := order]> (orders b).
Proof.
  rewrite add_order_unfold. unfold insert_order. simpl.
  rewrite orders_map_ladder. simpl. by rewrite add_order_pre_orders, insert_delete_eq.
Qed.

Lemma add_order_entries order b e :
  book_wf b ->
  e ∈ book_entries (add_order order b).2 <->
  e = (Order.side order, Order.price order, Order.id order) \/
  (e ∈ book_entries b /\ e.2 <> Order.id order).
Proof.
  intros Hb. rewrite add_order_unfold. simpl.
  rewrite book_entries_incr_sequence, insert_order_entries.
  unfold add_order_pre. destruct (orders b !! Order.id order) eqn:Hi.
  - by rewrite remove_order_entries_id.
  - split; intros [?|?]; auto; right; [|tauto].
    split; [done|]. by eapply entry_not_indexed.
Qed.

(** Every level loses [i] and nothing else under [remove_order i]. *)
Lemma get_remove_order i b s p :
  book_wf b ->
  Ladder.get p (ladder s (remove_order i b).2) = Ladder.drop_id i (Ladder.get p (ladder s b)).
Proof.
  intros Hb. pose proof (ladder_wf_of s b Hb) as Hl.
  assert (Hnot : forall o, orders b !! i = Some o -> (Order.side o, Order.price o) <> (s, p) ->
                 (p, i) ∉ Ladder.entries (ladder s b)).
  { intros o Hi Hne Hin. apply (resting_indexed _ _ _ _ Hb) in Hin as (o' & Ho' & <- & <-).
    congruence. }
  destruct (orders b !! i) as [o|] eqn:Hi.
  - unfold remove_order. rewrite Hi. simpl. rewrite ladder_incr_sequence.
    destruct (decide (Order.side o = s)) as [<-|Hs].
    + rewrite ladder_map_ladder_eq, ladder_set_orders, Ladder.get_retain_remove by done.
      case_decide as Hp; [by subst|].
      symmetry. apply Ladder.drop_id_notin; [done|]. apply (Hnot o); congruence.
    + rewrite ladder_map_ladder_ne, ladder_set_orders by done.
      symmetry. apply Ladder.drop_id_notin; [done|]. apply (Hnot o); congruence.
  - rewrite remove_order_absent by done. symmetry. apply Ladder.drop_id_notin; [done|].
    intros Hin. apply (resting_indexed _ _ _ _ Hb) in Hin as (o' & Ho' & _). congruence.
Qed.

Lemma get_add_order_pre order b s p :
  book_wf b ->
  Ladder.get p (ladder s (add_order_pre order b)) =
    Ladder.drop_id (Order.id order) (Ladder.get p (ladder s b)).
Proof.
  intros Hb. rewrite <- get_remove_order by done. unfold add_order_pre.
  destruct (orders b !! Order.id order) eqn:Hi; [done|].
  by rewrite remove_order_absent.
Qed.

Lemma filter_id_single (l : list (Side * Z * string)) x e0 :
  NoDup l.*2 -> (forall e, e ∈ l /\ e.2 = x <-> e = e0) ->
  filter (fun e => e.2 = x) l = [e0].
Proof.
  induction l as [|a l IH]; intros Hnd Hiff.
  - destruct (proj2 (Hiff e0) eq_refl) as [Hin _]. by apply not_elem_of_nil in Hin.
  - rewrite fmap_cons, NoDup_cons in Hnd. destruct Hnd as [Ha Hnd].
    rewrite filter_cons. case_decide as Hax.
    + assert (a = e0) as <- by (apply Hiff; split; [left|]; done).
      f_equal. apply filter_nil_Forall, Forall_forall. intros e He Hex.
      apply Ha, list_elem_of_fmap. exists e. split; [congruence|done].
    + apply IH; [done|]. intros e. rewrite <- Hiff, elem_of_cons.
      split; [tauto|]. intros [[->|?] ?]; [congruence|done].
Qed.

(** The mutators keep the book's symbol. *)
(** The symbol of a book never changes. *)
Ltac symbol_kept :=
  repeat (case_match || cbn [fst snd symbol incr_sequence set_orders] ||
          rewrite ?symbol_map_ladder); try done.

Lemma remove_order_symbol i b : symbol (remove_order i b).2 = symbol b.
Proof. unfold remove_order; symbol_kept. Qed.

Lemma add_order_symbol order b : symbol (add_order order b).2 = symbol b.
Proof. unfold add_order; symbol_kept; by rewrite ?remove_order_symbol. Qed.

Lemma update_order_symbol i q now b : symbol (update_order i q now b).2 = symbol b.
Proof. unfold update_order; case_decide; [apply remove_order_symbol|symbol_kept]. Qed.

#[export] Hint Rewrite remove_order_symbol add_order_symbol update_order_symbol : md_rw.

(** ** Reachable books *)

(** One mutation of the book, as the activity generator applies them. *)
Inductive book_step : OrderBook -> OrderBook -> Prop :=
  | step_add order b : book_step b (add_order order b).2
  | step_remove i b : book_step b (remove_order i b).2
  | step_update i q now b : book_step b (update_order i q now b).2.

(** The books reachable from [OrderBook::new(symbol)]. *)
Inductive reachable (sym : string) : OrderBook -> Prop :=
  | reach_new : reachable sym (new sym)
  | reach_step b b' : reachable sym b -> book_step b b' -> reachable sym b'.

(** ** Properties *)

(** C1: every book reachable from [OrderBook::new] by [add_order],
    [remove_order] and [update_order] satisfies the book invariant: the
    ladders are sorted without empty levels, every id rests in exactly one
    slot, and a slot rests an id exactly when the index holds an order
    with that side and price. *)
Theorem reachable_book_wf sym b : reachable sym b -> book_wf b.
Proof.
  induction 1 as [|b b' _ IH Hstep]; [apply new_wf|].
  destruct Hstep; auto using add_order_wf, remove_order_wf, update_order_wf.
Qed.

Lemma remove_order_sequence i b :
  sequence (remove_order i b).2 =
    if (remove_order i b).1 then add64 (sequence b) 1 else sequence b.
Proof.
  unfold remove_order. destruct (orders b !! i); simpl; [|done].
  by rewrite sequence_map_ladder.
Qed.

(** C3: [remove_order i] reports whether [i] was indexed, keeps the
    invariant, deletes [i] from the index and from the resting entries
    (and nothing else), takes [i] out of its level's queue, drops a level
    whose queue becomes empty, and counts one mutation exactly when [i]
    existed. *)
Theorem remove_order_spec i b :
  book_wf b ->
  let '(r, b') := remove_order i b in
  r = bool_decide (is_Some (orders b !! i)) /\ book_wf b' /\
  orders b' = delete i (orders b) /\
  (forall e, e ∈ book_entries b' <-> e ∈ book_entries b /\ e.2 <> i) /\
  (forall s p, Ladder.get p (ladder s b') = Ladder.drop_id i (Ladder.get p (ladder s b))) /\
  sequence b' = if r then add64 (sequence b) 1 else sequence b.
Proof.
  intros Hb. destruct (remove_order i b) as [r b'] eqn:Hrem.
  pose proof (remove_order_result i b) as Hr.
  pose proof (remove_order_wf i b Hb) as Hwf.
  pose proof (remove_order_orders i b) as Hord.
  pose proof (fun e => remove_order_entries_id i b e Hb) as Hent.
  pose proof (fun s p => get_remove_order i b s p Hb) as Hget.
  pose proof (remove_order_sequence i b) as Hseq.
  rewrite Hrem in Hr, Hwf, Hord, Hent, Hget, Hseq. simpl in *. done.
Qed.

(** C4: upsert law.  After [add_order] on a well-formed book the index
    maps the id to the new order and exactly one resting entry carries
    the id: the new order's side and price.  In particular adding an
    order whose id is already resting replaces it. *)
Theorem add_order_upsert order b :
  book_wf b ->
  let b' := (add_order order b).2 in
  orders b' !! Order.id order = Some order /\
  filter (fun e => e.2 = Order.id order) (book_entries b') =
    [(Order.side order, Order.price order, Order.id order)].
Proof.
  intros Hb b'. split.
  - unfold b'. by rewrite add_order_orders, lookup_insert_eq.
  - apply filter_id_single; [apply wf_nodup, add_order_wf, Hb|].
    intros e. unfold b'. rewrite add_order_entries by done.
    split; [intros [[->|[_ Hne]] Heq]; [done|congruence]|].
    intros ->. split; [by left|done].
Qed.

Lemma add_order_get order b s p :
  book_wf b ->
  Ladder.get p (ladder s (add_order order b).2) =
    if decide ((s, p) = (Order.side order, Order.price order))
    then Some (default [] (Ladder.drop_id (Order.id order) (Ladder.get p (ladder s b)))
               ++ [Order.id order])
    else Ladder.drop_id (Order.id order) (Ladder.get p (ladder s b)).
Proof.
  intros Hb. rewrite add_order_unfold. simpl. rewrite ladder_incr_sequence.
  unfold insert_order.
  pose proof (ladder_wf_of s _ (add_order_pre_wf order b Hb)) as Hl.
  destruct (decide (Order.side order = s)) as [<-|Hs].
  - rewrite ladder_map_ladder_eq, ladder_set_orders, Ladder.get_push by done.
    rewrite !get_add_order_pre by done.
    case_decide as Hp; [subst p; by rewrite decide_True|].
    rewrite decide_False; [done|congruence].
  - rewrite ladder_map_ladder_ne, ladder_set_orders, get_add_order_pre by done.
    rewrite decide_False; [done|congruence].
Qed.

(** C2: [add_order] on a well-formed book always succeeds, keeps the
    invariant, maps the id to the new order in the index, rests exactly
    the new (side, price, id) entry in place of any entry of the same id,
    and puts the id at the back of the queue of its price on its side,
    behind every other order resting there. *)
Theorem add_order_spec order b :
  book_wf b ->
  let '(r, b') := add_order order b in
  r = true /\ book_wf b' /\
  orders b' = <[Order.id order := order]> (orders b) /\
  (forall e, e ∈ book_entries b' <->
     e = (Order.side order, Order.price order, Order.id order) \/
     (e ∈ book_entries b /\ e.2 <> Order.id order)) /\
  (exists q, Ladder.get (Order.price order) (ladder (Order.side order) b') =
               Some (q ++ [Order.id order]) /\ Order.id order ∉ q).
Proof.
  intros Hb. destruct (add_order order b) as [r b'] eqn:Hadd.
  pose proof (add_order_wf order b Hb) as Hwf.
  pose proof (add_order_orders order b) as Hord.
  pose proof (fun e => add_order_entries order b e Hb) as Hent.
  pose proof (add_order_get order b (Order.side order) (Order.price order) Hb) as Hget.
  rewrite Hadd in Hwf, Hord, Hent, Hget. simpl in *. rewrite decide_True in Hget by done.
  split_and!; [|done..|].
  - by rewrite add_order_unfold in Hadd; simplify_eq.
  - eexists; split; [exact Hget|apply Ladder.drop_id_not_elem].
Qed.

(** C5: the levels after [add_order]: the order goes to the back of the
    queue of its price on its side (FIFO within a price); any earlier
    order with the same id leaves its queue, and a queue it leaves empty
    is removed.  The other levels are unchanged. *)
Theorem add_order_levels order b s p :
  book_wf b ->
  Ladder.get p (ladder s (add_order order b).2) =
    if decide ((s, p) = (Order.side order, Order.price order))
    then Some (default [] (Ladder.drop_id (Order.id order) (Ladder.get p (ladder s b)))
               ++ [Order.id order])
    else Ladder.drop_id (Order.id order) (Ladder.get p (ladder s b)).
Proof. apply add_order_get. Qed.

(** The sequence after [add_order]. *)
Lemma add_order_sequence_eq order b :
  sequence (add_order order b).2 =
    wrap64 (sequence b + match orders b !! Order.id order with Some _ => 2 | None => 1 end).
Proof.
  rewrite add_order_unfold. simpl. unfold insert_order.
  rewrite sequence_map_ladder. simpl. unfold add_order_pre.
  destruct (orders b !! Order.id order) eqn:Hi.
  - rewrite remove_order_sequence, remove_order_result, Hi. simpl.
    rewrite add64_add64. f_equal. lia.
  - reflexivity.
Qed.

(** C6: [add_order] counts two mutations, not one, when the id is already
    indexed: its internal [remove_order] increments the sequence before
    [add_order] increments it again.  The counter wraps modulo [2^64]. *)
Theorem add_order_sequence order b :
  sequence (add_order order b).2 =
    wrap64 (sequence b + match orders b !! Order.id order with Some _ => 2 | None => 1 end).
Proof. apply add_order_sequence_eq. Qed.

(** C7: [update_order i q] with [q = 0] is [remove_order i]; with [q > 0]
    and [i] indexed it sets the quantity and resets the timestamp, keeps
    the invariant, leaves both ladders (hence the order's queue position)
    unchanged and counts one mutation; with [i] unknown it changes
    nothing and returns [false]. *)
Theorem update_order_spec i q now b :
  book_wf b ->
  let '(r, b') := update_order i q now b in
  if decide (q = 0) then (r, b') = remove_order i b
  else match orders b !! i with
       | Some o =>
           r = true /\ book_wf b' /\
           orders b' = <[i := Order.update_quantity q now o]> (orders b) /\
           (forall s, ladder s b' = ladder s b) /\
           sequence b' = add64 (sequence b) 1
       | None => r = false /\ b' = b
       end.
Proof.
  intros Hb. pose proof (update_order_wf i q now b Hb) as Hwf.
  destruct (update_order i q now b) as [r b'] eqn:Hup.
  simpl in Hwf. unfold update_order in Hup.
  case_decide; [by rewrite Hup|].
  destruct (orders b !! i) eqn:Hi; simplify_eq/=; try done.
Qed.

(** ** Witnesses *)

(** The scenario of the spec: a bid [b1] at 100.00 for 500 and an ask
    [a1] at 100.05 for 300; [b1] is then re-added at 99.98 for 700. *)
Definition order_b1 : Order.t := Order.new "b1" 10000 500 Bid 0.
Definition order_a1 : Order.t := Order.new "a1" 10005 300 Ask 0.
Definition order_b1' : Order.t := Order.new "b1" 9998 700 Bid 5.

Definition book_b1_a1 : OrderBook :=
  (add_order order_a1 (add_order order_b1 (new "XYZ")).2).2.

Lemma reachable_book_wf_witness : reachable "XYZ" book_b1_a1 /\ book_wf book_b1_a1.
Proof.
  assert (H : reachable "XYZ" book_b1_a1).
  { eapply reach_step; [eapply reach_step; [apply reach_new|apply step_add]|apply step_add]. }
  split; [exact H|exact (reachable_book_wf "XYZ" book_b1_a1 H)].
Defined.

Lemma add_order_spec_witness :
  book_wf book_b1_a1 /\
  let '(r, b') := add_order order_b1' book_b1_a1 in
  r = true /\ book_wf b' /\
  orders b' = <[Order.id order_b1' := order_b1']> (orders book_b1_a1) /\
  (forall e, e ∈ book_entries b' <->
     e = (Order.side order_b1', Order.price order_b1', Order.id order_b1') \/
     (e ∈ book_entries book_b1_a1 /\ e.2 <> Order.id order_b1')) /\
  (exists q, Ladder.get (Order.price order_b1') (ladder (Order.side order_b1') b') =
               Some (q ++ [Order.id order_b1']) /\ Order.id order_b1' ∉ q).
Proof.
  assert (Hb : book_wf book_b1_a1) by by_decide.
  split; [exact Hb|exact (add_order_spec order_b1' book_b1_a1 Hb)].
Defined.

Lemma remove_order_spec_witness :
  book_wf book_b1_a1 /\
  let '(r, b') := remove_order "b1" book_b1_a1 in
  r = bool_decide (is_Some (orders book_b1_a1 !! "b1")) /\ book_wf b' /\
  orders b' = delete "b1" (orders book_b1_a1) /\
  (forall e, e ∈ book_entries b' <-> e ∈ book_entries book_b1_a1 /\ e.2 <> "b1") /\
  (forall s p, Ladder.get p (ladder s b') =
               Ladder.drop_id "b1" (Ladder.get p (ladder s book_b1_a1))) /\
  sequence b' = if r then add64 (sequence book_b1_a1) 1 else sequence book_b1_a1.
Proof.
  assert (Hb : book_wf book_b1_a1) by by_decide.
  split; [exact Hb|exact (remove_order_spec "b1" book_b1_a1 Hb)].
Defined.

(** Re-adding [b1] at another price leaves one entry for [b1], at 99.98. *)
Lemma add_order_upsert_witness :
  book_wf book_b1_a1 /\
  orders (add_order order_b1' book_b1_a1).2 !! "b1" = Some order_b1' /\
  filter (fun e => e.2 = "b1") (book_entries (add_order order_b1' book_b1_a1).2) =
    [(Bid, 9998, "b1")].
Proof.
  assert (Hb : book_wf book_b1_a1) by by_decide.
  split; [exact Hb|exact (add_order_upsert order_b1' book_b1_a1 Hb)].
Defined.

Lemma add_order_levels_witness :
  book_wf book_b1_a1 /\
  Ladder.get 10000 (ladder Bid (add_order order_b1' book_b1_a1).2) =
    Ladder.drop_id "b1" (Ladder.get 10000 (ladder Bid book_b1_a1)).
Proof.
  assert (Hb : book_wf book_b1_a1) by by_decide.
  split; [exact Hb|].
  rewrite (add_order_levels order_b1' book_b1_a1 Bid 10000 Hb).
  reflexivity.
Defined.

Lemma update_order_spec_witness :
  book_wf book_b1_a1 /\
  let '(r, b') := update_order "a1" 250 7 book_b1_a1 in
  r = true /\ book_wf b' /\
  orders b' = <["a1" := Order.update_quantity 250 7 order_a1]> (orders book_b1_a1) /\
  (forall s, ladder s b' = ladder s book_b1_a1) /\
  sequence b' = add64 (sequence book_b1_a1) 1.
Proof.
  assert (Hb : book_wf book_b1_a1) by by_decide.
  split; [exact Hb|].
  exact (update_order_spec "a1" 250 7 book_b1_a1 Hb).
Defined.

(** The replacing [add_order] of the scenario moves the counter from 2 to 4. *)
Example add_order_sequence_scenario :
  sequence book_b1_a1 = 2 /\ sequence (add_order order_b1' book_b1_a1).2 = 4.
Proof. split; reflexivity. Qed.
