(* ===== verification/Projection.v ===== *)
(** * Projection: the read-only views of [order_book.rs]

    [get_mbo_side] (market by order) and [get_mbp_side] (market by price)
    walk the levels of one side in price priority.  For bids this is
    [bids_by_price.iter().rev()] (highest price first); for asks it is
    [asks_by_price.iter()] (lowest first).  [get_mbo_data] and
    [get_mbp_data] pair the two sides.  [get_best_bid_ask] reads the first
    key of each ladder and [get_spread_info] derives spread, mid price and
    spread in basis points.

    The clock reading [now] is one argument of a projection (the source
    reads [Utc::now()] once per order in [age_ms]).  [max_levels] is a
    [u32]: [max_levels * 3] wraps modulo [2^32].  Quantities are summed
    with [u64] wrap-around.  The spread computation is on exact rationals
    ([Q]) over the hundredths of the model, where the source computes
    with [f64]. *)

From Stdlib Require Import QArith.
From S2P Require Import Prelude Message PriceLadder OrderBook.

(** The levels of a side in price priority: [iter().rev()] for bids,
    [iter()] for asks. *)
Definition side_levels (s : Side) (b : OrderBook) : Ladder.t :=
  match s with Bid => rev (bids_by_price b) | Ask => asks_by_price b end.

(** ** Market by order *)

(** The [MBOLevel] rendered for one order. *)
Definition mbo_level (now : Z) (o : Order.t) : MBOLevel.t :=
  MBOLevel.mk (Order.id o) (Order.price o) (Order.quantity o) (Order.side o)
    (Order.timestamp o) (Order.age_ms now o).

(** The inner loop: [for order_id in order_ids { if let Some(order) =
    self.orders.get(order_id) { result.push(..) } }]. *)
Fixpoint mbo_orders_at (b : OrderBook) (now : Z) (ids : list string) : list MBOLevel.t :=
  match ids with
  | [] => []
  | order_id :: ids' =>
      match orders b !! order_id with
      | Some order => mbo_level now order :: mbo_orders_at b now ids'
      | None => mbo_orders_at b now ids'
      end
  end.

(** The outer loop, with its [levels_count >= max_levels] break. *)
Fixpoint mbo_collect (b : OrderBook) (now max_levels levels_count : Z)
    (levels : Ladder.t) (result : list MBOLevel.t) : list MBOLevel.t :=
  match levels with
  | [] => result
  | (_, ids) :: rest =>
      if decide (max_levels <= levels_count) then result
      else mbo_collect b now max_levels (levels_count + 1) rest
             (result ++ mbo_orders_at b now ids)
  end.

(** [get_mbo_side], ending with [result.truncate((max_levels * 3) as usize)]. *)
Definition get_mbo_side (b : OrderBook) (s : Side) (max_levels now : Z) : list MBOLevel.t :=
  let result := mbo_collect b now max_levels 0 (side_levels s b) [] in
  take (Z.to_nat (max_levels *u32 3)%md) result.

Definition get_mbo_data (b : OrderBook) (max_levels now : Z) : list MBOLevel.t * list MBOLevel.t :=
  (get_mbo_side b Bid max_levels now, get_mbo_side b Ask max_levels now).

(** ** Market by price *)

(** One level of [get_mbp_side]: the orders found in the index, their
    [u64] quantity sum, their count as [u32] and their average age. *)
Fixpoint mbp_collect (b : OrderBook) (s : Side) (now : Z) (levels : Ladder.t)
    (cumulative_quantity : Z) : list MBPLevel.t :=
  match levels with
  | [] => []
  | (price_key, order_ids) :: rest =>
      let os := omap (fun id => orders b !! id) order_ids in
      if decide (os = []) then mbp_collect b s now rest cumulative_quantity
      else
        let quantity := sum64 Order.quantity os in
        let order_count := wrap32 (Z.of_nat (length os)) in
        let avg_age_ms := sum64 (Order.age_ms now) os / Z.of_nat (length os) in
        let cumulative_quantity := (cumulative_quantity +u64 quantity)%md in
        MBPLevel.mk price_key quantity order_count s cumulative_quantity avg_age_ms
          :: mbp_collect b s now rest cumulative_quantity
  end.

(** [get_mbp_side]: [prices.take(max_levels as usize)]. *)
Definition get_mbp_side (b : OrderBook) (s : Side) (max_levels now : Z) : list MBPLevel.t :=
  mbp_collect b s now (take (Z.to_nat max_levels) (side_levels s b)) 0.

Definition get_mbp_data (b : OrderBook) (max_levels now : Z) : list MBPLevel.t * list MBPLevel.t :=
  (get_mbp_side b Bid max_levels now, get_mbp_side b Ask max_levels now).

(** ** Top of the book *)

(** [get_best_bid_ask]: [bids_by_price.keys().next_back()] and
    [asks_by_price.keys().next()]. *)
Definition get_best_bid_ask (b : OrderBook) : option Z * option Z :=
  (Ladder.last_key (bids_by_price b), Ladder.first_key (asks_by_price b)).

(** A price of the model (hundredths) as a rational. *)
Definition price_Q (p : Z) : Q := inject_Z p / inject_Z 100.

(** [get_spread_info]: spread, mid price and spread in basis points. *)
Definition get_spread_info (b : OrderBook) : option Q * option Q * option Q :=
  match get_best_bid_ask b with
  | (Some bid, Some ask) =>
      let spread := (price_Q ask - price_Q bid)%Q in
      let mid_price := ((price_Q bid + price_Q ask) / 2)%Q in
      (Some spread, Some mid_price, Some (spread / mid_price * 10000)%Q)
  | _ => (None, None, None)
  end.

(** ** Lemmas: the levels of a side *)

Lemma elem_of_side_levels s b lv : lv ∈ side_levels s b <-> lv ∈ ladder s b.
Proof.
  destruct s; simpl; [|done].
  rewrite !list_elem_of_In. split; [apply in_rev|apply in_rev].
Qed.

Lemma keys_rev (l : Ladder.t) : Ladder.keys (rev l) = rev (Ladder.keys l).
Proof.
  unfold Ladder.keys. induction l as [|a l IH]; [done|].
  simpl. by rewrite fmap_app, IH.
Qed.

(** The price order of a side: bids from high to low, asks from low to high. *)
Definition price_priority (s : Side) (p q : Z) : Prop :=
  match s with Bid => q < p | Ask => p < q end.

Lemma side_levels_sorted s b :
  book_wf b -> StronglySorted (price_priority s) (Ladder.keys (side_levels s b)).
Proof.
  intros Hb. destruct s; simpl.
  - rewrite keys_rev. apply StronglySorted_rev, (wf_bids _ Hb).
  - apply (wf_asks _ Hb).
Qed.

(** Every id of a level of a well-formed book is indexed, at the level's
    side and price. *)
Lemma level_ids_indexed b s p ids i :
  book_wf b -> (p, ids) ∈ side_levels s b -> i ∈ ids ->
  exists o, orders b !! i = Some o /\ Order.id o = i /\ Order.side o = s /\ Order.price o = p.
Proof.
  intros Hb Hlv Hi. apply elem_of_side_levels in Hlv.
  assert (Hin : (p, i) ∈ Ladder.entries (ladder s b)) by (apply Ladder.elem_of_entries; eauto).
  apply (resting_indexed _ _ _ _ Hb) in Hin as (o & Ho & Hs & Hp).
  exists o. split_and!; try done. by apply (wf_keys _ Hb).
Qed.

Lemma level_nonempty b s p ids :
  book_wf b -> (p, ids) ∈ side_levels s b -> ids <> [].
Proof.
  intros Hb Hlv. apply elem_of_side_levels in Hlv.
  pose proof (ladder_wf_of s b Hb) as [_ Hne]. rewrite Forall_forall in Hne.
  by apply Hne in Hlv.
Qed.

(** ** Lemmas: market by order *)

Lemma mbo_collect_take b now K c levels acc :
  mbo_collect b now K c levels acc =
    acc ++ mjoin (mbo_orders_at b now <$> (snd <$> take (Z.to_nat (K - c)) levels)).
Proof.
  revert c acc. induction levels as [|[p ids] rest IH]; intros c acc; simpl.
  - by rewrite take_nil, app_nil_r.
  - case_decide as Hle.
    + replace (Z.to_nat (K - c)) with 0%nat by lia. simpl. by rewrite app_nil_r.
    + replace (Z.to_nat (K - c)) with (S (Z.to_nat (K - (c + 1)))) by lia.
      simpl. rewrite IH. by rewrite app_assoc.
Qed.

Lemma mbo_orders_at_ids b now ids :
  (forall i, i ∈ ids -> exists o, orders b !! i = Some o /\ Order.id o = i) ->
  MBOLevel.order_id <$> mbo_orders_at b now ids = ids.
Proof.
  induction ids as [|i ids IH]; intros Hix; [done|].
  destruct (Hix i (list_elem_of_here _ _)) as (o & Ho & Hid). cbn [mbo_orders_at].
  rewrite Ho, fmap_cons, IH; [by rewrite <- Hid|].
  intros j Hj. apply Hix. by apply elem_of_cons; right.
Qed.

Lemma mbo_orders_at_levels b now p s ids :
  (forall i, i ∈ ids -> exists o, orders b !! i = Some o /\ Order.side o = s /\ Order.price o = p) ->
  Forall (fun m => MBOLevel.price m = p /\ MBOLevel.side m = s) (mbo_orders_at b now ids).
Proof.
  induction ids as [|i ids IH]; intros Hix; cbn [mbo_orders_at]; [constructor|].
  destruct (Hix i (list_elem_of_here _ _)) as (o & Ho & Hs & Hp). rewrite Ho.
  constructor; [done|]. apply IH. intros j Hj. apply Hix. by apply elem_of_cons; right.
Qed.

Lemma mbo_join_ids b now s (L : Ladder.t) :
  book_wf b -> (forall lv, lv ∈ L -> lv ∈ side_levels s b) ->
  MBOLevel.order_id <$> mjoin (mbo_orders_at b now <$> (snd <$> L)) = mjoin (snd <$> L).
Proof.
  intros Hb. induction L as [|[p ids] L IH]; intros HL; [done|].
  rewrite !fmap_cons, !mjoin_cons, fmap_app, IH, mbo_orders_at_ids; [done| |].
  - intros i Hi. destruct (level_ids_indexed b s p ids i Hb) as (o & ? & ? & _); eauto.
    apply HL, list_elem_of_here.
  - intros lv Hlv. apply HL. by apply elem_of_cons; right.
Qed.

Lemma take_side_levels s b n lv : lv ∈ take n (side_levels s b) -> lv ∈ side_levels s b.
Proof. intros H. eapply elem_of_sublist; [exact H|apply sublist_take]. Qed.

Lemma mbo_join_levels b now s (L : Ladder.t) :
  book_wf b -> (forall lv, lv ∈ L -> lv ∈ side_levels s b) ->
  Forall (fun m => MBOLevel.side m = s /\ MBOLevel.price m ∈ Ladder.keys L)
    (mjoin (mbo_orders_at b now <$> (snd <$> L))).
Proof.
  intros Hb. unfold Ladder.keys.
  induction L as [|[p ids] L IH]; intros HL; [constructor|].
  rewrite !fmap_cons, mjoin_cons. apply Forall_app. split.
  - eapply Forall_impl; [apply (mbo_orders_at_levels b now p s ids)|].
    + intros i Hi. destruct (level_ids_indexed b s p ids i Hb) as (o & ? & _ & ? & ?); eauto.
      apply HL, list_elem_of_here.
    + intros m [-> ->]. split; [done|]. apply list_elem_of_here.
  - eapply Forall_impl; [apply IH|].
    + intros lv Hlv. apply HL. by apply elem_of_cons; right.
    + intros m [? ?]. split; [done|]. by apply elem_of_cons; right.
Qed.

(** ** Lemmas: market by price *)

Lemma length_omap_Some {A B} (f : A -> option B) (l : list A) :
  (forall x, x ∈ l -> is_Some (f x)) -> length (omap f l) = length l.
Proof.
  induction l as [|x l IH]; intros Hl; [done|]. rewrite omap_cons.
  destruct (Hl x (list_elem_of_here _ _)) as [y Hy]. rewrite Hy. cbn [length].
  rewrite IH; [done|]. intros z Hz. apply Hl. by apply elem_of_cons; right.
Qed.

(** Each row of [mbp_collect] is one level of the input, exactly. *)
Lemma mbp_collect_levels b s now (L : Ladder.t) acc :
  book_wf b -> (forall lv, lv ∈ L -> lv ∈ side_levels s b) ->
  Forall2 (fun lv m =>
      MBPLevel.price m = lv.1 /\ MBPLevel.side m = s /\
      MBPLevel.order_count m = wrap32 (Z.of_nat (length lv.2)) /\
      MBPLevel.quantity m = sum64 Order.quantity (omap (fun i => orders b !! i) lv.2))
    L (mbp_collect b s now L acc).
Proof.
  intros Hb. revert acc. induction L as [|[p ids] L IH]; intros acc HL; [constructor|].
  assert (Hlv : (p, ids) ∈ side_levels s b) by apply HL, list_elem_of_here.
  assert (Hlen : length (omap (fun i => orders b !! i) ids) = length ids).
  { apply length_omap_Some. intros i Hi.
    destruct (level_ids_indexed b s p ids i Hb Hlv Hi) as (o & -> & _). by eexists. }
  cbn [mbp_collect]. case_decide as Hnil.
  - exfalso. apply (level_nonempty b s p ids Hb Hlv).
    apply length_zero_iff_nil. by rewrite <- Hlen, Hnil.
  - constructor; [simpl; by rewrite Hlen|]. apply IH.
    intros lv Hin. apply HL. by apply elem_of_cons; right.
Qed.

Lemma mbp_collect_cumulative b s now L acc :
  is_u64 acc ->
  MBPLevel.total_quantity <$> mbp_collect b s now L acc =
    wrap64 <$> running_sum acc (MBPLevel.quantity <$> mbp_collect b s now L acc).
Proof.
  revert acc. induction L as [|[p ids] L IH]; intros acc Hacc; [done|].
  cbn [mbp_collect]. case_decide; [by apply IH|].
  rewrite !fmap_cons. cbn [running_sum MBPLevel.total_quantity MBPLevel.quantity].
  rewrite IH by apply wrap64_range. unfold add64.
  rewrite running_sum_wrap, fmap_cons. reflexivity.
Qed.

Lemma mbp_collect_quantity_nonneg b s now L acc :
  Forall (fun m => 0 <= MBPLevel.quantity m) (mbp_collect b s now L acc).
Proof.
  revert acc. induction L as [|[p ids] L IH]; intros acc; [constructor|].
  cbn [mbp_collect]. case_decide; [apply IH|].
  constructor; [|apply IH]. simpl. rewrite sum64_spec. apply wrap64_range.
Qed.

Lemma Forall2_fmap_eq {A B C} (f : B -> C) (g : A -> C) (L : list A) (M : list B) :
  Forall2 (fun a b => f b = g a) L M -> f <$> M = g <$> L.
Proof. induction 1; simpl; [done|]. by f_equal. Qed.

(** A price of the side's ladder is the price of a resting order. *)
Lemma keys_ladder_resting b s p :
  book_wf b ->
  p ∈ Ladder.keys (ladder s b) <->
  exists i o, orders b !! i = Some o /\ Order.side o = s /\ Order.price o = p.
Proof.
  intros Hb. split.
  - intros Hp. apply list_elem_of_fmap in Hp as ([p' ids] & -> & Hlv). simpl.
    apply elem_of_side_levels in Hlv.
    destruct ids as [|i ids]; [by apply level_nonempty in Hlv|].
    destruct (level_ids_indexed b s p' (i :: ids) i Hb Hlv (list_elem_of_here _ _))
      as (o & Ho & _ & Hs & Hpr). eauto.
  - intros (i & o & Ho & Hs & Hpr).
    assert (Hin : (s, p, i) ∈ book_entries b) by (apply (wf_index _ Hb); eauto).
    apply elem_of_book_entries, Ladder.entries_keys in Hin. done.
Qed.

(** ** Properties *)

Lemma Forall_mjoin_fmap {A B} (P : B -> Prop) (f : A -> list B) l :
  (forall x, Forall P (f x)) -> Forall P (mjoin (f <$> l)).
Proof.
  intros Hf. induction l as [|x l IH]; [constructor|].
  rewrite fmap_cons, mjoin_cons. apply Forall_app; auto.
Qed.

Lemma mbo_orders_at_resting b now ids :
  book_wf b ->
  Forall (fun m => exists o, orders b !! MBOLevel.order_id m = Some o /\ m = mbo_level now o)
    (mbo_orders_at b now ids).
Proof.
  intros Hb. induction ids as [|i ids IH]; simpl; [constructor|].
  destruct (orders b !! i) as [o|] eqn:Ho; [|done].
  constructor; [|done]. exists o; simpl. by rewrite (wf_keys _ Hb i o Ho).
Qed.

(** C8: market by order.  On a well-formed book the ids rendered by
    [get_mbo_side b s K] are the FIFO queues of the first [K] levels of
    the side, concatenated in price priority, cut to [(3 * K) mod 2^32]
    entries (the [u32] product of the source). *)
Theorem get_mbo_side_ids b s K now :
  book_wf b ->
  MBOLevel.order_id <$> get_mbo_side b s K now =
    take (Z.to_nat (K *u32 3)%md) (mjoin (snd <$> take (Z.to_nat K) (side_levels s b))).
Proof.
  intros Hb. unfold get_mbo_side.
  rewrite fmap_take, mbo_collect_take, Z.sub_0_r, app_nil_l.
  rewrite (mbo_join_ids b now s); [done|done|]. apply take_side_levels.
Qed.

(** C9: the bounds of market by order.  [get_mbo_side b s K] renders at
    most [(K * 3) mod 2^32] rows, the [u32] product its [truncate] uses
    (so a [K] whose product wraps renders fewer rows than [3K]), at most
    [K] distinct prices, and every row is the view [mbo_level] of an
    order resting in the index under the row's id, on side [s], at one of
    the first [K] prices of the side. *)
Theorem get_mbo_side_bounds b s K now :
  book_wf b ->
  (length (get_mbo_side b s K now) <= Z.to_nat (K *u32 3)%md)%nat /\
  Forall (fun m => exists o, orders b !! MBOLevel.order_id m = Some o /\ m = mbo_level now o /\
                   Order.side o = s /\
                   Order.price o ∈ Ladder.keys (take (Z.to_nat K) (side_levels s b)))
    (get_mbo_side b s K now) /\
  (size (list_to_set (MBOLevel.price <$> get_mbo_side b s K now) : gset Z) <= Z.to_nat K)%nat.
Proof.
  intros Hb.
  assert (Hall : Forall (fun m => MBOLevel.side m = s /\
                   MBOLevel.price m ∈ Ladder.keys (take (Z.to_nat K) (side_levels s b)))
                   (get_mbo_side b s K now)).
  { unfold get_mbo_side. rewrite mbo_collect_take, Z.sub_0_r, app_nil_l.
    apply Forall_take, mbo_join_levels; [done|]. apply take_side_levels. }
  assert (Hres : Forall (fun m => exists o, orders b !! MBOLevel.order_id m = Some o /\
                                            m = mbo_level now o) (get_mbo_side b s K now)).
  { unfold get_mbo_side. rewrite mbo_collect_take, Z.sub_0_r, app_nil_l.
    apply Forall_take, Forall_mjoin_fmap. intros ids. by apply mbo_orders_at_resting. }
  split_and!.
  - unfold get_mbo_side. rewrite length_take. lia.
  - rewrite Forall_forall in Hall, Hres |- *. intros m Hm.
    destruct (Hres m Hm) as (o & Ho & ->). destruct (Hall _ Hm) as [Hs Hp].
    exists o; simpl in *; naive_solver.
  - set (ks := Ladder.keys (take (Z.to_nat K) (side_levels s b))).
    assert (Hnd : NoDup ks).
    { apply (StronglySorted_NoDup (price_priority s)); [destruct s; simpl; lia|].
      eapply StronglySorted_sublist; [|apply (side_levels_sorted s b Hb)].
      unfold ks, Ladder.keys. rewrite fmap_take. apply sublist_take. }
    transitivity (size (list_to_set ks : gset Z)).
    + apply subseteq_size. intros x. rewrite !elem_of_list_to_set.
      intros (m & -> & Hm)%list_elem_of_fmap. rewrite Forall_forall in Hall.
      by apply Hall.
    + rewrite size_list_to_set by done. unfold ks, Ladder.keys.
      rewrite length_fmap, length_take. lia.
Qed.

(** Three bids: [v] (100 at 99.98), [w] (200 at 99.98), [x] (50 at 99.99). *)
Definition book_three_bids : OrderBook :=
  (add_order (Order.new "x" 9999 50 Bid 0)
    (add_order (Order.new "w" 9998 200 Bid 0)
      (add_order (Order.new "v" 9998 100 Bid 0) (new "S")).2).2).2.

(** C11: market by price.  On a well-formed book, [get_mbp_side b s K]
    has one row per level of the first [K] levels of the side, in price
    priority: the row has the level's price, the side, the number of
    orders of the level (as [u32]) and the [u64] sum of their quantities.
    Prices strictly decrease for bids and strictly increase for asks, and
    there are at most [K] rows. *)
Theorem get_mbp_side_levels b s K now :
  book_wf b ->
  Forall2 (fun lv m =>
      MBPLevel.price m = lv.1 /\ MBPLevel.side m = s /\
      MBPLevel.order_count m = wrap32 (Z.of_nat (length lv.2)) /\
      MBPLevel.quantity m = wrap64 (sumZ Order.quantity (omap (fun i => orders b !! i) lv.2)))
    (take (Z.to_nat K) (side_levels s b)) (get_mbp_side b s K now) /\
  StronglySorted (price_priority s) (MBPLevel.price <$> get_mbp_side b s K now) /\
  (length (get_mbp_side b s K now) <= Z.to_nat K)%nat.
Proof.
  intros Hb.
  pose proof (mbp_collect_levels b s now (take (Z.to_nat K) (side_levels s b)) 0 Hb
                (take_side_levels s b _)) as Hrows.
  fold (get_mbp_side b s K now) in Hrows.
  split_and!.
  - eapply Forall2_impl; [exact Hrows|]. intros lv m (? & ? & ? & Hq).
    by rewrite Hq, sum64_spec.
  - rewrite (Forall2_fmap_eq MBPLevel.price fst _ _ (Forall2_impl _ _ _ _ Hrows
              (fun lv m H => proj1 H))).
    eapply StronglySorted_sublist; [|apply (side_levels_sorted s b Hb)].
    unfold Ladder.keys. rewrite fmap_take. apply sublist_take.
  - rewrite <- (Forall2_length _ _ _ Hrows), length_take. lia.
Qed.

(** Below [2^64] the cumulative quantities are exact running sums. *)
Lemma mbp_cumulative_exact b s K now :
  sumZ MBPLevel.quantity (get_mbp_side b s K now) < 2 ^ 64 ->
  MBPLevel.total_quantity <$> get_mbp_side b s K now =
    running_sum 0 (MBPLevel.quantity <$> get_mbp_side b s K now) /\
  Sorted Z.le (MBPLevel.total_quantity <$> get_mbp_side b s K now).
Proof.
  intros Hsum.
  pose proof (mbp_collect_quantity_nonneg b s now
                (take (Z.to_nat K) (side_levels s b)) 0) as Hnn.
  fold (get_mbp_side b s K now) in Hnn.
  assert (Hnn' : Forall (fun x => 0 <= x) (MBPLevel.quantity <$> get_mbp_side b s K now))
    by (apply Forall_fmap; done).
  assert (Hexact : MBPLevel.total_quantity <$> get_mbp_side b s K now =
                   running_sum 0 (MBPLevel.quantity <$> get_mbp_side b s K now)).
  { unfold get_mbp_side at 1. rewrite mbp_collect_cumulative by (unfold is_u64; lia).
    fold (get_mbp_side b s K now).
    apply running_sum_small; [lia|done|].
    rewrite sumZ_id_fmap. lia. }
  split; [done|]. rewrite Hexact. by apply running_sum_sorted.
Qed.

(** C12: the cumulative quantity of each MBP row is the running sum of the
    per-level quantities, modulo [2^64] ([cumulative_quantity += quantity]
    on a [u64]); when the rendered quantities sum below [2^64] it is the
    exact running sum and never decreases, as the spec requires. *)
Theorem get_mbp_side_cumulative b s K now :
  MBPLevel.total_quantity <$> get_mbp_side b s K now =
    wrap64 <$> running_sum 0 (MBPLevel.quantity <$> get_mbp_side b s K now) /\
  (sumZ MBPLevel.quantity (get_mbp_side b s K now) < 2 ^ 64 ->
   MBPLevel.total_quantity <$> get_mbp_side b s K now =
     running_sum 0 (MBPLevel.quantity <$> get_mbp_side b s K now) /\
   Sorted Z.le (MBPLevel.total_quantity <$> get_mbp_side b s K now)).
Proof.
  split; [apply mbp_collect_cumulative; unfold is_u64; lia|].
  apply mbp_cumulative_exact.
Qed.


(** C14: the best bid is the highest price of a resting bid and the best
    ask the lowest price of a resting ask. *)
Theorem get_best_bid_ask_spec b p :
  book_wf b ->
  ((get_best_bid_ask b).1 = Some p <->
     (exists i o, orders b !! i = Some o /\ Order.side o = Bid /\ Order.price o = p) /\
     forall i o, orders b !! i = Some o -> Order.side o = Bid -> Order.price o <= p) /\
  ((get_best_bid_ask b).2 = Some p <->
     (exists i o, orders b !! i = Some o /\ Order.side o = Ask /\ Order.price o = p) /\
     forall i o, orders b !! i = Some o -> Order.side o = Ask -> p <= Order.price o).
Proof.
  intros Hb. simpl. split.
  - rewrite Ladder.last_key_spec by apply (wf_bids _ Hb).
    pose proof (keys_ladder_resting b Bid) as Hk. simpl in Hk.
    setoid_rewrite (Hk _ Hb). naive_solver.
  - rewrite Ladder.first_key_spec by apply (wf_asks _ Hb).
    pose proof (keys_ladder_resting b Ask) as Hk. simpl in Hk.
    setoid_rewrite (Hk _ Hb). naive_solver.
Qed.

(** The spread scenario of the spec: with a bid at 100.00 and an ask
    at 100.05 the spread is 0.05, the mid price 100.025 and the spread
    20000/4001 (about 4.999) basis points. *)
Example get_spread_info_scenario :
  get_best_bid_ask book_b1_a1 = (Some 10000, Some 10005) /\
  match get_spread_info book_b1_a1 with
  | (Some spread, Some mid, Some bps) =>
      (spread == 1 # 20)%Q /\ (mid == 4001 # 40)%Q /\ (bps == 20000 # 4001)%Q
  | _ => False
  end.
Proof. split; [reflexivity|]. vm_compute. split_and!; reflexivity. Qed.

(** The market-by-price scenario of the spec: bids at 99.98 (two
    orders, 100 and 200) and 99.99 (50); two levels of bids give
    [99.99 x 50 (1 order, cumulative 50)] then
    [99.98 x 300 (2 orders, cumulative 350)]. *)
Example get_mbp_side_scenario :
  get_mbp_side book_three_bids Bid 2 0 =
    [MBPLevel.mk 9999 50 1 Bid 50 0; MBPLevel.mk 9998 300 2 Bid 350 0].
Proof. vm_compute. reflexivity. Qed.

(** ** Witnesses *)

Lemma get_mbo_side_ids_witness :
  book_wf book_three_bids /\
  MBOLevel.order_id <$> get_mbo_side book_three_bids Bid 1 0 = ["x"].
Proof.
  assert (Hb : book_wf book_three_bids) by by_decide.
  split; [exact Hb|]. rewrite (get_mbo_side_ids book_three_bids Bid 1 0 Hb).
  vm_compute. reflexivity.
Defined.

(** With [K = 1431655766] the [u32] product [K * 3] is [2]: of the three
    bids resting on two levels, two rows are rendered. *)
Lemma get_mbo_side_bounds_witness :
  book_wf book_three_bids /\
  (1431655766 *u32 3)%md = 2 /\
  (length (get_mbo_side book_three_bids Bid 1431655766 0) <= Z.to_nat (1431655766 *u32 3)%md)%nat /\
  length (get_mbo_side book_three_bids Bid 1431655766 0) = 2%nat.
Proof.
  assert (Hb : book_wf book_three_bids) by by_decide.
  destruct (get_mbo_side_bounds book_three_bids Bid 1431655766 0 Hb) as (Hl & _ & _).
  split_and!; [exact Hb|vm_compute; reflexivity|exact Hl|vm_compute; reflexivity].
Defined.

Lemma get_mbp_side_levels_witness :
  book_wf book_three_bids /\
  StronglySorted (price_priority Bid) (MBPLevel.price <$> get_mbp_side book_three_bids Bid 5 0) /\
  (length (get_mbp_side book_three_bids Bid 5 0) <= Z.to_nat 5)%nat.
Proof.
  assert (Hb : book_wf book_three_bids) by by_decide.
  destruct (get_mbp_side_levels book_three_bids Bid 5 0 Hb) as (_ & Hs & Hl).
  split_and!; [exact Hb|exact Hs|exact Hl].
Defined.

Lemma get_mbp_side_cumulative_witness :
  sumZ MBPLevel.quantity (get_mbp_side book_three_bids Bid 2 0) < 2 ^ 64 /\
  Sorted Z.le (MBPLevel.total_quantity <$> get_mbp_side book_three_bids Bid 2 0).
Proof.
  assert (H : sumZ MBPLevel.quantity (get_mbp_side book_three_bids Bid 2 0) < 2 ^ 64)
    by (vm_compute; reflexivity).
  split; [exact H|exact (proj2 (proj2 (get_mbp_side_cumulative book_three_bids Bid 2 0) H))].
Defined.

Lemma get_best_bid_ask_spec_witness :
  book_wf book_b1_a1 /\
  (exists i o, orders book_b1_a1 !! i = Some o /\ Order.side o = Bid /\ Order.price o = 10000).
Proof.
  assert (Hb : book_wf book_b1_a1) by by_decide.
  split; [exact Hb|].
  apply (proj1 (proj1 (get_best_bid_ask_spec book_b1_a1 10000 Hb))). reflexivity.
Defined.
