(* ===== verification/Activity.v ===== *)
(** * Activity: the synthetic order flow of [order_book.rs]

    [simulate_activity] draws a batch size in [1..=8] and, that many
    times, generates an activity with [generate_random_activity] and
    applies it with [execute_activity].  [initialize_with_sample_data]
    seeds a new book with 30 bids and 30 asks.

    The random generator ([rand::thread_rng()]) is the interface
    [RandomSource]: each draw takes the generator's state and returns the
    value with the next state, so the draws are threaded in the order the
    source makes them.  [RandomSourceLaws] states the ranges [rand]
    guarantees; the theorems that depend on ranges assume it.
    [generate_random_activity] calls itself again when it draws an update
    or a cancel on an empty book; it takes a fuel argument and returns
    [OutOfFuel] when the fuel runs out.  It returns [Panic] where the
    source would panic (an index out of range).  Prices are hundredths:
    the [f64] computation of a new price is done on exact rationals and
    rounded with [f64::round]'s rule (half away from zero).
    [HashMap::keys] iterates in an unspecified order; the model uses the
    key order of [map_to_list]. *)

From Stdlib Require Import QArith Qround Qminmax Lqa.
From stdpp Require Import pretty.
From S2P Require Import Prelude Message PriceLadder OrderBook Projection.

(** ** The random source *)

(** The draws [simulate_activity] makes on [thread_rng()]. *)
Class RandomSource (R : Type) := {
  (** [rng.gen::<f64>()] *)
  gen_f64 : R -> Q * R;
  (** [rng.gen::<bool>()] *)
  gen_bool : R -> bool * R;
  (** [rng.gen_range(lo..=hi)] *)
  gen_range_incl : Z -> Z -> R -> Z * R;
  (** [rng.gen::<u32>()] *)
  gen_u32 : R -> Z * R
}.

(** [rng.gen_range(lo..hi)]: the exclusive range. *)
Definition gen_range_excl {R} `{RandomSource R} (lo hi : Z) (r : R) : Z * R :=
  gen_range_incl lo (hi - 1) r.

(** The ranges [rand] guarantees. *)
Class RandomSourceLaws (R : Type) `{RandomSource R} := {
  gen_f64_range : forall r, (0 <= (gen_f64 r).1 /\ (gen_f64 r).1 < 1)%Q;
  gen_range_incl_range : forall lo hi r, lo <= hi ->
    lo <= (gen_range_incl lo hi r).1 <= hi;
  gen_u32_range : forall r, 0 <= (gen_u32 r).1 < 2 ^ 32
}.

(** [f64::round]: half away from zero. *)
Definition f64_round (q : Q) : Z :=
  if Qle_bool 0 q then Qfloor (q + (1 # 2)) else - Qfloor (- q + (1 # 2)).

(** The result of a computation that can panic or run out of fuel. *)
Inductive outcome (A : Type) :=
  | Done (a : A)
  | Panic
  | OutOfFuel.
Arguments Done {A} a.
Arguments Panic {A}.
Arguments OutOfFuel {A}.

(** ** The generator *)

Section Generator.
Context {R : Type} `{RandomSource R}.

(** [generate_random_activity]: 40% new orders, 30% quantity updates
    and 30% cancellations; updates and cancellations need a non-empty
    book, otherwise the function draws again. *)
Fixpoint generate_random_activity (fuel : nat) (now : Z) (b : OrderBook) (r : R)
    : outcome (OrderActivity.t * R) :=
  match fuel with
  | O => OutOfFuel
  | S fuel' =>
      let '(best_bid, best_ask) := get_best_bid_ask b in
      let mid_price :=
        match best_bid, best_ask with
        | Some bid, Some ask => ((price_Q bid + price_Q ask) / 2)%Q
        | _, _ => 100%Q
        end in
      let '(activity_type_rand, r) := gen_f64 r in
      let '(coin, r) := gen_bool r in
      let side := if coin then Bid else Ask in
      if Qlt_le_dec activity_type_rand (4 # 10) then
        let base_price :=
          match side, best_bid, best_ask with
          | Bid, Some bid, _ => price_Q bid
          | Ask, _, Some ask => price_Q ask
          | _, _, _ => mid_price
          end in
        let '(u, r) := gen_f64 r in
        let price_variation := ((u - (1 # 2)) * (2 # 10))%Q in
        let price := Qmax (base_price + price_variation) (1 # 100) in
        let '(quantity, r) := gen_range_incl 1000 10000 r in
        let '(suffix, r) := gen_u32 r in
        Done (OrderActivity.mk Add
                ("order_" +:+ pretty now +:+ "_" +:+ pretty suffix)
                (symbol b) (Some (f64_round (price * 100)%Q)) (Some quantity)
                (Some side) now, r)
      else if (if Qlt_le_dec activity_type_rand (7 # 10) then true else false) &&
              negb (bool_decide (size (orders b) = 0%nat)) then
        let order_ids := (map_to_list (orders b)).*1 in
        let '(idx, r) := gen_range_excl 0 (Z.of_nat (length order_ids)) r in
        match order_ids !! Z.to_nat idx with
        | None => Panic
        | Some order_id =>
            match orders b !! order_id with
            | Some order =>
                let '(delta, r) := gen_range_incl (-2000) 1000 r in
                let new_quantity := Z.max 0 (Order.quantity order + delta) in
                Done (OrderActivity.mk
                        (if bool_decide (0 < new_quantity) then Update else Cancel)
                        order_id (symbol b) None
                        (if bool_decide (0 < new_quantity) then Some new_quantity else None)
                        None now, r)
            | None => generate_random_activity fuel' now b r
            end
        end
      else if negb (bool_decide (size (orders b) = 0%nat)) then
        let order_ids := (map_to_list (orders b)).*1 in
        let '(idx, r) := gen_range_excl 0 (Z.of_nat (length order_ids)) r in
        match order_ids !! Z.to_nat idx with
        | None => Panic
        | Some order_id =>
            Done (OrderActivity.mk Cancel order_id (symbol b) None None None now, r)
        end
      else generate_random_activity fuel' now b r
  end.

(** [execute_activity]. *)
Definition execute_activity (now : Z) (activity : OrderActivity.t) (b : OrderBook)
    : OrderBook :=
  match OrderActivity.activity_type activity with
  | Add =>
      match OrderActivity.price activity, OrderActivity.quantity activity,
            OrderActivity.side activity with
      | Some price, Some quantity, Some side =>
          (add_order (Order.new (OrderActivity.order_id activity) price quantity side now) b).2
      | _, _, _ => b
      end
  | Update =>
      match OrderActivity.quantity activity with
      | Some quantity => (update_order (OrderActivity.order_id activity) quantity now b).2
      | None => b
      end
  | Cancel => (remove_order (OrderActivity.order_id activity) b).2
  end.

(** The loop of [simulate_activity]: generate, record, execute. *)
Fixpoint simulate_loop (fuel n : nat) (now : Z) (b : OrderBook) (r : R)
    (activities : list OrderActivity.t) : outcome (list OrderActivity.t * OrderBook * R) :=
  match n with
  | O => Done (activities, b, r)
  | S n' =>
      match generate_random_activity fuel now b r with
      | Done (activity, r') =>
          simulate_loop fuel n' now (execute_activity now activity b) r'
            (activities ++ [activity])
      | Panic => Panic
      | OutOfFuel => OutOfFuel
      end
  end.

(** [simulate_activity]: [num_activities = rng.gen_range(1..=8)]. *)
Definition simulate_activity (fuel : nat) (now : Z) (b : OrderBook) (r : R)
    : outcome (list OrderActivity.t * OrderBook * R) :=
  let '(num_activities, r) := gen_range_incl 1 8 r in
  simulate_loop fuel (Z.to_nat num_activities) now b r [].

(** One seeded order of [initialize_with_sample_data]: the quantity is
    drawn first, then the age ([0..60000] ms). *)
Definition sample_order (id : string) (price : Z) (side : Side) (now : Z)
    (b : OrderBook) (r : R) : OrderBook * R :=
  let '(quantity, r) := gen_range_incl 1000 10000 r in
  let '(age, r) := gen_range_excl 0 60000 r in
  ((add_order (Order.mk id price quantity side (now - age) quantity) b).2, r).

(** [initialize_with_sample_data]: bid [i] at [100.0 - 0.05 - i * 0.01],
    then ask [i] at [100.0 + i * 0.01], for [i] in [0..30]. *)
Definition initialize_with_sample_data (now : Z) (b : OrderBook) (r : R) : OrderBook * R :=
  let '(b, r) :=
    foldl (fun '(b, r) i =>
             sample_order ("bid_" +:+ pretty (Z.of_nat i)) (10000 - 5 - Z.of_nat i) Bid now b r)
          (b, r) (seq 0 30) in
  foldl (fun '(b, r) i =>
           sample_order ("ask_" +:+ pretty (Z.of_nat i)) (10000 + Z.of_nat i) Ask now b r)
        (b, r) (seq 0 30).

End Generator.

(** ** A concrete source: a tape of integers *)

(** Each draw reads the head of the tape (0 once it is empty). *)
Definition tape_head (t : list Z) : Z * list Z :=
  match t with [] => (0, []) | z :: t' => (z, t') end.

#[export] Instance tape_random_source : RandomSource (list Z) := {
  gen_f64 t := let '(z, t') := tape_head t in (Z.modulo z 1000 # 1000, t');
  gen_bool t := let '(z, t') := tape_head t in (Z.odd z, t');
  gen_range_incl lo hi t :=
    let '(z, t') := tape_head t in (lo + Z.modulo z (Z.max 1 (hi - lo + 1)), t');
  gen_u32 t := let '(z, t') := tape_head t in (Z.modulo z (2 ^ 32), t')
}.

(** The tape's draws are in the ranges [rand] guarantees. *)
#[export] Instance tape_random_source_laws : RandomSourceLaws (list Z).
Proof.
  split.
  - intros t; simpl; destruct (tape_head t) as [z t']; simpl.
    unfold Qle, Qlt; simpl; pose proof (Z.mod_pos_bound z 1000); lia.
  - intros lo hi t Hle; simpl; destruct (tape_head t) as [z t']; simpl.
    pose proof (Z.mod_pos_bound z (Z.max 1 (hi - lo + 1))); lia.
  - intros t; simpl; destruct (tape_head t) as [z t']; simpl.
    pose proof (Z.mod_pos_bound z (2 ^ 32)); lia.
Qed.

(** ** Lemmas on the draws *)

Section Draws.
Context {R : Type} `{RandomSourceLaws R}.

Lemma f64_draw r x r' : gen_f64 r = (x, r') -> (0 <= x /\ x < 1)%Q.
Proof. intros E; pose proof (gen_f64_range r) as Hr; rewrite E in Hr; exact Hr. Qed.

Lemma range_draw lo hi r x r' :
  lo <= hi -> gen_range_incl lo hi r = (x, r') -> lo <= x <= hi.
Proof. intros Hle E; pose proof (gen_range_incl_range lo hi r Hle) as Hr; rewrite E in Hr; exact Hr. Qed.

Lemma range_excl_draw lo hi r x r' :
  lo < hi -> gen_range_excl lo hi r = (x, r') -> lo <= x < hi.
Proof. unfold gen_range_excl; intros Hlt E; apply range_draw in E; lia. Qed.
End Draws.

(** An index drawn in [0..len) of the key list finds an indexed order. *)
Lemma order_ids_lookup (m : gmap string Order.t) idx :
  0 <= idx < Z.of_nat (length (map_to_list m).*1) ->
  exists i o, (map_to_list m).*1 !! Z.to_nat idx = Some i /\ m !! i = Some o.
Proof.
  intros Hidx.
  destruct (lookup_lt_is_Some_2 ((map_to_list m).*1) (Z.to_nat idx)) as [i Hi]; [lia|].
  rewrite list_lookup_fmap in Hi.
  destruct (map_to_list m !! Z.to_nat idx) as [[k o]|] eqn:E; simplify_eq/=.
  exists i, o; split; [by rewrite list_lookup_fmap, E|].
  apply elem_of_map_to_list, list_elem_of_lookup_2 with (i := Z.to_nat idx), E.
Qed.

Lemma length_order_ids (m : gmap string Order.t) :
  length (map_to_list m).*1 = size m.
Proof. by rewrite length_fmap, length_map_to_list. Qed.

(** [f64::round] of a price of at least one cent, in cents, is at least 1. *)
Lemma f64_round_ge1 x : (1 # 100 <= x)%Q -> 1 <= f64_round (x * 100).
Proof.
  intros Hx; unfold f64_round.
  replace (Qle_bool 0 (x * 100)) with true by (symmetry; apply Qle_bool_iff; lra).
  change 1 with (Qfloor (inject_Z 1)) at 1; apply Qfloor_resp_le.
  unfold inject_Z; lra.
Qed.

(** ** Lemmas on execution *)

Lemma execute_activity_wf now a b : book_wf b -> book_wf (execute_activity now a b).
Proof.
  intros Hb; unfold execute_activity.
  repeat case_match; auto using add_order_wf, update_order_wf, remove_order_wf.
Qed.
#[export] Hint Resolve execute_activity_wf : md.

(** An activity removes at most one order from the index. *)
Lemma execute_activity_size now a b :
  (size (orders b) <= S (size (orders (execute_activity now a b))))%nat.
Proof.
  unfold execute_activity.
  repeat case_match; rewrite ?add_order_orders, ?remove_order_orders;
    try (unfold update_order; case_decide; [rewrite remove_order_orders|case_match; simpl]);
    rewrite ?map_size_insert, ?map_size_delete; repeat case_match; simpl; lia.
Qed.

Section Loop.
Context {R : Type} `{RandomSource R}.

(** The loop runs the generated activities in order, from the book it
    was given. *)
Lemma simulate_loop_run fuel n now b r acc acts b' r' :
  simulate_loop fuel n now b r acc = Done (acts, b', r') ->
  exists l, acts = acc ++ l /\ length l = n /\
    b' = foldl (fun b a => execute_activity now a b) b l.
Proof.
  revert b r acc; induction n as [|n IH]; intros b r acc Hs; simpl in Hs.
  - simplify_eq; exists []; by rewrite app_nil_r.
  - destruct (generate_random_activity fuel now b r) as [[a r1]| |]; try discriminate.
    destruct (IH _ _ _ Hs) as (l & -> & Hl & ->).
    exists (a :: l); rewrite <-app_assoc; simpl; auto.
Qed.

Lemma foldl_execute_wf now l b :
  book_wf b -> book_wf (foldl (fun b a => execute_activity now a b) b l).
Proof. revert b; induction l; simpl; auto with md. Qed.
(** A tick applies as many activities as its first draw says, in order. *)
Lemma simulate_activity_run fuel now b r acts b' r' :
  simulate_activity fuel now b r = Done (acts, b', r') ->
  length acts = Z.to_nat (gen_range_incl 1 8 r).1 /\
  b' = foldl (fun b a => execute_activity now a b) b acts.
Proof.
  unfold simulate_activity; destruct (gen_range_incl 1 8 r) as [n r1]; intros Hs.
  by destruct (simulate_loop_run _ _ _ _ _ _ _ _ _ Hs) as (l & -> & Hl & ->).
Qed.

Lemma simulate_activity_wf fuel now b r acts b' r' :
  book_wf b -> simulate_activity fuel now b r = Done (acts, b', r') -> book_wf b'.
Proof.
  intros Hb Hs; destruct (simulate_activity_run _ _ _ _ _ _ _ Hs) as [_ ->].
  by apply foldl_execute_wf.
Qed.
End Loop.

(** What [execute_activity] needs of a generated activity: a new order has
    a price of at least one cent, a quantity in [1000..=10000] and a side;
    an update names an indexed order and moves its quantity by
    [-2000..=1000] to a positive quantity; a cancellation names an indexed
    order.  The activity carries the book's symbol and the clock. *)
Definition activity_valid (b : OrderBook) (now : Z) (a : OrderActivity.t) : Prop :=
  OrderActivity.symbol a = symbol b /\ OrderActivity.timestamp a = now /\
  match OrderActivity.activity_type a with
  | Add => exists p q s, OrderActivity.price a = Some p /\ OrderActivity.quantity a = Some q /\
             OrderActivity.side a = Some s /\ 1 <= p /\ 1000 <= q <= 10000
  | Update => exists q o, OrderActivity.quantity a = Some q /\
             orders b !! OrderActivity.order_id a = Some o /\
             0 < q /\ Order.quantity o - 2000 <= q <= Order.quantity o + 1000
  | Cancel => is_Some (orders b !! OrderActivity.order_id a)
  end.

Section GeneratorLaws.
Context {R : Type} `{RandomSourceLaws R}.

Ltac gen_step Hg :=
  cbn [generate_random_activity] in Hg;
  destruct (get_best_bid_ask _) as [bb ba];
  destruct (gen_f64 _) as [t ?] eqn:Et in Hg;
  destruct (gen_bool _) as [coin ?] eqn:Ec in Hg;
  destruct (Qlt_le_dec t (4 # 10)) as [Hlt|Hge].

(** The generator never panics: the index it draws is in range. *)
Lemma generate_no_panic fuel now b r : generate_random_activity fuel now b r <> Panic.
Proof.
  revert r; induction fuel as [|fuel IH]; intros r Hg; [discriminate|].
  gen_step Hg.
  - repeat (case_match; simplify_eq).
  - destruct (_ && _) eqn:Eb; [|destruct (negb _) eqn:Eb']; try by eapply IH.
    + destruct (gen_range_excl _ _ _) as [idx r3] eqn:Ei.
      apply andb_prop in Eb as [_ Eb]; apply negb_true_iff, bool_decide_eq_false in Eb.
      apply range_excl_draw in Ei; [|rewrite length_order_ids; lia].
      destruct (order_ids_lookup (orders b) idx Ei) as (i & o & Hi & Ho).
      rewrite Hi, Ho in Hg. repeat (case_match; simplify_eq).
    + destruct (gen_range_excl _ _ _) as [idx r3] eqn:Ei.
      apply negb_true_iff, bool_decide_eq_false in Eb'.
      apply range_excl_draw in Ei; [|rewrite length_order_ids; lia].
      destruct (order_ids_lookup (orders b) idx Ei) as (i & o & Hi & Ho).
      rewrite Hi in Hg; discriminate.
Qed.

(** The draw of an index into a non-empty book's keys. *)
Lemma draw_order_id (b : OrderBook) r idx r' :
  size (orders b) <> 0%nat ->
  gen_range_excl 0 (Z.of_nat (length (map_to_list (orders b)).*1)) r = (idx, r') ->
  exists i o, (map_to_list (orders b)).*1 !! Z.to_nat idx = Some i /\ orders b !! i = Some o.
Proof.
  intros Hn Ei; apply order_ids_lookup.
  apply range_excl_draw in Ei; [exact Ei|rewrite length_order_ids; lia].
Qed.

(** On a book that holds an order the first draw decides: no retry. *)
Lemma generate_first_draw fuel now b r :
  size (orders b) <> 0%nat ->
  exists a r', generate_random_activity (S fuel) now b r = Done (a, r').
Proof.
  intros Hn; cbn [generate_random_activity].
  destruct (get_best_bid_ask _) as [bb ba].
  destruct (gen_f64 _) as [t r1], (gen_bool _) as [coin r2].
  destruct (Qlt_le_dec t (4 # 10)); [repeat case_match; eauto|].
  assert (Hsz : negb (bool_decide (size (orders b) = 0%nat)) = true)
    by (apply negb_true_iff, bool_decide_eq_false; done).
  rewrite Hsz, andb_true_r.
  destruct (Qlt_le_dec t (7 # 10)); simpl;
    destruct (gen_range_excl _ _ _) as [idx r3] eqn:Ei;
    destruct (draw_order_id b _ _ _ Hn Ei) as (i & o & -> & Ho);
    [rewrite Ho; destruct (gen_range_incl _ _ _)|]; eauto.
Qed.

(** A batch of [n] activities on a book of at least [n] orders never
    redraws: each activity removes at most one order, so the book is
    not empty before any of them. *)
Lemma simulate_loop_done fuel n now b r acc :
  (n <= size (orders b))%nat -> exists res, simulate_loop (S fuel) n now b r acc = Done res.
Proof.
  revert b r acc; induction n as [|n IH]; intros b r acc Hn; cbn [simulate_loop]; [by eexists|].
  destruct (generate_first_draw fuel now b r) as (a & r1 & ->); [lia|].
  apply IH. pose proof (execute_activity_size now a b); lia.
Qed.

Lemma simulate_activity_done fuel now b r :
  (8 <= size (orders b))%nat -> exists res, simulate_activity (S fuel) now b r = Done res.
Proof.
  intros Hn; unfold simulate_activity.
  destruct (gen_range_incl 1 8 r) as [k r1] eqn:Ek.
  apply range_draw in Ek; [|lia].
  apply simulate_loop_done; lia.
Qed.

(** C10: on a book that holds an order, [generate_random_activity]
    returns an activity at its first draw, with one unit of fuel: the
    retry of [order_book.rs] only happens on an empty book, so the retry
    loop ends and no fuel bound cuts a draw short. *)
Theorem generate_random_activity_live fuel now b r :
  size (orders b) <> 0%nat ->
  exists a r', generate_random_activity (S fuel) now b r = Done (a, r').
Proof. apply generate_first_draw. Qed.

(** C20: every activity [generate_random_activity] returns is one
    [execute_activity] can apply: a new order has a positive price and a
    quantity in [1000..=10000]; an update names an indexed order and
    moves its quantity by [-2000..=1000] to a positive quantity; a
    cancellation names an indexed order. *)
Theorem generate_random_activity_valid fuel now b r a r' :
  generate_random_activity fuel now b r = Done (a, r') -> activity_valid b now a.
Proof.
  revert r; induction fuel as [|fuel IH]; intros r Hg; [discriminate|].
  gen_step Hg.
  - destruct (gen_f64 _) as [u r3] eqn:Eu in Hg.
    destruct (gen_range_incl _ _ _) as [q r4] eqn:Eq in Hg.
    destruct (gen_u32 _) as [suffix r5] in Hg; simplify_eq.
    apply range_draw in Eq; [|lia].
    split_and!; try done; simpl; eexists _, _, _; split_and!; try done; try lia.
    apply f64_round_ge1, Q.le_max_r.
  - destruct (_ && _) eqn:Eb; [|destruct (negb _) eqn:Eb']; try by eapply IH.
    + destruct (gen_range_excl _ _ _) as [idx r3] eqn:Ei.
      destruct (_ !! Z.to_nat idx) as [i|]; [|discriminate].
      destruct (orders b !! i) as [o|] eqn:Ho; [|by eapply IH].
      destruct (gen_range_incl _ _ _) as [delta r4] eqn:Ed; simplify_eq.
      apply range_draw in Ed; [|lia].
      split_and!; try done; simpl.
      destruct (decide (0 < Z.max 0 (Order.quantity o + delta))) as [Hq|Hq];
        [rewrite !bool_decide_true by done|rewrite !bool_decide_false by done]; simpl.
      { exists (Z.max 0 (Order.quantity o + delta)), o; split_and!; try done; lia. }
      by rewrite Ho.
    + destruct (gen_range_excl _ _ _) as [idx r3] eqn:Ei.
      apply negb_true_iff, bool_decide_eq_false in Eb'.
      destruct (draw_order_id b _ _ _ Eb' Ei) as (i & o & Hi & Ho).
      rewrite Hi in Hg; simplify_eq; split_and!; try done; simpl; by rewrite Ho.
Qed.
End GeneratorLaws.

(** ** The seeded book does not depend on the draws *)

(** What the draws of [initialize_with_sample_data] do not change: the
    id, side and price of each indexed order, the ladders and the
    counter. *)
Definition book_shape (b : OrderBook) :=
  ((fun o => (Order.id o, Order.side o, Order.price o)) <$> orders b,
   bids_by_price b, asks_by_price b, sequence b).

Lemma book_shape_lookup b1 b2 i :
  book_shape b1 = book_shape b2 ->
  match orders b1 !! i, orders b2 !! i with
  | Some o1, Some o2 => Order.id o1 = Order.id o2 /\ Order.side o1 = Order.side o2 /\
                        Order.price o1 = Order.price o2
  | None, None => True
  | _, _ => False
  end.
Proof.
  intros Hs; injection Hs as Hm _ _ _.
  apply (f_equal (.!! i)) in Hm; rewrite !lookup_fmap in Hm.
  destruct (orders b1 !! i), (orders b2 !! i); simplify_eq/=; auto.
Qed.

Lemma book_shape_inv b1 b2 :
  book_shape b1 = book_shape b2 ->
  (fun o => (Order.id o, Order.side o, Order.price o)) <$> orders b1 =
    (fun o => (Order.id o, Order.side o, Order.price o)) <$> orders b2 /\
  bids_by_price b1 = bids_by_price b2 /\ asks_by_price b1 = asks_by_price b2 /\
  sequence b1 = sequence b2.
Proof. unfold book_shape; intros Hs; by simplify_eq. Qed.

Lemma remove_order_shape i b1 b2 :
  book_shape b1 = book_shape b2 ->
  book_shape (remove_order i b1).2 = book_shape (remove_order i b2).2.
Proof.
  intros Hs; pose proof (book_shape_lookup b1 b2 i Hs) as Hl.
  unfold remove_order.
  destruct (orders b1 !! i) as [o1|], (orders b2 !! i) as [o2|]; try done.
  destruct Hl as (_ & Hside & Hprice); rewrite <-Hside, <-Hprice.
  unfold book_shape in *; simplify_eq.
  destruct (Order.side o1); simpl; rewrite !fmap_delete; congruence.
Qed.

Lemma add_order_shape o1 o2 b1 b2 :
  book_shape b1 = book_shape b2 ->
  (Order.id o1, Order.side o1, Order.price o1) = (Order.id o2, Order.side o2, Order.price o2) ->
  book_shape (add_order o1 b1).2 = book_shape (add_order o2 b2).2.
Proof.
  intros Hs Ho; injection Ho as Hid Hside Hprice.
  assert (Hpre : book_shape (add_order_pre o1 b1) = book_shape (add_order_pre o2 b2)).
  { pose proof (book_shape_lookup b1 b2 (Order.id o2) Hs) as Hl.
    unfold add_order_pre; rewrite Hid.
    destruct (orders b1 !! _), (orders b2 !! _); try done; by apply remove_order_shape. }
  rewrite !add_order_unfold; revert Hpre.
  generalize (add_order_pre o1 b1) (add_order_pre o2 b2); intros c1 c2 Hc.
  unfold book_shape, insert_order in *; simplify_eq.
  destruct o1, o2; simpl in *; subst.
  match goal with s : Side |- _ => destruct s end; simpl; rewrite !fmap_insert; cbn [Order.id Order.side Order.price]; congruence.
Qed.

Section SampleShape.
Context {R1 R2 : Type} `{RandomSource R1} `{RandomSource R2}.

Lemma sample_order_shape i p s now1 now2 b1 b2 (r1 : R1) (r2 : R2) :
  book_shape b1 = book_shape b2 ->
  book_shape (sample_order i p s now1 b1 r1).1 = book_shape (sample_order i p s now2 b2 r2).1.
Proof.
  intros Hs; unfold sample_order.
  destruct (gen_range_incl 1000 10000 r1), (gen_range_incl 1000 10000 r2).
  destruct (gen_range_excl 0 60000 _), (gen_range_excl 0 60000 _).
  by apply add_order_shape.
Qed.

Lemma foldl_sample_shape (ids : nat -> string) (ps : nat -> Z) s now1 now2 l
    b1 b2 (r1 : R1) (r2 : R2) :
  book_shape b1 = book_shape b2 ->
  book_shape (foldl (fun '(b, r) i => sample_order (ids i) (ps i) s now1 b r) (b1, r1) l).1 =
  book_shape (foldl (fun '(b, r) i => sample_order (ids i) (ps i) s now2 b r) (b2, r2) l).1.
Proof.
  revert b1 b2 r1 r2; induction l as [|i l IH]; intros b1 b2 r1 r2 Hs; simpl; [done|].
  pose proof (sample_order_shape (ids i) (ps i) s now1 now2 b1 b2 r1 r2 Hs) as Hi.
  destruct (sample_order _ _ _ now1 b1 r1), (sample_order _ _ _ now2 b2 r2).
  by apply IH.
Qed.

(** The seeded book has the same shape for any two random sources,
    clocks and symbols. *)
Lemma initialize_shape now1 now2 sym1 sym2 (r1 : R1) (r2 : R2) :
  book_shape (initialize_with_sample_data now1 (new sym1) r1).1 =
  book_shape (initialize_with_sample_data now2 (new sym2) r2).1.
Proof.
  unfold initialize_with_sample_data.
  pose proof (foldl_sample_shape (fun i => "bid_" +:+ pretty (Z.of_nat i))
                (fun i => 10000 - 5 - Z.of_nat i) Bid now1 now2 (seq 0 30)
                (new sym1) (new sym2) r1 r2 eq_refl) as Hb.
  destruct (foldl _ (new sym1, r1) _) as [b1 r1'], (foldl _ (new sym2, r2) _) as [b2 r2'].
  by apply foldl_sample_shape.
Qed.
End SampleShape.

Section SampleWf.
Context {R : Type} `{RandomSource R}.

(** A property that [add_order] keeps holds of every seeded book. *)
Lemma foldl_sample_preserve (P : OrderBook -> Prop) (ids : nat -> string) (ps : nat -> Z)
    s now l b (r : R) :
  (forall o b, P b -> P (add_order o b).2) -> P b ->
  P (foldl (fun '(b, r) i => sample_order (ids i) (ps i) s now b r) (b, r) l).1.
Proof.
  intros HP; revert b r; induction l as [|i l IH]; intros b r Hb; simpl; [done|].
  unfold sample_order at 2.
  destruct (gen_range_incl _ _ r), (gen_range_excl _ _ _).
  apply IH, HP, Hb.
Qed.

Lemma initialize_with_sample_data_preserve (P : OrderBook -> Prop) now b (r : R) :
  (forall o b, P b -> P (add_order o b).2) -> P b ->
  P (initialize_with_sample_data now b r).1.
Proof.
  intros HP Hb; unfold initialize_with_sample_data.
  destruct (foldl _ (b, r) _) as [b1 r1] eqn:E1.
  apply foldl_sample_preserve; [done|].
  replace b1 with (foldl (fun '(b, r) i =>
      sample_order ("bid_" +:+ pretty (Z.of_nat i)) (10000 - 5 - Z.of_nat i) Bid now b r)
      (b, r) (seq 0 30)).1 by now rewrite E1.
  by apply foldl_sample_preserve.
Qed.

Lemma initialize_with_sample_data_wf now sym (r : R) :
  book_wf (initialize_with_sample_data now (new sym) r).1.
Proof. apply initialize_with_sample_data_preserve; [apply add_order_wf|apply new_wf]. Qed.

Lemma initialize_with_sample_data_symbol now sym (r : R) :
  symbol (initialize_with_sample_data now (new sym) r).1 = sym.
Proof.
  apply (initialize_with_sample_data_preserve (fun b => symbol b = sym)); [|done].
  intros o b <-; apply add_order_symbol.
Qed.
End SampleWf.

Lemma execute_activity_symbol now a b : symbol (execute_activity now a b) = symbol b.
Proof. unfold execute_activity; repeat case_match; by autorewrite with md_rw. Qed.

Lemma simulate_activity_symbol {R} `{RandomSource R} fuel now b (r : R) acts b' r' :
  simulate_activity fuel now b r = Done (acts, b', r') -> symbol b' = symbol b.
Proof.
  intros Hs; destruct (simulate_activity_run _ _ _ _ _ _ _ Hs) as [_ ->].
  clear Hs; revert b; induction acts; intros b; simpl; [done|].
  by rewrite IHacts, execute_activity_symbol.
Qed.

(** ** Properties of the synthetic order flow *)

Section ActivityClaims.
Context {R : Type} `{RandomSourceLaws R}.

(** C18: one tick of [simulate_activity] applies between 1 and 8
    generated activities, in order, with [execute_activity], and the
    book it leaves satisfies the book invariant when the book it was
    given did. *)
Theorem simulate_activity_spec fuel now b (r : R) acts b' r' :
  book_wf b ->
  simulate_activity fuel now b r = Done (acts, b', r') ->
  book_wf b' /\ (1 <= length acts <= 8)%nat /\
  b' = foldl (fun b a => execute_activity now a b) b acts.
Proof.
  intros Hb Hs; pose proof (simulate_activity_run _ _ _ _ _ _ _ Hs) as [Hl ->].
  pose proof (gen_range_incl_range 1 8 r ltac:(lia)).
  split_and!; [by apply foldl_execute_wf|lia|lia|done].
Qed.

(** C19: [simulate_activity] never panics: every index it draws into
    the book's keys is in range. *)
Theorem simulate_activity_no_panic fuel now b (r : R) :
  simulate_activity fuel now b r <> Panic.
Proof.
  unfold simulate_activity; destruct (gen_range_incl 1 8 r) as [n r1].
  generalize (@nil OrderActivity.t); revert b r1.
  induction (Z.to_nat n) as [|k IH]; intros b r1 acc; simpl; [done|].
  pose proof (generate_no_panic fuel now b r1).
  destruct (generate_random_activity fuel now b r1) as [[a r2]| |]; [apply IH|done|done].
Qed.

End ActivityClaims.

(** C21: whatever the random draws, [initialize_with_sample_data] on a
    new book gives a well-formed book with 60 orders on 30 bid and 30 ask
    levels, best bid 99.95 and best ask 100.00, and sequence 60. *)
Theorem initialize_with_sample_data_spec {R} `{RandomSource R} now sym (r : R) :
  let b := (initialize_with_sample_data now (new sym) r).1 in
  book_wf b /\ get_best_bid_ask b = (Some 9995%Z, Some 10000%Z) /\ get_sequence b = 60%Z /\
  size (orders b) = 60%nat /\ length (bids_by_price b) = 30%nat /\
  length (asks_by_price b) = 30%nat.
Proof.
  intros b.
  pose proof (initialize_shape (R2 := list Z) now 0 sym "" r []) as Hs.
  apply book_shape_inv in Hs as (Hm & Hbids & Hasks & Hseq).
  unfold get_best_bid_ask, get_sequence, b.
  rewrite <-(map_size_fmap (fun o => (Order.id o, Order.side o, Order.price o))).
  rewrite Hm, Hbids, Hasks, Hseq, map_size_fmap.
  split; [apply initialize_with_sample_data_wf|vm_compute; split_and!; reflexivity].
Qed.

(** ** Witnesses on a tape *)

(** A tick of four activities on [book_b1_a1]: a bid, an update of it, a
    cancellation of [a1] and an ask. *)
Definition tick_tape : list Z :=
  [3; 100; 1; 500; 1200; 77; 500; 0; 0; 300; 800; 0; 1; 100; 0; 900; 5000; 5].

Lemma book_b1_a1_wf : book_wf book_b1_a1.
Proof. by_decide. Qed.

Lemma simulate_activity_spec_witness :
  exists acts b' r', simulate_activity 4 7 book_b1_a1 tick_tape = Done (acts, b', r') /\
    book_wf b' /\ length acts = 4%nat.
Proof.
  destruct (simulate_activity 4 7 book_b1_a1 tick_tape) as [[[acts b'] r']| |] eqn:E;
    [|vm_compute in E; discriminate..].
  exists acts, b', r'; split; [reflexivity|].
  destruct (simulate_activity_spec 4 7 book_b1_a1 tick_tape acts b' r' book_b1_a1_wf E)
    as (Hwf & _ & _).
  split; [exact Hwf|]; vm_compute in E; simplify_eq; reflexivity.
Defined.

Lemma simulate_activity_no_panic_witness :
  simulate_activity 4 7 book_b1_a1 tick_tape <> Panic.
Proof. apply simulate_activity_no_panic. Defined.

Lemma generate_random_activity_live_witness :
  size (orders book_b1_a1) <> 0%nat /\
  exists a r', generate_random_activity 1 7 book_b1_a1 [600; 0; 0; 0] = Done (a, r').
Proof.
  split; [vm_compute; lia|].
  apply (generate_random_activity_live 0 7 book_b1_a1 [600; 0; 0; 0]); vm_compute; lia.
Defined.

Lemma generate_random_activity_valid_witness :
  exists a r', generate_random_activity 1 7 book_b1_a1 [100; 1; 500; 0; 77] = Done (a, r') /\
    activity_valid book_b1_a1 7 a.
Proof.
  destruct (generate_random_activity 1 7 book_b1_a1 [100; 1; 500; 0; 77])
    as [[a r']| |] eqn:E; [|vm_compute in E; discriminate..].
  exists a, r'; split; [reflexivity|].
  exact (generate_random_activity_valid 1 7 book_b1_a1 _ a r' E).
Defined.
