(* ===== verification/Text.v ===== *)
(** * Text: the string functions of Rust's standard library that the
    SSE front end calls

    [str::split(char)], [str::trim], [str::to_uppercase], [u32::to_string]
    (the [Display] of [u32]) and [str::parse::<u32>], on [string].  The
    model covers ASCII text: [trim] removes the ASCII characters that
    [char::is_whitespace] accepts and [to_uppercase] maps [a..z] to
    [A..Z].  The lemmas relate them: splitting a joined list, trimming a
    trimmed string, parsing a printed number. *)

From Stdlib Require Import Ascii DecimalString DecimalN.
From S2P Require Import Prelude.



(** The characters of a string. *)
Abbreviation chars := String.list_ascii_of_string.

(** [s.split(c)]: the pieces between the separators, empty ones included;
    the empty string gives one empty piece. *)
Fixpoint split (c : Ascii.ascii) (s : string) : list string :=
  match s with
  | EmptyString => [EmptyString]
  | String a s' =>
      let rest := split c s' in
      if decide (a = c) then EmptyString :: rest
      else match rest with
           | [] => [String a EmptyString]
           | h :: t => String a h :: t
           end
  end.

(** The inverse of [split]: [pieces.join(c)]. *)
Fixpoint join (c : Ascii.ascii) (l : list string) : string :=
  match l with
  | [] => EmptyString
  | [p] => p
  | p :: ps => p +:+ String c (join c ps)
  end.

(** [char::is_whitespace] on ASCII: space, tab, line feed, vertical tab,
    form feed, carriage return. *)
Definition is_whitespace (a : Ascii.ascii) : Prop :=
  a ∈ [" "; "009"; "010"; "011"; "012"; "013"]%char.

#[export] Instance is_whitespace_dec a : Decision (is_whitespace a).
Proof. unfold is_whitespace; apply _. Defined.

Fixpoint trim_start (s : string) : string :=
  match s with
  | EmptyString => EmptyString
  | String a s' => if decide (is_whitespace a) then trim_start s' else s
  end.

Definition rev_string (s : string) : string := String.string_of_list_ascii (rev (chars s)).

(** [s.trim()]. *)
Definition trim (s : string) : string := rev_string (trim_start (rev_string (trim_start s))).

(** [char::to_ascii_uppercase]. *)
Definition ascii_upper (a : Ascii.ascii) : ascii :=
  let n := Ascii.nat_of_ascii a in
  if decide (97 <= n <= 122)%nat then Ascii.ascii_of_nat (n - 32) else a.

(** [s.to_uppercase()]. *)
Fixpoint to_uppercase (s : string) : string :=
  match s with
  | EmptyString => EmptyString
  | String a s' => String (ascii_upper a) (to_uppercase s')
  end.

(** [n.to_string()] for a [u32]: decimal digits, no leading zero. *)
Definition display_u32 (n : Z) : string := NilZero.string_of_uint (N.to_uint (Z.to_N n)).

(** [s.parse::<u32>()]: an optional [+], then at least one decimal digit,
    and a value below [2^32]. *)
Definition parse_u32 (s : string) : option Z :=
  let digits := match s with
                | String a s' => if decide (a = "+"%char) then s' else s
                | EmptyString => s
                end in
  match NilZero.uint_of_string digits with
  | Some d => let n := Z.of_N (N.of_uint d) in if decide (n < 2 ^ 32) then Some n else None
  | None => None
  end.

Definition is_digit (a : Ascii.ascii) : Prop :=
  a ∈ ["0"; "1"; "2"; "3"; "4"; "5"; "6"; "7"; "8"; "9"]%char.

(** ** Lemmas *)

Lemma chars_app s1 s2 : chars (s1 +:+ s2) = chars s1 ++ chars s2.
Proof. induction s1; simpl; by f_equal. Qed.

Lemma chars_inj s1 s2 : chars s1 = chars s2 -> s1 = s2.
Proof.
  intros H; rewrite <-(String.string_of_list_ascii_of_string s1), H.
  apply String.string_of_list_ascii_of_string.
Qed.

Lemma split_sep c p s : c ∉ chars p -> split c (p +:+ String c s) = p :: split c s.
Proof.
  induction p as [|a p IH]; intros Hc; simpl.
  - by rewrite decide_True.
  - rewrite decide_False by (intros ->; apply Hc; left).
    rewrite IH by (intros ?; apply Hc; by right). done.
Qed.

Lemma split_no_sep c p : c ∉ chars p -> split c p = [p].
Proof.
  induction p as [|a p IH]; intros Hc; simpl; [done|].
  rewrite decide_False by (intros ->; apply Hc; left).
  rewrite IH by (intros ?; apply Hc; by right). done.
Qed.

(** Splitting a joined list gives the list back when no piece holds the
    separator. *)
Lemma split_not_nil c s : split c s <> [].
Proof. destruct s as [|a s]; simpl; [done|]. case_decide; [done|]. by destruct (split c s). Qed.

(** A trailing separator ends the pieces with an empty one. *)
Lemma split_trailing c s : split c (s +:+ String c EmptyString) = split c s ++ [EmptyString].
Proof.
  induction s as [|a s IH]; simpl; [by rewrite decide_True|].
  rewrite IH; case_decide; [done|].
  pose proof (split_not_nil c s) as Hne; by destruct (split c s).
Qed.

Lemma split_join c ps :
  ps <> [] -> Forall (fun p => c ∉ chars p) ps -> split c (join c ps) = ps.
Proof.
  induction ps as [|p ps IH]; intros Hne Hps; [done|].
  apply Forall_cons in Hps as [Hp Hps].
  destruct ps as [|p' ps]; simpl; [by apply split_no_sep|].
  rewrite split_sep by done. f_equal. by apply IH.
Qed.

Lemma string_of_uint_digits d : Forall is_digit (chars (NilEmpty.string_of_uint d)).
Proof.
  induction d; simpl; [constructor|..]; (constructor; [unfold is_digit; set_solver|exact IHd]).
Qed.

Lemma display_u32_digits n : Forall is_digit (chars (display_u32 n)).
Proof.
  unfold display_u32, NilZero.string_of_uint.
  destruct (N.to_uint (Z.to_N n)); try apply string_of_uint_digits.
  constructor; [unfold is_digit; set_solver|constructor].
Qed.

Lemma to_uint_not_nil (m : N) : N.to_uint m <> Decimal.Nil.
Proof.
  intros E; pose proof (DecimalN.Unsigned.of_to m) as Hm; rewrite E in Hm.
  simpl in Hm; subst m; discriminate E.
Qed.

(** Parsing a printed [u32] gives it back. *)
Lemma parse_display_u32 n : 0 <= n < 2 ^ 32 -> parse_u32 (display_u32 n) = Some n.
Proof.
  intros Hn; unfold parse_u32.
  assert (Hdig := display_u32_digits n).
  assert (Hplus : match display_u32 n with
                  | String a s' => if decide (a = "+"%char) then s' else display_u32 n
                  | EmptyString => display_u32 n
                  end = display_u32 n).
  { destruct (display_u32 n) as [|a s'] eqn:E; [done|].
    apply Forall_cons in Hdig as [Ha _]; rewrite decide_False; [done|].
    intros ->; unfold is_digit in Ha; set_solver. }
  rewrite Hplus; unfold display_u32.
  rewrite NilZero.usu by apply to_uint_not_nil.
  rewrite DecimalN.Unsigned.of_to, Z2N.id by lia.
  by rewrite decide_True by lia.
Qed.

(** A separator that occurs in neither tail splits a string at one place. *)
Lemma app_sep_inj c a b p q :
  c ∉ chars p -> c ∉ chars q -> a +:+ String c p = b +:+ String c q -> a = b /\ p = q.
Proof.
  intros Hp Hq E; apply (f_equal chars) in E; rewrite !chars_app in E; simpl in E.
  apply app_eq_app in E as [k [[E1 E2]|[E1 E2]]].
  - destruct k as [|x k]; simpl in *.
    + rewrite app_nil_r in E1; simplify_eq; split; [by apply chars_inj|by apply chars_inj].
    + injection E2 as -> E2; exfalso; first [apply Hp; rewrite E2 | apply Hq; rewrite E2]; set_solver.
  - destruct k as [|x k]; simpl in *.
    + rewrite app_nil_r in E1; simplify_eq; split; [by apply chars_inj|by apply chars_inj].
    + injection E2 as -> E2; exfalso; first [apply Hp; rewrite E2 | apply Hq; rewrite E2]; set_solver.
Qed.

Lemma rev_string_involutive s : rev_string (rev_string s) = s.
Proof.
  apply chars_inj; unfold rev_string.
  by rewrite !String.list_ascii_of_string_of_list_ascii, rev_involutive.
Qed.

Lemma trim_start_id s :
  from_option (fun a => ~ is_whitespace a) True (head (chars s)) -> trim_start s = s.
Proof. destruct s as [|a s]; simpl; [done|]. intros Ha; by rewrite decide_False. Qed.

(** A string that neither starts nor ends with whitespace is trimmed. *)
Lemma trim_id s :
  from_option (fun a => ~ is_whitespace a) True (head (chars s)) ->
  from_option (fun a => ~ is_whitespace a) True (last (chars s)) ->
  trim s = s.
Proof.
  intros Hh Hl; unfold trim; rewrite (trim_start_id s) by done.
  rewrite (trim_start_id (rev_string s)); [apply rev_string_involutive|].
  unfold rev_string; rewrite String.list_ascii_of_string_of_list_ascii, head_rev; done.
Qed.

Lemma string_app_cons x a b : String x a +:+ b = String x (a +:+ b).
Proof. reflexivity. Qed.

Lemma string_app_assoc a b c : a +:+ (b +:+ c) = (a +:+ b) +:+ c.
Proof. induction a as [|x a IH]; [done|]. by rewrite !string_app_cons, IH. Qed.

(** [u32::to_string] is injective. *)
Lemma display_u32_inj m1 m2 : 0 <= m1 -> 0 <= m2 -> display_u32 m1 = display_u32 m2 -> m1 = m2.
Proof.
  intros H1 H2 E; apply (f_equal NilZero.uint_of_string) in E; unfold display_u32 in E.
  rewrite !NilZero.usu in E by apply to_uint_not_nil.
  injection E as E%DecimalN.Unsigned.to_uint_inj; by apply Z2N.inj in E.
Qed.

Lemma display_u32_nonempty n : display_u32 n <> EmptyString.
Proof.
  unfold display_u32, NilZero.string_of_uint.
  destruct (N.to_uint (Z.to_N n)); simpl; discriminate.
Qed.

(** A character that is not a digit does not occur in a printed number. *)
Lemma display_u32_not_elem c n : ~ is_digit c -> c ∉ chars (display_u32 n).
Proof.
  intros Hc Hin; pose proof (display_u32_digits n) as Hd.
  rewrite Forall_forall in Hd; by apply Hc, Hd.
Qed.
