(* ===== verification/Json.v ===== *)
(** * Json: the JSON values that [serde_json] builds, and its printer

    The wire format of both front ends is the text [serde_json::to_string]
    prints from the derived [Serialize] impls of [message.rs]; this file
    holds the library side of it, which the sources only call.
    - [json] is the value type: [JNum] an integer literal (the [u64], [u32]
      and [i64] numbers), [JFloat m e] the decimal [m * 10^e] (an [f64]),
      and the usual null, booleans, strings, arrays and objects.  Objects
      are association lists: their fields keep the order the derive writes
      them in, and a parsed object may repeat a key.
    - [emit] is the compact formatter of [serde_json::to_string]: no
      whitespace, [,] between elements, [:] after a key, and string escapes
      as serde_json writes them (backslash before a quote or a backslash, [\b], [\t], [\n], [\f], [\r],
      [\u00XX] in lowercase hex for the other control bytes; bytes from
      [0x20] up, [0x7f] and UTF-8 bytes included, pass unchanged).
    - Floats print as [ryu] prints them through serde_json: the shortest
      decimal with at least one digit after the point.  For the
      hundredths the model uses for prices this is the decimal expansion
      with the trailing zeros of the fraction dropped ([12.5], [12.0]),
      exact while the price has at most 15 significant digits.

    The lemma [emit_printable] shows that printed JSON holds no control
    byte, hence no line break: it is the fact the SSE framing relies on. *)

From Stdlib Require Import Ascii DecimalString.
From S2P Require Import Prelude Text.

Inductive json :=
  | JNull
  | JBool (b : bool)
  | JNum (n : Z)
  | JFloat (m e : Z)
  | JStr (s : string)
  | JArr (l : list json)
  | JObj (fields : list (string * json)).

(** Induction with the hypothesis on every element and field, as for
    nested inductive types. *)
Definition json_nested_ind (P : json -> Prop)
    (fnull : P JNull) (fbool : forall b, P (JBool b)) (fnum : forall n, P (JNum n))
    (ffloat : forall m e, P (JFloat m e)) (fstr : forall s, P (JStr s))
    (farr : forall l, Forall P l -> P (JArr l))
    (fobj : forall fs, Forall (fun kv => P kv.2) fs -> P (JObj fs)) : forall j, P j :=
  fix F j :=
    match j return P j with
    | JNull => fnull
    | JBool b => fbool b
    | JNum n => fnum n
    | JFloat m e => ffloat m e
    | JStr s => fstr s
    | JArr l => farr l ((fix G l : Forall P l :=
                          match l with
                          | [] => Forall_nil_2 _
                          | x :: l' => Forall_cons_2 _ _ _ (F x) (G l')
                          end) l)
    | JObj fs => fobj fs ((fix G fs : Forall (fun kv => P kv.2) fs :=
                            match fs with
                            | [] => Forall_nil_2 _
                            | kv :: fs' => Forall_cons_2 _ _ _ (F kv.2) (G fs')
                            end) fs)
    end.

(** ** The compact printer *)

Definition dquote : ascii := Ascii.ascii_of_nat 34.
Definition bslash : ascii := Ascii.ascii_of_nat 92.
Definition newline : ascii := Ascii.ascii_of_nat 10.

Definition hex_digit (n : nat) : ascii := nth n (chars "0123456789abcdef") "0"%char.

(** serde_json's [ESCAPE] table and [write_char_escape]. *)
Definition escape_char (c : ascii) : list ascii :=
  let n := Ascii.nat_of_ascii c in
  if decide (c = dquote) then [bslash; dquote]
  else if decide (c = bslash) then [bslash; bslash]
  else if decide (n = 8%nat) then [bslash; "b"%char]
  else if decide (n = 9%nat) then [bslash; "t"%char]
  else if decide (n = 10%nat) then [bslash; "n"%char]
  else if decide (n = 12%nat) then [bslash; "f"%char]
  else if decide (n = 13%nat) then [bslash; "r"%char]
  else if decide (n < 32)%nat then
    [bslash; "u"%char; "0"%char; "0"%char; hex_digit (n / 16); hex_digit (n mod 16)]
  else [c].

Definition emit_string (s : string) : list ascii :=
  dquote :: mjoin (escape_char <$> chars s) ++ [dquote].

Definition emit_digits (n : N) : list ascii := chars (NilZero.string_of_uint (N.to_uint n)).

(** [itoa]: an optional minus sign, then the decimal digits. *)
Definition emit_int (z : Z) : list ascii :=
  if decide (z < 0) then "-"%char :: emit_digits (Z.to_N (- z)) else emit_digits (Z.to_N z).

(** [ryu] on [m * 10^e]: the digits of [m] placed around the point,
    padded with zeros so that both sides have at least one digit. *)
Definition emit_float (m e : Z) : list ascii :=
  let sign := if decide (m < 0) then ["-"%char] else [] in
  let ds := emit_digits (Z.to_N (Z.abs m)) in
  sign ++
  if decide (0 <= e) then ds ++ repeat "0"%char (Z.to_nat e) ++ [".";"0"]%char
  else
    let k := Z.to_nat (- e) in
    let ds' := repeat "0"%char (S k - length ds) ++ ds in
    take (length ds' - k) ds' ++ "."%char :: drop (length ds' - k) ds'.

Fixpoint sep_by (c : ascii) (l : list (list ascii)) : list ascii :=
  match l with
  | [] => []
  | [x] => x
  | x :: l' => x ++ c :: sep_by c l'
  end.

Fixpoint emit (j : json) : list ascii :=
  match j with
  | JNull => chars "null"
  | JBool b => chars (if b then "true" else "false")
  | JNum n => emit_int n
  | JFloat m e => emit_float m e
  | JStr s => emit_string s
  | JArr l => "["%char :: sep_by ","%char (map emit l) ++ ["]"%char]
  | JObj fs =>
      "{"%char :: sep_by ","%char (map (fun kv => emit_string kv.1 ++ ":"%char :: emit kv.2) fs)
        ++ ["}"%char]
  end.

(** [serde_json::to_string]. *)
Definition to_string (j : json) : string := String.string_of_list_ascii (emit j).

(** A byte that is not a control byte. *)
Definition printable (c : ascii) : Prop := (32 <= Ascii.nat_of_ascii c)%nat.

#[export] Instance printable_dec c : Decision (printable c).
Proof. unfold printable; apply _. Defined.

(** ** Lemmas *)

Ltac printable_lit := unfold printable; vm_compute; lia.

Lemma hex_digit_printable n : printable (hex_digit n).
Proof.
  unfold hex_digit; destruct (decide (n < 16)%nat) as [Hn|Hn].
  - assert (Hall : Forall printable (chars "0123456789abcdef")) by (repeat constructor; printable_lit).
    rewrite Forall_forall in Hall; apply Hall, list_elem_of_In, nth_In; simpl; lia.
  - rewrite nth_overflow by (simpl; lia); printable_lit.
Qed.

Lemma escape_char_printable c : Forall printable (escape_char c).
Proof.
  unfold escape_char.
  repeat case_decide; repeat constructor; try (printable_lit);
    try apply hex_digit_printable.
  unfold printable; lia.
Qed.

Lemma emit_string_printable s : Forall printable (emit_string s).
Proof.
  unfold emit_string. constructor; [printable_lit|].
  apply Forall_app; split; [|repeat constructor; printable_lit].
  induction (chars s) as [|c cs IH]; simpl; [constructor|].
  apply Forall_app; split; [apply escape_char_printable|exact IH].
Qed.

Lemma emit_digits_printable n : Forall printable (emit_digits n).
Proof.
  pose proof (display_u32_digits (Z.of_N n)) as Hd.
  unfold display_u32 in Hd; rewrite N2Z.id in Hd.
  eapply Forall_impl; [exact Hd|].
  intros c Hc; unfold is_digit in Hc; unfold printable.
  repeat (apply elem_of_cons in Hc as [->|Hc]; [vm_compute; lia|]); set_solver.
Qed.

#[local] Hint Resolve emit_digits_printable emit_string_printable : md.

Lemma repeat_printable c k : printable c -> Forall printable (repeat c k).
Proof. intros Hc; induction k; simpl; constructor; auto. Qed.

Lemma emit_float_printable m e : Forall printable (emit_float m e).
Proof.
  assert (H0 : printable "0"%char) by (printable_lit).
  assert (Hd : printable "."%char) by (printable_lit).
  unfold emit_float; apply Forall_app; split.
  { case_decide; repeat constructor; printable_lit. }
  pose proof (emit_digits_printable (Z.to_N (Z.abs m))) as Hds.
  case_decide.
  - rewrite !Forall_app; split_and!; [done|by apply repeat_printable|repeat constructor; done].
  - set (ds' := repeat _ _ ++ _).
    assert (Forall printable ds') by (apply Forall_app; split; [by apply repeat_printable|done]).
    apply Forall_app; split; [by apply Forall_take|constructor; [done|by apply Forall_drop]].
Qed.

Lemma sep_by_Forall (P : ascii -> Prop) c l :
  P c -> Forall (Forall P) l -> Forall P (sep_by c l).
Proof.
  intros Hc; induction l as [|x l IH]; intros Hl; [constructor|].
  apply Forall_cons in Hl as [Hx Hl].
  destruct l as [|y l]; [done|]. simpl.
  apply Forall_app; split; [done|constructor; [done|by apply IH]].
Qed.

(** Printed JSON holds no control byte: string contents are escaped and
    numbers are digits, signs and points. *)
Lemma emit_printable j : Forall printable (emit j).
Proof.
  induction j as [| b | n | m e | s | l IH | fs IH] using json_nested_ind; simpl.
  - repeat constructor; printable_lit.
  - destruct b; repeat constructor; printable_lit.
  - unfold emit_int; case_decide; [constructor; [printable_lit|]|];
      apply emit_digits_printable.
  - apply emit_float_printable.
  - apply emit_string_printable.
  - constructor; [printable_lit|].
    apply Forall_app; split; [|repeat constructor; printable_lit].
    apply sep_by_Forall; [printable_lit|].
    by apply Forall_fmap.
  - constructor; [printable_lit|].
    apply Forall_app; split; [|repeat constructor; printable_lit].
    apply sep_by_Forall; [printable_lit|].
    apply Forall_fmap; eapply Forall_impl; [exact IH|]; intros kv Hkv.
    change (Forall printable (emit_string kv.1 ++ ":"%char :: emit kv.2)).
    apply Forall_app; split; [apply emit_string_printable|].
    constructor; [printable_lit|exact Hkv].
Qed.

Lemma to_string_chars j : chars (to_string j) = emit j.
Proof. apply String.list_ascii_of_string_of_list_ascii. Qed.
