(* ===== verification/JsonText.v ===== *)
(** * JsonText: the reader of [serde_json::from_str]

    The WebSocket front end reads every text frame with
    [serde_json::from_str::<ClientMessage>] ([websocket_handler.rs],
    line 145).  This file models the JSON grammar serde_json accepts and
    the values it builds (library code):
    - whitespace is space, tab, line feed and carriage return;
    - a number is [-]? ([0] | [1-9][0-9]* ), then an optional fraction
      and exponent; a leading zero followed by a digit is an error; an
      integer is a [u64] ([JNum]) when it fits, a negative one an [i64]
      when it fits, anything else (a fraction, an exponent, [-0], an
      integer out of range) an [f64] ([JFloat], kept exact: its rounding
      and range are not modelled);
    - a string may hold any byte from [0x20] up; the escapes are the
      backslash before [dquote], backslash, slash, [b], [f], [n], [r],
      [t], and [u] with four hex digits, a leading surrogate having to be
      followed by an escaped trailing one; the code point is written as
      UTF-8;
    - arrays and objects nest at most 127 deep (serde_json's recursion
      limit of 128); objects keep every member in order, duplicates
      included; after the value only whitespace may follow.
    The recursive descent has fuel; [from_str] gives it twice the length
    of the text plus two.  Every successful step leaves a strictly shorter
    rest ([parse_suffix]), so that much fuel is enough: more fuel gives
    the same result ([parse_fuel_enough]), a read that succeeds with some
    fuel succeeds with more ([parse_fuel_mono]), and [from_str_total]
    concludes that [from_str] accepts exactly what the reader with
    unbounded fuel accepts.  The round trip
    [from_str_to_string] shows the reader reads back what [Json.emit]
    prints, for every value without floats that the limits allow. *)

From Stdlib Require Import Ascii DecimalString DecimalN DecimalFacts.
From S2P Require Import Prelude Text Json.

Definition is_ws (c : ascii) : Prop := c ∈ [" "; "009"; "010"; "013"]%char.

#[export] Instance is_ws_dec c : Decision (is_ws c).
Proof. unfold is_ws; apply _. Defined.

Fixpoint skip_ws (l : list ascii) : list ascii :=
  match l with
  | c :: l' => if decide (is_ws c) then skip_ws l' else l
  | [] => []
  end.

(** The longest prefix of digits. *)
Fixpoint span_digits (l : list ascii) : list ascii * list ascii :=
  match l with
  | c :: l' =>
      if decide (is_digit c) then let '(ds, r) := span_digits l' in (c :: ds, r) else ([], l)
  | [] => ([], [])
  end.

Definition digits_value (ds : list ascii) : Z :=
  from_option (fun d => Z.of_N (N.of_uint d)) 0
    (NilZero.uint_of_string (String.string_of_list_ascii ds)).

(** Trailing zeros of a decimal mantissa moved into the exponent. *)
Fixpoint strip_zeros (fuel : nat) (m e : Z) : Z * Z :=
  match fuel with
  | O => (m, e)
  | S f => if decide (m <> 0 /\ m mod 10 = 0) then strip_zeros f (m / 10) (e + 1) else (m, e)
  end.

Definition float_json (m e : Z) (fuel : nat) : json :=
  if decide (m = 0) then JFloat 0 0 else let '(m', e') := strip_zeros fuel m e in JFloat m' e'.

(** [e] or [E], an optional sign and at least one digit. *)
Definition parse_exponent (l : list ascii) : option (option Z * list ascii) :=
  match l with
  | c :: l' =>
      if decide (c = "e"%char \/ c = "E"%char) then
        let '(sg, l'') := match l' with
                          | "+"%char :: r => (1, r)
                          | "-"%char :: r => (-1, r)
                          | _ => (1, l')
                          end in
        let '(ds, r) := span_digits l'' in
        if decide (ds = []) then None else Some (Some (sg * digits_value ds), r)
      else Some (None, l)
  | [] => Some (None, [])
  end.

(** A [0] followed by more digits. *)
Definition leading_zero (ip : list ascii) : bool :=
  match ip with c :: _ :: _ => bool_decide (c = "0"%char) | _ => false end.

(** serde_json's [parse_number] and [parse_integer]. *)
Definition parse_number (l : list ascii) : option (json * list ascii) :=
  let '(neg, l) := match l with "-"%char :: l' => (true, l') | _ => (false, l) end in
  let '(ip, l) := span_digits l in
  if decide (ip = []) then None
  else if leading_zero ip then None
  else
      '(fp, l) ← (match l with
                  | "."%char :: l' =>
                      let '(fp, r) := span_digits l' in
                      if decide (fp = []) then None else Some (Some fp, r)
                  | _ => Some (None, l)
                  end);
      '(ex, l) ← parse_exponent l;
      let sign := if neg then -1 else 1 in
      match fp, ex with
      | None, None =>
          let v := digits_value ip in
          if neg then
            (if decide (v <> 0 /\ v <= 2 ^ 63) then Some (JNum (- v), l)
             else Some (float_json (- v) 0 (length ip), l))
          else if decide (v < 2 ^ 64) then Some (JNum v, l)
          else Some (float_json v 0 (length ip), l)
      | _, _ =>
          let fd := default [] fp in
          Some (float_json (sign * digits_value (ip ++ fd))
                  (default 0 ex - Z.of_nat (length fd)) (length ip + length fd), l)
      end.

(** ** Strings *)

Definition hex_val (c : ascii) : option Z :=
  let n := Z.of_nat (Ascii.nat_of_ascii c) in
  if decide (48 <= n <= 57) then Some (n - 48)
  else if decide (97 <= n <= 102) then Some (n - 87)
  else if decide (65 <= n <= 70) then Some (n - 55)
  else None.

Definition hex4 (a b c d : ascii) : option Z :=
  x1 ← hex_val a; x2 ← hex_val b; x3 ← hex_val c; x4 ← hex_val d;
  Some (((x1 * 16 + x2) * 16 + x3) * 16 + x4).

Definition byte (n : Z) : ascii := Ascii.ascii_of_nat (Z.to_nat n).

(** The UTF-8 bytes of a code point. *)
Definition utf8 (cp : Z) : list ascii :=
  if decide (cp < 128) then [byte cp]
  else if decide (cp < 2048) then [byte (192 + cp / 64); byte (128 + cp mod 64)]
  else if decide (cp < 65536) then
    [byte (224 + cp / 4096); byte (128 + cp / 64 mod 64); byte (128 + cp mod 64)]
  else [byte (240 + cp / 262144); byte (128 + cp / 4096 mod 64); byte (128 + cp / 64 mod 64);
        byte (128 + cp mod 64)].

(** The single-character escapes. *)
Definition simple_escape (e : ascii) : option ascii :=
  if decide (e = dquote) then Some dquote
  else if decide (e = bslash) then Some bslash
  else if decide (e = "/"%char) then Some "/"%char
  else if decide (e = "b"%char) then Some (Ascii.ascii_of_nat 8)
  else if decide (e = "f"%char) then Some (Ascii.ascii_of_nat 12)
  else if decide (e = "n"%char) then Some newline
  else if decide (e = "r"%char) then Some (Ascii.ascii_of_nat 13)
  else if decide (e = "t"%char) then Some (Ascii.ascii_of_nat 9)
  else None.

(** The body of a string after its opening quote; [acc] holds the bytes
    read so far, reversed. *)
Fixpoint parse_string_body (l : list ascii) (acc : list ascii) : option (string * list ascii) :=
  match l with
  | [] => None
  | c :: l' =>
      if decide (c = dquote) then Some (String.string_of_list_ascii (rev acc), l')
      else if decide (c = bslash) then
        match l' with
        | "u"%char :: g1 :: g2 :: g3 :: g4 :: l'' =>
            cp ← hex4 g1 g2 g3 g4;
            if decide (55296 <= cp <= 56319) then
              match l'' with
              | e1 :: "u"%char :: h1 :: h2 :: h3 :: h4 :: l3 =>
                  if decide (e1 = bslash) then
                    lo ← hex4 h1 h2 h3 h4;
                    if decide (56320 <= lo <= 57343) then
                      parse_string_body l3
                        (rev (utf8 (65536 + (cp - 55296) * 1024 + (lo - 56320))) ++ acc)
                    else None
                  else None
              | _ => None
              end
            else if decide (56320 <= cp <= 57343) then None
            else parse_string_body l'' (rev (utf8 cp) ++ acc)
        | e :: l'' => x ← simple_escape e; parse_string_body l'' (x :: acc)
        | [] => None
        end
      else if decide (Ascii.nat_of_ascii c < 32)%nat then None
      else parse_string_body l' (c :: acc)
  end.

(** ** Values *)

(** [remaining] is serde_json's [remaining_depth]: entering an array or
    an object lowers it, and reaching zero is an error. *)
Fixpoint parse_value (fuel remaining : nat) (l : list ascii) : option (json * list ascii) :=
  match fuel with
  | O => None
  | S fuel =>
      match skip_ws l with
      | "n"%char :: "u"%char :: "l"%char :: "l"%char :: r => Some (JNull, r)
      | "t"%char :: "r"%char :: "u"%char :: "e"%char :: r => Some (JBool true, r)
      | "f"%char :: "a"%char :: "l"%char :: "s"%char :: "e"%char :: r => Some (JBool false, r)
      | "["%char :: r =>
          match remaining with
          | O | S O => None
          | S d =>
              match skip_ws r with
              | "]"%char :: r' => Some (JArr [], r')
              | _ => parse_elems fuel d r []
              end
          end
      | "{"%char :: r =>
          match remaining with
          | O | S O => None
          | S d =>
              match skip_ws r with
              | "}"%char :: r' => Some (JObj [], r')
              | _ => parse_members fuel d r []
              end
          end
      | c :: r =>
          if decide (c = dquote) then '(s, r') ← parse_string_body r []; Some (JStr s, r')
          else if decide (c = "-"%char \/ is_digit c) then parse_number (c :: r)
          else None
      | [] => None
      end
  end
with parse_elems (fuel remaining : nat) (l : list ascii) (acc : list json)
    : option (json * list ascii) :=
  match fuel with
  | O => None
  | S fuel =>
      '(v, r) ← parse_value fuel remaining l;
      match skip_ws r with
      | ","%char :: r' => parse_elems fuel remaining r' (v :: acc)
      | "]"%char :: r' => Some (JArr (rev (v :: acc)), r')
      | _ => None
      end
  end
with parse_members (fuel remaining : nat) (l : list ascii) (acc : list (string * json))
    : option (json * list ascii) :=
  match fuel with
  | O => None
  | S fuel =>
      match skip_ws l with
      | c :: r =>
          if decide (c = dquote) then
            '(k, r) ← parse_string_body r [];
            match skip_ws r with
            | ":"%char :: r =>
                '(v, r) ← parse_value fuel remaining r;
                match skip_ws r with
                | ","%char :: r' => parse_members fuel remaining r' ((k, v) :: acc)
                | "}"%char :: r' => Some (JObj (rev ((k, v) :: acc)), r')
                | _ => None
                end
            | _ => None
            end
          else None
      | [] => None
      end
  end.

(** [serde_json::from_str]: one value, then only whitespace. *)
Definition from_str (s : string) : option json :=
  let l := chars s in
  '(v, r) ← parse_value (2 * length l + 2) 128 l;
  if decide (skip_ws r = []) then Some v else None.

(** ** Reading back what [emit] prints *)

(** JSON values the reader gives back as printed: no floats, integers in
    the [u64] or [i64] range. *)
Fixpoint float_free (j : json) : Prop :=
  match j with
  | JFloat _ _ => False
  | JNum n => - 2 ^ 63 <= n < 2 ^ 64
  | JArr l => fold_right (fun x P => float_free x /\ P) True l
  | JObj fs => fold_right (fun kv P => float_free kv.2 /\ P) True fs
  | _ => True
  end.

(** The nesting depth of arrays and objects. *)
Fixpoint depth (j : json) : nat :=
  match j with
  | JArr l => S (fold_right (fun x m => max (depth x) m) O l)
  | JObj fs => S (fold_right (fun kv m => max (depth kv.2) m) O fs)
  | _ => O
  end.

(** The fuel the reader needs for a value. *)
Fixpoint need (j : json) : nat :=
  match j with
  | JArr l => S (fold_right (fun x n => S (need x) + n)%nat O l)
  | JObj fs => S (fold_right (fun kv n => S (need kv.2) + n)%nat O fs)
  | _ => 1%nat
  end.

(** What may follow a value inside printed JSON. *)
Definition delim (l : list ascii) : Prop :=
  match l with [] => True | c :: _ => c ∈ [","; "]"; "}"]%char end.

Lemma not_ws_lit c : c ∈ ["n"; "t"; "f"; "["; "{"; "-"; "0"; "1"; "2"; "3"; "4"; "5"; "6"; "7"; "8"; "9"]%char \/ c = dquote -> ~ is_ws c.
Proof. intros [H|He]; [|subst c; by_decide]. unfold is_ws; repeat (apply elem_of_cons in H as [->|H]; [by_decide|]); set_solver. Qed.

Lemma skip_ws_not_ws c l : ~ is_ws c -> skip_ws (c :: l) = c :: l.
Proof. intros Hc; simpl; by rewrite decide_False. Qed.

Lemma hex_val_digit k : (k < 16)%nat -> hex_val (hex_digit k) = Some (Z.of_nat k).
Proof. intros Hk; do 16 (destruct k as [|k]; [reflexivity|]); lia. Qed.

Lemma ascii_of_nat_of_ascii_Z c : byte (Z.of_nat (Ascii.nat_of_ascii c)) = c.
Proof. unfold byte; rewrite Nat2Z.id; apply Ascii.ascii_nat_embedding. Qed.

Lemma hex4_escape n :
  (n < 32)%nat -> hex4 "0" "0" (hex_digit (n / 16)) (hex_digit (n mod 16)) = Some (Z.of_nat n).
Proof.
  intros Hn.
  assert (E : (n = 16 * (n / 16) + n mod 16)%nat) by apply Nat.div_mod_eq.
  assert (Hb : (n mod 16 < 16)%nat) by (apply Nat.mod_upper_bound; lia).
  assert (Ha : (n / 16 < 16)%nat) by (apply Nat.Div0.div_lt_upper_bound; lia).
  revert E Ha Hb. generalize (n / 16)%nat (n mod 16)%nat. intros a b E Ha Hb.
  unfold hex4; rewrite !hex_val_digit by lia. simpl.
  change (nat_of_ascii "0") with 48%nat. f_equal. lia.
Qed.

(** Each escape reads back as the byte it escapes. *)
Lemma parse_escape_char c l acc :
  parse_string_body (escape_char c ++ l) acc = parse_string_body l (c :: acc).
Proof.
  pose proof (Ascii.ascii_nat_embedding c) as Ec.
  unfold escape_char; repeat case_decide; subst; try reflexivity;
    try match goal with H : Ascii.nat_of_ascii c = ?n |- _ => rewrite <-Ec, H; reflexivity end.
  - with_strategy opaque [hex4 Nat.div Nat.modulo] simpl.
    rewrite hex4_escape by lia; simpl.
    rewrite decide_False by lia. rewrite decide_False by lia.
    unfold utf8; rewrite decide_True by lia; cbn.
    by rewrite ascii_of_nat_of_ascii_Z.
  - simpl. rewrite decide_False by done. rewrite decide_False by done.
    rewrite decide_False by lia. done.
Qed.

Lemma parse_string_emit s rest acc :
  parse_string_body (mjoin (escape_char <$> chars s) ++ dquote :: rest) acc =
  Some (String.string_of_list_ascii (rev acc ++ chars s), rest).
Proof.
  revert acc; induction (chars s) as [|c cs IH]; intros acc.
  - simpl. by rewrite app_nil_r.
  - rewrite fmap_cons, mjoin_cons, <-app_assoc, parse_escape_char, IH.
    cbn [rev]. by rewrite <-app_assoc.
Qed.

(** ** Numbers *)

Lemma span_digits_app ds rest :
  Forall is_digit ds -> from_option (fun c => ~ is_digit c) True (head rest) ->
  span_digits (ds ++ rest) = (ds, rest).
Proof.
  induction ds as [|d ds IH]; intros Hds Hr.
  - destruct rest as [|c r]; simpl in *; [done|]. by rewrite decide_False.
  - apply Forall_cons in Hds as [Hd Hds]; simpl. rewrite decide_True by done. by rewrite IH.
Qed.

Lemma emit_digits_digits n : Forall is_digit (emit_digits n).
Proof. pose proof (display_u32_digits (Z.of_N n)) as Hd. unfold display_u32 in Hd; by rewrite N2Z.id in Hd. Qed.

Lemma emit_digits_value n : digits_value (emit_digits n) = Z.of_N n.
Proof.
  unfold digits_value, emit_digits; rewrite String.string_of_list_ascii_of_string.
  rewrite NilZero.usu by apply to_uint_not_nil; simpl. by rewrite DecimalN.Unsigned.of_to.
Qed.

Lemma emit_digits_not_nil n : emit_digits n <> [].
Proof.
  unfold emit_digits, NilZero.string_of_uint.
  destruct (N.to_uint n); simpl; discriminate.
Qed.

(** Printed numbers have no leading zero. *)
Lemma emit_digits_leading n : leading_zero (emit_digits n) = false.
Proof.
  unfold leading_zero, emit_digits, NilZero.string_of_uint.
  destruct (N.to_uint n) as [|u|u|u|u|u|u|u|u|u|u] eqn:E; try reflexivity.
  destruct u as [|u'|u'|u'|u'|u'|u'|u'|u'|u'|u']; try reflexivity;
    (apply bool_decide_eq_false; intros _;
     pose proof (DecimalN.Unsigned.to_of (N.to_uint n)) as Hn;
     rewrite DecimalN.Unsigned.of_to, E, unorm_D0 in Hn; unfold Decimal.unorm in Hn;
     destruct (Decimal.nzhead _) eqn:Ez in Hn; try discriminate;
     rewrite <-Hn in Ez; by eapply nzhead_nonzero).
  all: simpl; by destruct (chars (NilEmpty.string_of_uint u)).
Qed.

(** What may follow a value: the cases. *)
Lemma delim_cases rest :
  delim rest -> rest = [] \/ exists r, rest = ","%char :: r \/ rest = "]"%char :: r \/ rest = "}"%char :: r.
Proof.
  destruct rest as [|c r]; [by left|]; intros H; right; exists r.
  repeat (apply elem_of_cons in H as [->|H]; [tauto|]); set_solver.
Qed.

Lemma delim_not_digit rest : delim rest -> from_option (fun c => ~ is_digit c) True (head rest).
Proof. intros [->|[r [->|[->| ->]]]]%delim_cases; simpl; [done|..]; by_decide. Qed.

(** An integer in the [u64] or [i64] range reads back. *)
Lemma parse_number_emit n rest :
  - 2 ^ 63 <= n < 2 ^ 64 -> delim rest -> parse_number (emit_int n ++ rest) = Some (JNum n, rest).
Proof.
  intros Hn Hr. pose proof (delim_not_digit rest Hr) as Hd.
  unfold emit_int; case_decide as Hneg.
  - unfold parse_number; cbv beta iota zeta. cbn [app].
    rewrite span_digits_app by (done || apply emit_digits_digits).
    rewrite decide_False by apply emit_digits_not_nil. rewrite emit_digits_leading.
    rewrite emit_digits_value, Z2N.id by lia.
    destruct (delim_cases rest Hr) as [->|[r [->|[->| ->]]]]; simpl;
      (rewrite decide_True by lia; by rewrite Z.opp_involutive).
  - unfold parse_number.
    assert (E : match emit_digits (Z.to_N n) ++ rest with "-"%char :: l' => (true, l') | _ => (false, emit_digits (Z.to_N n) ++ rest) end = (false, emit_digits (Z.to_N n) ++ rest)).
    { pose proof (emit_digits_digits (Z.to_N n)) as Hdg.
      destruct (emit_digits (Z.to_N n)) as [|c ds] eqn:Ed; [by apply emit_digits_not_nil in Ed|].
      apply Forall_cons in Hdg as [Hc _]. unfold is_digit in Hc.
      repeat (apply elem_of_cons in Hc as [->|Hc]; [reflexivity|]); set_solver. }
    rewrite E; cbv beta iota zeta.
    rewrite span_digits_app by (done || apply emit_digits_digits).
    rewrite decide_False by apply emit_digits_not_nil. rewrite emit_digits_leading.
    rewrite emit_digits_value, Z2N.id by lia.
    destruct (delim_cases rest Hr) as [->|[r [->|[->| ->]]]]; simpl;
      (rewrite decide_True by lia; done).
Qed.

(** ** Values *)

Lemma fold_and_Forall {A} (Q : A -> Prop) l : fold_right (fun x P => Q x /\ P) True l <-> Forall Q l.
Proof. induction l as [|x l IH]; simpl; [split; [constructor|done]|]. rewrite Forall_cons; tauto. Qed.

Lemma fold_max_le {A} (f : A -> nat) l x : x ∈ l -> (f x <= fold_right (fun y m => max (f y) m) O l)%nat.
Proof. induction l as [|y l IH]; intros Hx; [set_solver|]. apply elem_of_cons in Hx as [->|Hx]; simpl; [lia|]. specialize (IH Hx); lia. Qed.

Lemma fold_need_cons {A} (f : A -> nat) x l :
  fold_right (fun y n => S (f y) + n)%nat O (x :: l) = (S (f x) + fold_right (fun y n => S (f y) + n)%nat O l)%nat.
Proof. reflexivity. Qed.

Definition value_start : list ascii :=
  ["n"; "t"; "f"; "["; "{"; "-"; "0"; "1"; "2"; "3"; "4"; "5"; "6"; "7"; "8"; "9"]%char ++ [dquote].

(** A printed value starts with one of the characters that open a value. *)
Lemma emit_head j : float_free j -> exists c r, emit j = c :: r /\ c ∈ value_start.
Proof.
  destruct j as [| [] | n | | s | l | fs]; simpl; intros Hf; try done;
    try (eexists _, _; split; [reflexivity|]; unfold value_start; set_solver).
  unfold emit_int; case_decide.
  - eexists _, _; split; [reflexivity|]; unfold value_start; set_solver.
  - pose proof (emit_digits_digits (Z.to_N n)) as Hd.
    destruct (emit_digits (Z.to_N n)) as [|c r] eqn:E; [by apply emit_digits_not_nil in E|].
    exists c, r; split; [done|]. apply Forall_cons in Hd as [Hc _].
    unfold is_digit in Hc; unfold value_start; set_solver.
Qed.

Ltac lit_cases H := repeat (apply elem_of_cons in H as [->|H]); try (exfalso; set_solver).

(** The reader's closing tests do not fire on the start of a value. *)
Lemma skip_emit_not_close {A} j R (a : list ascii -> A) (b : A) :
  float_free j ->
  match skip_ws (emit j ++ R) with "]"%char :: r' => a r' | _ => b end = b /\
  match skip_ws (emit j ++ R) with "}"%char :: r' => a r' | _ => b end = b /\
  skip_ws (emit j ++ R) = emit j ++ R.
Proof.
  intros Hf; destruct (emit_head j Hf) as [c [r [-> Hc]]]; unfold value_start in Hc.
  cbn [app]; lit_cases Hc; split_and!; reflexivity.
Qed.

(** A printed integer goes to [parse_number]. *)
Lemma parse_value_int fuel rem n rest :
  parse_value (S fuel) rem (emit_int n ++ rest) = parse_number (emit_int n ++ rest).
Proof.
  unfold emit_int; case_decide; [reflexivity|].
  pose proof (emit_digits_digits (Z.to_N n)) as Hd.
  destruct (emit_digits (Z.to_N n)) as [|c r] eqn:E; [by apply emit_digits_not_nil in E|].
  apply Forall_cons in Hd as [Hc _]; unfold is_digit in Hc.
  cbn [app]; lit_cases Hc; reflexivity.
Qed.

Lemma match_not_close_sq {A} l c r0 (a : list ascii -> A) b :
  l = c :: r0 -> c <> "]"%char -> match l with "]"%char :: r' => a r' | _ => b end = b.
Proof. intros -> H; destruct c as [[] [] [] [] [] [] [] []]; try reflexivity; by contradiction H. Qed.

Lemma match_not_close_curly {A} l c r0 (a : list ascii -> A) b :
  l = c :: r0 -> c <> "}"%char -> match l with "}"%char :: r' => a r' | _ => b end = b.
Proof. intros -> H; destruct c as [[] [] [] [] [] [] [] []]; try reflexivity; by contradiction H. Qed.

(** Printed elements start with their first chunk's first character. *)
Lemma sep_by_head ch y ys R c r : y = c :: r -> exists r0, sep_by ch (y :: ys) ++ R = c :: r0.
Proof. intros ->; destruct ys; simpl; eexists; reflexivity. Qed.

Lemma value_start_not_ws c : c ∈ value_start -> ~ is_ws c /\ c <> "]"%char /\ c <> "}"%char.
Proof. unfold value_start; intros Hc; lit_cases Hc; split_and!; by_decide. Qed.

Section Roundtrip.

(** What the reader gives back on a printed value followed by [rest]. *)
Definition reads_back (j : json) : Prop :=
  forall fuel rem rest, float_free j -> (depth j < rem)%nat -> (need j <= fuel)%nat -> delim rest ->
  parse_value fuel rem (emit j ++ rest) = Some (j, rest).

Lemma parse_elems_emit l :
  Forall reads_back l -> forall fuel rem rest acc,
  l <> [] -> Forall float_free l -> Forall (fun x => depth x < rem)%nat l ->
  (fold_right (fun x n => S (need x) + n)%nat O l <= fuel)%nat ->
  parse_elems fuel rem (sep_by ","%char (map emit l) ++ "]"%char :: rest) acc =
  Some (JArr (rev acc ++ l), rest).
Proof.
  induction 1 as [|x l Hx Hl IH]; intros fuel rem rest acc Hne Hf Hd Hn; [done|].
  apply Forall_cons in Hf as [Hfx Hf]; apply Forall_cons in Hd as [Hdx Hd].
  rewrite fold_need_cons in Hn. destruct fuel as [|fuel]; [lia|].
  destruct l as [|y l].
  - cbn [map sep_by parse_elems]. rewrite Hx by (done || lia || (simpl; set_solver)).
    cbn [mbind option_bind]. rewrite skip_ws_not_ws by by_decide. reflexivity.
  - change (sep_by ","%char (map emit (x :: y :: l))) with (emit x ++ ","%char :: sep_by ","%char (map emit (y :: l))).
    cbn [parse_elems]. rewrite <-app_assoc, Hx by (done || lia || (simpl; set_solver)).
    cbn [mbind option_bind app]. rewrite skip_ws_not_ws by by_decide. cbv iota beta.
    rewrite IH by (done || lia). cbn [rev]. by rewrite <-app_assoc.
Qed.

Lemma parse_key_emit k R :
  parse_string_body (mjoin (escape_char <$> chars k) ++ dquote :: R) [] = Some (k, R).
Proof.
  rewrite parse_string_emit; simpl.
  by rewrite String.string_of_list_ascii_of_string.
Qed.

Lemma parse_members_emit fs :
  Forall (fun kv => reads_back kv.2) fs -> forall fuel rem rest acc,
  fs <> [] -> Forall (fun kv => float_free kv.2) fs -> Forall (fun kv => depth kv.2 < rem)%nat fs ->
  (fold_right (fun kv n => S (need kv.2) + n)%nat O fs <= fuel)%nat ->
  parse_members fuel rem
    (sep_by ","%char (map (fun kv => emit_string kv.1 ++ ":"%char :: emit kv.2) fs) ++ "}"%char :: rest)
    acc =
  Some (JObj (rev acc ++ fs), rest).
Proof.
  induction 1 as [|[k v] fs Hx Hl IH]; intros fuel rem rest acc Hne Hf Hd Hn; [done|].
  apply Forall_cons in Hf as [Hfx Hf]; apply Forall_cons in Hd as [Hdx Hd].
  rewrite fold_need_cons in Hn. destruct fuel as [|fuel]; [lia|]. cbn [fst snd] in Hx, Hfx, Hdx, Hn.
  destruct fs as [|kv' fs].
  - cbn [map sep_by parse_members]. unfold emit_string; cbn [app skip_ws].
    rewrite decide_False by by_decide. rewrite decide_True by done.
    cbn [fst snd]. rewrite <-!app_assoc; cbn [app]. rewrite parse_key_emit; cbn [mbind option_bind].
    rewrite skip_ws_not_ws by by_decide. cbv iota beta.
    rewrite Hx by (done || lia || (simpl; set_solver)).
    cbn [mbind option_bind]. rewrite skip_ws_not_ws by by_decide. reflexivity.
  - change (sep_by ","%char (map (fun kv => emit_string kv.1 ++ ":"%char :: emit kv.2) ((k, v) :: kv' :: fs)))
      with ((emit_string k ++ ":"%char :: emit v) ++ ","%char ::
            sep_by ","%char (map (fun kv => emit_string kv.1 ++ ":"%char :: emit kv.2) (kv' :: fs))).
    cbn [parse_members]. unfold emit_string at 1; cbn [app skip_ws].
    rewrite decide_False by by_decide. rewrite decide_True by done.
    cbn [fst snd]. rewrite <-!app_assoc; cbn [app]. rewrite parse_key_emit; cbn [mbind option_bind].
    rewrite skip_ws_not_ws by by_decide. cbv iota beta.
    rewrite Hx by (done || lia || (simpl; set_solver)).
    cbn [mbind option_bind app]. rewrite skip_ws_not_ws by by_decide. cbv iota beta.
    rewrite IH by (done || lia). cbn [rev]. by rewrite <-app_assoc.
Qed.

Lemma sep_by_cons c x l : sep_by c (x :: l) = x ++ match l with [] => [] | _ => c :: sep_by c l end.
Proof. destruct l; simpl; [by rewrite app_nil_r|done]. Qed.

(** Every printed value without floats reads back, with enough fuel and
    within the depth limit, whatever delimiter follows it. *)
Lemma emit_reads_back j : reads_back j.
Proof.
  induction j as [| b | n | m e | s | l IH | fs IH] using json_nested_ind;
    intros fuel rem rest Hf Hd Hn Hr; simpl in Hf; try done;
    (destruct fuel as [|fuel]; [simpl in Hn; lia|]).
  - reflexivity.
  - destruct b; reflexivity.
  - cbn [emit]. rewrite parse_value_int. by apply parse_number_emit.
  - unfold emit; unfold emit_string; cbn [app parse_value skip_ws].
    rewrite decide_False by by_decide. rewrite decide_True by done.
    rewrite <-!app_assoc; cbn [app]. rewrite parse_key_emit. reflexivity.
  - apply fold_and_Forall in Hf. simpl in Hd, Hn.
    destruct rem as [|[|rem]]; [lia|lia|].
    cbn [emit app parse_value]. rewrite skip_ws_not_ws by by_decide. cbv iota beta.
    destruct l as [|x l'].
    + reflexivity.
    + pose proof Hf as Hf'; apply Forall_cons in Hf' as [Hfx _].
      destruct (emit_head x Hfx) as [c [r [Ex Hc]]].
      destruct (value_start_not_ws c Hc) as [Hws [Hsq _]].
      destruct (sep_by_head ","%char (emit x) (map emit l') ("]"%char :: rest) c r Ex) as [r0 E].
      cbn [map]. rewrite <-app_assoc; cbn [app]. rewrite E at 1.
      rewrite skip_ws_not_ws by done. rewrite (match_not_close_sq (c :: r0) c r0 (fun r1 => Some (JArr [], r1))) by done.
      change (emit x :: map emit l') with (map emit (x :: l')).
      apply parse_elems_emit; try done; [|simpl in *; lia].
      apply Forall_forall; intros y Hy. pose proof (fold_max_le depth (x :: l') y Hy). simpl in *; lia.
  - apply fold_and_Forall in Hf. simpl in Hd, Hn.
    destruct rem as [|[|rem]]; [lia|lia|].
    cbn [emit app parse_value]. rewrite skip_ws_not_ws by by_decide. cbv iota beta.
    destruct fs as [|[k v] fs'].
    + reflexivity.
    + destruct (sep_by_head ","%char (emit_string k ++ ":"%char :: emit v)
                  (map (fun kv => emit_string kv.1 ++ ":"%char :: emit kv.2) fs')
                  ("}"%char :: rest) dquote _ eq_refl) as [r0 E].
      cbn [map]. rewrite <-app_assoc; cbn [app]. cbn [fst snd] in E. rewrite E at 1.
      rewrite skip_ws_not_ws by by_decide. rewrite (match_not_close_curly (dquote :: r0) dquote r0 (fun r1 => Some (JObj [], r1))) by (done || by_decide).
      apply (parse_members_emit ((k, v) :: fs') IH fuel (S rem) rest []); try done; [|simpl in *; lia].
      apply Forall_forall; intros y Hy. pose proof (fold_max_le (fun kv => depth kv.2) ((k, v) :: fs') y Hy).
      simpl in *; lia.
Qed.
End Roundtrip.

(** ** Fuel *)

Lemma fold_S_mono {A} (f g : A -> nat) l :
  Forall (fun x => f x <= g x)%nat l ->
  (fold_right (fun x n => S (f x) + n)%nat O l <= fold_right (fun x n => S (g x) + n)%nat O l)%nat.
Proof. induction 1; simpl in *; lia. Qed.

Lemma fold_S_map {A} (f : A -> list ascii) l :
  fold_right (fun y n => S (length y) + n)%nat O (map f l) = fold_right (fun x n => S (length (f x)) + n)%nat O l.
Proof. induction l as [|x l IH]; [done|]. cbn [map fold_right]. by rewrite IH. Qed.

Lemma sep_by_length c ys : (fold_right (fun y n => S (length y) + n)%nat O ys <= S (length (sep_by c ys)))%nat.
Proof.
  induction ys as [|y ys IH]; simpl; [lia|].
  destruct ys as [|y' ys]; simpl in *; [lia|]. rewrite length_app; simpl; lia.
Qed.

Lemma emit_not_nil j : (1 <= length (emit j))%nat.
Proof.
  destruct j as [| [] | n | m e | s | l | fs]; simpl; try lia.
  - unfold emit_int; case_decide; simpl; [lia|].
    destruct (emit_digits (Z.to_N n)) eqn:E; [by apply emit_digits_not_nil in E|simpl; lia].
  - unfold emit_float; rewrite length_app; repeat case_decide; rewrite ?length_app; simpl; lia.
Qed.

(** A printed value needs no more fuel than its length. *)
Lemma need_le_length j : (need j <= length (emit j))%nat.
Proof.
  induction j as [| b | n | m e | s | l IH | fs IH] using json_nested_ind;
    try (cbn [need]; apply emit_not_nil).
  - cbn [need emit length]; rewrite length_app; cbn [length].
    pose proof (sep_by_length ","%char (map emit l)) as Hs; rewrite fold_S_map in Hs.
    pose proof (fold_S_mono need (fun x => length (emit x)) l IH). lia.
  - cbn [need emit length]; rewrite length_app; cbn [length].
    pose proof (sep_by_length ","%char (map (fun kv => emit_string kv.1 ++ ":"%char :: emit kv.2) fs)) as Hs.
    rewrite fold_S_map in Hs.
    assert (Hm : Forall (fun kv => need kv.2 <= length (emit_string kv.1 ++ ":"%char :: emit kv.2))%nat fs).
    { eapply Forall_impl; [exact IH|]; intros [k v] Hkv; simpl in *; rewrite length_app; simpl; lia. }
    pose proof (fold_S_mono (fun kv => need kv.2) _ fs Hm). lia.
Qed.

(** [serde_json::from_str] reads back what [serde_json::to_string]
    printed, for values without floats nested less than 128 deep. *)
Lemma from_str_to_string j :
  float_free j -> (depth j < 128)%nat -> from_str (to_string j) = Some j.
Proof.
  intros Hf Hd; unfold from_str; rewrite to_string_chars.
  pose proof (need_le_length j).
  rewrite <-(app_nil_r (emit j)) at 2. rewrite emit_reads_back by (done || lia).
  cbn [mbind option_bind]. by rewrite decide_True.
Qed.

(** ** The reader consumes its input *)

Lemma skip_ws_length l : (length (skip_ws l) <= length l)%nat.
Proof. induction l as [|c l IH]; simpl; [lia|]. case_decide; simpl; lia. Qed.

Lemma skip_ws_suffix l c r : skip_ws l = c :: r -> (length r < length l)%nat.
Proof. intros E; pose proof (skip_ws_length l) as H; rewrite E in H; simpl in H; lia. Qed.

Lemma span_digits_app_eq l : l = (span_digits l).1 ++ (span_digits l).2.
Proof.
  induction l as [|c l IH]; simpl; [done|].
  case_decide; [|done]. destruct (span_digits l) as [ds r]; simpl in *. by rewrite <-IH.
Qed.

Lemma parse_exponent_suffix l e r : parse_exponent l = Some (e, r) -> (length r <= length l)%nat.
Proof.
  unfold parse_exponent; destruct l as [|c l]; [intros [= _ <-]; simpl; lia|].
  case_decide; [|intros [= _ <-]; lia].
  assert (Hpre : forall l'' : list ascii, (length l'' <= length l)%nat ->
            (let '(ds, r0) := span_digits l'' in
             if decide (ds = []) then None else Some (Some (1 * digits_value ds), r0)) = Some (e, r) \/
            (let '(ds, r0) := span_digits l'' in
             if decide (ds = []) then None else Some (Some (-1 * digits_value ds), r0)) = Some (e, r) ->
            (length r <= S (length l))%nat).
  { intros l'' Hl [Hs|Hs]; pose proof (span_digits_app_eq l'') as El;
      destruct (span_digits l'') as [ds r0]; case_decide; try done; injection Hs as _ <-;
      simpl in El; apply (f_equal length) in El; rewrite length_app in El; lia. }
  destruct l as [|c' l'] eqn:El; [intros H'; apply (Hpre []); simpl; [lia|by left]|].
  destruct (decide (c' = "+"%char)) as [->|]; [intros H'; apply (Hpre l'); [simpl; lia|by left]|].
  destruct (decide (c' = "-"%char)) as [->|]; [intros H'; apply (Hpre l'); [simpl; lia|by right]|].
  intros H'; apply (Hpre (c' :: l')); [simpl; lia|left].
  destruct c' as [[] [] [] [] [] [] [] []]; try exact H'; congruence.
Qed.

(** A successful read leaves a strictly shorter rest: the measure the fuel
    bound [2 * length + 2] of [from_str] counts. *)
Local Ltac split_some H :=
  repeat (cbn -[parse_string_body hex4 simple_escape utf8 skip_ws parse_value parse_elems
                parse_members parse_number parse_exponent span_digits leading_zero] in H;
    match type of H with
    | context [match ?x with _ => _ end] => is_var x; destruct x; try done
    | context [decide ?P] => destruct (decide P); try done
    | context [span_digits ?x] =>
        let E := fresh "E" in pose proof (span_digits_app_eq x);
        destruct (span_digits x) eqn:E; simpl in *
    | context [leading_zero ?x] => destruct (leading_zero x); try done
    | context [skip_ws ?x] =>
        let E := fresh "E" in destruct (skip_ws x) eqn:E; try done
    | ?m ≫= _ = Some _ => let E := fresh "E" in destruct m eqn:E; try done
    end).

Lemma parse_string_body_suffix l acc s r :
  parse_string_body l acc = Some (s, r) -> (length r < length l)%nat.
Proof.
  revert acc; induction l as [l IH] using (induction_ltof1 _ (@length ascii)); unfold ltof in IH.
  intros acc H; destruct l as [|c l']; [done|]; simpl in H.
  repeat case_decide; try (injection H as _ <-; simpl; lia); try done.
  - destruct l' as [|e l'']; [done|].
    split_some H; apply IH in H; simpl in *; lia.
  - apply IH in H; simpl; lia.
Qed.

Lemma parse_number_suffix l j r : parse_number l = Some (j, r) -> (length r < length l)%nat.
Proof.
  intros H; unfold parse_number in H. split_some H.
  all: repeat match goal with
         | E : parse_exponent _ = Some _ |- _ => apply parse_exponent_suffix in E
         | E : _ = ?a ++ ?b |- _ => apply (f_equal length) in E; rewrite length_app in E
         end.
  all: try (injection H as _ <-); simpl in *.
  all: match goal with N : ?ip <> [] |- _ => destruct ip; [done|simpl in *; lia] end.
Qed.

Lemma parse_suffix f :
  (forall rem l v r, parse_value f rem l = Some (v, r) -> (length r < length l)%nat) /\
  (forall rem l acc v r, parse_elems f rem l acc = Some (v, r) -> (length r < length l)%nat) /\
  (forall rem l acc v r, parse_members f rem l acc = Some (v, r) -> (length r < length l)%nat).
Proof.
  induction f as [|f (IHv & IHe & IHm)]; [split_and!; done|].
  split_and!; intros * H; cbn [parse_value parse_elems parse_members] in H; split_some H.
  all: try (injection H as _ <-).
  all: repeat match goal with
         | E : skip_ws _ = _ :: _ |- _ => apply skip_ws_suffix in E
         | E : parse_string_body _ _ = Some (_, _) |- _ => apply parse_string_body_suffix in E
         | E : parse_number _ = Some (_, _) |- _ => apply parse_number_suffix in E
         | E : parse_value _ _ _ = Some (_, _) |- _ => apply IHv in E
         | E : parse_elems _ _ _ _ = Some (_, _) |- _ => apply IHe in E
         | E : parse_members _ _ _ _ = Some (_, _) |- _ => apply IHm in E
         end.
  all: simpl in *; lia.
Qed.

Lemma parse_fuel_enough f :
  (forall g rem l, (2 * length l + 1 <= f <= g)%nat -> parse_value g rem l = parse_value f rem l) /\
  (forall g rem l acc, (2 * length l + 2 <= f <= g)%nat ->
     parse_elems g rem l acc = parse_elems f rem l acc) /\
  (forall g rem l acc, (2 * length l + 2 <= f <= g)%nat ->
     parse_members g rem l acc = parse_members f rem l acc).
Proof.
  induction f as [|f (IHv & IHe & IHm)]; [split_and!; intros; lia|].
  pose proof (parse_suffix f) as (Sv & _ & _).
  split_and!; [intros [|g] rem l Hf|intros [|g] rem l acc Hf..]; try lia;
    cbn [parse_value parse_elems parse_members].
  - destruct (skip_ws l) as [|c r] eqn:E; [done|]. apply skip_ws_suffix in E.
    destruct rem as [|[|d]]; [done|done|].
    rewrite !(IHe g) by lia; rewrite !(IHm g) by lia; done.
  - rewrite (IHv g) by lia.
    destruct (parse_value f rem l) as [[v r]|] eqn:Hp; [|done]. apply Sv in Hp; cbn.
    destruct (skip_ws r) as [|c r'] eqn:E; [done|]. apply skip_ws_suffix in E.
    by rewrite (IHe g) by lia.
  - destruct (skip_ws l) as [|c r] eqn:E; [done|]. apply skip_ws_suffix in E.
    case_decide; [|done].
    destruct (parse_string_body r []) as [[k r2]|] eqn:Hs; [|done]; apply parse_string_body_suffix in Hs; cbn.
    destruct (skip_ws r2) as [|c2 r3] eqn:E2; [done|]. apply skip_ws_suffix in E2.
    rewrite (IHv g) by lia.
    destruct (parse_value f rem r3) as [[v r4]|] eqn:Hp; [|by destruct c2 as [[] [] [] [] [] [] [] []]].
    apply Sv in Hp; cbn.
    destruct (skip_ws r4) as [|c5 r5] eqn:E5.
    + done.
    + apply skip_ws_suffix in E5. by rewrite (IHm g) by lia.
Qed.

Local Ltac split_goal :=
  repeat (cbn -[parse_string_body hex4 simple_escape utf8 skip_ws parse_value parse_elems
                parse_members parse_number] in *;
    match goal with
    | |- context [match ?x with _ => _ end] => is_var x; destruct x; try done
    | |- context [match skip_ws ?x with _ => _ end] => destruct (skip_ws x); try done
    end).

Lemma parse_fuel_mono f :
  (forall g rem l x, (f <= g)%nat -> parse_value f rem l = Some x -> parse_value g rem l = Some x) /\
  (forall g rem l acc x, (f <= g)%nat ->
     parse_elems f rem l acc = Some x -> parse_elems g rem l acc = Some x) /\
  (forall g rem l acc x, (f <= g)%nat ->
     parse_members f rem l acc = Some x -> parse_members g rem l acc = Some x).
Proof.
  induction f as [|f (IHv & IHe & IHm)]; [split_and!; done|].
  split_and!; [intros [|g] rem l x Hg|intros [|g] rem l acc x Hg..]; try lia; intros H;
    cbn [parse_value parse_elems parse_members] in *.
  - destruct (skip_ws l) as [|c r]; [done|].
    destruct rem as [|[|d]]; [done|done|].
    cbn -[parse_string_body skip_ws parse_value parse_elems parse_members parse_number] in *.
    destruct (parse_elems f (S d) r []) as [y|] eqn:Hy;
      [rewrite (IHe g _ _ _ _ ltac:(lia) Hy)|generalize (parse_elems g (S d) r [])];
    (destruct (parse_members f (S d) r []) as [z|] eqn:Hz;
      [rewrite (IHm g _ _ _ _ ltac:(lia) Hz)|generalize (parse_members g (S d) r [])]);
    intros; split_goal.
  - destruct (parse_value f rem l) as [[v r]|] eqn:Hp; [|done].
    rewrite (IHv g _ _ _ ltac:(lia) Hp); cbn in *.
    destruct (skip_ws r) as [|c r']; [done|]; cbn in *.
    destruct (parse_elems f rem r' (v :: acc)) as [y|] eqn:Hy;
      [rewrite (IHe g _ _ _ _ ltac:(lia) Hy)|generalize (parse_elems g rem r' (v :: acc))];
      intros; split_goal.
  - destruct (skip_ws l) as [|c r]; [done|]; case_decide; [|done].
    destruct (parse_string_body r []) as [[k r2]|]; [|done]; cbn in *.
    destruct (skip_ws r2) as [|c2 r3]; [done|]; cbn in *.
    destruct (parse_value f rem r3) as [[v r4]|] eqn:Hp;
      [rewrite (IHv g _ _ _ ltac:(lia) Hp)|generalize (parse_value g rem r3); intros; split_goal].
    cbn in *; destruct (skip_ws r4) as [|c5 r5]; [split_goal|]; cbn in *.
    destruct (parse_members f rem r5 ((k, v) :: acc)) as [y|] eqn:Hy;
      [rewrite (IHm g _ _ _ _ ltac:(lia) Hy)|generalize (parse_members g rem r5 ((k, v) :: acc))];
      intros; split_goal.
Qed.

(** [from_str] accepts exactly the texts the reader accepts with
    unbounded fuel, with the same value: the fuel [2 * length + 2] it is
    given never cuts a read short, so its verdict is serde_json's. *)
Theorem from_str_total s v :
  from_str s = Some v <->
  exists n r, parse_value n 128 (chars s) = Some (v, r) /\ skip_ws r = [].
Proof.
  unfold from_str; set (l := chars s); split.
  - intros H; destruct (parse_value _ 128 l) as [[v' r]|] eqn:Hp; [|done]; cbn in H.
    case_decide; [|done]; injection H as <-; by exists (2 * length l + 2)%nat, r.
  - intros (n & r & Hp & Hr).
    destruct (decide (n <= 2 * length l + 2)%nat).
    + by rewrite (proj1 (parse_fuel_mono n) (2 * length l + 2)%nat _ _ _ ltac:(lia) Hp); cbn; rewrite decide_True.
    + rewrite <-(proj1 (parse_fuel_enough (2 * length l + 2)) n) by lia.
      by rewrite Hp; cbn; rewrite decide_True.
Qed.
