(* ===== verification/Wire.v ===== *)
(** * Wire: the JSON the two front ends send and accept

    The derived [Serialize] and [Deserialize] impls of
    [src/backend/src/message.rs] and [src/backend-sse/src/message.rs],
    written out from their [#[serde]] attributes:
    - [ClientMessage] and [ServerMessage] are internally tagged by
      ["type"], [MarketDataUpdate] by ["format"], [SSEMessage] by
      ["event"] with the variants renamed to [market_data], [heartbeat],
      [connection_info] and [error]; the tag comes first, then the
      variant's fields in declaration order;
    - unit enums ([Side], [DataType], [ActivityType]) are their variant
      names, [Option] fields are [null] when absent, timestamps are
      chrono's RFC 3339 text and the connection id is the hyphenated
      lowercase form of the [Uuid];
    - [ClientMessage_deserialize] is serde's internally tagged decoding:
      the tag must occur once and hold a variant name, the other fields
      are decoded by the variant's derived visitor (map form: each known
      field at most once, unknown fields ignored, a missing [Option]
      field is [None]; sequence form: the tag, then exactly the fields in
      order).
    The [Chrono] module holds the timestamp text of the [chrono] crate
    (library code, printed by [rfc3339] and read by [parse_rfc3339]). *)

From Stdlib Require Import Ascii.
From S2P Require Import Prelude Message Text Json JsonText.

(** ** Timestamps ([chrono]) *)
Module Chrono.

(** The proleptic Gregorian date [(year, month, day)] of a day count from
    1970-01-01. *)
Definition civil_from_days (z : Z) : Z * Z * Z :=
  let z := z + 719468 in
  let era := z / 146097 in
  let doe := z - era * 146097 in
  let yoe := (doe - doe / 1460 + doe / 36524 - doe / 146096) / 365 in
  let doy := doe - (365 * yoe + yoe / 4 - yoe / 100) in
  let mp := (5 * doy + 2) / 153 in
  let d := doy - (153 * mp + 2) / 5 + 1 in
  let m := if decide (mp < 10) then mp + 3 else mp - 9 in
  (yoe + era * 400 + (if decide (m <= 2) then 1 else 0), m, d).

(** Its inverse: the day count of a date. *)
Definition days_from_civil (y m d : Z) : Z :=
  let y := if decide (m <= 2) then y - 1 else y in
  let era := y / 400 in
  let yoe := y - era * 400 in
  let mp := (m + 9) mod 12 in
  let doy := (153 * mp + 2) / 5 + d - 1 in
  let doe := yoe * 365 + yoe / 4 - yoe / 100 + doy in
  era * 146097 + doe - 719468.

Definition is_leap (y : Z) : bool :=
  (Z.eqb (y mod 4) 0 && negb (Z.eqb (y mod 100) 0)) || Z.eqb (y mod 400) 0.

Definition days_in_month (y m : Z) : Z :=
  if decide (m = 2) then (if is_leap y then 29 else 28)
  else if decide (m = 4 \/ m = 6 \/ m = 9 \/ m = 11) then 30 else 31.

(** [n] in [w] digits, zero padded. *)
Definition pad (w : nat) (n : Z) : list ascii :=
  let ds := emit_digits (Z.to_N n) in repeat "0"%char (w - length ds) ++ ds.

(** chrono's [write_rfc3339] with [SecondsFormat::AutoSi] and a [Z]
    suffix, on a millisecond timestamp: four year digits between years 0
    and 9999 (a sign and at least four digits outside), no fraction on a
    whole second, else three digits of milliseconds. *)
Definition rfc3339_chars (t : Z) : list ascii :=
  let days := t / 86400000 in
  let ms_of_day := t mod 86400000 in
  let '(y, mo, d) := civil_from_days days in
  let year := if decide (0 <= y <= 9999) then pad 4 y
              else (if decide (y < 0) then "-"%char else "+"%char) :: pad 4 (Z.abs y) in
  let ms := ms_of_day mod 1000 in
  year ++ "-"%char :: pad 2 mo ++ "-"%char :: pad 2 d ++ "T"%char ::
  pad 2 (ms_of_day / 3600000) ++ ":"%char :: pad 2 (ms_of_day / 60000 mod 60) ++ ":"%char ::
  pad 2 (ms_of_day / 1000 mod 60) ++
  (if decide (ms = 0) then [] else "."%char :: pad 3 ms) ++ ["Z"%char].

Definition rfc3339 (t : Z) : string := String.string_of_list_ascii (rfc3339_chars t).

Definition digit_val (c : ascii) : option Z :=
  let n := Ascii.nat_of_ascii c in
  if decide (48 <= n <= 57)%nat then Some (Z.of_nat n - 48) else None.

(** Exactly [n] digits. *)
Fixpoint fixed_digits (n : nat) (l : list ascii) (acc : Z) : option (Z * list ascii) :=
  match n with
  | O => Some (acc, l)
  | S n' =>
      match l with
      | c :: l' => d ← digit_val c; fixed_digits n' l' (10 * acc + d)
      | [] => None
      end
  end.

(** The digits of a fraction, kept to milliseconds: [k] counts the digits
    still to keep. *)
Fixpoint frac_digits (l : list ascii) (k : nat) (acc : Z) : Z * list ascii :=
  match l with
  | c :: l' =>
      match digit_val c with
      | Some d =>
          match k with
          | S k' => frac_digits l' k' (10 * acc + d)
          | O => frac_digits l' O acc
          end
      | None => (acc * 10 ^ Z.of_nat k, l)
      end
  | [] => (acc * 10 ^ Z.of_nat k, [])
  end.

Definition expect (c : ascii) (l : list ascii) : option (list ascii) :=
  match l with
  | c' :: l' => if decide (c' = c) then Some l' else None
  | [] => None
  end.

(** An optional fraction of a second, in milliseconds. *)
Definition parse_fraction (l : list ascii) : option (Z * list ascii) :=
  match l with
  | "."%char :: (c :: _) as l' =>
      match digit_val c with Some _ => Some (frac_digits l' 3 0) | None => None end
  | _ => Some (0, l)
  end.

(** The offset in minutes east of UTC. *)
Definition parse_offset (l : list ascii) : option Z :=
  match l with
  | ["Z"%char] | ["z"%char] => Some 0
  | sg :: l' =>
      sign ← (if decide (sg = "+"%char) then Some 1
              else if decide (sg = "-"%char) then Some (-1) else None);
      '(hh, l') ← fixed_digits 2 l' 0;
      l' ← expect ":"%char l';
      '(mm, l') ← fixed_digits 2 l' 0;
      if decide (l' = [] /\ hh < 24 /\ mm < 60) then Some (sign * (60 * hh + mm)) else None
  | [] => None
  end.

(** The [Deserialize] of [DateTime<Utc>] on the relaxed RFC 3339 text
    chrono reads, with a four-digit year: [T], [t] or a space between date
    and time, an optional fraction, and [Z], [z] or a [+hh:mm] offset. *)
Definition parse_rfc3339 (s : string) : option Z :=
  let l := chars s in
  '(y, l) ← fixed_digits 4 l 0;
  l ← expect "-"%char l;
  '(mo, l) ← fixed_digits 2 l 0;
  l ← expect "-"%char l;
  '(d, l) ← fixed_digits 2 l 0;
  l ← (match l with
       | c :: l' => if decide (c = "T"%char \/ c = "t"%char \/ c = " "%char) then Some l' else None
       | [] => None
       end);
  '(h, l) ← fixed_digits 2 l 0;
  l ← expect ":"%char l;
  '(mi, l) ← fixed_digits 2 l 0;
  l ← expect ":"%char l;
  '(sec, l) ← fixed_digits 2 l 0;
  '(ms, l) ← parse_fraction l;
  off ← parse_offset l;
  if decide (1 <= mo <= 12 /\ 1 <= d <= days_in_month y mo /\ h < 24 /\ mi < 60 /\ sec < 60)
  then Some (days_from_civil y mo d * 86400000 + h * 3600000 + mi * 60000 + sec * 1000 + ms
             - off * 60000)
  else None.

End Chrono.

(** ** Identifiers ([uuid]) *)

(** [Uuid::to_string]: the 32 lowercase hex digits of the 128-bit value,
    grouped 8-4-4-4-12. *)
Definition uuid_string (id : Uuid) : string :=
  let hex := (fun i => hex_digit (N.to_nat (N.shiftr id (4 * N.of_nat (31 - i)) mod 16)))
               <$> seq 0 32 in
  String.string_of_list_ascii
    (take 8 hex ++ "-"%char :: take 4 (drop 8 hex) ++ "-"%char :: take 4 (drop 12 hex) ++
     "-"%char :: take 4 (drop 16 hex) ++ "-"%char :: drop 20 hex).

(** ** The derived [Serialize] impls *)

(** An [f64] price, held in hundredths: the shortest decimal, as [ryu]
    prints it. *)
Definition f64_json (price : Z) : json :=
  if decide (price mod 100 = 0) then JFloat (price / 100) 0
  else if decide (price mod 10 = 0) then JFloat (price / 10) (-1)
  else JFloat price (-2).

Definition time_json (t : Z) : json := JStr (Chrono.rfc3339 t).

Definition option_json {A} (f : A -> json) (o : option A) : json :=
  match o with Some a => f a | None => JNull end.

(** [enum Side]: a unit variant is its name. *)
Definition Side_serialize (s : Side) : json :=
  JStr (match s with Bid => "Bid" | Ask => "Ask" end).

Definition DataType_serialize (d : DataType) : json :=
  JStr (match d with MBO => "MBO" | MBP => "MBP" end).

Definition ActivityType_serialize (a : ActivityType) : json :=
  JStr (match a with Add => "Add" | Update => "Update" | Cancel => "Cancel" end).

Definition MBOLevel_serialize (l : MBOLevel.t) : json :=
  JObj [("order_id", JStr (MBOLevel.order_id l)); ("price", f64_json (MBOLevel.price l));
        ("quantity", JNum (MBOLevel.quantity l)); ("side", Side_serialize (MBOLevel.side l));
        ("timestamp", time_json (MBOLevel.timestamp l)); ("age_ms", JNum (MBOLevel.age_ms l))].

Definition MBPLevel_serialize (l : MBPLevel.t) : json :=
  JObj [("price", f64_json (MBPLevel.price l)); ("quantity", JNum (MBPLevel.quantity l));
        ("order_count", JNum (MBPLevel.order_count l)); ("side", Side_serialize (MBPLevel.side l));
        ("total_quantity", JNum (MBPLevel.total_quantity l));
        ("avg_age_ms", JNum (MBPLevel.avg_age_ms l))].

Definition OrderActivity_serialize (a : OrderActivity.t) : json :=
  JObj [("activity_type", ActivityType_serialize (OrderActivity.activity_type a));
        ("order_id", JStr (OrderActivity.order_id a)); ("symbol", JStr (OrderActivity.symbol a));
        ("price", option_json f64_json (OrderActivity.price a));
        ("quantity", option_json JNum (OrderActivity.quantity a));
        ("side", option_json Side_serialize (OrderActivity.side a));
        ("timestamp", time_json (OrderActivity.timestamp a))].

(** [#[serde(tag = "format")] enum MarketDataUpdate]. *)
Definition MarketDataUpdate_serialize (u : MarketDataUpdate) : json :=
  match u with
  | UpdMBO bids asks =>
      JObj [("format", JStr "MBO"); ("bids", JArr (MBOLevel_serialize <$> bids));
            ("asks", JArr (MBOLevel_serialize <$> asks))]
  | UpdMBP bids asks =>
      JObj [("format", JStr "MBP"); ("bids", JArr (MBPLevel_serialize <$> bids));
            ("asks", JArr (MBPLevel_serialize <$> asks))]
  | UpdOrderActivity a =>
      JObj [("format", JStr "OrderActivity"); ("activity", OrderActivity_serialize a)]
  end.

(** [#[serde(tag = "type")] enum ServerMessage]. *)
Definition ServerMessage_serialize (m : ServerMessage) : json :=
  match m with
  | Subscribed stream_id symbol data_type =>
      JObj [("type", JStr "Subscribed"); ("stream_id", JStr stream_id); ("symbol", JStr symbol);
            ("data_type", DataType_serialize data_type)]
  | Unsubscribed stream_id => JObj [("type", JStr "Unsubscribed"); ("stream_id", JStr stream_id)]
  | MarketData stream_id symbol data sequence timestamp =>
      JObj [("type", JStr "MarketData"); ("stream_id", JStr stream_id); ("symbol", JStr symbol);
            ("data", MarketDataUpdate_serialize data); ("sequence", JNum sequence);
            ("timestamp", time_json timestamp)]
  | HeartBeat timestamp => JObj [("type", JStr "HeartBeat"); ("timestamp", time_json timestamp)]
  | Error code message stream_id =>
      JObj [("type", JStr "Error"); ("code", JNum code); ("message", JStr message);
            ("stream_id", option_json JStr stream_id)]
  end.

(** [#[serde(tag = "type")] enum ClientMessage]. *)
Definition ClientMessage_serialize (m : ClientMessage) : json :=
  match m with
  | CSubscribe stream_id symbol data_type max_levels =>
      JObj [("type", JStr "Subscribe"); ("stream_id", JStr stream_id); ("symbol", JStr symbol);
            ("data_type", DataType_serialize data_type);
            ("max_levels", option_json JNum max_levels)]
  | CUnsubscribe stream_id => JObj [("type", JStr "Unsubscribe"); ("stream_id", JStr stream_id)]
  | CPing timestamp => JObj [("type", JStr "Ping"); ("timestamp", time_json timestamp)]
  end.

(** The SSE crate's [MarketDataUpdate] (variants [MBO] and [MBP]; the
    shared model type has a third variant, which the SSE manager never
    builds, encoded as the WebSocket crate does) and its level structs,
    declared with the same fields and derives. *)
Definition SSE_MarketDataUpdate_serialize (u : MarketDataUpdate) : json :=
  match u with
  | UpdMBO bids asks =>
      JObj [("format", JStr "MBO"); ("bids", JArr (MBOLevel_serialize <$> bids));
            ("asks", JArr (MBOLevel_serialize <$> asks))]
  | UpdMBP bids asks =>
      JObj [("format", JStr "MBP"); ("bids", JArr (MBPLevel_serialize <$> bids));
            ("asks", JArr (MBPLevel_serialize <$> asks))]
  | UpdOrderActivity _ => MarketDataUpdate_serialize u
  end.

(** [#[serde(tag = "event")] enum SSEMessage] with its renamed variants;
    the connection id is sent as [client_id.to_string()]. *)
Definition SSEMessage_serialize (m : SSEMessage) : json :=
  match m with
  | SSEMarketData stream_id symbol data sequence timestamp =>
      JObj [("event", JStr "market_data"); ("stream_id", JStr stream_id); ("symbol", JStr symbol);
            ("data", SSE_MarketDataUpdate_serialize data); ("sequence", JNum sequence);
            ("timestamp", time_json timestamp)]
  | SSEHeartBeat timestamp => JObj [("event", JStr "heartbeat"); ("timestamp", time_json timestamp)]
  | SSEConnectionInfo client_id server_time supported_symbols =>
      JObj [("event", JStr "connection_info"); ("client_id", JStr (uuid_string client_id));
            ("server_time", time_json server_time);
            ("supported_symbols", JArr (JStr <$> supported_symbols))]
  | SSEError code message stream_id =>
      JObj [("event", JStr "error"); ("code", JNum code); ("message", JStr message);
            ("stream_id", option_json JStr stream_id)]
  end.

(** ** The derived [Deserialize] of [ClientMessage] *)

(** The fields of a message are buffered (serde's [Content]) before the
    variant's visitor reads them, so each field is decoded from a [json]
    value.  The timestamp reader of chrono is a parameter. *)
Section Deserialize.
Context (parse_time : string -> option Z).

Definition de_string (v : json) : option string :=
  match v with JStr s => Some s | _ => None end.

(** A [u32]: an integer in range; a float or a negative number fails. *)
Definition de_u32 (v : json) : option Z :=
  match v with JNum n => if decide (0 <= n < 2 ^ 32) then Some n else None | _ => None end.

Definition de_time (v : json) : option Z :=
  match v with JStr s => parse_time s | _ => None end.

(** [Option<T>]: [null] is [None], anything else is decoded as a [T]. *)
Definition de_option {A} (d : json -> option A) (v : json) : option (option A) :=
  match v with JNull => Some None | _ => Some <$> d v end.

Definition DataType_variant (s : string) : option DataType :=
  if decide (s = "MBO") then Some MBO else if decide (s = "MBP") then Some MBP else None.

(** A unit variant: its name, or a one-entry map from its name to [null]
    or to an empty map. *)
Definition DataType_deserialize (v : json) : option DataType :=
  match v with
  | JStr s => DataType_variant s
  | JObj [(s, JNull)] | JObj [(s, JObj [])] => DataType_variant s
  | _ => None
  end.

(** A field of the map form: absent, present once and decoded, or an
    error (a duplicate or a value of the wrong type). *)
Definition de_field {A} (d : json -> option A) (k : string) (fs : list (string * json))
    : option (option A) :=
  match List.filter (fun kv => String.eqb kv.1 k) fs with
  | [] => Some None
  | [(_, v)] => Some <$> d v
  | _ => None
  end.

(** A field without a default must be present. *)
Definition required {A} (o : option (option A)) : option A :=
  match o with Some (Some a) => Some a | _ => None end.

(** An [Option] field may be missing: it is then [None]. *)
Definition defaulted {A} (o : option (option (option A))) : option (option A) :=
  match o with Some (Some a) => Some a | Some None => Some None | None => None end.

Definition Subscribe_visit_map (fs : list (string * json)) : option ClientMessage :=
  stream_id ← required (de_field de_string "stream_id" fs);
  symbol ← required (de_field de_string "symbol" fs);
  data_type ← required (de_field DataType_deserialize "data_type" fs);
  max_levels ← defaulted (de_field (de_option de_u32) "max_levels" fs);
  Some (CSubscribe stream_id symbol data_type max_levels).

(** The sequence form: exactly the declared fields, in order. *)
Definition Subscribe_visit_seq (l : list json) : option ClientMessage :=
  match l with
  | [a; b; c; d] =>
      stream_id ← de_string a; symbol ← de_string b; data_type ← DataType_deserialize c;
      max_levels ← de_option de_u32 d;
      Some (CSubscribe stream_id symbol data_type max_levels)
  | _ => None
  end.

Definition Unsubscribe_visit_map (fs : list (string * json)) : option ClientMessage :=
  stream_id ← required (de_field de_string "stream_id" fs); Some (CUnsubscribe stream_id).

Definition Unsubscribe_visit_seq (l : list json) : option ClientMessage :=
  match l with [a] => CUnsubscribe <$> de_string a | _ => None end.

Definition Ping_visit_map (fs : list (string * json)) : option ClientMessage :=
  timestamp ← required (de_field de_time "timestamp" fs); Some (CPing timestamp).

Definition Ping_visit_seq (l : list json) : option ClientMessage :=
  match l with [a] => CPing <$> de_time a | _ => None end.

(** The struct variant named by the tag, read from the buffered rest. *)
Definition ClientMessage_variant (tag : string) (rest : json) : option ClientMessage :=
  let visit vm vs := match rest with JObj fs => vm fs | JArr l => vs l | _ => None end in
  if decide (tag = "Subscribe") then visit Subscribe_visit_map Subscribe_visit_seq
  else if decide (tag = "Unsubscribe") then visit Unsubscribe_visit_map Unsubscribe_visit_seq
  else if decide (tag = "Ping") then visit Ping_visit_map Ping_visit_seq
  else None.

(** serde's [TaggedContentVisitor] for [tag = "type"]: in a map the tag
    occurs exactly once and is a string, the other entries are kept in
    order; in a sequence the tag is the first element. *)
Definition ClientMessage_deserialize (v : json) : option ClientMessage :=
  match v with
  | JObj fs =>
      match List.filter (fun kv => String.eqb kv.1 "type") fs with
      | [(_, JStr tag)] => ClientMessage_variant tag (JObj (List.filter (fun kv => negb (String.eqb kv.1 "type")) fs))
      | _ => None
      end
  | JArr (JStr tag :: rest) => ClientMessage_variant tag (JArr rest)
  | _ => None
  end.

(** What the Rust types guarantee of a message, and the timestamp reader
    reading back what chrono prints. *)
Definition client_ok (m : ClientMessage) : Prop :=
  match m with
  | CSubscribe _ _ _ max_levels => from_option is_u32 True max_levels
  | CUnsubscribe _ => True
  | CPing t => parse_time (Chrono.rfc3339 t) = Some t
  end.

(** [serde_json::from_str::<ClientMessage>] on a text frame: the JSON
    text, then the derived decoding.  (serde_json decodes while it reads;
    both fail or succeed on the same texts, which is all the handler
    observes.) *)
Definition ClientMessage_from_str (text : string) : option ClientMessage :=
  j ← from_str text; ClientMessage_deserialize j.

End Deserialize.

(** ** Server-sent events *)

Definition carriage_return : ascii := Ascii.ascii_of_nat 13.
Definition nul : ascii := Ascii.ascii_of_nat 0.
Definition nl : string := String newline EmptyString.

(** The event name [to_sse_event] picks for a message. *)
Definition sse_event_name (m : SSEMessage) : string :=
  match m with
  | SSEMarketData _ _ _ _ _ => "market_data"
  | SSEHeartBeat _ => "heartbeat"
  | SSEConnectionInfo _ _ _ => "connection_info"
  | SSEError _ _ _ => "error"
  end.

(** [SSEMessage::to_sse_data]; serialization of these types cannot fail,
    so the [Err] branch is never taken. *)
Definition to_sse_data (m : SSEMessage) : string :=
  "data: " +:+ to_string (SSEMessage_serialize m) +:+ nl +:+ nl.

(** [SSEMessage::to_sse_event]. *)
Definition to_sse_event (m : SSEMessage) : string :=
  "event: " +:+ sse_event_name m +:+ nl +:+ "data: " +:+ to_string (SSEMessage_serialize m)
    +:+ nl +:+ nl.

(** axum's [sse::Event] builder (library code): the bytes written so far
    and which of [event], [data] and [id] were set.  A builder call that
    axum's assertions reject is [None], a panic. *)
Record Event := mkEvent {
  ev_buffer : list ascii;
  ev_has_event : bool;
  ev_has_data : bool;
  ev_has_id : bool
}.

Definition Event_default : Event := mkEvent [] false false false.

(** [Event::field]: [name: value] and a line feed; a value holding a line
    feed or a carriage return panics. *)
Definition Event_field (name : string) (value : list ascii) (e : Event) : option Event :=
  if decide (newline ∈ value \/ carriage_return ∈ value) then None
  else Some (mkEvent (ev_buffer e ++ chars name ++ [":"; " "]%char ++ value ++ [newline])
               (ev_has_event e) (ev_has_data e) (ev_has_id e)).

Definition Event_event (name : string) (e : Event) : option Event :=
  if ev_has_event e then None
  else e' ← Event_field "event" (chars name) e;
       Some (mkEvent (ev_buffer e') true (ev_has_data e') (ev_has_id e')).

(** [Event::data]: one [data] field per line of the text. *)
Definition Event_data (data : string) (e : Event) : option Event :=
  if ev_has_data e then None
  else e' ← foldl (fun acc line => acc ≫= Event_field "data" (chars line)) (Some e)
                   (split newline data);
       Some (mkEvent (ev_buffer e') (ev_has_event e') true (ev_has_id e')).

(** [Event::id]: an id holding a NUL byte, a line feed or a carriage
    return panics. *)
Definition Event_id (id : string) (e : Event) : option Event :=
  if ev_has_id e then None
  else if decide (nul ∈ chars id) then None
  else e' ← Event_field "id" (chars id) e;
       Some (mkEvent (ev_buffer e') (ev_has_event e') (ev_has_data e') true).

(** The bytes of a finished event: its fields and a blank line. *)
Definition Event_finalize (e : Event) : list ascii := ev_buffer e ++ [newline].

(** The event [SSEStream::poll_next] builds for a message it receives
    ([None]: a panic of the builder). *)
Definition poll_next_event (m : SSEMessage) : option Event :=
  let json := to_string (SSEMessage_serialize m) in
  match m with
  | SSEMarketData stream_id _ _ _ _ =>
      (Event_event "market_data" Event_default ≫= Event_data json) ≫= Event_id stream_id
  | SSEHeartBeat _ => Event_event "heartbeat" Event_default ≫= Event_data json
  | SSEConnectionInfo _ _ _ => Event_event "connection_info" Event_default ≫= Event_data json
  | SSEError _ _ _ => Event_event "error" Event_default ≫= Event_data json
  end.

(** The id line a [market_data] event carries. *)
Definition sse_id_line (m : SSEMessage) : list ascii :=
  match m with
  | SSEMarketData stream_id _ _ _ _ => chars "id: " ++ chars stream_id ++ [newline]
  | _ => []
  end.

(** A string a builder accepts as an id. *)
Definition id_ok (id : string) : Prop :=
  (nul ∉ chars id) /\ (newline ∉ chars id) /\ (carriage_return ∉ chars id).

Definition sse_id_ok (m : SSEMessage) : Prop :=
  match m with SSEMarketData stream_id _ _ _ _ => id_ok stream_id | _ => True end.

(** ** Lemmas *)

Lemma not_printable_not_in c l : ~ printable c -> Forall printable l -> c ∉ l.
Proof. intros Hc Hl Hin; rewrite Forall_forall in Hl; exact (Hc (Hl c Hin)). Qed.

(** Printed JSON is one line. *)
Lemma emit_one_line j : (newline ∉ emit j) /\ (carriage_return ∉ emit j).
Proof.
  split; apply not_printable_not_in; try apply emit_printable; unfold printable; vm_compute; lia.
Qed.

Lemma string_chars_app a b : chars (a +:+ b) = chars a ++ chars b.
Proof. apply chars_app. Qed.

#[local] Hint Rewrite string_chars_app to_string_chars : md_rw.

Lemma Event_field_ok name value e :
  newline ∉ value -> carriage_return ∉ value ->
  Event_field name value e =
  Some (mkEvent (ev_buffer e ++ chars name ++ [":"; " "]%char ++ value ++ [newline])
          (ev_has_event e) (ev_has_data e) (ev_has_id e)).
Proof. intros H1 H2; unfold Event_field; rewrite decide_False by tauto; done. Qed.

Lemma Event_data_json j e :
  ev_has_data e = false ->
  Event_data (to_string j) e =
  Some (mkEvent (ev_buffer e ++ chars "data: " ++ emit j ++ [newline]) (ev_has_event e) true
          (ev_has_id e)).
Proof.
  intros He; unfold Event_data; rewrite He.
  destruct (emit_one_line j) as [Hn Hr].
  rewrite split_no_sep by (by rewrite to_string_chars); simpl.
  rewrite to_string_chars, Event_field_ok by done; simpl.
  by rewrite <-?app_assoc.
Qed.

Lemma Event_id_ok id e :
  ev_has_id e = false -> id_ok id ->
  Event_id id e =
  Some (mkEvent (ev_buffer e ++ chars "id: " ++ chars id ++ [newline]) (ev_has_event e)
          (ev_has_data e) true).
Proof.
  intros He [H0 [H1 H2]]; unfold Event_id; rewrite He, decide_False by done.
  rewrite Event_field_ok by done; simpl. by rewrite <-?app_assoc.
Qed.

Lemma Event_id_bad id e : ev_has_id e = false -> ~ id_ok id -> Event_id id e = None.
Proof.
  intros He Hid; unfold Event_id; rewrite He.
  case_decide; [done|]. unfold Event_field; rewrite decide_True; [done|].
  destruct (decide (newline ∈ chars id)); [by left|right].
  destruct (decide (carriage_return ∈ chars id)); [done|].
  exfalso; apply Hid; by split_and!.
Qed.

(** The head every event has: its name line. *)
Lemma Event_event_default name :
  newline ∉ chars name -> carriage_return ∉ chars name ->
  Event_event name Event_default = Some (mkEvent (chars "event: " ++ chars name ++ [newline]) true false false).
Proof. intros H1 H2; unfold Event_event; simpl; by rewrite Event_field_ok. Qed.

Lemma sse_event_name_one_line m :
  (newline ∉ chars (sse_event_name m)) /\ (carriage_return ∉ chars (sse_event_name m)).
Proof. destruct m; simpl; split; by_decide. Qed.

(** The event [poll_next] builds, up to its id line. *)
Lemma poll_next_event_head m :
  (Event_event (sse_event_name m) Event_default ≫= Event_data (to_string (SSEMessage_serialize m))) =
  Some (mkEvent (removelast (chars (to_sse_event m))) true true false).
Proof.
  destruct (sse_event_name_one_line m) as [H1 H2].
  assert (E : chars (to_sse_event m) =
    (chars "event: " ++ chars (sse_event_name m) ++ [newline] ++ chars "data: " ++
     emit (SSEMessage_serialize m) ++ [newline]) ++ [newline]).
  { unfold to_sse_event, nl; autorewrite with md_rw; by rewrite <-!app_assoc. }
  rewrite E, removelast_last, Event_event_default by done.
  cbn [mbind option_bind]. rewrite Event_data_json by done; cbn.
  by rewrite <-!app_assoc.
Qed.

(** [poll_next] builds the name and data fields of every event, then
    the id of a [market_data] event. *)
Lemma poll_next_event_eq m :
  poll_next_event m =
  (Event_event (sse_event_name m) Event_default ≫= Event_data (to_string (SSEMessage_serialize m)))
    ≫= (fun e => match m with SSEMarketData stream_id _ _ _ _ => Event_id stream_id e | _ => Some e end).
Proof.
  destruct m; unfold poll_next_event; cbv zeta; cbn [sse_event_name]; [done|..];
    by destruct (Event_event _ Event_default ≫= Event_data _).
Qed.

(** Two lines and the blank line that ends an event. *)
Lemma split_event_lines a b :
  newline ∉ chars a -> newline ∉ chars b ->
  split newline (a +:+ nl +:+ b +:+ nl +:+ nl) = [a; b; EmptyString; EmptyString].
Proof.
  intros Ha Hb.
  change (split newline (a +:+ String newline (b +:+ String newline (String newline EmptyString)))
          = [a; b; EmptyString; EmptyString]).
  rewrite !split_sep by done; reflexivity.
Qed.

Lemma newline_not_in_app a b : newline ∉ chars a -> newline ∉ chars b -> newline ∉ chars (a +:+ b).
Proof. rewrite string_chars_app; set_solver. Qed.

(** C38: The three places that name an SSE event agree: the serde tag
    the derive writes first in the JSON, the name [to_sse_event] picks
    and the name [SSEStream::poll_next] gives its [Event].  When the
    stream id is a valid event id, [poll_next] builds an event whose bytes
    are those of [to_sse_event] with the id line of a [market_data]
    event before the closing blank line, and [to_sse_event] is exactly
    two lines (the name and the whole JSON) and a blank line: the JSON
    never holds a line break. *)
Theorem poll_next_event_frame m :
  sse_id_ok m ->
  (exists fs, SSEMessage_serialize m = JObj (("event", JStr (sse_event_name m)) :: fs)) /\
  (exists e, poll_next_event m = Some e /\
     Event_finalize e = removelast (chars (to_sse_event m)) ++ sse_id_line m ++ [newline]) /\
  split newline (to_sse_event m) =
    ["event: " +:+ sse_event_name m; "data: " +:+ to_string (SSEMessage_serialize m);
     EmptyString; EmptyString].
Proof.
  intros Hid; split_and!.
  - destruct m; eexists; reflexivity.
  - rewrite poll_next_event_eq, poll_next_event_head; cbn [mbind option_bind].
    destruct m as [sid ? ? ? ?| | |]; cbn [sse_id_ok] in Hid;
      try (eexists; split; [reflexivity|]; unfold Event_finalize; cbn [ev_buffer sse_id_line app];
           reflexivity).
    rewrite Event_id_ok by done. eexists; split; [reflexivity|].
    unfold Event_finalize; cbn [ev_buffer sse_id_line]; rewrite <-!app_assoc; reflexivity.
  - destruct (sse_event_name_one_line m) as [H1 _]; destruct (emit_one_line (SSEMessage_serialize m)) as [H2 _].
    unfold to_sse_event.
    rewrite (string_app_assoc "event: " (sse_event_name m)),
      (string_app_assoc "data: " (to_string (SSEMessage_serialize m))).
    apply split_event_lines; apply newline_not_in_app; rewrite ?to_string_chars; done || by_decide.
Qed.

Lemma poll_next_event_frame_witness :
  sse_id_ok (SSEMarketData "BTCUSD_MBP_20" "BTCUSD" (UpdMBP [] []) 7 1700000000000) /\
  split newline (to_sse_event (SSEMarketData "BTCUSD_MBP_20" "BTCUSD" (UpdMBP [] []) 7 1700000000000)) =
    ["event: market_data";
     "data: " +:+ to_string (SSEMessage_serialize (SSEMarketData "BTCUSD_MBP_20" "BTCUSD" (UpdMBP [] []) 7 1700000000000));
     EmptyString; EmptyString].
Proof.
  assert (H : sse_id_ok (SSEMarketData "BTCUSD_MBP_20" "BTCUSD" (UpdMBP [] []) 7 1700000000000))
    by by_decide.
  split; [exact H|]. exact (proj2 (proj2 (poll_next_event_frame _ H))).
Defined.

(** C39: [SSEStream::poll_next] panics on exactly the messages whose
    event id axum rejects: a [market_data] message whose stream id holds
    a line feed, a carriage return or a NUL byte.  Every other message
    becomes an event. *)
Theorem poll_next_event_panics m : poll_next_event m = None <-> ~ sse_id_ok m.
Proof.
  rewrite poll_next_event_eq, poll_next_event_head; cbn [mbind option_bind].
  destruct m as [sid ? ? ? ?| | |]; cbn [sse_id_ok]; try (split; [done|tauto]).
  destruct (decide (id_ok sid)) as [Hok|Hbad].
  - rewrite Event_id_ok by done; split; [done|tauto].
  - rewrite Event_id_bad by done; tauto.
Qed.

(** ** The [ClientMessage] round trip *)

Lemma ClientMessage_roundtrip parse_time m :
  client_ok parse_time m ->
  ClientMessage_deserialize parse_time (ClientMessage_serialize m) = Some m.
Proof.
  destruct m as [sid sym dt ml | sid | t]; intros H; simpl;
    unfold ClientMessage_variant, Subscribe_visit_map, Unsubscribe_visit_map, Ping_visit_map,
      de_field, required, defaulted; simpl.
  - destruct dt, ml as [n|]; simpl in *; try done; unfold is_u32 in H; by rewrite decide_True.
  - done.
  - by rewrite H.
Qed.

Lemma ClientMessage_serialize_float_free parse_time m :
  client_ok parse_time m -> float_free (ClientMessage_serialize m) /\ (depth (ClientMessage_serialize m) < 128)%nat.
Proof.
  destruct m as [? ? [] [n|] | ? | ?]; simpl; intros H; unfold is_u32 in *; split; (lia || tauto).
Qed.

(** C36: A client that sends the text [serde_json::to_string] prints for
    a [ClientMessage] is understood: [serde_json::from_str] followed by the
    derived decoding gives the message back, for every message the Rust
    types allow ([max_levels] a [u32]) whose timestamp the chrono reader
    reads back. *)
Theorem ClientMessage_text_roundtrip parse_time m :
  client_ok parse_time m ->
  ClientMessage_from_str parse_time (to_string (ClientMessage_serialize m)) = Some m.
Proof.
  intros H; unfold ClientMessage_from_str.
  destruct (ClientMessage_serialize_float_free parse_time m H) as [Hf Hd].
  rewrite from_str_to_string by done; cbn [mbind option_bind].
  by apply ClientMessage_roundtrip.
Qed.

Lemma ClientMessage_text_roundtrip_witness :
  client_ok Chrono.parse_rfc3339 (CPing 1700000000123) /\
  ClientMessage_from_str Chrono.parse_rfc3339 (to_string (ClientMessage_serialize (CPing 1700000000123)))
    = Some (CPing 1700000000123).
Proof.
  assert (H : client_ok Chrono.parse_rfc3339 (CPing 1700000000123)) by (vm_compute; reflexivity).
  split; [exact H|]. exact (ClientMessage_text_roundtrip _ _ H).
Defined.

(** The WebSocket handler's decoding of a text frame accepts a
    message exactly when the JSON reader, with as much fuel as it likes,
    reads one value followed only by whitespace and that value decodes to
    the message: the fuel of the model never rejects a text serde_json
    accepts. *)
Theorem ClientMessage_from_str_total parse_time text m :
  ClientMessage_from_str parse_time text = Some m <->
  exists n v r, parse_value n 128 (chars text) = Some (v, r) /\ skip_ws r = [] /\
    ClientMessage_deserialize parse_time v = Some m.
Proof.
  unfold ClientMessage_from_str; split.
  - intros H; destruct (from_str text) as [v|] eqn:Hv; [|done]; cbn in H.
    apply from_str_total in Hv as (n & r & Hp & Hr); by exists n, v, r.
  - intros (n & v & r & Hp & Hr & Hd).
    by rewrite (proj2 (from_str_total text v)) by (by exists n, r).
Qed.
