(* ===== verification/Channel.v ===== *)
(** * Channel: the per-client delivery channel

    Both front ends give each client an [mpsc::unbounded_channel]: the
    stream manager keeps the sender in its [clients] map and the
    transport task owns the receiver.  [send] never blocks; it fails once
    the receiver has been dropped.  A [Channel.t] records whether the
    receiver is alive and every message the channel has accepted, in
    order.  [send_to] is the pattern every producer of the source uses:
    [if let Some(sender) = clients.get(&id) { sender.send(msg) }]. *)

From S2P Require Import Prelude Message.

Module Channel.
Record t (M : Type) := mk {
  open : bool;
  queue : list M
}.
Arguments mk {M} open queue.
Arguments open {M} _.
Arguments queue {M} _.

(** [mpsc::unbounded_channel()]: a fresh, open channel. *)
Definition empty {M} : t M := mk true [].

(** [UnboundedSender::send]: [Err] once the receiver is gone. *)
Definition send {M} (msg : M) (c : t M) : option (t M) :=
  if open c then Some (mk true (queue c ++ [msg])) else None.

(** The receiver is dropped (the client's transport task ended). *)
Definition close {M} (c : t M) : t M := mk false (queue c).

(** [c'] is [c] with more messages accepted, and the same liveness. *)
Definition extends {M} (c c' : t M) : Prop :=
  open c' = open c /\ queue c `prefix_of` queue c'.
End Channel.

(** What a send through the clients map gives. *)
Inductive send_result := Sent | Closed | NoClient.

#[export] Instance send_result_eq_dec : EqDecision send_result.
Proof. solve_decision. Defined.

(** [clients.get(&id)] then [sender.send(msg)]. *)
Definition send_to {M} (id : Uuid) (msg : M) (cs : gmap Uuid (Channel.t M))
    : send_result * gmap Uuid (Channel.t M) :=
  match cs !! id with
  | None => (NoClient, cs)
  | Some c =>
      match Channel.send msg c with
      | Some c' => (Sent, <[id := c']> cs)
      | None => (Closed, cs)
      end
  end.

(** [for client in clients.iter() { client.send(msg) }], errors ignored. *)
Definition broadcast {M} (msg : M) (cs : gmap Uuid (Channel.t M)) : gmap Uuid (Channel.t M) :=
  (fun c => default c (Channel.send msg c)) <$> cs.

(** Every channel of [cs] is still there in [cs'], extended, and no
    channel was added: what the schedulers may do to the clients map. *)
Definition clients_extend {M} (cs cs' : gmap Uuid (Channel.t M)) : Prop :=
  forall j, match cs !! j, cs' !! j with
            | Some c, Some c' => Channel.extends c c'
            | None, None => True
            | _, _ => False
            end.

(** Every channel of the map accepts messages. *)
Definition channels_open {M} (cs : gmap Uuid (Channel.t M)) : Prop :=
  forall id c, cs !! id = Some c -> Channel.open c = true.

(** ** Lemmas *)

Section ChannelLemmas.
Context {M : Type}.
Implicit Types (cs : gmap Uuid (Channel.t M)) (c : Channel.t M) (msg : M).

#[export] Instance extends_preorder : PreOrder (@Channel.extends M).
Proof.
  split.
  - intros c; split; [done|reflexivity].
  - intros c1 c2 c3 [H12 P12] [H23 P23]; split; [congruence|by trans (Channel.queue c2)].
Qed.

#[export] Instance clients_extend_preorder : PreOrder (@clients_extend M).
Proof.
  split.
  - intros cs j; destruct (cs !! j); [reflexivity|done].
  - intros cs1 cs2 cs3 H12 H23 j; specialize (H12 j); specialize (H23 j).
    destruct (cs1 !! j), (cs2 !! j), (cs3 !! j); try done; by trans t0.
Qed.

Lemma send_open msg c : Channel.open c = true ->
  Channel.send msg c = Some (Channel.mk true (Channel.queue c ++ [msg])).
Proof. unfold Channel.send; by intros ->. Qed.

Lemma send_closed msg c : Channel.open c = false -> Channel.send msg c = None.
Proof. unfold Channel.send; by intros ->. Qed.

Lemma send_extends msg c c' : Channel.send msg c = Some c' -> Channel.extends c c'.
Proof.
  unfold Channel.send; destruct (Channel.open c) eqn:E; intros; simplify_eq.
  split; [done|by eexists].
Qed.

Lemma send_to_ne id j msg cs : id <> j -> (send_to id msg cs).2 !! j = cs !! j.
Proof.
  intros Hne; unfold send_to; repeat case_match; simpl; try done.
  by rewrite lookup_insert_ne.
Qed.

Lemma send_to_open id msg cs c :
  cs !! id = Some c -> Channel.open c = true ->
  send_to id msg cs = (Sent, <[id := Channel.mk true (Channel.queue c ++ [msg])]> cs).
Proof. intros Hc Ho; unfold send_to; by rewrite Hc, send_open. Qed.

Lemma send_to_extend id msg cs : clients_extend cs (send_to id msg cs).2.
Proof.
  intros j; unfold send_to.
  destruct (cs !! id) as [c|] eqn:Hc; [|simpl; destruct (cs !! j); [reflexivity|done]].
  destruct (Channel.send msg c) as [c'|] eqn:Hs; simpl; [|destruct (cs !! j); [reflexivity|done]].
  destruct (decide (id = j)) as [<-|Hne].
  - rewrite Hc, lookup_insert_eq; by eapply send_extends.
  - rewrite lookup_insert_ne by done; destruct (cs !! j); [reflexivity|done].
Qed.

Lemma broadcast_lookup msg cs j :
  broadcast msg cs !! j = (fun c => default c (Channel.send msg c)) <$> cs !! j.
Proof. apply lookup_fmap. Qed.

Lemma broadcast_extend msg cs : clients_extend cs (broadcast msg cs).
Proof.
  intros j; rewrite broadcast_lookup; destruct (cs !! j) as [c|]; simpl; [|done].
  destruct (Channel.send msg c) eqn:E; simpl; [by eapply send_extends|reflexivity].
Qed.

Lemma clients_extend_open cs cs' : clients_extend cs cs' -> channels_open cs -> channels_open cs'.
Proof.
  intros Hext Ho id c' Hc'; specialize (Hext id); rewrite Hc' in Hext.
  destruct (cs !! id) as [c|] eqn:Hc; [|done].
  destruct Hext as [-> _]; by eapply Ho.
Qed.

Lemma clients_extend_lookup cs cs' id c :
  clients_extend cs cs' -> cs !! id = Some c -> exists c', cs' !! id = Some c' /\ Channel.extends c c'.
Proof.
  intros Hext Hc; specialize (Hext id); rewrite Hc in Hext.
  destruct (cs' !! id); [by eexists|done].
Qed.

Lemma clients_extend_None cs cs' id :
  clients_extend cs cs' -> cs !! id = None -> cs' !! id = None.
Proof. intros Hext Hc; specialize (Hext id); rewrite Hc in Hext; by destruct (cs' !! id). Qed.
End ChannelLemmas.

#[export] Hint Resolve send_to_extend broadcast_extend : md.
