(* ===== verification/StreamManager.v ===== *)
(** * StreamManager: the registry and schedulers of the WebSocket server

    [src/backend/src/stream_manager.rs] and the message dispatch of
    [src/backend/src/websocket_handler.rs].  The manager's four shared
    maps become the fields of a record: [order_books] (symbol to book),
    [subscriptions] (symbol to its subscriptions, in push order),
    [clients] (client id to its delivery channel) and the
    [activity_broadcast] sender, modelled as the log of what was sent on
    it.  Each operation is a function of the record; the two background
    loops are modelled by one iteration each ([market_tick] and
    [heartbeat_tick]), which run atomically here (see [Interleaving] for
    the interleavings that matter).  [DashMap] iterates in an unspecified
    order: the model iterates in [map_to_list] order.  [Utc::now()] is
    the [now] argument, fixed for one operation.  [ws_reachable] starts,
    as [main] does, from [start] applied once to [new]; [ws_step] is what
    can happen next.  [market_tick_terminates] bounds the fuel a tick
    needs. *)

From S2P Require Import Prelude Message PriceLadder OrderBook Projection Activity Channel.

Module WS.

Record StreamManager := mkStreamManager {
  order_books : gmap string OrderBook;
  subscriptions : gmap string (list Subscription.t);
  clients : gmap Uuid (Channel.t ServerMessage);
  activity_broadcast : list (string * OrderActivity.t)
}.

(** [StreamManager::new]. *)
Definition new : StreamManager := mkStreamManager ∅ ∅ ∅ [].

Definition set_order_books m (s : StreamManager) : StreamManager :=
  mkStreamManager m (subscriptions s) (clients s) (activity_broadcast s).
Definition set_subscriptions m (s : StreamManager) : StreamManager :=
  mkStreamManager (order_books s) m (clients s) (activity_broadcast s).
Definition set_clients m (s : StreamManager) : StreamManager :=
  mkStreamManager (order_books s) (subscriptions s) m (activity_broadcast s).

(** The projection a subscription asks for ([match data_type { MBO =>
    get_mbo_data, MBP => get_mbp_data }]). *)
Definition market_data (b : OrderBook) (data_type : DataType) (max_levels now : Z)
    : MarketDataUpdate :=
  match data_type with
  | MBO => let '(bids, asks) := get_mbo_data b max_levels now in UpdMBO bids asks
  | MBP => let '(bids, asks) := get_mbp_data b max_levels now in UpdMBP bids asks
  end.

(** One tick's message to one subscription. *)
Definition tick_message (symbol : string) (b : OrderBook) (now : Z) (sub : Subscription.t)
    : ServerMessage :=
  MarketData (Subscription.stream_id sub) symbol
    (market_data b (Subscription.data_type sub) (Subscription.max_levels sub) now)
    (get_sequence b) now.

(** The inner loop of a tick: every subscription of the symbol whose
    client is registered gets the projection; send errors are ignored. *)
Fixpoint send_updates (symbol : string) (b : OrderBook) (now : Z)
    (subs : list Subscription.t) (cs : gmap Uuid (Channel.t ServerMessage))
    : gmap Uuid (Channel.t ServerMessage) :=
  match subs with
  | [] => cs
  | sub :: rest =>
      send_updates symbol b now rest
        (send_to (Subscription.client_id sub) (tick_message symbol b now sub) cs).2
  end.

(** [heartbeat_tick]: one iteration of [start_heartbeat]'s loop. *)
Definition heartbeat_tick (now : Z) (s : StreamManager) : StreamManager :=
  set_clients (broadcast (HeartBeat now) (clients s)) s.

(** [register_client]: the sender replaces any previous one. *)
Definition register_client (client_id : Uuid) (s : StreamManager) : StreamManager :=
  set_clients (<[client_id := Channel.empty]> (clients s)) s.

(** [unregister_client]: drop the channel, retain the other clients'
    subscriptions, prune the empty lists. *)
Definition unregister_client (client_id : Uuid) (s : StreamManager) : StreamManager :=
  let cs := delete client_id (clients s) in
  let subs := filter (fun sub => Subscription.client_id sub <> client_id) <$> subscriptions s in
  let subs := filter (fun kv : string * list Subscription.t => kv.2 <> []) subs in
  mkStreamManager (order_books s) subs cs (activity_broadcast s).

(** The subscription [unsubscribe] looks for. *)
Definition sub_matches (client_id : Uuid) (stream_id : string) (sub : Subscription.t) : Prop :=
  Subscription.client_id sub = client_id /\ Subscription.stream_id sub = stream_id.

#[export] Instance sub_matches_dec client_id stream_id sub :
  Decision (sub_matches client_id stream_id sub).
Proof. unfold sub_matches; apply _. Defined.

(** The loop of [unsubscribe]: retain in each entry, in iteration
    order, and return at the first entry whose length changed. *)
Fixpoint unsubscribe_loop (client_id : Uuid) (stream_id : string)
    (entries : list (string * list Subscription.t)) (subs : gmap string (list Subscription.t))
    : bool * gmap string (list Subscription.t) :=
  match entries with
  | [] => (false, subs)
  | (symbol, l) :: rest =>
      let l' := filter (fun sub => ~ sub_matches client_id stream_id sub) l in
      let subs := <[symbol := l']> subs in
      if decide (length l' <> length l) then (true, subs)
      else unsubscribe_loop client_id stream_id rest subs
  end.

(** [unsubscribe]. *)
Definition unsubscribe (client_id : Uuid) (stream_id : string) (s : StreamManager)
    : bool * StreamManager :=
  let '(found, subs) :=
    unsubscribe_loop client_id stream_id (map_to_list (subscriptions s)) (subscriptions s) in
  (found, set_subscriptions subs s).

(** [get_symbols]. *)
Definition get_symbols (s : StreamManager) : list string := (map_to_list (order_books s)).*1.

(** [get_order_book_snapshot]. *)
Definition get_order_book_snapshot (symbol : string) (data_type : DataType) (max_levels now : Z)
    (s : StreamManager) : option MarketDataUpdate :=
  (fun b => market_data b data_type max_levels now) <$> order_books s !! symbol.

(** [get_client_sender]. *)
Definition get_client_sender (client_id : Uuid) (s : StreamManager)
    : option (Channel.t ServerMessage) :=
  clients s !! client_id.

Section WithRandom.
Context {R : Type} `{RandomSource R}.

(** [initialize_symbol]: a seeded book replaces any book of the
    symbol. *)
Definition initialize_symbol (symbol : string) (now : Z) (s : StreamManager) (r : R)
    : StreamManager * R :=
  let '(b, r) := initialize_with_sample_data now (OrderBook.new symbol) r in
  (set_order_books (<[symbol := b]> (order_books s)) s, r).

(** [start]: the three default symbols (the two loops it spawns are
    [market_tick] and [heartbeat_tick]). *)
Definition start (now : Z) (s : StreamManager) (r : R) : StreamManager * R :=
  let '(s, r) := initialize_symbol "BTCUSD" now s r in
  let '(s, r) := initialize_symbol "ETHUSD" now s r in
  initialize_symbol "ADAUSD" now s r.

(** The body of [start_market_simulation]'s loop over the books:
    simulate, broadcast the activities, send the projections. *)
Fixpoint market_tick_loop (fuel : nat) (now : Z) (entries : list (string * OrderBook))
    (s : StreamManager) (r : R) : outcome (StreamManager * R) :=
  match entries with
  | [] => Done (s, r)
  | (symbol, b) :: rest =>
      match simulate_activity fuel now b r with
      | Done (activities, b, r) =>
          let s := mkStreamManager (<[symbol := b]> (order_books s)) (subscriptions s)
                     (clients s)
                     (activity_broadcast s ++ ((fun a => (symbol, a)) <$> activities)) in
          let cs := match subscriptions s !! symbol with
                    | Some subs => send_updates symbol b now subs (clients s)
                    | None => clients s
                    end in
          market_tick_loop fuel now rest (set_clients cs s) r
      | Panic => Panic
      | OutOfFuel => OutOfFuel
      end
  end.

(** [market_tick]: one iteration of [start_market_simulation]'s loop. *)
Definition market_tick (fuel : nat) (now : Z) (s : StreamManager) (r : R)
    : outcome (StreamManager * R) :=
  market_tick_loop fuel now (map_to_list (order_books s)) s r.

(** [if !self.order_books.contains_key(&symbol) {
    self.initialize_symbol(&symbol) }]. *)
Definition ensure_symbol (symbol : string) (now : Z) (s : StreamManager) (r : R)
    : StreamManager * R :=
  if decide (is_Some (order_books s !! symbol)) then (s, r)
  else initialize_symbol symbol now s r.

(** [subscribe]: seed the symbol when it is new, push the
    subscription, send the snapshot when the client is registered. *)
Definition subscribe (client_id : Uuid) (stream_id symbol : string) (data_type : DataType)
    (max_levels : option Z) (now : Z) (s : StreamManager) (r : R)
    : result unit string * StreamManager * R :=
  let '(s, r) := ensure_symbol symbol now s r in
  let subscription := Subscription.new stream_id symbol data_type max_levels client_id in
  let s := set_subscriptions
             (<[symbol := default [] (subscriptions s !! symbol) ++ [subscription]]>
                (subscriptions s)) s in
  match order_books s !! symbol with
  | Some b =>
      match clients s !! client_id with
      | Some _ =>
          let initial_message :=
            MarketData stream_id symbol (market_data b data_type (default 20 max_levels) now)
              (get_sequence b) now in
          match send_to client_id initial_message (clients s) with
          | (Sent, cs) => (Ok tt, set_clients cs s, r)
          | _ => (Err "Failed to send initial snapshot", s, r)
          end
      | None => (Ok tt, s, r)
      end
  | None => (Ok tt, s, r)
  end.

(** [handle_message] of [websocket_handler.rs]: [None] is a text that
    does not parse as a [ClientMessage] (the [400] reply; its text
    carries serde's message, here left out). *)
Definition handle_message (client_id : Uuid) (msg : option ClientMessage) (now : Z)
    (s : StreamManager) (r : R) : StreamManager * R :=
  match msg with
  | None =>
      (set_clients (send_to client_id (Error 400 "Invalid message" None) (clients s)).2 s, r)
  | Some (CSubscribe stream_id symbol data_type max_levels) =>
      let '(res, s, r) := subscribe client_id stream_id symbol data_type max_levels now s r in
      let reply := match res with
                   | Ok _ => Subscribed stream_id symbol data_type
                   | Err e => Error 500 ("Subscription failed: " +:+ e) (Some stream_id)
                   end in
      (set_clients (send_to client_id reply (clients s)).2 s, r)
  | Some (CUnsubscribe stream_id) =>
      let '(success, s) := unsubscribe client_id stream_id s in
      let reply := if success then Unsubscribed stream_id
                   else Error 404 "Stream not found" (Some stream_id) in
      (set_clients (send_to client_id reply (clients s)).2 s, r)
  | Some (CPing _) =>
      (set_clients (send_to client_id (HeartBeat now) (clients s)).2 s, r)
  end.
End WithRandom.

(** ** The registry invariant *)

(** Every book is well formed and filed under its own symbol; every
    subscription is filed under its symbol, and that symbol has a book. *)
Record registry_wf (s : StreamManager) : Prop := {
  rw_books : forall symbol b, order_books s !! symbol = Some b ->
    book_wf b /\ OrderBook.symbol b = symbol;
  rw_subs : forall symbol l sub, subscriptions s !! symbol = Some l -> sub ∈ l ->
    Subscription.symbol sub = symbol /\ is_Some (order_books s !! symbol)
}.

(** ** Lemmas on the operations *)

Lemma unregister_subscriptions_Some client_id s symbol l :
  subscriptions (unregister_client client_id s) !! symbol = Some l <->
  exists l0, subscriptions s !! symbol = Some l0 /\
    l = filter (fun sub => Subscription.client_id sub <> client_id) l0 /\ l <> [].
Proof.
  unfold unregister_client; simpl.
  rewrite map_lookup_filter_Some, lookup_fmap.
  destruct (subscriptions s !! symbol); simpl; naive_solver.
Qed.

Lemma registry_wf_set_clients cs s : registry_wf s -> registry_wf (set_clients cs s).
Proof. intros [Hb Hs]; split; [exact Hb|exact Hs]. Qed.

Lemma new_registry_wf : registry_wf new.
Proof. split; simpl; intros ?? ; by rewrite lookup_empty. Qed.

Lemma unregister_client_wf client_id s :
  registry_wf s -> registry_wf (unregister_client client_id s).
Proof.
  intros [Hb Hs]; split; [exact Hb|].
  intros symbol l sub Hl Hsub.
  apply unregister_subscriptions_Some in Hl as (l0 & Hl0 & -> & _).
  apply list_elem_of_filter in Hsub as [_ Hsub]; by eapply Hs.
Qed.

Lemma registry_wf_insert_book symbol b s :
  registry_wf s -> book_wf b -> OrderBook.symbol b = symbol ->
  registry_wf (set_order_books (<[symbol := b]> (order_books s)) s).
Proof.
  intros [Hb Hs] Hwf Hsym; split; simpl.
  - intros sym b'; rewrite lookup_insert_Some.
    intros [[<- <-]|[_ ?]]; [done|by apply Hb].
  - intros sym l sub Hl Hsub; destruct (Hs sym l sub Hl Hsub) as [Hs1 Hs2].
    split; [done|]. rewrite lookup_insert_is_Some'; by right.
Qed.

Lemma send_updates_extend symbol b now subs cs :
  clients_extend cs (send_updates symbol b now subs cs).
Proof.
  revert cs; induction subs as [|sub subs IH]; intros cs; simpl; [reflexivity|].
  etrans; [apply send_to_extend|apply IH].
Qed.

(** [unsubscribe_loop] on the entries of the map it updates: either no
    entry holds a match and nothing changes, or the first entry that
    holds one is filtered. *)
Lemma unsubscribe_loop_spec client_id stream_id entries (subs : gmap string (list Subscription.t)) :
  (forall sym l, (sym, l) ∈ entries -> subs !! sym = Some l) ->
  (unsubscribe_loop client_id stream_id entries subs = (false, subs) /\
     forall sym l sub, (sym, l) ∈ entries -> sub ∈ l -> ~ sub_matches client_id stream_id sub) \/
  (exists sym l, (sym, l) ∈ entries /\ Exists (sub_matches client_id stream_id) l /\
     unsubscribe_loop client_id stream_id entries subs =
       (true, <[sym := filter (fun sub => ~ sub_matches client_id stream_id sub) l]> subs)).
Proof.
  intros Hent; induction entries as [|[sym l] rest IH]; simpl.
  { left; split; [done|]. intros ???; rewrite elem_of_nil; done. }
  assert (Hl : subs !! sym = Some l) by (apply Hent; left).
  destruct (decide (Exists (sub_matches client_id stream_id) l)) as [Hex|Hnex].
  - right; exists sym, l; split_and!; [left|done|].
    rewrite decide_True; [done|].
    apply Exists_exists in Hex as (sub & Hsub & Hm).
    assert (length (filter (fun sub => ~ sub_matches client_id stream_id sub) l) < length l)%nat
      by (apply length_filter_lt with sub; naive_solver).
    lia.
  - assert (Hid : filter (fun sub => ~ sub_matches client_id stream_id sub) l = l)
      by (apply filter_Forall_id, not_Exists_Forall; [apply _|done]).
    rewrite Hid, decide_False, insert_id by (done || tauto).
    destruct IH as [[-> Hno]|(sym' & l' & Hin & Hm & ->)].
    + intros ???; apply Hent; by right.
    + left; split; [done|]. intros sym' l' sub [[= <- <-]|?]%elem_of_cons Hsub Hm.
      * apply Hnex, Exists_exists; by exists sub.
      * by eapply Hno.
    + right; exists sym', l'; split_and!; [by right|done|done].
Qed.

(** The subscriptions [unsubscribe_loop] leaves are sublists of the
    ones it started from. *)
Lemma unsubscribe_loop_subset client_id stream_id entries
    (subs subs0 : gmap string (list Subscription.t)) :
  (forall sym l, (sym, l) ∈ entries -> subs0 !! sym = Some l) ->
  (forall sym l, subs !! sym = Some l -> exists l0, subs0 !! sym = Some l0 /\ l ⊆ l0) ->
  forall sym l, (unsubscribe_loop client_id stream_id entries subs).2 !! sym = Some l ->
    exists l0, subs0 !! sym = Some l0 /\ l ⊆ l0.
Proof.
  revert subs; induction entries as [|[sym0 l0] rest IH]; intros subs Hent Hsub; simpl; [done|].
  assert (Hins : forall sym l, <[sym0 := filter (fun sub => ~ sub_matches client_id stream_id sub) l0]>
                   subs !! sym = Some l ->
                 exists l1, subs0 !! sym = Some l1 /\ l ⊆ l1).
  { intros sym l; rewrite lookup_insert_Some; intros [[<- <-]|[_ Hl]]; [|by apply Hsub].
    exists l0; split; [apply Hent; left|apply list_subseteq_filter]. }
  case_decide; simpl; [done|].
  apply IH; [|done]. intros sym l Hin; apply Hent; by right.
Qed.

Lemma unsubscribe_wf client_id stream_id s :
  registry_wf s -> registry_wf (unsubscribe client_id stream_id s).2.
Proof.
  intros [Hb Hs]; unfold unsubscribe.
  pose proof (unsubscribe_loop_subset client_id stream_id (map_to_list (subscriptions s))
    (subscriptions s) (subscriptions s)) as Hl.
  destruct (unsubscribe_loop _ _ _ _) as [found subs]; simpl in *.
  split; [exact Hb|]; simpl.
  intros sym l sub Hsl Hsub.
  destruct (Hl (fun sym l H => proj1 (elem_of_map_to_list _ _ _) H)
               (fun sym l H => ex_intro _ l (conj H (reflexivity l))) sym l Hsl)
    as (l0 & Hl0 & Hsubset).
  eapply Hs; [exact Hl0|by apply Hsubset].
Qed.

Section WithRandomLemmas.
Context {R : Type} `{RandomSource R}.

Lemma initialize_symbol_wf symbol now s (r : R) :
  registry_wf s -> registry_wf (initialize_symbol symbol now s r).1.
Proof.
  intros Hs; unfold initialize_symbol.
  pose proof (initialize_with_sample_data_wf now symbol r) as Hwf.
  pose proof (initialize_with_sample_data_symbol now symbol r) as Hsym.
  destruct (initialize_with_sample_data _ _ r) as [b r']; simpl in *.
  by apply registry_wf_insert_book.
Qed.

Lemma start_wf now s (r : R) : registry_wf s -> registry_wf (start now s r).1.
Proof.
  intros Hs; unfold start.
  pose proof (initialize_symbol_wf "BTCUSD" now s r Hs) as H1.
  destruct (initialize_symbol "BTCUSD" now s r) as [s1 r1].
  pose proof (initialize_symbol_wf "ETHUSD" now s1 r1 H1) as H2.
  destruct (initialize_symbol "ETHUSD" now s1 r1) as [s2 r2].
  by apply initialize_symbol_wf.
Qed.

Lemma ensure_symbol_spec symbol now s (r : R) :
  let s' := (ensure_symbol symbol now s r).1 in
  is_Some (order_books s' !! symbol) /\
  (forall sym, is_Some (order_books s !! sym) -> is_Some (order_books s' !! sym)) /\
  subscriptions s' = subscriptions s /\ clients s' = clients s /\
  (registry_wf s -> registry_wf s').
Proof.
  unfold ensure_symbol; case_decide as Hb; simpl; [naive_solver|].
  pose proof (initialize_symbol_wf symbol now s r) as Hwf; revert Hwf.
  unfold initialize_symbol; destruct (initialize_with_sample_data _ _ _); simpl.
  intros Hwf; split_and!; [| |done|done|done].
  - by rewrite lookup_insert_eq.
  - intros sym; rewrite lookup_insert_is_Some'; by right.
Qed.

(** Pushing a subscription of [symbol] once [symbol] has a book. *)
Lemma push_subscription_wf symbol sub s :
  registry_wf s -> Subscription.symbol sub = symbol -> is_Some (order_books s !! symbol) ->
  registry_wf (set_subscriptions
    (<[symbol := default [] (subscriptions s !! symbol) ++ [sub]]> (subscriptions s)) s).
Proof.
  intros [Hb Hs] Hsym Hbook; split; [exact Hb|]; simpl.
  intros sym l sub' Hl Hsub; apply lookup_insert_Some in Hl as [[<- <-]|[_ Hl]]; [|by eapply Hs].
  apply elem_of_app in Hsub as [Hsub| ->%list_elem_of_singleton]; [|done].
  destruct (subscriptions s !! symbol) eqn:E; [by eapply Hs|set_solver].
Qed.

Lemma subscribe_wf client_id stream_id symbol data_type max_levels now s (r : R) :
  registry_wf s ->
  registry_wf (subscribe client_id stream_id symbol data_type max_levels now s r).1.2.
Proof.
  intros Hs; unfold subscribe.
  pose proof (ensure_symbol_spec symbol now s r) as (Hbook & _ & _ & _ & Hwf).
  destruct (ensure_symbol symbol now s r) as [s1 r1]; simpl in *.
  pose proof (push_subscription_wf symbol
    (Subscription.new stream_id symbol data_type max_levels client_id) s1 (Hwf Hs) eq_refl Hbook).
  repeat case_match; simplify_eq/=; auto using registry_wf_set_clients.
Qed.

Lemma market_tick_loop_wf fuel now entries s (r : R) s' r' :
  (forall symbol b, (symbol, b) ∈ entries -> book_wf b /\ OrderBook.symbol b = symbol) ->
  registry_wf s -> market_tick_loop fuel now entries s r = Done (s', r') -> registry_wf s'.
Proof.
  revert s r; induction entries as [|[sym b] rest IH]; intros s r Hent Hs Ht; simpl in Ht.
  - by simplify_eq.
  - destruct (simulate_activity fuel now b r) as [[[acts b'] r1]| |] eqn:Esim; try discriminate.
    destruct (Hent sym b (list_elem_of_here _ _)) as [Hwf Hsym].
    eapply IH; [intros ???; apply Hent; by right| |exact Ht].
    apply registry_wf_set_clients.
    apply (registry_wf_insert_book sym b') in Hs;
      [|by eapply simulate_activity_wf|by erewrite simulate_activity_symbol].
    destruct Hs as [Hb Hs']; split; [exact Hb|exact Hs'].
Qed.

Lemma market_tick_wf fuel now s (r : R) s' r' :
  registry_wf s -> market_tick fuel now s r = Done (s', r') -> registry_wf s'.
Proof.
  intros Hs; apply market_tick_loop_wf; [|done].
  intros sym b ?%elem_of_map_to_list; by apply (rw_books s Hs).
Qed.

Lemma market_tick_loop_clients fuel now entries s (r : R) s' r' :
  market_tick_loop fuel now entries s r = Done (s', r') -> clients_extend (clients s) (clients s').
Proof.
  revert s r; induction entries as [|[sym b] rest IH]; intros s r Ht; simpl in Ht.
  - simplify_eq; reflexivity.
  - destruct (simulate_activity fuel now b r) as [[[acts b'] r1]| |]; try discriminate.
    etrans; [|exact (IH _ _ Ht)]; simpl.
    case_match; [apply send_updates_extend|reflexivity].
Qed.

Lemma handle_message_wf client_id msg now s (r : R) :
  registry_wf s -> registry_wf (handle_message client_id msg now s r).1.
Proof.
  intros Hs; unfold handle_message.
  destruct msg as [[stream_id symbol data_type max_levels|stream_id|?]|].
  - pose proof (subscribe_wf client_id stream_id symbol data_type max_levels now s r Hs).
    destruct (subscribe _ _ _ _ _ _ _ _) as [[res s1] r1]; by apply registry_wf_set_clients.
  - pose proof (unsubscribe_wf client_id stream_id s Hs).
    destruct (unsubscribe _ _ _) as [found s1]; by apply registry_wf_set_clients.
  - by apply registry_wf_set_clients.
  - by apply registry_wf_set_clients.
Qed.

Lemma subscribe_clients client_id stream_id symbol data_type max_levels now s (r : R) :
  clients_extend (clients s)
    (clients (subscribe client_id stream_id symbol data_type max_levels now s r).1.2).
Proof.
  unfold subscribe.
  pose proof (ensure_symbol_spec symbol now s r) as (_ & _ & _ & Hcl & _).
  destruct (ensure_symbol symbol now s r) as [s1 r1]; simpl in *; rewrite <-Hcl.
  repeat case_match; simplify_eq/=; try reflexivity.
  match goal with H : send_to _ _ _ = (Sent, ?cs) |- _ =>
    change cs with (Sent, cs).2; rewrite <-H end.
  apply send_to_extend.
Qed.

Lemma handle_message_clients client_id msg now s (r : R) :
  clients_extend (clients s) (clients (handle_message client_id msg now s r).1).
Proof.
  unfold handle_message.
  destruct msg as [[stream_id symbol data_type max_levels|stream_id|?]|]; simpl;
    try apply send_to_extend.
  - pose proof (subscribe_clients client_id stream_id symbol data_type max_levels now s r).
    destruct (subscribe _ _ _ _ _ _ _ _) as [[res s1] r1]; simpl.
    etrans; [eassumption|apply send_to_extend].
  - unfold unsubscribe; destruct (unsubscribe_loop _ _ _ _); apply send_to_extend.
Qed.

Lemma ensure_symbol_eq symbol now s (r : R) :
  ensure_symbol symbol now s r =
  match order_books s !! symbol with
  | Some _ => (s, r)
  | None => let '(b, r') := initialize_with_sample_data now (OrderBook.new symbol) r in
            (set_order_books (<[symbol := b]> (order_books s)) s, r')
  end.
Proof.
  unfold ensure_symbol, initialize_symbol.
  destruct (order_books s !! symbol) eqn:E; [by rewrite decide_True|].
  rewrite decide_False; [done|apply is_Some_None].
Qed.

(** The book [subscribe] snapshots: the symbol's, or a seeded one. *)
Definition subscribe_book (symbol : string) (now : Z) (s : StreamManager) (r : R) : OrderBook :=
  default (initialize_with_sample_data now (OrderBook.new symbol) r).1 (order_books s !! symbol).

Lemma ensure_symbol_books symbol now s (r : R) :
  order_books (ensure_symbol symbol now s r).1 =
    <[symbol := subscribe_book symbol now s r]> (order_books s).
Proof.
  rewrite ensure_symbol_eq; unfold subscribe_book.
  destruct (order_books s !! symbol) eqn:E; simpl; [by rewrite insert_id|].
  by destruct (initialize_with_sample_data _ _ _).
Qed.

(** [subscribe] for a client whose channel is open: it succeeds and
    sends the snapshot of the symbol's book. *)
Lemma subscribe_registered client_id stream_id symbol data_type max_levels now s (r : R) c :
  clients s !! client_id = Some c -> Channel.open c = true ->
  let b := subscribe_book symbol now s r in
  subscribe client_id stream_id symbol data_type max_levels now s r =
    (Ok tt,
     mkStreamManager (<[symbol := b]> (order_books s))
       (<[symbol := default [] (subscriptions s !! symbol) ++
          [Subscription.new stream_id symbol data_type max_levels client_id]]> (subscriptions s))
       (<[client_id := Channel.mk true (Channel.queue c ++
         [MarketData stream_id symbol (market_data b data_type (default 20 max_levels) now)
            (get_sequence b) now])]> (clients s))
       (activity_broadcast s),
     (ensure_symbol symbol now s r).2).
Proof.
  intros Hc Ho b; subst b; unfold subscribe.
  pose proof (ensure_symbol_books symbol now s r) as Hbk.
  pose proof (ensure_symbol_spec symbol now s r) as (_ & _ & Hsubs & Hcl & _).
  assert (Hlog : activity_broadcast (ensure_symbol symbol now s r).1 = activity_broadcast s).
  { rewrite ensure_symbol_eq; repeat case_match; by simplify_eq. }
  destruct (ensure_symbol symbol now s r) as [s1 r1]; simpl in *.
  rewrite Hbk, lookup_insert_eq, Hsubs, Hcl, Hc, (send_to_open _ _ _ c) by done.
  unfold set_clients, set_subscriptions; simpl; by rewrite Hbk, Hlog.
Qed.

Lemma market_tick_loop_subscriptions fuel now entries s (r : R) s' r' :
  market_tick_loop fuel now entries s r = Done (s', r') -> subscriptions s' = subscriptions s.
Proof.
  revert s r; induction entries as [|[sym b] rest IH]; intros s r Ht; simpl in Ht.
  - by simplify_eq.
  - destruct (simulate_activity fuel now b r) as [[[acts b'] r1]| |]; try discriminate.
    apply IH in Ht; done.
Qed.

Lemma initialize_symbol_clients symbol now s (r : R) :
  clients (initialize_symbol symbol now s r).1 = clients s.
Proof. unfold initialize_symbol; by destruct (initialize_with_sample_data _ _ _). Qed.

Lemma start_clients now s (r : R) : clients (start now s r).1 = clients s.
Proof.
  unfold start.
  pose proof (initialize_symbol_clients "BTCUSD" now s r) as H1.
  destruct (initialize_symbol "BTCUSD" now s r) as [s1 r1].
  pose proof (initialize_symbol_clients "ETHUSD" now s1 r1) as H2.
  destruct (initialize_symbol "ETHUSD" now s1 r1) as [s2 r2].
  simpl in *; rewrite initialize_symbol_clients; congruence.
Qed.
End WithRandomLemmas.

(** ** The server's life *)

Section Steps.
Context {R : Type} `{RandomSource R}.

(** What can happen to a started manager: a connection (a fresh
    [Uuid::new_v4]), a disconnection ([unregister_client] from either
    task of [handle_connection]), a text message, a simulation tick,
    a heartbeat. *)
Inductive ws_step : StreamManager -> StreamManager -> Prop :=
  | ws_connect client_id s :
      clients s !! client_id = None -> ws_step s (register_client client_id s)
  | ws_disconnect client_id s : ws_step s (unregister_client client_id s)
  | ws_message client_id msg now (r : R) s : ws_step s (handle_message client_id msg now s r).1
  | ws_tick fuel now (r : R) s s' r' :
      market_tick fuel now s r = Done (s', r') -> ws_step s s'
  | ws_heartbeat now s : ws_step s (heartbeat_tick now s).

(** [main]: [StreamManager::new()], [start()] once, then the handler
    serves connections while the background tasks run. *)
Inductive ws_reachable : StreamManager -> Prop :=
  | ws_reach_start now (r : R) : ws_reachable (start now new r).1
  | ws_reach_step s s' : ws_reachable s -> ws_step s s' -> ws_reachable s'.
End Steps.

Lemma manager_eq s1 s2 :
  order_books s1 = order_books s2 -> subscriptions s1 = subscriptions s2 ->
  clients s1 = clients s2 -> activity_broadcast s1 = activity_broadcast s2 -> s1 = s2.
Proof. destruct s1, s2; simpl; intros; by subst. Qed.

(** ** Properties *)

(** C22: in every state the WebSocket server can reach, every book is
    well formed and filed under its symbol, every subscription is filed
    under its symbol and that symbol has a book, and every registered
    client's channel is open (its receiver lives until after the client
    is unregistered). *)
Theorem ws_reachable_wf {R} `{RandomSource R} s :
  ws_reachable s -> registry_wf s /\ channels_open (clients s).
Proof.
  induction 1 as [now r|s s' _ [IHwf IHo] Hstep].
  { split; [apply start_wf, new_registry_wf|].
    intros ??; rewrite start_clients; simpl; by rewrite lookup_empty. }
  destruct Hstep as [client_id s Hfresh|client_id s|client_id msg now r s
                    |fuel now r s s' r' Ht|now s].
  - split; [by apply registry_wf_set_clients|].
    intros id c; simpl; rewrite lookup_insert_Some; intros [[_ <-]|[_ ?]]; [done|by eapply IHo].
  - split; [by apply unregister_client_wf|].
    intros id c; simpl; rewrite lookup_delete_Some; intros [_ ?]; by eapply IHo.
  - split; [by apply handle_message_wf|].
    eapply clients_extend_open; [apply handle_message_clients|done].
  - split; [by eapply market_tick_wf|].
    eapply clients_extend_open; [eapply market_tick_loop_clients, Ht|done].
  - split; [by apply registry_wf_set_clients|].
    eapply clients_extend_open; [apply broadcast_extend|done].
Qed.

(** C23: [subscribe] by a client whose channel is open succeeds: the
    symbol gets a seeded book if it had none, the subscription is
    appended to the symbol's list, and the client's channel receives
    exactly one message, the snapshot of the book with the book's
    sequence number. *)
Theorem subscribe_spec {R} `{RandomSource R} client_id stream_id symbol data_type max_levels
    now s (r : R) c :
  clients s !! client_id = Some c -> Channel.open c = true ->
  let b := subscribe_book symbol now s r in
  let '(res, s', _) := subscribe client_id stream_id symbol data_type max_levels now s r in
  res = Ok tt /\
  order_books s' !! symbol = Some b /\
  (forall sym, sym <> symbol -> order_books s' !! sym = order_books s !! sym) /\
  subscriptions s' !! symbol = Some (default [] (subscriptions s !! symbol) ++
    [Subscription.new stream_id symbol data_type max_levels client_id]) /\
  clients s' !! client_id = Some (Channel.mk true (Channel.queue c ++
    [MarketData stream_id symbol (market_data b data_type (default 20 max_levels) now)
       (get_sequence b) now])).
Proof.
  intros Hc Ho b; rewrite (subscribe_registered _ _ _ _ _ _ _ _ c) by done; simpl.
  split_and!; [done|apply lookup_insert_eq|intros; by apply lookup_insert_ne
               |apply lookup_insert_eq|apply lookup_insert_eq].
Qed.

(** C24: [subscribe] by a client id the manager does not know still
    returns [Ok] and files the subscription, and sends nothing (the
    specification says it fails). *)
Theorem subscribe_unknown_client {R} `{RandomSource R} client_id stream_id symbol data_type
    max_levels now s (r : R) :
  clients s !! client_id = None ->
  let '(res, s', _) := subscribe client_id stream_id symbol data_type max_levels now s r in
  res = Ok tt /\ clients s' = clients s /\
  subscriptions s' !! symbol = Some (default [] (subscriptions s !! symbol) ++
    [Subscription.new stream_id symbol data_type max_levels client_id]).
Proof.
  intros Hc; unfold subscribe.
  pose proof (ensure_symbol_spec symbol now s r) as ([b Hb] & _ & Hsubs & Hcl & _).
  destruct (ensure_symbol symbol now s r) as [s1 r1]; simpl in *.
  rewrite Hb, Hcl, Hc; simpl. by rewrite lookup_insert_eq, Hsubs.
Qed.

(** [unregister_client] is idempotent. *)
Lemma unregister_client_idem client_id s :
  unregister_client client_id (unregister_client client_id s) = unregister_client client_id s.
Proof.
  apply manager_eq; try done; [|apply delete_delete_eq].
  apply map_eq; intros sym; apply option_eq; intros l.
  rewrite !unregister_subscriptions_Some; split.
  - intros (l0 & (l1 & Hl1 & -> & _)%unregister_subscriptions_Some & -> & Hne).
    exists l1; rewrite list_filter_filter_r in * by done; by split_and!.
  - intros (l0 & Hl0 & -> & Hne).
    exists (filter (fun sub => Subscription.client_id sub <> client_id) l0).
    rewrite list_filter_filter_r by done; split_and!; [|done|done].
    apply unregister_subscriptions_Some; by exists l0.
Qed.

(** C25: [unregister_client] removes the client's channel and every
    subscription it owns, keeps every other client's channel and
    subscription, leaves no symbol with an empty subscription list, and
    is idempotent (both tasks of a connection call it, and the spec
    requires it). *)
Theorem unregister_client_spec client_id s :
  let s' := unregister_client client_id s in
  unregister_client client_id s' = s' /\
  clients s' !! client_id = None /\
  (forall j, j <> client_id -> clients s' !! j = clients s !! j) /\
  order_books s' = order_books s /\
  (forall sym l, subscriptions s' !! sym = Some l ->
     l <> [] /\ Forall (fun sub => Subscription.client_id sub <> client_id) l) /\
  (forall sym l0 sub, subscriptions s !! sym = Some l0 -> sub ∈ l0 ->
     Subscription.client_id sub <> client_id ->
     exists l, subscriptions s' !! sym = Some l /\ sub ∈ l).
Proof.
  split_and!; [apply unregister_client_idem|..]; simpl.
  - apply lookup_delete_eq.
  - intros j Hj; by apply lookup_delete_ne.
  - done.
  - intros sym l (l0 & _ & -> & Hne)%unregister_subscriptions_Some.
    split; [done|]. apply Forall_forall; intros x Hx; by apply list_elem_of_filter in Hx as [? _].
  - intros sym l0 sub Hl0 Hsub Hne.
    exists (filter (fun sub => Subscription.client_id sub <> client_id) l0).
    assert (Hf : sub ∈ filter (fun sub => Subscription.client_id sub <> client_id) l0)
      by (by apply list_elem_of_filter).
    split; [|done]. apply unregister_subscriptions_Some; exists l0.
    split_and!; [done|done|]. intros Hnil; rewrite Hnil in Hf; set_solver.
Qed.



(** The two outcomes of [unsubscribe]. *)
Lemma unsubscribe_cases client_id stream_id s :
  let '(found, s') := unsubscribe client_id stream_id s in
  order_books s' = order_books s /\ clients s' = clients s /\
  ((found = false /\ subscriptions s' = subscriptions s /\
    forall sym l sub, subscriptions s !! sym = Some l -> sub ∈ l ->
      ~ sub_matches client_id stream_id sub) \/
   (found = true /\ exists sym l, subscriptions s !! sym = Some l /\
      Exists (sub_matches client_id stream_id) l /\
      subscriptions s' = <[sym := filter (fun sub => ~ sub_matches client_id stream_id sub) l]>
                           (subscriptions s))).
Proof.
  unfold unsubscribe.
  destruct (unsubscribe_loop_spec client_id stream_id (map_to_list (subscriptions s))
              (subscriptions s)) as [[-> Hno]|(sym & l & Hin & Hex & ->)];
    [intros ??; apply elem_of_map_to_list| |]; simpl; split_and!; try done.
  - left; split_and!; [done|done|]. intros sym l sub Hl Hsub.
    apply (Hno sym l sub); [by apply elem_of_map_to_list|done].
  - right; split; [done|]. exists sym, l; split_and!; [by apply elem_of_map_to_list|done|done].
Qed.

(** [unsubscribe] keeps every symbol of the subscriptions map. *)
Lemma unsubscribe_dom client_id stream_id s :
  dom (subscriptions (unsubscribe client_id stream_id s).2) = dom (subscriptions s).
Proof.
  unfold unsubscribe.
  destruct (unsubscribe_loop_spec client_id stream_id (map_to_list (subscriptions s))
              (subscriptions s)) as [[-> _]|(sym & l & Hin & _ & ->)];
    [intros ??; apply elem_of_map_to_list| |]; simpl; [done|].
  apply elem_of_map_to_list in Hin.
  rewrite dom_insert_L; apply elem_of_dom_2 in Hin; set_solver.
Qed.

(** C27: [unsubscribe] returns [true] exactly when some symbol's list
    holds a subscription with that client and stream id; it then filters
    every such subscription out of the first such list, in iteration
    order, and changes nothing else; otherwise it changes nothing.  It
    never removes a symbol from the subscriptions map, even when its list
    becomes empty (the specification prunes emptied lists). *)
Theorem unsubscribe_spec client_id stream_id s :
  let '(found, s') := unsubscribe client_id stream_id s in
  dom (subscriptions s') = dom (subscriptions s) /\
  order_books s' = order_books s /\ clients s' = clients s /\
  ((found = false /\ subscriptions s' = subscriptions s /\
    forall sym l sub, subscriptions s !! sym = Some l -> sub ∈ l ->
      ~ sub_matches client_id stream_id sub) \/
   (found = true /\ exists sym l, subscriptions s !! sym = Some l /\
      Exists (sub_matches client_id stream_id) l /\
      subscriptions s' = <[sym := filter (fun sub => ~ sub_matches client_id stream_id sub) l]>
                           (subscriptions s))).
Proof.
  pose proof (unsubscribe_dom client_id stream_id s) as Hdom.
  pose proof (unsubscribe_cases client_id stream_id s) as Hcases.
  destruct (unsubscribe client_id stream_id s) as [found s']; simpl in Hdom; by split.
Qed.

(** C29: in a tick, a client whose channel is open receives, after
    what it had, one message per subscription it holds on the symbol, in
    the order of the list, each carrying the projection and the sequence
    number of the same book. *)
Theorem send_updates_spec symbol b now subs cs client_id c :
  cs !! client_id = Some c -> Channel.open c = true ->
  send_updates symbol b now subs cs !! client_id =
    Some (Channel.mk true (Channel.queue c ++
      (tick_message symbol b now <$>
         filter (fun sub => Subscription.client_id sub = client_id) subs))).
Proof.
  revert cs c; induction subs as [|sub subs IH]; intros cs c Hc Ho; simpl.
  { rewrite app_nil_r; by destruct c; simpl in *; subst. }
  rewrite filter_cons; case_decide as Hid.
  - rewrite (send_to_open _ _ _ c) by congruence; simpl.
    rewrite (IH _ (Channel.mk true (Channel.queue c ++ [tick_message symbol b now sub])));
      [|rewrite Hid; apply lookup_insert_eq|done].
    simpl; by rewrite <-app_assoc.
  - apply IH; [by rewrite send_to_ne|done].
Qed.

(** C34: once a client is unregistered, a simulation tick neither
    recreates its channel nor finds a subscription of it: nothing is
    computed or sent for a client that has gone. *)
Theorem unregister_then_tick {R} `{RandomSource R} client_id s fuel now (r : R) s' r' :
  market_tick fuel now (unregister_client client_id s) r = Done (s', r') ->
  clients s' !! client_id = None /\
  forall sym l sub, subscriptions s' !! sym = Some l -> sub ∈ l ->
    Subscription.client_id sub <> client_id.
Proof.
  intros Ht; split.
  - eapply clients_extend_None; [eapply market_tick_loop_clients, Ht|apply lookup_delete_eq].
  - rewrite (market_tick_loop_subscriptions _ _ _ _ _ _ _ Ht).
    intros sym l sub (l0 & _ & -> & _)%unregister_subscriptions_Some Hsub.
    by apply list_elem_of_filter in Hsub as [? _].
Qed.

(** A heartbeat appends one [HeartBeat] to every open channel,
    leaves closed channels as they are, and touches nothing else. *)
Theorem heartbeat_tick_spec now s client_id :
  clients (heartbeat_tick now s) !! client_id =
    (fun c => if Channel.open c then Channel.mk true (Channel.queue c ++ [HeartBeat now]) else c)
      <$> clients s !! client_id /\
  order_books (heartbeat_tick now s) = order_books s /\
  subscriptions (heartbeat_tick now s) = subscriptions s.
Proof.
  split_and!; [simpl|done|done].
  rewrite broadcast_lookup; destruct (clients s !! client_id) as [c|]; simpl; [|done].
  unfold Channel.send; by destruct (Channel.open c).
Qed.

(** C30: a [Subscribe] message from a client whose channel is open gets
    the snapshot and then the [Subscribed] confirmation, in this order. *)
Theorem handle_subscribe_replies {R} `{RandomSource R} client_id stream_id symbol data_type
    max_levels now s (r : R) c :
  clients s !! client_id = Some c -> Channel.open c = true ->
  let b := subscribe_book symbol now s r in
  clients (handle_message client_id (Some (CSubscribe stream_id symbol data_type max_levels))
             now s r).1 !! client_id =
  Some (Channel.mk true (Channel.queue c ++
    [MarketData stream_id symbol (market_data b data_type (default 20 max_levels) now)
       (get_sequence b) now;
     Subscribed stream_id symbol data_type])).
Proof.
  intros Hc Ho b; unfold handle_message.
  rewrite (subscribe_registered _ _ _ _ _ _ _ _ c) by done; simpl.
  rewrite send_to_open with (c := Channel.mk true _) by (apply lookup_insert_eq || done).
  simpl; by rewrite lookup_insert_eq, <-app_assoc.
Qed.

(** ** A tick needs no retry *)

Section TickTermination.
Context {R : Type} `{RandomSourceLaws R}.

Lemma market_tick_loop_done fuel now entries s (r : R) :
  Forall (fun e : string * OrderBook => 8 <= size (orders e.2))%nat entries ->
  exists s' r', market_tick_loop (S fuel) now entries s r = Done (s', r').
Proof.
  revert s r; induction entries as [|[sym b] rest IH]; intros s r Hent; simpl; [by eauto|].
  apply Forall_cons in Hent as [Hb Hrest].
  destruct (simulate_activity_done fuel now b r Hb) as [[[acts b'] r1] ->].
  by apply IH.
Qed.

(** C15: a simulation tick completes with one unit of fuel when every
    book holds at least eight orders: a batch has at most eight
    activities and each removes at most one order, so no activity is
    generated on an empty book and the generator never redraws.  The
    seeded books hold sixty orders. *)
Theorem market_tick_terminates fuel now s (r : R) :
  map_Forall (fun _ b => 8 <= size (orders b))%nat (order_books s) ->
  exists s' r', market_tick (S fuel) now s r = Done (s', r').
Proof.
  intros Hs; apply market_tick_loop_done, Forall_forall.
  intros [sym b] Hin; apply elem_of_map_to_list in Hin; exact (Hs sym b Hin).
Qed.
End TickTermination.

(** ** Witnesses *)

(** A server started on the tape source, with client 1 connected and
    subscribed to the [BTCUSD] depth. *)
Definition demo_started : StreamManager := (start (R := list Z) 0 new []).1.
Definition demo_subscribed : StreamManager :=
  (handle_message (R := list Z) 1 (Some (CSubscribe "s1" "BTCUSD" MBP (Some 5))) 0
     (register_client 1 demo_started) []).1.

Lemma ws_reachable_wf_witness :
  ws_reachable (R := list Z) demo_subscribed /\
  registry_wf demo_subscribed /\ channels_open (clients demo_subscribed).
Proof.
  assert (Hr : ws_reachable (R := list Z) demo_subscribed).
  { eapply ws_reach_step; [|apply ws_message].
    eapply ws_reach_step; [apply (ws_reach_start 0 [])|apply ws_connect; vm_compute; reflexivity]. }
  split; [exact Hr|exact (ws_reachable_wf demo_subscribed Hr)].
Defined.

Lemma subscribe_spec_witness :
  clients (register_client 1 new) !! 1%N = Some Channel.empty /\
  let b := subscribe_book (R := list Z) "XYZ" 0 (register_client 1 new) [] in
  let '(res, s', _) := subscribe (R := list Z) 1 "s1" "XYZ" MBP (Some 5) 0
                         (register_client 1 new) [] in
  res = Ok tt /\ order_books s' !! "XYZ" = Some b /\
  (forall sym, sym <> "XYZ" -> order_books s' !! sym = order_books (register_client 1 new) !! sym) /\
  subscriptions s' !! "XYZ" = Some [Subscription.new "s1" "XYZ" MBP (Some 5) 1] /\
  clients s' !! 1%N = Some (Channel.mk true
    [MarketData "s1" "XYZ" (market_data b MBP 5 0) (get_sequence b) 0]).
Proof.
  split; [reflexivity|].
  exact (subscribe_spec 1 "s1" "XYZ" MBP (Some 5) 0 (register_client 1 new) [] Channel.empty
           eq_refl eq_refl).
Defined.

Lemma subscribe_unknown_client_witness :
  clients new !! 7%N = None /\
  let '(res, s', _) := subscribe (R := list Z) 7 "s1" "XYZ" MBO None 0 new [] in
  res = Ok tt /\ clients s' = clients new /\
  subscriptions s' !! "XYZ" = Some [Subscription.new "s1" "XYZ" MBO None 7].
Proof. split; [reflexivity|exact (subscribe_unknown_client 7 "s1" "XYZ" MBO None 0 new [] eq_refl)]. Defined.

Definition demo_subs : list Subscription.t :=
  [Subscription.new "s1" "XYZ" MBP None 1; Subscription.new "s2" "XYZ" MBO (Some 3) 2;
   Subscription.new "s3" "XYZ" MBO None 1].

Lemma send_updates_spec_witness :
  send_updates "XYZ" book_b1_a1 0 demo_subs {[1%N := Channel.empty]} !! 1%N =
    Some (Channel.mk true [tick_message "XYZ" book_b1_a1 0 (Subscription.new "s1" "XYZ" MBP None 1);
                           tick_message "XYZ" book_b1_a1 0 (Subscription.new "s3" "XYZ" MBO None 1)]).
Proof.
  rewrite (send_updates_spec _ _ _ _ _ _ Channel.empty); [reflexivity| |reflexivity].
  apply lookup_singleton_eq.
Defined.

Lemma unregister_then_tick_witness :
  exists s' r', market_tick (R := list Z) 1 0 (unregister_client 1 demo_subscribed) [] = Done (s', r') /\
    clients s' !! 1%N = None.
Proof.
  destruct (market_tick (R := list Z) 1 0 (unregister_client 1 demo_subscribed) []) as [[s' r']| |] eqn:E;
    [|vm_compute in E; discriminate..].
  exists s', r'; split; [reflexivity|].
  exact (proj1 (unregister_then_tick 1 demo_subscribed 1 0 [] s' r' E)).
Defined.

Lemma handle_subscribe_replies_witness :
  clients (register_client 1 new) !! 1%N = Some Channel.empty /\
  let b := subscribe_book (R := list Z) "XYZ" 0 (register_client 1 new) [] in
  clients (handle_message (R := list Z) 1 (Some (CSubscribe "s1" "XYZ" MBO None)) 0
             (register_client 1 new) []).1 !! 1%N =
  Some (Channel.mk true [MarketData "s1" "XYZ" (market_data b MBO 20 0) (get_sequence b) 0;
                         Subscribed "s1" "XYZ" MBO]).
Proof.
  split; [reflexivity|].
  exact (handle_subscribe_replies 1 "s1" "XYZ" MBO None 0 (register_client 1 new) [] Channel.empty
           eq_refl eq_refl).
Defined.
Lemma market_tick_terminates_witness :
  map_Forall (fun _ b => 8 <= size (orders b))%nat (order_books demo_subscribed) /\
  exists s' r', market_tick (R := list Z) 1 0 demo_subscribed [] = Done (s', r').
Proof.
  assert (Hs : map_Forall (fun _ b => 8 <= size (orders b))%nat (order_books demo_subscribed))
    by by_decide.
  split; [exact Hs|exact (market_tick_terminates 0 0 demo_subscribed [] Hs)].
Defined.
End WS.
