(* ===== verification/Sequencing.v ===== *)
(** * Sequencing: the sequence numbers a WebSocket client receives

    A book's [sequence] counts its mutations, and every [MarketData]
    message carries the sequence of the book it was projected from.
    The spec says consumers use it to detect missed and stale updates.
    This file proves that, on a server run without interleaving (the
    steps of [WS.ws_step]), the sequence numbers a client receives for a
    symbol never decrease, and never exceed the sequence of that
    symbol's book.  This holds as long as no counter comes within 16 of
    [2^64], so that no tick wraps one.  [Interleaving] shows what a tick
    inside [subscribe] does to the pairing of levels and sequence.

    The mutation lemmas say how far each mutator advances the counter:
    [add_order] by 1 or 2, [remove_order] and [update_order] by 0 or 1,
    a tick's batch of at most eight activities by at most 16. *)

From S2P Require Import Prelude Message PriceLadder OrderBook Projection Activity Channel StreamManager.

Import WS.

(** ** How far a mutation advances the counter *)

(** [b'] is [b] advanced by between [lo] and [hi] mutations. *)
Definition advances (lo hi : Z) (b b' : OrderBook) : Prop :=
  exists k, lo <= k <= hi /\ sequence b' = wrap64 (sequence b + k).

Lemma advances_widen lo hi lo' hi' b b' :
  lo' <= lo -> hi <= hi' -> advances lo hi b b' -> advances lo' hi' b b'.
Proof. intros ?? (k & ? & ?); exists k; split; [lia|done]. Qed.

Lemma advances_refl b : is_u64 (sequence b) -> advances 0 0 b b.
Proof. intros Hb; exists 0; split; [lia|]. rewrite Z.add_0_r, wrap64_small; done. Qed.

Lemma advances_trans lo1 hi1 lo2 hi2 b1 b2 b3 :
  advances lo1 hi1 b1 b2 -> advances lo2 hi2 b2 b3 -> advances (lo1 + lo2) (hi1 + hi2) b1 b3.
Proof.
  intros (k1 & ? & E1) (k2 & ? & E2); exists (k1 + k2); split; [lia|].
  rewrite E2, E1; unfold wrap64; rewrite Zplus_mod_idemp_l; f_equal; lia.
Qed.

Lemma advances_u64 lo hi b b' : advances lo hi b b' -> is_u64 (sequence b').
Proof. intros (k & _ & ->); apply wrap64_range. Qed.

(** Below [2^64 - hi], an advance by at most [hi] does not wrap. *)
Lemma advances_no_wrap lo hi b b' :
  0 <= lo -> is_u64 (sequence b) -> sequence b + hi < 2 ^ 64 -> advances lo hi b b' ->
  sequence b + lo <= sequence b' <= sequence b + hi.
Proof.
  unfold is_u64; intros Hlo Hb Hhi (k & Hk & ->).
  rewrite wrap64_small by (unfold is_u64; lia); lia.
Qed.

Lemma remove_order_advances i b : is_u64 (sequence b) -> advances 0 1 b (remove_order i b).2.
Proof.
  intros Hb; unfold advances; rewrite remove_order_sequence.
  destruct (remove_order i b).1; [exists 1; split; [lia|done]|].
  exists 0; split; [lia|]; rewrite Z.add_0_r, wrap64_small; done.
Qed.

Lemma add_order_advances o b : advances 1 2 b (add_order o b).2.
Proof.
  unfold advances; rewrite add_order_sequence_eq.
  destruct (orders b !! Order.id o); [exists 2|exists 1]; split; first [lia|done].
Qed.

Lemma update_order_advances i q now b : is_u64 (sequence b) -> advances 0 1 b (update_order i q now b).2.
Proof.
  intros Hb; unfold update_order; case_decide; [by apply remove_order_advances|].
  case_match; simpl; [exists 1; split; [lia|done]|by apply advances_widen with 0 0; [lia|lia|apply advances_refl]].
Qed.

Lemma execute_activity_advances now a b : is_u64 (sequence b) -> advances 0 2 b (execute_activity now a b).
Proof.
  intros Hb; unfold execute_activity.
  repeat case_match;
    first [eapply advances_widen, add_order_advances; lia
          |eapply advances_widen, update_order_advances; [lia|lia|done]
          |eapply advances_widen, remove_order_advances; [lia|lia|done]
          |eapply advances_widen, advances_refl; [lia|lia|done]].
Qed.

Lemma foldl_execute_advances now l b :
  is_u64 (sequence b) ->
  advances 0 (2 * Z.of_nat (length l)) b (foldl (fun b a => execute_activity now a b) b l).
Proof.
  revert b; induction l as [|a l IH]; intros b Hb; simpl; [by apply advances_refl|].
  pose proof (execute_activity_advances now a b Hb) as H1.
  eapply advances_widen, advances_trans; [| |exact H1|apply IH, (advances_u64 _ _ _ _ H1)]; lia.
Qed.

Section Tick.
Context {R : Type} `{RandomSourceLaws R}.

(** A tick's batch advances a book by at most 16 mutations. *)
Lemma simulate_activity_advances fuel now b (r : R) acts b' r' :
  is_u64 (sequence b) -> simulate_activity fuel now b r = Done (acts, b', r') -> advances 0 16 b b'.
Proof.
  intros Hb Hs; destruct (simulate_activity_run _ _ _ _ _ _ _ Hs) as [Hlen ->].
  destruct (gen_range_incl 1 8 r) as [n r1] eqn:En; simpl in Hlen.
  apply range_draw in En; [|lia].
  eapply advances_widen, foldl_execute_advances; [lia| |done]. lia.
Qed.
End Tick.

(** ** The invariant *)

(** The sequence of a [MarketData] message of [x]. *)
Definition market_seq (x : string) (m : ServerMessage) : option Z :=
  match m with
  | MarketData _ symbol _ q _ => if decide (symbol = x) then Some q else None
  | _ => None
  end.

(** The sequence numbers of [x] in a queue, in order. *)
Definition market_seqs (x : string) (l : list ServerMessage) : list Z := omap (market_seq x) l.

(** For each symbol, the queue's sequence numbers never decrease and none
    exceeds the symbol's book. *)
Definition queue_ordered (books : gmap string OrderBook) (l : list ServerMessage) : Prop :=
  forall x, StronglySorted Z.le (market_seqs x l) /\
            Forall (fun q => exists b, books !! x = Some b /\ q <= sequence b) (market_seqs x l).

Definition queues_ordered (books : gmap string OrderBook) (cs : gmap Uuid (Channel.t ServerMessage))
    : Prop :=
  map_Forall (fun _ c => queue_ordered books (Channel.queue c)) cs.

Record seq_ordered (s : StreamManager) : Prop := {
  so_u64 : map_Forall (fun _ b => is_u64 (sequence b)) (order_books s);
  so_queues : queues_ordered (order_books s) (clients s)
}.

(** No counter is within 16 of [2^64]: the next tick wraps none. *)
Definition seqs_below (s : StreamManager) : Prop :=
  map_Forall (fun _ b => sequence b + 16 < 2 ^ 64) (order_books s).

(** A message is current when, if it is the market data of [x], it
    carries the sequence of [x]'s book. *)
Definition current (books : gmap string OrderBook) (m : ServerMessage) : Prop :=
  forall x q, market_seq x m = Some q -> exists b, books !! x = Some b /\ q = sequence b.

(** ** Sending keeps the queues ordered *)

Lemma current_other books m : (forall x, market_seq x m = None) -> current books m.
Proof. intros Hm x q; by rewrite Hm. Qed.

Lemma current_market books sid x data b t :
  books !! x = Some b -> current books (MarketData sid x data (sequence b) t).
Proof. intros Hx y q; simpl; case_decide; [intros [= <-]; subst; by exists b|done]. Qed.

Lemma queue_ordered_nil books : queue_ordered books [].
Proof. intros x; split; constructor. Qed.

Lemma queue_ordered_snoc books l m :
  queue_ordered books l -> current books m -> queue_ordered books (l ++ [m]).
Proof.
  intros Hl Hm x; destruct (Hl x) as [Hs Hb].
  unfold market_seqs; rewrite omap_app; simpl.
  destruct (market_seq x m) as [q|] eqn:Eq; simpl; [|by rewrite app_nil_r].
  destruct (Hm x q Eq) as (b & Hx & ->).
  split.
  - apply StronglySorted_app_iff; split_and!; [done|repeat constructor|].
    intros y z Hy ->%list_elem_of_singleton.
    eapply Forall_forall in Hb as (b' & Hx' & Hle); [|exact Hy].
    rewrite Hx in Hx'; by simplify_eq.
  - apply Forall_app; split; [done|]. constructor; [|done]. exists b; split; [done|lia].
Qed.

Lemma send_to_ordered books id m cs :
  current books m -> queues_ordered books cs -> queues_ordered books (send_to id m cs).2.
Proof.
  intros Hm Hcs; unfold send_to.
  destruct (cs !! id) as [c|] eqn:Hc; [|done].
  unfold Channel.send; destruct (Channel.open c); simpl; [|done].
  apply map_Forall_insert_2; [|done]. apply queue_ordered_snoc; [|done]. by apply (Hcs id c).
Qed.

Lemma broadcast_ordered books m cs :
  current books m -> queues_ordered books cs -> queues_ordered books (broadcast m cs).
Proof.
  intros Hm Hcs id c'; rewrite broadcast_lookup.
  destruct (cs !! id) as [c|] eqn:Hc; simpl; [|done]. intros [= <-].
  unfold Channel.send; destruct (Channel.open c); simpl; [|by apply (Hcs id c)].
  apply queue_ordered_snoc; [by apply (Hcs id c)|done].
Qed.

(** Books that only advance keep every queue ordered. *)
Lemma queues_ordered_mono books books' cs :
  (forall x b, books !! x = Some b -> exists b', books' !! x = Some b' /\ sequence b <= sequence b') ->
  queues_ordered books cs -> queues_ordered books' cs.
Proof.
  intros Hmono Hcs id c Hc x; destruct (Hcs id c Hc x) as [Hs Hb]; split; [done|].
  eapply Forall_impl; [exact Hb|]. intros q (b & Hx & Hq).
  destruct (Hmono x b Hx) as (b' & ? & ?); exists b'; split; [done|lia].
Qed.

(** ** Every step keeps the invariant *)

Lemma seeded_u64 now symbol {R} `{RandomSource R} (r : R) :
  is_u64 (sequence (initialize_with_sample_data now (OrderBook.new symbol) r).1).
Proof.
  apply initialize_with_sample_data_preserve; [|unfold is_u64; simpl; lia].
  intros o b _; apply (advances_u64 _ _ _ _ (add_order_advances o b)).
Qed.

Section Steps.
Context {R : Type} `{RandomSource R}.

Lemma initialize_symbol_u64 symbol now s (r : R) :
  map_Forall (fun _ b => is_u64 (sequence b)) (order_books s) ->
  map_Forall (fun _ b => is_u64 (sequence b)) (order_books (initialize_symbol symbol now s r).1).
Proof.
  intros Hs; pose proof (seeded_u64 now symbol r) as Hseed; unfold initialize_symbol.
  destruct (initialize_with_sample_data _ _ _) as [b r']; simpl in *.
  by apply map_Forall_insert_2.
Qed.

Lemma start_ordered now (r : R) : seq_ordered (start now new r).1.
Proof.
  split.
  - unfold start.
    pose proof (initialize_symbol_u64 "BTCUSD" now new r (map_Forall_empty _)) as H1.
    destruct (initialize_symbol "BTCUSD" now new r) as [s1 r1].
    pose proof (initialize_symbol_u64 "ETHUSD" now s1 r1 H1) as H2.
    destruct (initialize_symbol "ETHUSD" now s1 r1) as [s2 r2].
    by apply initialize_symbol_u64.
  - rewrite start_clients. apply map_Forall_empty.
Qed.

Lemma register_client_ordered client_id s : seq_ordered s -> seq_ordered (register_client client_id s).
Proof. intros [Hu Hq]; split; [done|]. apply map_Forall_insert_2; [apply queue_ordered_nil|done]. Qed.

Lemma unregister_client_ordered client_id s : seq_ordered s -> seq_ordered (unregister_client client_id s).
Proof. intros [Hu Hq]; split; [done|]. by apply map_Forall_delete. Qed.

Lemma heartbeat_tick_ordered now s : seq_ordered s -> seq_ordered (heartbeat_tick now s).
Proof.
  intros [Hu Hq]; split; [done|]; cbn [heartbeat_tick set_clients clients order_books].
  by apply broadcast_ordered; [apply current_other|].
Qed.

(** [subscribe] seeds only a symbol without a book, so without messages,
    and its snapshot carries the sequence of the book it projects. *)
Lemma subscribe_ordered client_id stream_id symbol dt ml now s (r : R) :
  seq_ordered s -> seq_ordered (subscribe client_id stream_id symbol dt ml now s r).1.2.
Proof.
  intros [Hu Hq].
  pose proof (ensure_symbol_books symbol now s r) as Hbooks.
  pose proof (ensure_symbol_spec symbol now s r) as (_ & _ & _ & Hcl & _).
  assert (Hseed : is_u64 (sequence (subscribe_book symbol now s r))).
  { unfold subscribe_book; destruct (order_books s !! symbol) eqn:E; simpl;
      [by apply (Hu symbol)|apply seeded_u64]. }
  assert (Hkeep : forall x b, order_books s !! x = Some b ->
            exists b', order_books (ensure_symbol symbol now s r).1 !! x = Some b' /\
                       sequence b <= sequence b').
  { intros x b Hx; exists b; split; [|lia]. rewrite Hbooks.
    destruct (decide (x = symbol)) as [->|Hne].
    - rewrite lookup_insert_eq; unfold subscribe_book; by rewrite Hx.
    - by rewrite lookup_insert_ne. }
  unfold subscribe.
  destruct (ensure_symbol symbol now s r) as [s1 r1]; simpl in *.
  assert (Hu1 : map_Forall (fun _ b => is_u64 (sequence b)) (order_books s1))
    by (rewrite Hbooks; by apply map_Forall_insert_2).
  assert (Hq1 : queues_ordered (order_books s1) (clients s1))
    by (rewrite Hcl; by eapply queues_ordered_mono).
  cbn [order_books clients set_subscriptions set_clients].
  destruct (order_books s1 !! symbol) as [b|] eqn:Eb; [|by split].
  destruct (clients s1 !! client_id); [|by split].
  destruct (send_to _ _ _) as [[] cs] eqn:E; try by split.
  split; [done|]; simpl.
  change cs with (Sent, cs).2; rewrite <-E.
  by apply send_to_ordered; [apply current_market|].
Qed.

Lemma handle_message_ordered client_id msg now s (r : R) :
  seq_ordered s -> seq_ordered (handle_message client_id msg now s r).1.
Proof.
  intros Hs; unfold handle_message.
  destruct msg as [[stream_id symbol dt ml|stream_id|p]|].
  - pose proof (subscribe_ordered client_id stream_id symbol dt ml now s r Hs) as [Hu Hq].
    destruct (subscribe _ _ _ _ _ _ _ _) as [[res s'] r']; simpl in *.
    split; [done|]. apply send_to_ordered; [|done]. apply current_other; by destruct res.
  - destruct Hs as [Hu Hq]; unfold unsubscribe.
    destruct (unsubscribe_loop _ _ _ _) as [found subs]; simpl.
    split; [done|]. apply send_to_ordered; [|done]. apply current_other; by destruct found.
  - destruct Hs as [Hu Hq]; split; [done|]; cbn [set_clients clients order_books].
    by apply send_to_ordered; [apply current_other|].
  - destruct Hs as [Hu Hq]; split; [done|]; cbn [set_clients clients order_books].
    by apply send_to_ordered; [apply current_other|].
Qed.
End Steps.

Section TickOrdered.
Context {R : Type} `{RandomSourceLaws R}.

Lemma send_updates_ordered books symbol b now subs cs :
  books !! symbol = Some b -> queues_ordered books cs ->
  queues_ordered books (send_updates symbol b now subs cs).
Proof.
  intros Hb; revert cs; induction subs as [|sub subs IH]; intros cs Hcs; simpl; [done|].
  apply IH, send_to_ordered; [by apply current_market|done].
Qed.

(** The loop of a tick visits each symbol once, with the book the
    symbol has when the tick starts. *)
Lemma market_tick_loop_ordered fuel now entries s (r : R) s' r' :
  NoDup entries.*1 ->
  (forall x b, (x, b) ∈ entries -> order_books s !! x = Some b /\ sequence b + 16 < 2 ^ 64) ->
  seq_ordered s -> market_tick_loop fuel now entries s r = Done (s', r') -> seq_ordered s'.
Proof.
  revert s r; induction entries as [|[x b] rest IH]; intros s r Hnd Hent [Hu Hq] Ht;
    simpl in Ht; [by simplify_eq|].
  destruct (simulate_activity fuel now b r) as [[[acts b'] r1]| |] eqn:Es; try discriminate.
  destruct (Hent x b (list_elem_of_here _ _)) as [Hx Hbound].
  pose proof (simulate_activity_advances fuel now b r acts b' r1 (Hu x b Hx) Es) as Hadv.
  pose proof (advances_no_wrap 0 16 b b' ltac:(lia) (Hu x b Hx) Hbound Hadv) as Hle.
  apply NoDup_cons in Hnd as [Hnin Hnd].
  eapply IH; [exact Hnd| |split|exact Ht]; cbn [set_clients order_books clients].
  - intros y b2 Hin; rewrite lookup_insert_ne; [apply Hent; by right|].
    intros <-; apply Hnin; exact (list_elem_of_fmap_2 fst _ _ Hin).
  - apply map_Forall_insert_2; [exact (advances_u64 _ _ _ _ Hadv)|done].
  - assert (Hq' : queues_ordered (<[x := b']> (order_books s)) (clients s)).
    { eapply queues_ordered_mono; [|exact Hq]. intros y b0 Hy.
      destruct (decide (y = x)) as [->|Hne].
      - exists b'; rewrite lookup_insert_eq; split; [done|]. rewrite Hx in Hy; simplify_eq; lia.
      - exists b0; by rewrite lookup_insert_ne. }
    case_match; [apply send_updates_ordered; [apply lookup_insert_eq|done]|done].
Qed.

Lemma market_tick_ordered fuel now s (r : R) s' r' :
  seqs_below s -> seq_ordered s -> market_tick fuel now s r = Done (s', r') -> seq_ordered s'.
Proof.
  intros Hb Hs Ht; eapply market_tick_loop_ordered; [apply NoDup_fst_map_to_list| |exact Hs|exact Ht].
  intros x b Hin%elem_of_map_to_list; split; [done|exact (Hb x b Hin)].
Qed.

Lemma ws_step_ordered s s' : ws_step (R := R) s s' -> seqs_below s -> seq_ordered s -> seq_ordered s'.
Proof.
  intros Hstep Hb Hs.
  destruct Hstep as [client_id s Hfresh|client_id s|client_id msg now r s|fuel now r s s' r' Ht|now s].
  - by apply register_client_ordered.
  - by apply unregister_client_ordered.
  - by apply handle_message_ordered.
  - by eapply market_tick_ordered.
  - by apply heartbeat_tick_ordered.
Qed.

Lemma ws_run_ordered s0 s :
  rtc (fun s s' => ws_step (R := R) s s' /\ seqs_below s) s0 s -> seq_ordered s0 -> seq_ordered s.
Proof.
  induction 1 as [|s1 s2 s3 [Hstep Hb] _ IH]; intros Hs; [done|].
  apply IH; by eapply ws_step_ordered.
Qed.
End TickOrdered.

(** ** The property *)

(** C28: on a run of the WebSocket server without interleaving, that is
    [main]'s [start] followed by connections, disconnections, messages,
    ticks and heartbeats each applied whole, the [MarketData] messages a
    client has received for a symbol carry sequence numbers that never
    decrease, and none exceeds the sequence of the symbol's book.  So a
    consumer may discard a message whose sequence is below one it has
    seen.  This holds as long as, before each step, every counter is at
    least 16 below [2^64], so that no tick wraps one. *)
Theorem ws_sequences_ordered {R} `{RandomSourceLaws R} now (r : R) s :
  rtc (fun s s' => ws_step (R := R) s s' /\ seqs_below s) (start now new r).1 s ->
  forall client_id c x, clients s !! client_id = Some c ->
    StronglySorted Z.le (market_seqs x (Channel.queue c)) /\
    Forall (fun q => exists b, order_books s !! x = Some b /\ q <= get_sequence b)
      (market_seqs x (Channel.queue c)).
Proof.
  intros Hrun client_id c x Hc.
  assert (Hs : seq_ordered s) by (eapply ws_run_ordered; [exact Hrun|apply start_ordered]).
  exact (so_queues s Hs client_id c Hc x).
Qed.

(** ** Witness *)

Lemma ws_sequences_ordered_witness :
  rtc (fun s s' => ws_step (R := list Z) s s' /\ seqs_below s) (start 0 new []).1 demo_subscribed /\
  forall client_id c x, clients demo_subscribed !! client_id = Some c ->
    StronglySorted Z.le (market_seqs x (Channel.queue c)) /\
    Forall (fun q => exists b, order_books demo_subscribed !! x = Some b /\ q <= get_sequence b)
      (market_seqs x (Channel.queue c)).
Proof.
  assert (Hrun : rtc (fun s s' => ws_step (R := list Z) s s' /\ seqs_below s)
                   (start 0 new []).1 demo_subscribed).
  { eapply rtc_l; [split; [apply (ws_connect 1); vm_compute; reflexivity|by_decide]|].
    eapply rtc_l; [split; [apply ws_message|by_decide]|].
    apply rtc_refl. }
  split; [exact Hrun|exact (ws_sequences_ordered 0 [] demo_subscribed Hrun)].
Defined.
