(* ===== verification/SSEStreamManager.v ===== *)
(** * SSEStreamManager: the registry of the SSE server

    [src/backend-sse/src/stream_manager.rs], the query parsing of
    [src/backend-sse/src/message.rs] ([StreamQuery::parse_streams]) and
    the handler of [src/backend-sse/src/sse_handler.rs].  The record has
    the manager's four maps; [client_streams] tracks the stream ids of
    each client so that [unregister_client] can remove its subscriptions
    one stream at a time.  Stream ids are derived:
    [format!("{}_{:?}_{}", symbol, data_type, max_levels)].

    The transport side is modelled by the steps [sse_step]: a connection
    runs [sse_handler]; the client going away drops the receiver, which
    closes the channel; [SSEStream::poll_next] reaches [Ready(None)] and
    calls [unregister_client] only once every sender is gone, that is when
    the client is no longer in [clients]. *)

From Stdlib Require Import Ascii.
From S2P Require Import Prelude Message PriceLadder OrderBook Projection Activity Text Channel StreamManager.

Module SSE.

Record SSEStreamManager := mkSSEStreamManager {
  order_books : gmap string OrderBook;
  subscriptions : gmap string (list Subscription.t);
  clients : gmap Uuid (Channel.t SSEMessage);
  client_streams : gmap Uuid (list string)
}.

(** [SSEStreamManager::new]. *)
Definition new : SSEStreamManager := mkSSEStreamManager ∅ ∅ ∅ ∅.

Definition set_clients m (s : SSEStreamManager) : SSEStreamManager :=
  mkSSEStreamManager (order_books s) (subscriptions s) m (client_streams s).

(** [{:?}] of a [DataType]. *)
Definition show_data_type (dt : DataType) : string :=
  match dt with MBO => "MBO" | MBP => "MBP" end.

(** The stream id [subscribe_to_streams] derives. *)
Definition stream_id_of (symbol : string) (data_type : DataType) (max_levels : Z) : string :=
  symbol +:+ "_" +:+ show_data_type data_type +:+ "_" +:+ display_u32 max_levels.

(** [struct StreamQuery]: the query string of [/stream]. *)
Record StreamQuery := mkStreamQuery {
  streams : option string;
  symbols : option string;
  data_type : option string;
  max_levels : option Z
}.

(** [get_default_data_type]. *)
Definition get_default_data_type (q : StreamQuery) : DataType :=
  match data_type q with Some "MBO" => MBO | _ => MBP end.

(** One [symbol:type:levels] definition of [parse_streams]. *)
Definition parse_stream_def (q : StreamQuery) (stream_def : string) : option (string * DataType * Z) :=
  match split ":"%char (trim stream_def) with
  | [] => None
  | symbol :: rest =>
      let data_type := match rest with
                       | [] => get_default_data_type q
                       | dt :: _ => if decide (to_uppercase dt = "MBO") then MBO else MBP
                       end in
      let max_levels := match rest with
                        | _ :: levels :: _ => default (default 20 (max_levels q)) (parse_u32 levels)
                        | _ => default 20 (max_levels q)
                        end in
      Some (symbol, data_type, max_levels)
  end.

(** [StreamQuery::parse_streams]. *)
Definition parse_streams (q : StreamQuery) : list (string * DataType * Z) :=
  match streams q with
  | Some stream_str => omap (parse_stream_def q) (split ","%char stream_str)
  | None =>
      match symbols q with
      | Some symbols_str =>
          (fun symbol => (trim symbol, get_default_data_type q, default 20 (max_levels q)))
            <$> split ","%char symbols_str
      | None => []
      end
  end.

(** One tick's message to one subscription. *)
Definition tick_message (symbol : string) (b : OrderBook) (now : Z) (sub : Subscription.t)
    : SSEMessage :=
  SSEMarketData (Subscription.stream_id sub) symbol
    (WS.market_data b (Subscription.data_type sub) (Subscription.max_levels sub) now)
    (get_sequence b) now.

Fixpoint send_updates (symbol : string) (b : OrderBook) (now : Z)
    (subs : list Subscription.t) (cs : gmap Uuid (Channel.t SSEMessage))
    : gmap Uuid (Channel.t SSEMessage) :=
  match subs with
  | [] => cs
  | sub :: rest =>
      send_updates symbol b now rest
        (send_to (Subscription.client_id sub) (tick_message symbol b now sub) cs).2
  end.

(** [heartbeat_tick]: one iteration of [start_heartbeat]'s loop. *)
Definition heartbeat_tick (now : Z) (s : SSEStreamManager) : SSEStreamManager :=
  set_clients (broadcast (SSEHeartBeat now) (clients s)) s.

(** [register_client]: a channel and an empty stream list. *)
Definition register_client (client_id : Uuid) (s : SSEStreamManager) : SSEStreamManager :=
  mkSSEStreamManager (order_books s) (subscriptions s)
    (<[client_id := Channel.empty]> (clients s)) (<[client_id := []]> (client_streams s)).

(** [remove_subscription]: the retain loop of [unsubscribe] (it stops at
    the first list it changes), then the empty lists are pruned. *)
Definition remove_subscription (client_id : Uuid) (stream_id : string)
    (subs : gmap string (list Subscription.t)) : gmap string (list Subscription.t) :=
  let subs := (WS.unsubscribe_loop client_id stream_id (map_to_list subs) subs).2 in
  filter (fun kv : string * list Subscription.t => kv.2 <> []) subs.

(** [unregister_client]: take the tracked streams, remove each, then the
    channel. *)
Definition unregister_client (client_id : Uuid) (s : SSEStreamManager) : SSEStreamManager :=
  let streams := default [] (client_streams s !! client_id) in
  let subs := foldl (fun subs stream_id => remove_subscription client_id stream_id subs)
                (subscriptions s) streams in
  mkSSEStreamManager (order_books s) subs (delete client_id (clients s))
    (delete client_id (client_streams s)).

(** [get_symbols]. *)
Definition get_symbols (s : SSEStreamManager) : list string := (map_to_list (order_books s)).*1.

(** [send_connection_info]. *)
Definition send_connection_info (client_id : Uuid) (now : Z) (s : SSEStreamManager)
    : SSEStreamManager :=
  set_clients (send_to client_id (SSEConnectionInfo client_id now (get_symbols s)) (clients s)).2 s.

Section WithRandom.
Context {R : Type} `{RandomSource R}.

(** [initialize_symbol]. *)
Definition initialize_symbol (symbol : string) (now : Z) (s : SSEStreamManager) (r : R)
    : SSEStreamManager * R :=
  let '(b, r) := initialize_with_sample_data now (OrderBook.new symbol) r in
  (mkSSEStreamManager (<[symbol := b]> (order_books s)) (subscriptions s) (clients s)
     (client_streams s), r).

Definition ensure_symbol (symbol : string) (now : Z) (s : SSEStreamManager) (r : R)
    : SSEStreamManager * R :=
  if decide (is_Some (order_books s !! symbol)) then (s, r) else initialize_symbol symbol now s r.

(** [start]: the three default symbols. *)
Definition start (now : Z) (s : SSEStreamManager) (r : R) : SSEStreamManager * R :=
  let '(s, r) := initialize_symbol "BTCUSD" now s r in
  let '(s, r) := initialize_symbol "ETHUSD" now s r in
  initialize_symbol "ADAUSD" now s r.

(** The loop of [start_market_simulation] over the books. *)
Fixpoint market_tick_loop (fuel : nat) (now : Z) (entries : list (string * OrderBook))
    (s : SSEStreamManager) (r : R) : outcome (SSEStreamManager * R) :=
  match entries with
  | [] => Done (s, r)
  | (symbol, b) :: rest =>
      match simulate_activity fuel now b r with
      | Done (_, b, r) =>
          let books := <[symbol := b]> (order_books s) in
          let cs := match subscriptions s !! symbol with
                    | Some subs => send_updates symbol b now subs (clients s)
                    | None => clients s
                    end in
          market_tick_loop fuel now rest
            (mkSSEStreamManager books (subscriptions s) cs (client_streams s)) r
      | Panic => Panic
      | OutOfFuel => OutOfFuel
      end
  end.

Definition market_tick (fuel : nat) (now : Z) (s : SSEStreamManager) (r : R)
    : outcome (SSEStreamManager * R) :=
  market_tick_loop fuel now (map_to_list (order_books s)) s r.

(** [subscribe_to_streams]: per definition, seed the symbol, file the
    subscription, track its stream id and send the snapshot; the first
    failed send returns [Err], the earlier streams staying subscribed. *)
Fixpoint subscribe_to_streams (client_id : Uuid) (defs : list (string * DataType * Z)) (now : Z)
    (s : SSEStreamManager) (r : R) : result unit string * SSEStreamManager * R :=
  match defs with
  | [] => (Ok tt, s, r)
  | (symbol, data_type, max_levels) :: rest =>
      let '(s, r) := ensure_symbol symbol now s r in
      let stream_id := stream_id_of symbol data_type max_levels in
      let subscription := Subscription.new stream_id symbol data_type (Some max_levels) client_id in
      let subs := <[symbol := default [] (subscriptions s !! symbol) ++ [subscription]]>
                    (subscriptions s) in
      let cstreams := <[client_id := default [] (client_streams s !! client_id) ++ [stream_id]]>
                        (client_streams s) in
      let s := mkSSEStreamManager (order_books s) subs (clients s) cstreams in
      match order_books s !! symbol, clients s !! client_id with
      | Some b, Some _ =>
          let initial_message :=
            SSEMarketData stream_id symbol (WS.market_data b data_type max_levels now)
              (get_sequence b) now in
          match send_to client_id initial_message (clients s) with
          | (Sent, cs) => subscribe_to_streams client_id rest now (set_clients cs s) r
          | _ => (Err "Failed to send initial snapshot", s, r)
          end
      | _, _ => subscribe_to_streams client_id rest now s r
      end
  end.

(** [sse_handler]: register, send the connection info, subscribe to the
    requested streams (or to [BTCUSD:MBP:20]); a failed subscription is
    answered with [400] or [500] and nothing is undone. *)
Definition sse_handler (q : StreamQuery) (client_id : Uuid) (now : Z) (s : SSEStreamManager) (r : R)
    : result unit Z * SSEStreamManager * R :=
  let s := register_client client_id s in
  let s := send_connection_info client_id now s in
  let stream_definitions := parse_streams q in
  if decide (stream_definitions <> []) then
    match subscribe_to_streams client_id stream_definitions now s r with
    | (Ok _, s, r) => (Ok tt, s, r)
    | (Err _, s, r) => (Err 400, s, r)
    end
  else
    match subscribe_to_streams client_id [("BTCUSD", MBP, 20)] now s r with
    | (Ok _, s, r) => (Ok tt, s, r)
    | (Err _, s, r) => (Err 500, s, r)
    end.
End WithRandom.

(** ** The server's life *)

Section Steps.
Context {R : Type} `{RandomSource R}.

(** What can happen to a started server: a request on [/stream] with a
    fresh [Uuid::new_v4]; the client going away (the response stream and
    its receiver are dropped); [SSEStream::poll_next] returning
    [Ready(None)], which needs every sender gone; a tick; a heartbeat. *)
Inductive sse_step : SSEStreamManager -> SSEStreamManager -> Prop :=
  | sse_connect q client_id now (r : R) s :
      clients s !! client_id = None -> client_streams s !! client_id = None ->
      sse_step s (sse_handler q client_id now s r).1.2
  | sse_disconnect client_id s :
      sse_step s (set_clients (alter Channel.close client_id (clients s)) s)
  | sse_stream_end client_id s :
      clients s !! client_id = None -> sse_step s (unregister_client client_id s)
  | sse_tick fuel now (r : R) s s' r' :
      market_tick fuel now s r = Done (s', r') -> sse_step s s'
  | sse_heartbeat now s : sse_step s (heartbeat_tick now s).

(** [main]: [SSEStreamManager::new()], [start()] once, then the routes
    serve requests while the background tasks run. *)
Inductive sse_reachable : SSEStreamManager -> Prop :=
  | sse_reach_start now (r : R) : sse_reachable (start now new r).1
  | sse_reach_step s s' : sse_reachable s -> sse_step s s' -> sse_reachable s'.
End Steps.

(** ** Lemmas on the clients map *)

Lemma sse_send_updates_extend symbol b now subs cs :
  clients_extend cs (send_updates symbol b now subs cs).
Proof.
  revert cs; induction subs as [|sub subs IH]; intros cs; simpl; [reflexivity|].
  etrans; [apply send_to_extend|apply IH].
Qed.

Lemma send_connection_info_extend client_id now s :
  clients_extend (clients s) (clients (send_connection_info client_id now s)).
Proof. apply send_to_extend. Qed.

(** A registered client stays registered: what every step but the stream
    end does to [clients]. *)
Definition keeps_clients (cs cs' : gmap Uuid (Channel.t SSEMessage)) : Prop :=
  forall j, is_Some (cs !! j) -> is_Some (cs' !! j).

Lemma clients_extend_keeps cs cs' : clients_extend cs cs' -> keeps_clients cs cs'.
Proof. intros Hext j [c Hc]; destruct (clients_extend_lookup _ _ _ _ Hext Hc) as (c' & -> & _); by eexists. Qed.

(** The subscriptions of one client in a (missing or present) list, and
    under a symbol of the registry, in filing order. *)
Definition own_subs (id : Uuid) (o : option (list Subscription.t)) : list Subscription.t :=
  filter (fun sub => Subscription.client_id sub = id) (default [] o).

Definition client_subs (id : Uuid) (s : SSEStreamManager) (symbol : string) : list Subscription.t :=
  own_subs id (subscriptions s !! symbol).

(** What a client owns in the registry: its channel's presence, its
    tracked stream ids and its subscriptions. *)
Definition client_kept (id : Uuid) (s s' : SSEStreamManager) : Prop :=
  (is_Some (clients s !! id) -> is_Some (clients s' !! id)) /\
  client_streams s' !! id = client_streams s !! id /\
  (forall symbol, client_subs id s' symbol = client_subs id s symbol).

#[export] Instance client_kept_preorder id : PreOrder (client_kept id).
Proof.
  split; [intros s; unfold client_kept; naive_solver|].
  intros s1 s2 s3 (H1 & H2 & H3) (H1' & H2' & H3'); split_and!; [naive_solver|congruence|].
  intros sym; by rewrite H3', H3.
Qed.

Lemma client_kept_registry id s s' :
  subscriptions s' = subscriptions s -> client_streams s' = client_streams s ->
  keeps_clients (clients s) (clients s') -> client_kept id s s'.
Proof. intros Hs Hc Hk; unfold client_kept, client_subs; rewrite Hs, Hc; split_and!; auto. Qed.

Lemma own_subs_unmatched x cid sid l :
  x <> cid ->
  own_subs x (Some (filter (fun sub => ~ WS.sub_matches cid sid sub) l)) = own_subs x (Some l).
Proof.
  intros Hne; unfold own_subs; simpl. rewrite list_filter_filter.
  apply list_filter_iff; intros sub; unfold WS.sub_matches; naive_solver.
Qed.

(** [unsubscribe_loop] for another client keeps this one's subscriptions. *)
Lemma unsubscribe_loop_own x cid sid entries (subs subs0 : gmap string (list Subscription.t)) :
  x <> cid ->
  (forall sym l, (sym, l) ∈ entries -> subs0 !! sym = Some l) ->
  (forall sym, own_subs x (subs !! sym) = own_subs x (subs0 !! sym)) ->
  forall sym, own_subs x ((WS.unsubscribe_loop cid sid entries subs).2 !! sym) =
              own_subs x (subs0 !! sym).
Proof.
  intros Hne; revert subs; induction entries as [|[sym0 l] entries IH]; intros subs Hent Hsubs;
    simpl; [done|].
  assert (Hins : forall sym, own_subs x (<[sym0 := filter (fun sub => ~ WS.sub_matches cid sid sub) l]> subs !! sym)
                             = own_subs x (subs0 !! sym)).
  { intros sym; destruct (decide (sym = sym0)) as [->|]; [|by rewrite lookup_insert_ne].
    rewrite lookup_insert_eq, own_subs_unmatched by done.
    by rewrite (Hent sym0 l) by (left; done). }
  case_decide; [done|]. apply IH; [|done]. intros; apply Hent; by right.
Qed.

Lemma remove_subscription_own x cid sid subs :
  x <> cid -> forall sym, own_subs x (remove_subscription cid sid subs !! sym) = own_subs x (subs !! sym).
Proof.
  intros Hne sym; unfold remove_subscription. rewrite map_lookup_filter.
  rewrite <-(unsubscribe_loop_own x cid sid (map_to_list subs) subs subs Hne) with (sym := sym);
    [|by intros ?? ?%elem_of_map_to_list|done].
  destruct (_ !! sym) as [l|]; simpl; [|done].
  case_guard; [done|]. simpl. destruct l; [done|naive_solver].
Qed.

(** Unregistering another client keeps everything this one owns. *)
Lemma unregister_client_other x id s : x <> id -> client_kept x s (unregister_client id s).
Proof.
  intros Hne; unfold client_kept, unregister_client, client_subs; simpl.
  split_and!; [by rewrite lookup_delete_ne by congruence|by rewrite lookup_delete_ne by congruence|].
  generalize (default [] (client_streams s !! id)); intros streams.
  induction streams as [|sid streams IH] using rev_ind; intros sym; [done|].
  rewrite foldl_app; simpl. by rewrite remove_subscription_own.
Qed.

Section WithRandomLemmas.
Context {R : Type} `{RandomSource R}.

Lemma sse_initialize_symbol_clients symbol now s (r : R) :
  clients (initialize_symbol symbol now s r).1 = clients s.
Proof. unfold initialize_symbol; by destruct (initialize_with_sample_data _ _ _). Qed.

Lemma ensure_symbol_clients symbol now s (r : R) :
  clients (ensure_symbol symbol now s r).1 = clients s.
Proof. unfold ensure_symbol; case_decide; [done|apply sse_initialize_symbol_clients]. Qed.

Lemma sse_start_clients now s (r : R) : clients (start now s r).1 = clients s.
Proof.
  unfold start.
  pose proof (sse_initialize_symbol_clients "BTCUSD" now s r) as H1.
  destruct (initialize_symbol "BTCUSD" now s r) as [s1 r1].
  pose proof (sse_initialize_symbol_clients "ETHUSD" now s1 r1) as H2.
  destruct (initialize_symbol "ETHUSD" now s1 r1) as [s2 r2].
  simpl in *; rewrite sse_initialize_symbol_clients; congruence.
Qed.

Lemma subscribe_to_streams_clients client_id defs now s (r : R) :
  clients_extend (clients s) (clients (subscribe_to_streams client_id defs now s r).1.2).
Proof.
  revert s r; induction defs as [|[[symbol dt] ml] defs IH]; intros s r; simpl; [reflexivity|].
  pose proof (ensure_symbol_clients symbol now s r) as Hcl.
  destruct (ensure_symbol symbol now s r) as [s1 r1]; simpl in *; rewrite <-Hcl.
  cbn [order_books clients subscriptions client_streams].
  destruct (order_books s1 !! symbol), (clients s1 !! client_id);
    try apply (IH (mkSSEStreamManager _ _ _ _)).
  destruct (send_to _ _ _) as [[] cs] eqn:Es; simpl; [|reflexivity|reflexivity].
  etrans; [|apply IH]; simpl.
  change cs with (Sent, cs).2; rewrite <-Es; apply send_to_extend.
Qed.

Lemma sse_handler_clients q client_id now s (r : R) :
  keeps_clients (clients s) (clients (sse_handler q client_id now s r).1.2).
Proof.
  intros j Hj.
  assert (Hreg : is_Some (clients (send_connection_info client_id now (register_client client_id s)) !! j)).
  { apply (clients_extend_keeps _ _ (send_connection_info_extend _ _ _)); simpl.
    rewrite lookup_insert_is_Some'; by right. }
  unfold sse_handler; case_decide;
    match goal with |- context [subscribe_to_streams ?c ?d ?n ?s0 ?r0] =>
      pose proof (clients_extend_keeps _ _ (subscribe_to_streams_clients c d n s0 r0) j Hreg);
      destruct (subscribe_to_streams c d n s0 r0) as [[[] ?] ?] end; done.
Qed.

Lemma sse_market_tick_loop_clients fuel now entries s (r : R) s' r' :
  market_tick_loop fuel now entries s r = Done (s', r') -> clients_extend (clients s) (clients s').
Proof.
  revert s r; induction entries as [|[sym b] rest IH]; intros s r Ht; simpl in Ht.
  - simplify_eq; reflexivity.
  - destruct (simulate_activity fuel now b r) as [[[acts b'] r1]| |]; try discriminate.
    etrans; [|exact (IH _ _ Ht)]; simpl.
    case_match; [apply sse_send_updates_extend|reflexivity].
Qed.

Lemma ensure_symbol_registry symbol now s (r : R) :
  subscriptions (ensure_symbol symbol now s r).1 = subscriptions s /\
  client_streams (ensure_symbol symbol now s r).1 = client_streams s.
Proof.
  unfold ensure_symbol, initialize_symbol; case_decide; [done|].
  by destruct (initialize_with_sample_data _ _ _).
Qed.

(** Subscribing another client leaves this one's streams and
    subscriptions alone. *)
Lemma subscribe_to_streams_other id client_id defs now s (r : R) :
  id <> client_id ->
  client_streams (subscribe_to_streams client_id defs now s r).1.2 !! id = client_streams s !! id /\
  (forall symbol, client_subs id (subscribe_to_streams client_id defs now s r).1.2 symbol =
                  client_subs id s symbol).
Proof.
  intros Hne; revert s r; induction defs as [|[[symbol dt] ml] defs IH]; intros s r; [done|].
  cbn [subscribe_to_streams].
  destruct (ensure_symbol_registry symbol now s r) as [Hsub Hcs].
  destruct (ensure_symbol symbol now s r) as [s1 r1]; simpl in Hsub, Hcs.
  set (s2 := mkSSEStreamManager _ _ _ _).
  assert (Hs2 : client_streams s2 !! id = client_streams s !! id /\
                forall sym, client_subs id s2 sym = client_subs id s sym).
  { split; simpl; [by rewrite lookup_insert_ne, Hcs by congruence|].
    intros sym; unfold client_subs, own_subs; simpl; rewrite Hsub.
    destruct (decide (sym = symbol)) as [->|Hsym]; [|by rewrite lookup_insert_ne].
    rewrite lookup_insert_eq; cbn [default Datatypes.id].
    rewrite filter_app, filter_cons_False, filter_nil, app_nil_r; [done|simpl; congruence]. }
  destruct Hs2 as [Hs2a Hs2b].
  destruct (order_books s2 !! symbol), (clients s2 !! client_id);
    [destruct (send_to _ _ _) as [[] cs]|..];
    first [ match goal with |- context [subscribe_to_streams client_id defs now ?s0 ?r0] =>
              destruct (IH s0 r0) as [I1 I2];
              split; [rewrite I1; exact Hs2a|intros sym; rewrite I2; exact (Hs2b sym)] end
          | split; [exact Hs2a|exact Hs2b] ].
Qed.

Lemma sse_handler_other id q client_id now s (r : R) :
  id <> client_id -> client_kept id s (sse_handler q client_id now s r).1.2.
Proof.
  intros Hne; split; [apply sse_handler_clients|].
  assert (Hreg : forall s0 : SSEStreamManager,
            s0 = send_connection_info client_id now (register_client client_id s) ->
            client_streams s0 !! id = client_streams s !! id /\
            forall sym, client_subs id s0 sym = client_subs id s sym).
  { intros s0 ->; simpl; by rewrite lookup_insert_ne by congruence. }
  unfold sse_handler; case_decide;
    match goal with |- context [subscribe_to_streams ?c ?d ?n ?s0 ?r0] =>
      destruct (Hreg s0 eq_refl) as [Ha Hb];
      destruct (subscribe_to_streams_other id c d n s0 r0 Hne) as [Hc Hd];
      destruct (subscribe_to_streams c d n s0 r0) as [[[] ?] ?] end; simpl in *;
    (split; [congruence|intros sym; by rewrite Hd, Hb]).
Qed.

Lemma sse_market_tick_loop_registry fuel now entries s (r : R) s' r' :
  market_tick_loop fuel now entries s r = Done (s', r') ->
  subscriptions s' = subscriptions s /\ client_streams s' = client_streams s.
Proof.
  revert s r; induction entries as [|[sym b] rest IH]; intros s r Ht; simpl in Ht.
  - by simplify_eq.
  - destruct (simulate_activity fuel now b r) as [[[acts b'] r1]| |]; try discriminate.
    apply IH in Ht; exact Ht.
Qed.
End WithRandomLemmas.

(** ** Properties *)

(** One step keeps everything a registered client owns. *)
Lemma sse_step_kept {R} `{RandomSource R} s s1 client_id :
  sse_step s s1 -> is_Some (clients s !! client_id) -> client_kept client_id s s1.
Proof.
  intros Hstep Hc.
  destruct Hstep as [q id now r s0 Hfresh _|id s0|id s0 Hgone|fuel now r s0 s2 r' Ht|now s0].
  - apply sse_handler_other. intros ->; rewrite Hfresh in Hc; by destruct Hc.
  - apply client_kept_registry; [done|done|]. intros j; simpl; by rewrite lookup_alter_is_Some.
  - apply unregister_client_other. intros ->; rewrite Hgone in Hc; by destruct Hc.
  - destruct (sse_market_tick_loop_registry _ _ _ _ _ _ _ Ht).
    apply client_kept_registry; [done|done|].
    apply clients_extend_keeps; eapply sse_market_tick_loop_clients, Ht.
  - apply client_kept_registry; [done|done|]. apply clients_extend_keeps, broadcast_extend.
Qed.

(** C31: an SSE client that has gone away is never cleaned up.  No step
    of the server removes a registered client or changes what it owns:
    its channel stays in [clients], its tracked stream ids and its
    subscriptions under every symbol stay as they are.  Dropping the
    response stream ([sse_disconnect]) runs no cleanup, since [SSEStream]
    has no [Drop]; [unregister_client] runs only from [poll_next] at
    [Ready(None)], and tokio's [mpsc] answers [Ready(None)] only once
    every sender is dropped, while the only sender of the channel is the
    one [clients] keeps. *)
Theorem sse_client_stays_registered {R} `{RandomSource R} s s' client_id :
  rtc sse_step s s' -> is_Some (clients s !! client_id) ->
  is_Some (clients s' !! client_id) /\
  client_streams s' !! client_id = client_streams s !! client_id /\
  (forall symbol, client_subs client_id s' symbol = client_subs client_id s symbol).
Proof.
  intros Hrtc Hc.
  enough (Hk : client_kept client_id s s') by (destruct Hk as (? & ? & ?); auto).
  induction Hrtc as [s|s s1 s' Hstep _ IH]; [reflexivity|].
  pose proof (sse_step_kept _ _ _ Hstep Hc) as Hk1.
  etrans; [exact Hk1|apply IH]. by apply Hk1.
Qed.

(** ** Stream ids and stream definitions *)

Lemma show_data_type_no c dt :
  c <> "M"%char -> c <> "B"%char -> c <> "O"%char -> c <> "P"%char ->
  c ∉ chars (show_data_type dt).
Proof. intros ????; destruct dt; simpl; rewrite !elem_of_cons, elem_of_nil; naive_solver. Qed.

Lemma not_digit_underscore : ~ is_digit "_"%char.
Proof. by_decide. Qed.

Lemma stream_id_of_split symbol dt ml :
  stream_id_of symbol dt ml =
    (symbol +:+ String "_" (show_data_type dt)) +:+ String "_" (display_u32 ml).
Proof. unfold stream_id_of; by rewrite <-string_app_assoc. Qed.

(** The three fields of a stream id can be read back. *)
Lemma stream_id_of_parts symbol1 dt1 ml1 symbol2 dt2 ml2 :
  stream_id_of symbol1 dt1 ml1 = stream_id_of symbol2 dt2 ml2 ->
  symbol1 = symbol2 /\ show_data_type dt1 = show_data_type dt2 /\ display_u32 ml1 = display_u32 ml2.
Proof.
  intros E; rewrite !stream_id_of_split in E.
  apply app_sep_inj in E as [E1 E2];
    [|apply display_u32_not_elem, not_digit_underscore..].
  apply app_sep_inj in E1 as [-> E3]; [|apply show_data_type_no; discriminate..].
  done.
Qed.

(** C40: a derived stream id determines its symbol, data type and depth:
    [format!("{}_{:?}_{}", ..)] is injective, since the depth's digits and
    the type's letters hold no underscore.  So all the subscriptions of a
    stream id are filed under one symbol. *)
Theorem stream_id_of_inj symbol1 dt1 ml1 symbol2 dt2 ml2 :
  0 <= ml1 -> 0 <= ml2 ->
  stream_id_of symbol1 dt1 ml1 = stream_id_of symbol2 dt2 ml2 ->
  symbol1 = symbol2 /\ dt1 = dt2 /\ ml1 = ml2.
Proof.
  intros H1 H2 (-> & E3 & E2)%stream_id_of_parts.
  split_and!; [done| |by apply display_u32_inj].
  destruct dt1, dt2; simpl in E3; congruence.
Qed.

(** The [symbol:type:levels] form of a stream definition, as the API
    documents it ([BTCUSD:MBP:20]). *)
Definition format_stream_def (d : string * DataType * Z) : string :=
  let '(symbol, dt, ml) := d in
  symbol +:+ String ":" (show_data_type dt +:+ String ":" (display_u32 ml)).

(** What a symbol must satisfy to survive the round trip: no separator,
    no leading whitespace; and the depth is a [u32]. *)
Definition printable_def (d : string * DataType * Z) : Prop :=
  let '(symbol, dt, ml) := d in
  ":"%char ∉ chars symbol /\ ","%char ∉ chars symbol /\
  from_option (fun a => ~ is_whitespace a) True (head (chars symbol)) /\ 0 <= ml < 2 ^ 32.

#[export] Instance printable_def_dec d : Decision (printable_def d).
Proof.
  destruct d as [[symbol dt] ml]; unfold printable_def.
  destruct (head (chars symbol)); simpl; apply _.
Defined.

Lemma format_chars symbol dt ml :
  chars (format_stream_def (symbol, dt, ml)) =
    chars symbol ++ ":"%char :: chars (show_data_type dt) ++ ":"%char :: chars (display_u32 ml).
Proof. unfold format_stream_def; rewrite chars_app; simpl; by rewrite chars_app. Qed.

Lemma format_no_comma d : printable_def d -> ","%char ∉ chars (format_stream_def d).
Proof.
  destruct d as [[symbol dt] ml]; intros (_ & Hc & _ & _).
  rewrite format_chars, !elem_of_app, !elem_of_cons, !elem_of_app, !elem_of_cons.
  pose proof (show_data_type_no ","%char dt ltac:(discriminate) ltac:(discriminate)
                ltac:(discriminate) ltac:(discriminate)).
  pose proof (display_u32_not_elem ","%char ml ltac:(by_decide)).
  intros [?|[?|[?|[?|?]]]]; done.
Qed.

Lemma format_trim d : printable_def d -> trim (format_stream_def d) = format_stream_def d.
Proof.
  destruct d as [[symbol dt] ml]; intros (_ & _ & Hh & _).
  apply trim_id; rewrite format_chars.
  - destruct symbol as [|a symbol]; simpl; [by_decide|done].
  - assert (Hl : forall l1 l2 l3 : list Ascii.ascii,
               l1 ++ ":"%char :: l2 ++ ":"%char :: l3 = (l1 ++ ":"%char :: l2 ++ [":"%char]) ++ l3)
      by (intros; rewrite <-app_assoc; simpl; by rewrite <-app_assoc).
    rewrite Hl, last_app_nonempty.
    + destruct (last (chars (display_u32 ml))) as [a|] eqn:E; simpl; [|done].
      apply last_Some_elem_of in E; pose proof (display_u32_digits ml) as Hd.
      rewrite Forall_forall in Hd; apply Hd in E; unfold is_digit in E.
      unfold is_whitespace; set_solver.
    + pose proof (display_u32_nonempty ml); by destruct (display_u32 ml).
Qed.

Lemma format_split d :
  printable_def d ->
  let '(symbol, dt, ml) := d in
  split ":"%char (format_stream_def d) = [symbol; show_data_type dt; display_u32 ml].
Proof.
  destruct d as [[symbol dt] ml]; intros (Hcol & _ & _ & _); simpl.
  rewrite split_sep by done. rewrite split_sep by (apply show_data_type_no; discriminate).
  rewrite split_no_sep; [done|apply display_u32_not_elem; by_decide].
Qed.

Lemma parse_stream_def_format q d :
  printable_def d -> parse_stream_def q (format_stream_def d) = Some d.
Proof.
  intros Hd; unfold parse_stream_def; rewrite format_trim by done.
  pose proof (format_split d Hd) as Hs; destruct d as [[symbol dt] ml]; rewrite Hs.
  destruct Hd as (_ & _ & _ & Hml); rewrite parse_display_u32 by done; simpl.
  by destruct dt.
Qed.

(** C32: parsing printed stream definitions gives them back: for stream
    definitions whose symbols hold no [:] or [,] and do not start with
    whitespace, and whose depths are [u32]s, [parse_streams] on their
    comma-separated [symbol:type:levels] forms returns them, in order,
    whatever the other query parameters. *)
Theorem parse_streams_roundtrip q defs :
  defs <> [] -> Forall printable_def defs ->
  parse_streams (mkStreamQuery (Some (join ","%char (format_stream_def <$> defs)))
                   (symbols q) (data_type q) (max_levels q)) = defs.
Proof.
  intros Hne Hdefs; unfold parse_streams; simpl.
  rewrite split_join.
  - generalize (mkStreamQuery (Some (join ","%char (format_stream_def <$> defs)))
                  (symbols q) (data_type q) (max_levels q)) as q'; intros q'.
    clear Hne; induction Hdefs as [|d defs Hd _ IH]; [done|].
    rewrite fmap_cons, omap_cons, parse_stream_def_format by done. by rewrite IH.
  - by destruct defs.
  - apply Forall_fmap, (Forall_impl _ _ _ Hdefs); intros d; apply format_no_comma.
Qed.

(** ** The registry invariant *)

(** Books are well formed under their symbols; every subscription is
    filed under its symbol, which has a book, carries the stream id
    derived from its fields, and is tracked in its client's stream list;
    no subscription list is empty. *)
Record sse_wf (s : SSEStreamManager) : Prop := {
  sw_books : forall symbol b, order_books s !! symbol = Some b ->
    book_wf b /\ OrderBook.symbol b = symbol;
  sw_subs : forall symbol l sub, subscriptions s !! symbol = Some l -> sub ∈ l ->
    Subscription.symbol sub = symbol /\ is_Some (order_books s !! symbol) /\
    Subscription.stream_id sub =
      stream_id_of symbol (Subscription.data_type sub) (Subscription.max_levels sub) /\
    exists ss, client_streams s !! Subscription.client_id sub = Some ss /\
      Subscription.stream_id sub ∈ ss;
  sw_nonempty : forall symbol l, subscriptions s !! symbol = Some l -> l <> []
}.

(** The subscriptions of a stream id of a client are filed under one
    symbol. *)
Definition stream_unique (client_id : Uuid) (subs : gmap string (list Subscription.t)) : Prop :=
  forall stream_id sym1 sym2 l1 l2 sub1 sub2,
    subs !! sym1 = Some l1 -> subs !! sym2 = Some l2 -> sub1 ∈ l1 -> sub2 ∈ l2 ->
    WS.sub_matches client_id stream_id sub1 -> WS.sub_matches client_id stream_id sub2 ->
    sym1 = sym2.

(** Where a subscription is filed. *)
Definition filed (subs : gmap string (list Subscription.t)) (symbol : string) (sub : Subscription.t)
    : Prop :=
  exists l, subs !! symbol = Some l /\ sub ∈ l.

Lemma remove_subscription_filed client_id stream_id subs symbol sub :
  stream_unique client_id subs ->
  filed (remove_subscription client_id stream_id subs) symbol sub <->
  filed subs symbol sub /\ ~ WS.sub_matches client_id stream_id sub.
Proof.
  intros Hu; unfold remove_subscription, filed.
  destruct (WS.unsubscribe_loop_spec client_id stream_id (map_to_list subs) subs)
    as [[-> Hno]|(sym0 & l0 & Hin & Hex & ->)]; [intros ??; apply elem_of_map_to_list| |].
  - setoid_rewrite map_lookup_filter_Some; split.
    + intros (l & [Hl _] & Hsub); split; [by exists l|].
      apply (Hno symbol l sub); [by apply elem_of_map_to_list|done].
    + intros [(l & Hl & Hsub) _]; exists l; split; [split; [done|]|done]; simpl; intros ->; set_solver.
  - apply elem_of_map_to_list in Hin.
    setoid_rewrite map_lookup_filter_Some; setoid_rewrite lookup_insert_Some.
    apply Exists_exists in Hex as (sub0 & Hsub0 & Hm0).
    split.
    + intros (l & [[[<- <-]|[Hne Hl]] _] & Hsub).
      * apply list_elem_of_filter in Hsub as [Hnm Hsub]; split; [by exists l0|done].
      * split; [by exists l|]. intros Hm; apply Hne; symmetry; eapply Hu; eauto.
    + intros [(l & Hl & Hsub) Hnm].
      destruct (decide (sym0 = symbol)) as [<-|Hne].
      * rewrite Hin in Hl; simplify_eq.
        exists (filter (fun sub => ~ WS.sub_matches client_id stream_id sub) l).
        assert (sub ∈ filter (fun sub => ~ WS.sub_matches client_id stream_id sub) l)
          by (by apply list_elem_of_filter).
        split; [split; [by left|]|done]; simpl; intros Hnil; rewrite Hnil in *; set_solver.
      * exists l; split; [split; [by right|]|done]; simpl; intros ->; set_solver.
Qed.

Lemma stream_unique_sub client_id subs subs' :
  (forall symbol sub, filed subs' symbol sub -> filed subs symbol sub) ->
  stream_unique client_id subs -> stream_unique client_id subs'.
Proof.
  intros Hsub Hu st sym1 sym2 l1 l2 sub1 sub2 Hl1 Hl2 H1 H2 Hm1 Hm2.
  destruct (Hsub sym1 sub1 ltac:(by exists l1)) as (l1' & ? & ?).
  destruct (Hsub sym2 sub2 ltac:(by exists l2)) as (l2' & ? & ?).
  eapply Hu; eauto.
Qed.

(** The loop of [unregister_client] removes the client's subscriptions of
    the listed streams and nothing else. *)
Lemma foldl_remove_subscription_filed client_id streams subs symbol sub :
  stream_unique client_id subs ->
  filed (foldl (fun subs st => remove_subscription client_id st subs) subs streams) symbol sub <->
  filed subs symbol sub /\
  ~ (Subscription.client_id sub = client_id /\ Subscription.stream_id sub ∈ streams).
Proof.
  revert subs; induction streams as [|st streams IH]; intros subs Hu; simpl.
  { split; [intros; split; [done|set_solver]|tauto]. }
  rewrite IH.
  2:{ eapply stream_unique_sub; [|exact Hu].
      intros sym' sub'; rewrite remove_subscription_filed by done; tauto. }
  rewrite remove_subscription_filed by done.
  unfold WS.sub_matches; set_solver.
Qed.

Lemma sse_wf_stream_unique s client_id : sse_wf s -> stream_unique client_id (subscriptions s).
Proof.
  intros Hwf st sym1 sym2 l1 l2 sub1 sub2 Hl1 Hl2 H1 H2 [_ Hs1] [_ Hs2].
  destruct (sw_subs s Hwf sym1 l1 sub1 Hl1 H1) as (_ & _ & E1 & _).
  destruct (sw_subs s Hwf sym2 l2 sub2 Hl2 H2) as (_ & _ & E2 & _).
  rewrite Hs1 in E1; rewrite Hs2 in E2; rewrite E1 in E2.
  by apply stream_id_of_parts in E2 as [-> _].
Qed.

(** The subscriptions left by [unregister_client]. *)
Lemma unregister_client_filed s client_id symbol sub :
  sse_wf s ->
  filed (subscriptions (unregister_client client_id s)) symbol sub <->
  filed (subscriptions s) symbol sub /\ Subscription.client_id sub <> client_id.
Proof.
  intros Hwf; simpl.
  rewrite foldl_remove_subscription_filed by (by apply sse_wf_stream_unique).
  split; [|intros [Hf Hne]; split; [done|tauto]].
  intros [Hf Hn]; split; [done|]; intros Hid; apply Hn; split; [done|].
  destruct Hf as (l & Hl & Hsub).
  destruct (sw_subs s Hwf symbol l sub Hl Hsub) as (_ & _ & _ & ss & Hss & Hin).
  by rewrite <-Hid, Hss.
Qed.

(** C16: on a state satisfying the invariant, [unregister_client]
    removes the client's channel, its stream list and every subscription
    it holds, and keeps every subscription of the other clients: each
    stream id it removes is filed under one symbol, so stopping at the
    first changed list loses nothing. *)
Theorem sse_unregister_complete s client_id :
  sse_wf s ->
  let s' := unregister_client client_id s in
  clients s' !! client_id = None /\ client_streams s' !! client_id = None /\
  forall symbol sub, filed (subscriptions s') symbol sub <->
    filed (subscriptions s) symbol sub /\ Subscription.client_id sub <> client_id.
Proof.
  intros Hwf; split_and!; [apply lookup_delete_eq|apply lookup_delete_eq|].
  intros symbol sub; by apply unregister_client_filed.
Qed.

(** ** The invariant along the steps *)

Lemma sse_wf_new : sse_wf new.
Proof. split; simpl; intros ??; rewrite lookup_empty; done. Qed.

Lemma sse_wf_set_clients cs s : sse_wf s -> sse_wf (set_clients cs s).
Proof. intros [Hb Hs Hn]; split; done. Qed.

Lemma sse_wf_insert_book symbol b s :
  sse_wf s -> book_wf b -> OrderBook.symbol b = symbol ->
  sse_wf (mkSSEStreamManager (<[symbol := b]> (order_books s)) (subscriptions s) (clients s)
            (client_streams s)).
Proof.
  intros [Hb Hs Hn] Hwf Hsym; split; simpl; [| |done].
  - intros sym b'; rewrite lookup_insert_Some; intros [[<- <-]|[_ ?]]; [done|by apply Hb].
  - intros sym l sub Hl Hsub; destruct (Hs sym l sub Hl Hsub) as (? & ? & ? & ?).
    split_and!; try done. rewrite lookup_insert_is_Some'; by right.
Qed.

Lemma register_client_wf client_id s :
  client_streams s !! client_id = None -> sse_wf s -> sse_wf (register_client client_id s).
Proof.
  intros Hfresh [Hb Hs Hn]; split; simpl; [done| |done].
  intros sym l sub Hl Hsub; destruct (Hs sym l sub Hl Hsub) as (? & ? & ? & ss & Hss & Hin).
  split_and!; try done. exists ss; split; [|done].
  rewrite lookup_insert_ne; [done|]. intros Heq; rewrite <-Heq, Hfresh in Hss; discriminate.
Qed.

Lemma foldl_remove_subscription_nonempty client_id streams subs symbol l :
  (forall symbol l, subs !! symbol = Some l -> l <> []) ->
  foldl (fun subs st => remove_subscription client_id st subs) subs streams !! symbol = Some l ->
  l <> [].
Proof.
  revert subs; induction streams as [|st streams IH]; intros subs Hn; simpl; [apply Hn|].
  apply IH; intros sym' l'; unfold remove_subscription.
  rewrite map_lookup_filter_Some; by intros [_ ?].
Qed.

Lemma sse_unregister_client_wf client_id s : sse_wf s -> sse_wf (unregister_client client_id s).
Proof.
  intros Hwf; pose proof (fun symbol sub => unregister_client_filed s client_id symbol sub Hwf) as Hf.
  destruct Hwf as [Hb Hs Hn]; split; simpl; [done| |].
  - intros sym l sub Hl Hsub.
    assert (Hfl : filed (subscriptions (unregister_client client_id s)) sym sub)
      by (exists l; split; [exact Hl|exact Hsub]).
    apply Hf in Hfl as [(l0 & Hl0 & Hsub0) Hne].
    destruct (Hs sym l0 sub Hl0 Hsub0) as (? & ? & ? & ss & Hss & Hin).
    split_and!; try done. exists ss; split; [|done]. by rewrite lookup_delete_ne by congruence.
  - intros sym l Hl; eapply foldl_remove_subscription_nonempty; [exact Hn|exact Hl].
Qed.

Lemma track_push (cstreams : gmap Uuid (list string)) client_id stream_id c ss st :
  cstreams !! c = Some ss -> st ∈ ss ->
  exists ss', <[client_id := default [] (cstreams !! client_id) ++ [stream_id]]> cstreams !! c = Some ss'
              /\ st ∈ ss'.
Proof.
  intros Hc Hst; destruct (decide (client_id = c)) as [<-|Hne].
  - rewrite lookup_insert_eq, Hc; simpl; eexists; split; [done|set_solver].
  - rewrite lookup_insert_ne by done; eauto.
Qed.

(** Filing a subscription of [symbol] with its derived stream id, once
    [symbol] has a book. *)
Lemma push_stream_wf client_id symbol dt ml s :
  sse_wf s -> is_Some (order_books s !! symbol) ->
  let stream_id := stream_id_of symbol dt ml in
  let sub := Subscription.new stream_id symbol dt (Some ml) client_id in
  sse_wf (mkSSEStreamManager (order_books s)
            (<[symbol := default [] (subscriptions s !! symbol) ++ [sub]]> (subscriptions s))
            (clients s)
            (<[client_id := default [] (client_streams s !! client_id) ++ [stream_id]]>
               (client_streams s))).
Proof.
  intros [Hb Hs Hn] Hbook st sub; split; simpl; [done| |].
  - intros sym l sub' Hl Hsub'.
    assert (Hold : forall l0, subscriptions s !! sym = Some l0 -> sub' ∈ l0 ->
              Subscription.symbol sub' = sym /\ is_Some (order_books s !! sym) /\
              Subscription.stream_id sub' =
                stream_id_of sym (Subscription.data_type sub') (Subscription.max_levels sub') /\
              exists ss, <[client_id := default [] (client_streams s !! client_id) ++ [st]]>
                           (client_streams s) !! Subscription.client_id sub' = Some ss /\
                         Subscription.stream_id sub' ∈ ss).
    { intros l0 Hl0 Hin; destruct (Hs sym l0 sub' Hl0 Hin) as (? & ? & ? & ss & Hss & Hst).
      split_and!; try done. by eapply track_push. }
    apply lookup_insert_Some in Hl as [[<- <-]|[_ Hl]]; [|by eapply Hold].
    apply elem_of_app in Hsub' as [Hsub'| ->%list_elem_of_singleton].
    + destruct (subscriptions s !! symbol) eqn:E; [by eapply Hold|set_solver].
    + simpl; split_and!; try done.
      rewrite lookup_insert_eq; eexists; split; [done|set_solver].
  - intros sym l; rewrite lookup_insert_Some; intros [[_ <-]|[_ Hl]]; [|by eapply Hn].
    intros Hnil; by apply app_eq_nil in Hnil as [_ ?].
Qed.

Section WithRandomWf.
Context {R : Type} `{RandomSource R}.

Lemma sse_initialize_symbol_wf symbol now s (r : R) :
  sse_wf s -> sse_wf (initialize_symbol symbol now s r).1.
Proof.
  intros Hs; unfold initialize_symbol.
  pose proof (initialize_with_sample_data_wf now symbol r) as Hwf.
  pose proof (initialize_with_sample_data_symbol now symbol r) as Hsym.
  destruct (initialize_with_sample_data _ _ r) as [b r']; simpl in *.
  by apply sse_wf_insert_book.
Qed.

Lemma sse_ensure_symbol_spec symbol now s (r : R) :
  let s' := (ensure_symbol symbol now s r).1 in
  is_Some (order_books s' !! symbol) /\ subscriptions s' = subscriptions s /\
  clients s' = clients s /\ client_streams s' = client_streams s /\
  (sse_wf s -> sse_wf s').
Proof.
  unfold ensure_symbol; case_decide as Hb; simpl; [naive_solver|].
  pose proof (sse_initialize_symbol_wf symbol now s r) as Hwf; revert Hwf.
  unfold initialize_symbol; destruct (initialize_with_sample_data _ _ _); simpl.
  intros Hwf; split_and!; try done. by rewrite lookup_insert_eq.
Qed.

Lemma sse_start_wf now s (r : R) : sse_wf s -> sse_wf (start now s r).1.
Proof.
  intros Hs; unfold start.
  pose proof (sse_initialize_symbol_wf "BTCUSD" now s r Hs) as H1.
  destruct (initialize_symbol "BTCUSD" now s r) as [s1 r1].
  pose proof (sse_initialize_symbol_wf "ETHUSD" now s1 r1 H1) as H2.
  destruct (initialize_symbol "ETHUSD" now s1 r1) as [s2 r2].
  by apply sse_initialize_symbol_wf.
Qed.

Lemma subscribe_to_streams_wf client_id defs now s (r : R) :
  sse_wf s -> sse_wf (subscribe_to_streams client_id defs now s r).1.2.
Proof.
  revert s r; induction defs as [|[[symbol dt] ml] defs IH]; intros s r Hs; simpl; [done|].
  pose proof (sse_ensure_symbol_spec symbol now s r) as (Hbook & _ & _ & _ & Hwf).
  destruct (ensure_symbol symbol now s r) as [s1 r1]; simpl in *.
  pose proof (push_stream_wf client_id symbol dt ml s1 (Hwf Hs) Hbook) as Hp.
  cbn [order_books clients subscriptions client_streams].
  destruct (order_books s1 !! symbol), (clients s1 !! client_id);
    try apply (IH (mkSSEStreamManager _ _ _ _) r1 Hp).
  destruct (send_to _ _ _) as [[] cs]; simpl; [|done|done].
  by apply IH, sse_wf_set_clients.
Qed.

Lemma sse_handler_wf q client_id now s (r : R) :
  client_streams s !! client_id = None -> sse_wf s -> sse_wf (sse_handler q client_id now s r).1.2.
Proof.
  intros Hfresh Hs.
  assert (H0 : sse_wf (send_connection_info client_id now (register_client client_id s)))
    by (apply sse_wf_set_clients, register_client_wf; done).
  unfold sse_handler; case_decide;
    match goal with |- context [subscribe_to_streams ?c ?d ?n ?s0 ?r0] =>
      pose proof (subscribe_to_streams_wf c d n s0 r0 H0);
      destruct (subscribe_to_streams c d n s0 r0) as [[[] ?] ?] end; done.
Qed.

Lemma sse_market_tick_loop_wf fuel now entries s (r : R) s' r' :
  (forall symbol b, (symbol, b) ∈ entries -> book_wf b /\ OrderBook.symbol b = symbol) ->
  sse_wf s -> market_tick_loop fuel now entries s r = Done (s', r') -> sse_wf s'.
Proof.
  revert s r; induction entries as [|[sym b] rest IH]; intros s r Hent Hs Ht; simpl in Ht.
  - by simplify_eq.
  - destruct (simulate_activity fuel now b r) as [[[acts b'] r1]| |] eqn:Esim; try discriminate.
    destruct (Hent sym b (list_elem_of_here _ _)) as [Hwf Hsym].
    eapply IH; [intros ???; apply Hent; by right| |exact Ht].
    apply (sse_wf_insert_book sym b') in Hs;
      [|by eapply simulate_activity_wf|by erewrite simulate_activity_symbol].
    destruct Hs as [Hb Hs' Hn]; split; done.
Qed.
End WithRandomWf.

(** ** What a connection gets *)

(** The snapshot [subscribe_to_streams] sends for a stream definition,
    from the book the symbol has in [s]. *)
Definition snapshot_of (s : SSEStreamManager) (now : Z) (d : string * DataType * Z) : SSEMessage :=
  let '(symbol, dt, ml) := d in
  let b := default (OrderBook.new symbol) (order_books s !! symbol) in
  SSEMarketData (stream_id_of symbol dt ml) symbol (WS.market_data b dt ml now) (get_sequence b) now.

Definition stream_of (d : string * DataType * Z) : string :=
  let '(symbol, dt, ml) := d in stream_id_of symbol dt ml.

Definition subscription_of (client_id : Uuid) (d : string * DataType * Z) : Subscription.t :=
  let '(symbol, dt, ml) := d in
  Subscription.new (stream_id_of symbol dt ml) symbol dt (Some ml) client_id.

(** The definitions [sse_handler] subscribes to. *)
Definition handler_defs (q : StreamQuery) : list (string * DataType * Z) :=
  if decide (parse_streams q <> []) then parse_streams q else [("BTCUSD", MBP, 20)].

Section SubscribeSpec.
Context {R : Type} `{RandomSource R}.

Lemma ensure_symbol_keeps symbol now s (r : R) x b :
  order_books s !! x = Some b -> order_books (ensure_symbol symbol now s r).1 !! x = Some b.
Proof.
  unfold ensure_symbol, initialize_symbol; case_decide as Hs; [done|].
  destruct (initialize_with_sample_data _ _ _); simpl; intros Hx.
  rewrite lookup_insert_ne; [done|]. intros <-; apply Hs; by eexists.
Qed.

Lemma ensure_symbol_new symbol now s (r : R) x :
  is_Some (order_books (ensure_symbol symbol now s r).1 !! x) ->
  is_Some (order_books s !! x) \/ x = symbol.
Proof.
  unfold ensure_symbol, initialize_symbol; case_decide; [by left|].
  destruct (initialize_with_sample_data _ _ _); simpl.
  rewrite lookup_insert_is_Some; naive_solver.
Qed.

Lemma subscribe_to_streams_run client_id defs now s (r : R) c :
  clients s !! client_id = Some c -> Channel.open c = true ->
  let '(res, s', _) := subscribe_to_streams client_id defs now s r in
  res = Ok tt /\
  clients s' !! client_id = Some (Channel.mk true (Channel.queue c ++ (snapshot_of s' now <$> defs))) /\
  (forall j, j <> client_id -> clients s' !! j = clients s !! j) /\
  (forall x b, order_books s !! x = Some b -> order_books s' !! x = Some b) /\
  (forall x, is_Some (order_books s' !! x) <-> is_Some (order_books s !! x) \/ x ∈ defs.*1.*1) /\
  (forall l, client_streams s !! client_id = Some l ->
     client_streams s' !! client_id = Some (l ++ (stream_of <$> defs))) /\
  (forall j, j <> client_id -> client_streams s' !! j = client_streams s !! j) /\
  (forall x, default [] (subscriptions s' !! x) =
     default [] (subscriptions s !! x) ++ (subscription_of client_id <$> filter (fun d => d.1.1 = x) defs)).
Proof.
  revert s r c; induction defs as [|[[symbol dt] ml] defs IH]; intros s r c Hc Ho; simpl.
  { destruct c as [o q]; simpl in *; subst o; rewrite !app_nil_r.
    split_and!; try done; intros x; [set_solver|intros ->; by rewrite app_nil_r|by rewrite app_nil_r]. }
  pose proof (sse_ensure_symbol_spec symbol now s r) as ([b Hb] & Hsubs & Hcl & Hcs & _).
  pose proof (ensure_symbol_keeps symbol now s r) as Hkeep.
  pose proof (ensure_symbol_new symbol now s r) as Hnew.
  destruct (ensure_symbol symbol now s r) as [s1 r1]; simpl in *.
  cbn [order_books clients subscriptions client_streams]; rewrite Hb, Hcl, Hc.
  rewrite (send_to_open _ _ _ c) by done; cbv beta iota.
  cbn [set_clients order_books clients client_streams subscriptions].
  match goal with |- context [subscribe_to_streams _ _ _ ?s2 r1] =>
    specialize (IH s2 r1 _ (lookup_insert_eq _ _ _) eq_refl);
    destruct (subscribe_to_streams client_id defs now s2 r1) as [[res s'] r'] end.
  destruct IH as (-> & Hc' & Hcl' & Hkeep' & Hdom & Hcs' & Hcs'' & Hsub'); simpl in *.
  assert (Hb' : order_books s' !! symbol = Some b) by (apply Hkeep'; done).
  split_and!; [done| | | | | | |].
  - rewrite Hc', Hb', <-app_assoc; done.
  - intros j Hj; rewrite Hcl' by done; by apply lookup_insert_ne.
  - intros x b0 Hx; by apply Hkeep', Hkeep.
  - intros x; rewrite Hdom; split.
    + intros [Hx|Hx]; [|set_solver]. destruct (Hnew x Hx) as [? | ->]; [by left|set_solver].
    + intros [[b0 Hx]|Hx]; [left; eexists; by apply Hkeep|].
      apply elem_of_cons in Hx as [->|Hx]; [left; by eexists|by right].
  - intros l Hl; rewrite (Hcs' (l ++ [stream_id_of symbol dt ml])), <-app_assoc; [done|].
    by rewrite Hcs, lookup_insert_eq, Hl.
  - intros j Hj; rewrite Hcs'' by done; rewrite lookup_insert_ne by done; by rewrite Hcs.
  - intros x; rewrite Hsub', Hsubs; destruct (decide (symbol = x)) as [<-|Hx].
    + rewrite lookup_insert_eq, filter_cons_True by done; simpl; by rewrite <-app_assoc.
    + rewrite lookup_insert_ne, filter_cons_False by done; done.
Qed.

Lemma sse_handler_run q client_id now s (r : R) :
  let '(res, s', _) := sse_handler q client_id now s r in
  res = Ok tt /\
  clients s' !! client_id =
    Some (Channel.mk true (SSEConnectionInfo client_id now (get_symbols s) ::
                           (snapshot_of s' now <$> handler_defs q))) /\
  (forall j, j <> client_id -> clients s' !! j = clients s !! j) /\
  client_streams s' !! client_id = Some (stream_of <$> handler_defs q) /\
  (forall x, is_Some (order_books s' !! x) <-> is_Some (order_books s !! x) \/ x ∈ (handler_defs q).*1.*1) /\
  (forall x, default [] (subscriptions s' !! x) =
     default [] (subscriptions s !! x) ++
     (subscription_of client_id <$> filter (fun d => d.1.1 = x) (handler_defs q))).
Proof.
  set (s0 := send_connection_info client_id now (register_client client_id s)).
  assert (Hc0 : clients s0 !! client_id =
                Some (Channel.mk true [SSEConnectionInfo client_id now (get_symbols s)])).
  { unfold s0, send_connection_info; simpl.
    rewrite (send_to_open _ _ _ Channel.empty) by (apply lookup_insert_eq || done).
    simpl; by rewrite lookup_insert_eq. }
  pose proof (subscribe_to_streams_run client_id (handler_defs q) now s0 r _ Hc0 eq_refl) as Hrun.
  unfold sse_handler, handler_defs in *; fold s0.
  case_decide;
    destruct (subscribe_to_streams client_id _ now s0 r) as [[res s'] r'];
    destruct Hrun as (-> & Hc & Hcl & Hkeep & Hdom & Hcs & Hcs' & Hsub);
    (split_and!; [done|exact Hc| | |exact Hdom|exact Hsub]);
    [intros j Hj; rewrite Hcl by done; unfold s0, send_connection_info; simpl;
       rewrite (send_to_ne _ j) by done; simpl; by rewrite lookup_insert_ne
    |apply (Hcs []); simpl; by rewrite lookup_insert_eq
    |intros j Hj; rewrite Hcl by done; unfold s0, send_connection_info; simpl;
       rewrite (send_to_ne _ j) by done; simpl; by rewrite lookup_insert_ne
    |apply (Hcs []); simpl; by rewrite lookup_insert_eq].
Qed.
End SubscribeSpec.

(** C13: what a connection on [/stream] gets.  [sse_handler] registers
    the client, sends it the connection info and subscribes it to the
    requested stream definitions (or to [BTCUSD:MBP:20] when none parse):
    the client's channel holds the connection info followed by one
    snapshot per definition, in order, each with the projection and the
    sequence of the book now filed under its symbol; the client tracks
    their stream ids; each subscription is appended to its symbol's list;
    a new symbol gets a book; the other clients are untouched.  The
    channel is the one just created, so no send fails and the [400] and
    [500] answers of the source are never given. *)
Theorem sse_handler_spec {R} `{RandomSource R} q client_id now s (r : R) :
  let '(res, s', _) := sse_handler q client_id now s r in
  res = Ok tt /\
  clients s' !! client_id =
    Some (Channel.mk true (SSEConnectionInfo client_id now (get_symbols s) ::
                           (snapshot_of s' now <$> handler_defs q))) /\
  (forall j, j <> client_id -> clients s' !! j = clients s !! j) /\
  client_streams s' !! client_id = Some (stream_of <$> handler_defs q) /\
  (forall x, is_Some (order_books s' !! x) <-> is_Some (order_books s !! x) \/ x ∈ (handler_defs q).*1.*1) /\
  (forall x, default [] (subscriptions s' !! x) =
     default [] (subscriptions s !! x) ++
     (subscription_of client_id <$> filter (fun d => d.1.1 = x) (handler_defs q))).
Proof. apply sse_handler_run. Qed.

(** C26: a trailing comma in [streams] subscribes the client to the
    symbol [""]: [split(',')] yields a last, empty definition, which
    [parse_streams] turns into the empty symbol with the default type and
    depth, and [subscribe_to_streams] seeds a book for it, which every
    later tick simulates. *)
Theorem sse_handler_trailing_comma {R} `{RandomSource R} q str client_id now s (r : R) :
  streams q = Some (str +:+ ",") ->
  let d := ("", get_default_data_type q, default 20 (max_levels q)) in
  let '(res, s', _) := sse_handler q client_id now s r in
  res = Ok tt /\ last (handler_defs q) = Some d /\ is_Some (order_books s' !! "") /\
  subscription_of client_id d ∈ default [] (subscriptions s' !! "").
Proof.
  intros Hq d.
  assert (Hd : last (parse_streams q) = Some d).
  { unfold parse_streams; rewrite Hq, split_trailing, omap_app; simpl.
    by rewrite last_snoc. }
  assert (Hdefs : handler_defs q = parse_streams q).
  { unfold handler_defs; rewrite decide_True; [done|]. intros Hnil; by rewrite Hnil in Hd. }
  pose proof (sse_handler_run q client_id now s r) as Hrun.
  destruct (sse_handler q client_id now s r) as [[res s'] r'].
  destruct Hrun as (-> & _ & _ & _ & Hdom & Hsub).
  rewrite Hdefs in *.
  assert (Hin : d ∈ parse_streams q) by (apply last_Some_elem_of; done).
  split_and!; [done|done| |].
  - apply Hdom; right. change "" with d.1.1. by do 2 apply list_elem_of_fmap_2.
  - rewrite Hsub; apply elem_of_app; right.
    apply list_elem_of_fmap_2. by apply list_elem_of_filter.
Qed.


(** C33: in every state the SSE server can reach, every book is well
    formed under its symbol, every subscription is filed under its
    symbol with its derived stream id and is tracked in its client's
    stream list, and no subscription list is empty ([remove_subscription]
    prunes). *)
Theorem sse_reachable_wf {R} `{RandomSource R} s : sse_reachable s -> sse_wf s.
Proof.
  induction 1 as [now r|s s' _ IH Hstep]; [apply sse_start_wf, sse_wf_new|].
  destruct Hstep as [q id now r s _ Hfresh|id s|id s _|fuel now r s s' r' Ht|now s].
  - by apply sse_handler_wf.
  - by apply sse_wf_set_clients.
  - by apply sse_unregister_client_wf.
  - eapply sse_market_tick_loop_wf; [|exact IH|exact Ht].
    intros sym b ?%elem_of_map_to_list; by apply (sw_books s IH).
  - by apply sse_wf_set_clients.
Qed.

(** ** Witnesses *)

Definition default_query : StreamQuery := mkStreamQuery None None None None.

(** A started server with client 5 connected on [/stream] (subscribed to
    [BTCUSD_MBP_20]). *)
Definition sse_started : SSEStreamManager := (start (R := list Z) 0 new []).1.
Definition sse_demo : SSEStreamManager := (sse_handler (R := list Z) default_query 5 0 sse_started []).1.2.

Lemma sse_demo_wf : sse_wf sse_demo.
Proof.
  apply sse_handler_wf; [reflexivity|].
  apply sse_start_wf, sse_wf_new.
Qed.

Lemma sse_reachable_wf_witness : sse_reachable (R := list Z) sse_demo /\ sse_wf sse_demo.
Proof.
  assert (Hr : sse_reachable (R := list Z) sse_demo).
  { eapply sse_reach_step; [apply (sse_reach_start 0 [])|apply sse_connect; reflexivity]. }
  split; [exact Hr|exact (sse_reachable_wf sse_demo Hr)].
Defined.

Lemma sse_unregister_complete_witness :
  sse_wf sse_demo /\
  clients (unregister_client 5 sse_demo) !! 5%N = None /\
  client_streams (unregister_client 5 sse_demo) !! 5%N = None /\
  ~ filed (subscriptions (unregister_client 5 sse_demo)) "BTCUSD"
      (Subscription.new "BTCUSD_MBP_20" "BTCUSD" MBP (Some 20) 5).
Proof.
  split; [exact sse_demo_wf|].
  destruct (sse_unregister_complete sse_demo 5 sse_demo_wf) as (H1 & H2 & H3).
  split_and!; [exact H1|exact H2|].
  rewrite H3; intros [_ Hne]; by apply Hne.
Defined.

(** After the connection, the client goes away and a tick runs: it is
    still registered. *)
Lemma sse_client_stays_registered_witness :
  exists s', rtc (sse_step (R := list Z)) sse_demo s' /\
    is_Some (clients sse_demo !! 5%N) /\ is_Some (clients s' !! 5%N) /\
    client_streams s' !! 5%N = client_streams sse_demo !! 5%N /\
    (forall symbol, client_subs 5 s' symbol = client_subs 5 sse_demo symbol).
Proof.
  set (s1 := set_clients (alter Channel.close 5%N (clients sse_demo)) sse_demo).
  destruct (market_tick (R := list Z) 1 1 s1 []) as [[s2 r2]| |] eqn:Et;
    [|vm_compute in Et; discriminate..].
  assert (Hrtc : rtc (sse_step (R := list Z)) sse_demo s2).
  { eapply rtc_l; [apply sse_disconnect|]. eapply rtc_l; [eapply sse_tick, Et|]. apply rtc_refl. }
  assert (H5 : is_Some (clients sse_demo !! 5%N)) by (vm_compute; eexists; reflexivity).
  exists s2; split_and!; [exact Hrtc|exact H5|..];
    apply (sse_client_stays_registered sse_demo s2 5 Hrtc H5).
Defined.

Lemma stream_id_of_inj_witness :
  0 <= 20 /\ 0 <= 20 /\ stream_id_of "BTCUSD" MBP 20 = stream_id_of "BTCUSD" MBP 20 /\
  ("BTCUSD" = "BTCUSD" /\ MBP = MBP /\ 20 = 20).
Proof.
  refine (conj _ (conj _ (conj eq_refl _))); [lia|lia|].
  apply (stream_id_of_inj "BTCUSD" MBP 20 "BTCUSD" MBP 20); [lia|lia|reflexivity].
Defined.

Definition demo_defs : list (string * DataType * Z) := [("BTCUSD", MBP, 20); ("ETHUSD", MBO, 10)].

Lemma parse_streams_roundtrip_witness :
  demo_defs <> [] /\ Forall printable_def demo_defs /\
  parse_streams (mkStreamQuery (Some (join ","%char (format_stream_def <$> demo_defs))) None None None)
    = demo_defs.
Proof.
  assert (Hp : Forall printable_def demo_defs) by by_decide.
  split_and!; [discriminate|exact Hp|].
  exact (parse_streams_roundtrip default_query demo_defs ltac:(discriminate) Hp).
Defined.
Definition trailing_query : StreamQuery := mkStreamQuery (Some "BTCUSD:MBP:20,") None None None.

Lemma sse_handler_trailing_comma_witness :
  streams trailing_query = Some ("BTCUSD:MBP:20" +:+ ",") /\
  let d := ("", get_default_data_type trailing_query, default 20 (max_levels trailing_query)) in
  let '(res, s', _) := sse_handler (R := list Z) trailing_query 7 0 sse_started [] in
  res = Ok tt /\ last (handler_defs trailing_query) = Some d /\ is_Some (order_books s' !! "") /\
  subscription_of 7 d ∈ default [] (subscriptions s' !! "").
Proof.
  split; [reflexivity|].
  exact (sse_handler_trailing_comma (R := list Z) trailing_query "BTCUSD:MBP:20" 7 0 sse_started []
           eq_refl).
Defined.
End SSE.
