(* ===== verification/Interleaving.v ===== *)
(** * Interleaving: [subscribe] against the simulation task

    [StreamManager.subscribe] ([src/backend/src/stream_manager.rs]) is an
    [async fn]; between its awaits and lock acquisitions the simulation
    task can run a tick.  Here [subscribe] is cut into its atomic
    sections, a thread with a program counter, and a system step is
    either a section of a subscribing thread or a whole tick of
    [start_market_simulation] (the tick task is the only writer of the
    books and holds each book's write lock for its whole batch).

    The sections follow the code: the [contains_key] check (line 181),
    [initialize_symbol] (182), the push of the subscription (194-197),
    the projection under the first read lock (202-214), the sequence
    under the second read lock (220-223), the send (227-229).  The
    [order_books.get] guard held across the two reads pins the book's
    [Arc], so both reads see the same book object, which a tick may
    mutate in between. *)

From S2P Require Import Prelude Message PriceLadder OrderBook Projection Activity Channel StreamManager.

Import WS.

(** Where a [subscribe] call stands. *)
Inductive sub_pc :=
  | SubStart
  | SubInit
  | SubPush
  | SubSnapshot
  | SubSequence (data : MarketDataUpdate)
  | SubSend (data : MarketDataUpdate) (sequence : Z)
  | SubDone (res : result unit string).

(** A [subscribe] call: its arguments and where it stands. *)
Record SubThread := mkSubThread {
  th_client_id : Uuid;
  th_stream_id : string;
  th_symbol : string;
  th_data_type : DataType;
  th_max_levels : option Z;
  th_pc : sub_pc
}.

Definition set_pc (th : SubThread) (pc : sub_pc) : SubThread :=
  mkSubThread (th_client_id th) (th_stream_id th) (th_symbol th) (th_data_type th)
    (th_max_levels th) pc.

Section Sections.
Context {R : Type} `{RandomSource R}.

(** One atomic section of [subscribe]. *)
Definition sub_section (now : Z) (th : SubThread) (s : StreamManager) (r : R)
    : SubThread * StreamManager * R :=
  let symbol := th_symbol th in
  match th_pc th with
  | SubStart =>
      (set_pc th (if decide (is_Some (order_books s !! symbol)) then SubPush else SubInit), s, r)
  | SubInit =>
      let '(s, r) := initialize_symbol symbol now s r in (set_pc th SubPush, s, r)
  | SubPush =>
      let subscription := Subscription.new (th_stream_id th) symbol (th_data_type th)
                            (th_max_levels th) (th_client_id th) in
      (set_pc th SubSnapshot,
       set_subscriptions (<[symbol := default [] (subscriptions s !! symbol) ++ [subscription]]>
                            (subscriptions s)) s, r)
  | SubSnapshot =>
      match order_books s !! symbol, clients s !! th_client_id th with
      | Some b, Some _ =>
          (set_pc th (SubSequence (market_data b (th_data_type th)
                                     (default 20 (th_max_levels th)) now)), s, r)
      | _, _ => (set_pc th (SubDone (Ok tt)), s, r)
      end
  | SubSequence data =>
      match order_books s !! symbol with
      | Some b => (set_pc th (SubSend data (get_sequence b)), s, r)
      | None => (set_pc th (SubDone (Ok tt)), s, r)
      end
  | SubSend data sequence =>
      match send_to (th_client_id th)
              (MarketData (th_stream_id th) symbol data sequence now) (clients s) with
      | (Sent, cs) => (set_pc th (SubDone (Ok tt)), set_clients cs s, r)
      | _ => (set_pc th (SubDone (Err "Failed to send initial snapshot")), s, r)
      end
  | SubDone _ => (th, s, r)
  end.

(** The sections run back to back, at most [n] of them, until the call
    returns. *)
Fixpoint sub_run (n : nat) (now : Z) (th : SubThread) (s : StreamManager) (r : R)
    : SubThread * StreamManager * R :=
  match th_pc th with
  | SubDone _ => (th, s, r)
  | _ =>
      match n with
      | O => (th, s, r)
      | S n => let '(th, s, r) := sub_section now th s r in sub_run n now th s r
      end
  end.

(** A step of the system: a section of one of the subscribing threads,
    or a whole simulation tick. *)
Inductive sys_step : StreamManager * list SubThread -> StreamManager * list SubThread -> Prop :=
  | sys_section i th now (r : R) s ts :
      ts !! i = Some th ->
      sys_step (s, ts) ((sub_section now th s r).1.2, <[i := (sub_section now th s r).1.1]> ts)
  | sys_tick fuel now (r : R) s s' r' ts :
      market_tick fuel now s r = Done (s', r') -> sys_step (s, ts) (s', ts).
End Sections.

(** ** Lemmas *)

Section RunLemmas.
Context {R : Type} `{RandomSource R}.
Implicit Types (s : StreamManager) (r : R) (th : SubThread).

Definition sub_done (pc : sub_pc) : bool :=
  match pc with SubDone _ => true | _ => false end.

Lemma sub_run_step n now th s r :
  sub_done (th_pc th) = false ->
  sub_run (S n) now th s r = let '(th', s', r') := sub_section now th s r in sub_run n now th' s' r'.
Proof. simpl; by destruct (th_pc th). Qed.

Lemma sub_run_done n now th s r res :
  th_pc th = SubDone res -> sub_run n now th s r = (th, s, r).
Proof. destruct n; simpl; by intros ->. Qed.

End RunLemmas.

(** The thread of the demonstration: client 1 subscribes to the depth of
    [BTCUSD], five levels, on a started server. *)
Definition demo_conn : StreamManager := register_client 1 demo_started.
Definition demo_thread : SubThread := mkSubThread 1 "s1" "BTCUSD" MBP (Some 5) SubStart.

(** ** Properties *)

(** Run without interleaving, the sections of [subscribe] are
    [WS.subscribe]: six sections take a call from its start to its result,
    with the same final state. *)
Theorem sub_run_subscribe {R} `{RandomSource R} now th s (r : R) :
  th_pc th = SubStart ->
  let '(th', s', r') := sub_run 6 now th s r in
  let '(res, s2, r2) := subscribe (th_client_id th) (th_stream_id th) (th_symbol th)
                          (th_data_type th) (th_max_levels th) now s r in
  th_pc th' = SubDone res /\ s' = s2 /\ r' = r2.
Proof.
  destruct th as [client_id stream_id symbol data_type max_levels pc].
  cbn [th_pc th_client_id th_stream_id th_symbol th_data_type th_max_levels]; intros ->.
  unfold subscribe, ensure_symbol.
  assert (Hfinish : forall n s1 (r1 : R) b, order_books s1 !! symbol = Some b ->
    let '(th', s', r') :=
      sub_run (4 + n) now (mkSubThread client_id stream_id symbol data_type max_levels SubPush) s1 r1 in
    let '(res, s2, r2) :=
      (let s := set_subscriptions
                  (<[symbol := default [] (subscriptions s1 !! symbol) ++
                     [Subscription.new stream_id symbol data_type max_levels client_id]]>
                     (subscriptions s1)) s1 in
       match order_books s !! symbol with
       | Some b =>
           match clients s !! client_id with
           | Some _ =>
               match send_to client_id
                       (MarketData stream_id symbol (market_data b data_type (default 20 max_levels) now)
                          (get_sequence b) now) (clients s) with
               | (Sent, cs) => (Ok tt, set_clients cs s, r1)
               | _ => (Err "Failed to send initial snapshot", s, r1)
               end
           | None => (Ok tt, s, r1)
           end
       | None => (Ok tt, s, r1)
       end) in
    th_pc th' = SubDone res /\ s' = s2 /\ r' = r2).
  { intros n s1 r1 b Hb1; cbn [Nat.add].
    rewrite sub_run_step by done; cbn -[sub_run market_data get_sequence send_to insert lookup].
    rewrite sub_run_step by done; cbn -[sub_run market_data get_sequence send_to insert lookup].
    rewrite Hb1; destruct (clients s1 !! client_id) as [c|] eqn:Hc;
      cbn -[sub_run market_data get_sequence send_to insert lookup];
      [|by rewrite sub_run_done with (res := Ok tt)].
    rewrite sub_run_step by done; cbn -[sub_run market_data get_sequence send_to insert lookup].
    rewrite Hb1, sub_run_step by done; cbn -[sub_run market_data get_sequence send_to insert lookup].
    destruct (send_to client_id _ (clients s1)) as [[] cs]; cbn -[sub_run];
      (erewrite sub_run_done; [|reflexivity]); auto. }
  rewrite sub_run_step by done.
  cbn -[sub_run market_data get_sequence send_to insert lookup initialize_symbol].
  case_decide as Hb.
  - destruct Hb as [b Hb].
    exact (Hfinish 1%nat s r b Hb).
  - pose proof (WS.ensure_symbol_spec symbol now s r) as ([b Hb1] & _).
    unfold ensure_symbol in Hb1; rewrite decide_False in Hb1 by done.
    rewrite sub_run_step by done.
    cbn -[sub_run market_data get_sequence send_to insert lookup initialize_symbol].
    destruct (initialize_symbol symbol now s r) as [s1 r1]; simpl in Hb1.
    exact (Hfinish 0%nat s1 r1 b Hb1).
Qed.

(** C35: the snapshot of [subscribe] is not atomic.  The levels are read
    under one read lock and the sequence under a second one, so a tick
    between them makes the client receive the tick's update at sequence
    [q1] and then a snapshot whose levels are those of the book before
    the tick, stamped with the same [q1]: the snapshot the client applies
    last is older than the one before it. *)
Theorem subscribe_snapshot_torn :
  exists b0 b1 s' c,
    order_books demo_conn !! "BTCUSD" = Some b0 /\
    rtc (sys_step (R := list Z)) (demo_conn, [demo_thread])
      (s', [set_pc demo_thread (SubDone (Ok tt))]) /\
    order_books s' !! "BTCUSD" = Some b1 /\
    get_sequence b1 <> get_sequence b0 /\
    market_data b1 MBP 5 0 <> market_data b0 MBP 5 0 /\
    clients s' !! 1%N = Some c /\
    Channel.queue c =
      [MarketData "s1" "BTCUSD" (market_data b1 MBP 5 0) (get_sequence b1) 0;
       MarketData "s1" "BTCUSD" (market_data b0 MBP 5 0) (get_sequence b1) 0].
Proof.
  pose (sec := fun th s => sub_section (R := list Z) 0 th s []).
  pose (t1 := sec demo_thread demo_conn).
  pose (t2 := sec t1.1.1 t1.1.2).
  pose (t3 := sec t2.1.1 t2.1.2).
  pose (s4 := match market_tick 1 0 t3.1.2 [] with Done (s', _) => s' | _ => t3.1.2 end).
  pose (t5 := sec t3.1.1 s4).
  pose (t6 := sec t5.1.1 t5.1.2).
  exists (default (OrderBook.new "") (order_books demo_conn !! "BTCUSD")),
    (default (OrderBook.new "") (order_books t6.1.2 !! "BTCUSD")), t6.1.2,
    (default Channel.empty (clients t6.1.2 !! 1%N)).
  split; [vm_compute; reflexivity|].
  split.
  - assert (Hth : t6.1.1 = set_pc demo_thread (SubDone (Ok tt))) by (vm_compute; reflexivity).
    rewrite <-Hth.
    apply (rtc_l _ _ (t1.1.2, [t1.1.1])).
    { exact (sys_section 0 demo_thread 0 [] demo_conn [demo_thread] eq_refl). }
    apply (rtc_l _ _ (t2.1.2, [t2.1.1])).
    { exact (sys_section 0 t1.1.1 0 [] t1.1.2 [t1.1.1] eq_refl). }
    apply (rtc_l _ _ (t3.1.2, [t3.1.1])).
    { exact (sys_section 0 t2.1.1 0 [] t2.1.2 [t2.1.1] eq_refl). }
    apply (rtc_l _ _ (s4, [t3.1.1])).
    { apply (sys_tick 1 0 [] _ s4 []); vm_compute; reflexivity. }
    apply (rtc_l _ _ (t5.1.2, [t5.1.1])).
    { exact (sys_section 0 t3.1.1 0 [] s4 [t3.1.1] eq_refl). }
    apply (rtc_l _ _ (t6.1.2, [t6.1.1])).
    { exact (sys_section 0 t5.1.1 0 [] t5.1.2 [t5.1.1] eq_refl). }
    apply rtc_refl.
  - vm_compute; split_and!; try reflexivity; discriminate.
Qed.

(** ** Witnesses *)

Lemma sub_run_subscribe_witness :
  th_pc demo_thread = SubStart /\
  let '(th', s', r') := sub_run (R := list Z) 6 0 demo_thread demo_conn [] in
  let '(res, s2, r2) := subscribe (R := list Z) 1 "s1" "BTCUSD" MBP (Some 5) 0 demo_conn [] in
  th_pc th' = SubDone res /\ s' = s2 /\ r' = r2.
Proof.
  split; [reflexivity|].
  exact (sub_run_subscribe (R := list Z) 0 demo_thread demo_conn [] eq_refl).
Defined.
