(* ===== verification/Connection.v ===== *)
(** * Connection: the sockets and routes of the two front ends

    How the wire format of [Wire] meets the managers:
    - [WSConn] is [handle_connection] of [websocket_handler.rs]: the
      connection registers its client, writes the welcome [HeartBeat]
      straight to the socket, and reads frames until a [Close] frame, a
      socket error or the end of the stream; a text frame goes through
      [serde_json::from_str] into [handle_message] (a text that does not
      decode is answered with [Error 400]); ping, pong, binary and raw
      frames change nothing; at the end the client is unregistered.  The
      outgoing task writes every message of the client's channel as one
      text frame.
    - [SSEConn] holds the routes of the SSE server's [main.rs] and the
      handlers [health_check], [symbols_handler] and [api_info] of
      [sse_handler.rs].  [api_info] is a [serde_json::json!] value; its
      objects are serde_json's default [Map], ordered by key.

    The theorems: a session of text frames printed from client messages
    does what [handle_message] does on the messages themselves
    ([ws_text_session]); [api_info] documents the routes, events, data
    types and symbols the server really has ([api_info_consistent]); and
    a stream whose symbol holds a line feed makes [poll_next] panic on its
    first market data event ([sse_newline_stream_panics]). *)

From Stdlib Require Import Ascii.
From S2P Require Import Prelude Message PriceLadder OrderBook Projection Activity Text Json JsonText Wire Channel StreamManager SSEStreamManager.

Module WSConn.

(** [tokio_tungstenite::tungstenite::Message], and a read error. *)
Inductive Frame :=
  | FText (text : string)
  | FBinary
  | FPing
  | FPong
  | FClose
  | FRaw
  | FError.

Section Conn.
Context {R : Type} `{RandomSource R}.

(** A text frame: [handle_message(&text, ...)], whose
    [serde_json::from_str] failure is answered with [Error 400]. *)
Definition handle_text (client_id : Uuid) (text : string) (now : Z) (s : WS.StreamManager) (r : R)
    : WS.StreamManager * R :=
  WS.handle_message client_id (ClientMessage_from_str Chrono.parse_rfc3339 text) now s r.

(** The incoming loop of [handle_connection] and the
    [unregister_client] after it. *)
Fixpoint incoming (client_id : Uuid) (frames : list Frame) (now : Z) (s : WS.StreamManager) (r : R)
    : WS.StreamManager * R :=
  match frames with
  | [] => (WS.unregister_client client_id s, r)
  | FText text :: rest =>
      let '(s, r) := handle_text client_id text now s r in incoming client_id rest now s r
  | FClose :: _ | FError :: _ => (WS.unregister_client client_id s, r)
  | FBinary :: rest | FPing :: rest | FPong :: rest | FRaw :: rest =>
      incoming client_id rest now s r
  end.

(** The welcome message, written to the socket before anything else. *)
Definition welcome (now : Z) : string := to_string (ServerMessage_serialize (HeartBeat now)).

(** [handle_connection]: register, send the welcome, run the incoming
    loop. *)
Definition handle_connection (client_id : Uuid) (now : Z) (frames : list Frame)
    (s : WS.StreamManager) (r : R) : string * (WS.StreamManager * R) :=
  (welcome now, incoming client_id frames now (WS.register_client client_id s) r).

(** The outgoing task: one text frame per message of the channel. *)
Definition outgoing_frames (q : list ServerMessage) : list string :=
  (fun m => to_string (ServerMessage_serialize m)) <$> q.

(** What the messages themselves do, one after the other. *)
Definition handle_all (client_id : Uuid) (ms : list ClientMessage) (now : Z) (s : WS.StreamManager)
    (r : R) : WS.StreamManager * R :=
  foldl (fun sr m => WS.handle_message client_id (Some m) now sr.1 sr.2) (s, r) ms.

(** C37: A session whose text frames are the JSON a client prints for
    its messages behaves as [handle_message] on the messages themselves,
    in order, followed by the [unregister_client] of the connection's
    end: the JSON layer neither loses nor alters a message the Rust
    types allow. *)
Theorem ws_text_session client_id ms now s r :
  Forall (client_ok Chrono.parse_rfc3339) ms ->
  incoming client_id ((fun m => FText (to_string (ClientMessage_serialize m))) <$> ms) now s r =
  (WS.unregister_client client_id (handle_all client_id ms now s r).1,
   (handle_all client_id ms now s r).2).
Proof.
  intros Hms; revert s r; induction Hms as [|m ms Hm Hms IH]; intros s r; [done|].
  cbn [fmap list_fmap incoming]. unfold handle_text.
  rewrite ClientMessage_text_roundtrip by done.
  destruct (WS.handle_message _ _ _ _ _) as [s1 r1] eqn:E.
  rewrite IH. unfold handle_all; cbn [foldl fst snd]. by rewrite E.
Qed.

End Conn.

Lemma ws_text_session_witness :
  Forall (client_ok Chrono.parse_rfc3339) [CSubscribe "s1" "BTCUSD" MBP (Some 5); CPing 1700000000123] /\
  incoming (R := list Z) 1
    ((fun m => FText (to_string (ClientMessage_serialize m))) <$>
     [CSubscribe "s1" "BTCUSD" MBP (Some 5); CPing 1700000000123]) 0 WS.new [] =
  (WS.unregister_client 1 (handle_all 1 [CSubscribe "s1" "BTCUSD" MBP (Some 5); CPing 1700000000123] 0 WS.new []).1,
   (handle_all (R := list Z) 1 [CSubscribe "s1" "BTCUSD" MBP (Some 5); CPing 1700000000123] 0 WS.new []).2).
Proof.
  assert (H : Forall (client_ok Chrono.parse_rfc3339)
                [CSubscribe "s1" "BTCUSD" MBP (Some 5); CPing 1700000000123]).
  { constructor; [simpl; unfold is_u32; lia|]. constructor; [vm_compute; reflexivity|]. constructor. }
  split; [exact H|]. exact (ws_text_session 1 _ 0 WS.new [] H).
Defined.

(** A text that is not JSON, here an array with a trailing comma, is
    answered with [Error 400]. *)
Example ws_garbage_text :
  WS.clients (handle_text (R := list Z) 1 "[1,]" 0 (WS.register_client 1 WS.new) []).1 !! 1%N =
  Some (Channel.mk true [Error 400 "Invalid message" None]).
Proof. vm_compute. reflexivity. Qed.

End WSConn.

Module SSEConn.

(** [health_check]. *)
Definition health_check : string := "SSE Market Depth Server is running".

(** [symbols_handler]: the symbols as a JSON array. *)
Definition symbols_handler (s : SSE.SSEStreamManager) : json := JArr (JStr <$> SSE.get_symbols s).

Definition endpoint (method description : string) : json :=
  JObj [("description", JStr description); ("method", JStr method)].

(** [api_info]: the [json!] value, its objects ordered by key. *)
Definition api_info : json :=
  JObj [
    ("data_types", JArr [JStr "MBO"; JStr "MBP"]);
    ("endpoints", JObj [
       ("/api", endpoint "GET" "API information (this endpoint)");
       ("/health", endpoint "GET" "Health check endpoint");
       ("/stream", JObj [
          ("description", JStr "SSE endpoint for market data streams");
          ("examples", JArr [JStr "/stream?streams=BTCUSD:MBP:20,ETHUSD:MBO:10";
                             JStr "/stream?symbols=BTCUSD,ETHUSD&data_type=MBP&max_levels=15";
                             JStr "/stream?symbols=BTCUSD"]);
          ("method", JStr "GET");
          ("parameters", JObj [
             ("data_type", JStr "Default data type: MBP or MBO (default: MBP)");
             ("max_levels", JStr "Default max levels (default: 20)");
             ("streams", JStr "Comma-separated stream definitions (symbol:type:levels): BTCUSD:MBP:20,ETHUSD:MBO:10");
             ("symbols", JStr "Comma-separated symbols: BTCUSD,ETHUSD (uses default type and levels)")])]);
       ("/symbols", endpoint "GET" "List available symbols")]);
    ("name", JStr "Market Depth SSE Server");
    ("sse_events", JArr [JStr "market_data"; JStr "heartbeat"; JStr "connection_info"; JStr "error"]);
    ("supported_symbols", JArr [JStr "BTCUSD"; JStr "ETHUSD"; JStr "ADAUSD"]);
    ("version", JStr "0.1.0")].

(** The handlers of the router. *)
Inductive Handler := HStream | HHealth | HSymbols | HApi.

(** The [Router] of [main]. *)
Definition router : list (string * Handler) :=
  [("/stream", HStream); ("/health", HHealth); ("/symbols", HSymbols); ("/api", HApi); ("/", HApi)].

Definition route (path : string) : option Handler :=
  snd <$> List.find (fun pe => String.eqb pe.1 path) router.

(** A field of a JSON object. *)
Definition json_get (k : string) (j : json) : option json :=
  match j with JObj fs => snd <$> List.find (fun kv => String.eqb kv.1 k) fs | _ => None end.

Definition json_keys (j : json) : list string :=
  match j with JObj fs => fs.*1 | _ => [] end.

(** One message of each SSE event kind. *)
Definition sse_event_kinds : list SSEMessage :=
  [SSEMarketData "" "" (UpdMBP [] []) 0 0; SSEHeartBeat 0; SSEConnectionInfo 0 0 []; SSEError 0 "" None].

Section StartSymbols.
Context {R : Type} `{RandomSource R}.

Lemma sse_initialize_symbol_books symbol now s r x :
  is_Some (SSE.order_books (SSE.initialize_symbol symbol now s r).1 !! x) <->
  x = symbol \/ is_Some (SSE.order_books s !! x).
Proof.
  unfold SSE.initialize_symbol; destruct (initialize_with_sample_data _ _ _) as [b r']; simpl.
  destruct (decide (x = symbol)) as [->|Hne]; [rewrite lookup_insert_eq; naive_solver|].
  rewrite lookup_insert_ne by done; naive_solver.
Qed.

(** The books after [start]: exactly the three default symbols. *)
Lemma sse_start_symbols now r x :
  is_Some (SSE.order_books (SSE.start now SSE.new r).1 !! x) <-> x ∈ ["BTCUSD"; "ETHUSD"; "ADAUSD"].
Proof.
  unfold SSE.start.
  destruct (SSE.initialize_symbol "BTCUSD" now SSE.new r) as [s1 r1] eqn:E1.
  destruct (SSE.initialize_symbol "ETHUSD" now s1 r1) as [s2 r2] eqn:E2.
  rewrite sse_initialize_symbol_books.
  pose proof (sse_initialize_symbol_books "ETHUSD" now s1 r1 x) as H2; rewrite E2 in H2; simpl in H2.
  pose proof (sse_initialize_symbol_books "BTCUSD" now SSE.new r x) as H1; rewrite E1 in H1; simpl in H1.
  rewrite H2, H1, lookup_empty. rewrite !elem_of_cons, elem_of_nil. naive_solver.
Qed.

(** [api_info] documents the server as it is: every endpoint it
    lists is routed (and [/] serves it too), its event names are those
    the SSE stream emits, every event the stream can emit is listed, its
    data types are the serde names of [DataType], and its supported
    symbols are exactly the books [start] seeds. *)
Theorem api_info_consistent now r :
  (forall path, path ∈ from_option json_keys [] (json_get "endpoints" api_info) -> is_Some (route path)) /\
  route "/" = route "/api" /\
  json_get "sse_events" api_info = Some (JArr ((fun m => JStr (sse_event_name m)) <$> sse_event_kinds)) /\
  (forall m, JStr (sse_event_name m) ∈ (fun m => JStr (sse_event_name m)) <$> sse_event_kinds) /\
  json_get "data_types" api_info = Some (JArr (DataType_serialize <$> [MBO; MBP])) /\
  (forall x, JStr x ∈ from_option (fun j => match j with JArr l => l | _ => [] end) [] (json_get "supported_symbols" api_info)
     <-> is_Some (SSE.order_books (SSE.start now SSE.new r).1 !! x)).
Proof.
  split_and!; try reflexivity.
  - intros path Hp; cbn in Hp. rewrite !elem_of_cons, elem_of_nil in Hp.
    destruct Hp as [->|[->|[->|[->|[]]]]]; eexists; reflexivity.
  - intros [] ; cbn; set_solver.
  - intros x. rewrite sse_start_symbols. cbn. rewrite !elem_of_cons, !elem_of_nil.
    split.
    + intros [Hx|[Hx|[Hx|[]]]]; injection Hx as ->; tauto.
    + intros [->|[->|[->|[]]]]; tauto.
Qed.
End StartSymbols.

(** A query for a stream whose symbol holds a line feed (the URL's
    [%0A]): [parse_streams] only trims the ends of a definition. *)
Definition newline_query : SSE.StreamQuery :=
  SSE.mkStreamQuery (Some ("A" +:+ nl +:+ "B:MBP:5")) None None None.

(** The handler accepts it, and the snapshot it queues carries the stream
    id ["A\nB_MBP_5"], on which [poll_next] panics. *)
Lemma sse_newline_stream_panics :
  match SSE.clients (SSE.sse_handler (R := list Z) newline_query 1 0 SSE.new []).1.2 !! 1%N with
  | Some c => existsb (fun m => match poll_next_event m with Some _ => false | None => true end)
                (Channel.queue c) = true
  | None => False
  end.
Proof. vm_compute. reflexivity. Qed.

End SSEConn.
